(** * Adaptive lesson session engine: a shallow embedding and its properties

    The development follows the JavaScript sources of the tutoring server:

    - [server/utils/jsonParser.js]: [fixCommonJSONIssues], [parseAIJSONResponse];
    - the lesson planner ([LessonPlanner.createPlan]);
    - [server/controllers/dynamicLessonGenerator.js]: [generateContentForStep],
      the lesson cache, [addAssessmentCheckpoints], [generateLessonStructure];
    - [server/controllers/lessonSessionEngine.js]: the session state machine
      ([startSession], [nextTurn], [submitResponse], [endSession]) and the
      turn splitter;
    - [server/controllers/aiOrchestrator.js]: [handleDynamicLessonGeneration];
    - the tutoring strategy ([updateSocraticDialogue]) and the configuration
      helper ([parseOrigins]).

    Conventions of the embedding.

    - A JavaScript value is a [JSValue]: the JSON values plus [undefined].
      Numbers are the doubles: the integers, which are kept exact at any
      size, the doubles that are not integers, the infinities and [NaN];
      a numeral with a fraction or an exponent is rounded to the nearest
      double, and a double is printed as its shortest decimal. Strings are
      sequences of 8-bit code units; a wider code unit, in a fixed literal
      or from a [\u] escape, is kept as the UTF-8 bytes of its code point.
    - Property access reads own properties ([length] and indices for arrays
      and strings); names inherited from prototypes are not represented.
    - A computation that may throw returns a [Res]; an [async] function that
      talks to a collaborator threads an abstract [World] through the call.
    - Regular expressions are written as [regex] terms interpreted by a
      backtracking matcher with the semantics of ECMAScript for the
      constructs the sources use. *)

From stdpp Require Import base option list gmap strings.
From Stdlib Require Import ZArith Lia Ascii.

Open Scope string_scope.
Open Scope Z_scope.

#[global] Arguments String.append !s1 s2 : simpl nomatch.

(** ** JavaScript values *)

(** A number is a double. [Int z] is the integer [z]; [Dbl m e] is the
    double [m * 2^e] that is not an integer, with [m] odd and [e] negative;
    [Inf] is an infinity. The two zeros are one. *)
Inductive number :=
| Int (z : Z)
| NaN
| Dbl (m e : Z)
| Inf (negative : bool).

#[warnings="-register-all"]
Inductive JSValue :=
| JUndefined
| JNull
| JBool (b : bool)
| JNum (n : number)
| JStr (s : string)
| JArr (items : list JSValue)
| JObj (props : list (string * JSValue)).

Inductive Exn :=
| TypeError (msg : string)
| SyntaxError (msg : string)
| Error (msg : string).

Definition message (e : Exn) : string :=
  match e with
  | TypeError m | SyntaxError m | Error m => m
  end.

Inductive Res (A : Type) :=
| Ok (a : A)
| Throw (e : Exn).
Arguments Ok {A} a.
Arguments Throw {A} e.

Definition res_bind {A B} (r : Res A) (k : A -> Res B) : Res B :=
  match r with
  | Ok a => k a
  | Throw e => Throw e
  end.

Definition res_catch {A} (r : Res A) (h : Exn -> Res A) : Res A :=
  match r with
  | Ok a => Ok a
  | Throw e => h e
  end.

Declare Scope res_scope.
Delimit Scope res_scope with res.
Notation "'let?' x := r 'in' k" := (res_bind r (fun x => k))
  (at level 10, x name, r at level 100, k at level 200) : res_scope.
Open Scope res_scope.

Definition returns {A} (r : Res A) : Prop := exists a, r = Ok a.

(** ** Characters and strings *)

Definition code (c : ascii) : N := N_of_ascii c.

Definition in_range (lo hi : N) (c : ascii) : bool :=
  ((lo <=? code c) && (code c <=? hi))%N.

Definition is_digit (c : ascii) : bool := in_range 48 57 c.
Definition is_upper (c : ascii) : bool := in_range 65 90 c.
Definition is_lower (c : ascii) : bool := in_range 97 122 c.

(** [\s] and the characters removed by [trim]: tab, line feed, vertical tab,
    form feed, carriage return, space and no-break space. *)
Definition is_space (c : ascii) : bool :=
  in_range 9 13 c || (code c =? 32)%N || (code c =? 160)%N.

(** Line terminators, which [.] does not match and before which a multiline
    [$] matches. *)
Definition is_line_terminator (c : ascii) : bool :=
  (code c =? 10)%N || (code c =? 13)%N.

(** [[a-zA-Z_]] and [[a-zA-Z0-9_]]. *)
Definition is_ident_start (c : ascii) : bool :=
  is_lower c || is_upper c || (code c =? 95)%N.
Definition is_ident_part (c : ascii) : bool :=
  is_ident_start c || is_digit c.

Definition lower_char (c : ascii) : ascii :=
  if is_upper c || in_range 192 214 c || in_range 216 222 c
  then ascii_of_N (code c + 32)
  else c.

Fixpoint toLowerCase (s : string) : string :=
  match s with
  | EmptyString => EmptyString
  | String c s' => String (lower_char c) (toLowerCase s')
  end.

Fixpoint srev_append (s acc : string) : string :=
  match s with
  | EmptyString => acc
  | String c s' => srev_append s' (String c acc)
  end.
Definition srev (s : string) : string := srev_append s EmptyString.

Fixpoint trimStart (s : string) : string :=
  match s with
  | String c s' => if is_space c then trimStart s' else s
  | EmptyString => EmptyString
  end.
Definition trim (s : string) : string :=
  srev (trimStart (srev (trimStart s))).

Fixpoint stake (n : nat) (s : string) : string :=
  match n, s with
  | S n', String c s' => String c (stake n' s')
  | _, _ => EmptyString
  end.

Fixpoint sdrop (n : nat) (s : string) : string :=
  match n, s with
  | S n', String _ s' => sdrop n' s'
  | _, _ => s
  end.

Definition slen (s : string) : nat := String.length s.

Fixpoint join (sep : string) (l : list string) : string :=
  match l with
  | [] => EmptyString
  | [x] => x
  | x :: rest => x ++ sep ++ join sep rest
  end.

Fixpoint repeat_string (s : string) (n : nat) : string :=
  match n with
  | O => EmptyString
  | S n' => s ++ repeat_string s n'
  end.

Fixpoint count_char (a : ascii) (s : string) : nat :=
  match s with
  | EmptyString => O
  | String c s' => (if Ascii.eqb c a then 1 else 0)%nat + count_char a s'
  end.

Fixpoint starts_with (p s : string) : bool :=
  match p, s with
  | EmptyString, _ => true
  | String a p', String b s' => Ascii.eqb a b && starts_with p' s'
  | _, _ => false
  end.

Definition nonempty (s : string) : bool :=
  match s with
  | EmptyString => false
  | _ => true
  end.

(** Decimal numerals of integers, as [Number.prototype.toString] prints
    them. *)
Definition digit_char (d : nat) : ascii := ascii_of_nat (48 + d).

Fixpoint digits_of_pos_fuel (fuel : nat) (n : N) (acc : string) : string :=
  match fuel with
  | O => acc
  | S f =>
      let acc' := String (digit_char (N.to_nat (n mod 10))) acc in
      if (n / 10 =? 0)%N then acc' else digits_of_pos_fuel f (n / 10)%N acc'
  end.

Definition string_of_N (n : N) : string :=
  digits_of_pos_fuel (S (N.to_nat (N.log2 n))) n EmptyString.

Definition string_of_Z (z : Z) : string :=
  if z <? 0 then String "-" (string_of_N (Z.to_N (- z)))
  else string_of_N (Z.to_N z).

Definition string_of_nat (n : nat) : string := string_of_N (N.of_nat n).

Definition digit_value (c : ascii) : N := (code c - 48)%N.

Fixpoint N_of_digits (s : string) (acc : N) : N :=
  match s with
  | EmptyString => acc
  | String c s' => N_of_digits s' (10 * acc + digit_value c)%N
  end.

Fixpoint all_digits (s : string) : bool :=
  match s with
  | EmptyString => true
  | String c s' => is_digit c && all_digits s'
  end.

(** ** Numbers

    The doubles that are not integers, the rounding of a quotient of
    integers to the nearest double, and the conversions between doubles and
    decimal numerals. Integers are kept exact at any size: the counters,
    indices and clock readings of the sources stay below [2^53], where the
    integers are doubles. *)

Definition signed (negative : bool) (z : Z) : Z := if negative then - z else z.

(** The number of trailing zero bits. *)
Fixpoint ctz (p : positive) : Z :=
  match p with
  | xO p' => 1 + ctz p'
  | _ => 0
  end.

(** The exponent [E] of the binade of [a / b], for positive [a] and [b]:
    [2^E <= a / b < 2^(E + 1)]. *)
Definition binade (a b : Z) : Z :=
  let E := Z.log2 a - Z.log2 b in
  if a * 2 ^ Z.max 0 (- E) <? b * 2 ^ Z.max 0 E then E - 1 else E.

(** Round to nearest, ties to even: the multiple [m * 2^e] of the unit of
    the binade of [a / b] that is nearest to [a / b], for [a >= 0] and
    [b > 0]. The unit of the binade [E] is [2^(E - 52)], and [2^(-1074)]
    among the subnormal numbers. *)
Definition nearest_double (a b : Z) : Z * Z :=
  let e := Z.max (binade a b - 52) (-1074) in
  let num := a * 2 ^ Z.max 0 (- e) in
  let den := b * 2 ^ Z.max 0 e in
  let q := num / den in
  let r := num mod den in
  (if 2 * r <? den then q
   else if den <? 2 * r then q + 1
   else if Z.even q then q else q + 1, e).

(** The number [m * 2^e] with its sign, for [m >= 0]: an integer, an
    infinity from [2^1024] on, or a double with an odd mantissa. *)
Definition make_number (negative : bool) (m e : Z) : number :=
  match m with
  | Zpos p =>
      if 0 <=? e then
        if 2 ^ 1024 <=? m * 2 ^ e then Inf negative
        else Int (signed negative (m * 2 ^ e))
      else
        let k := Z.min (ctz p) (- e) in
        if e + k =? 0 then Int (signed negative (m / 2 ^ k))
        else Dbl (signed negative (m / 2 ^ k)) (e + k)
  | _ => Int 0
  end.

(** The double nearest to [a / b], for [b > 0]. *)
Definition round_q (a b : Z) : number :=
  let '(m, e) := nearest_double (Z.abs a) b in
  make_number (a <? 0) m e.

(** The double nearest to [m * 10^p], for [m >= 0], with the sign. *)
Definition round_dec (negative : bool) (m p : Z) : number :=
  let '(mm, e) :=
    if 0 <=? p then nearest_double (m * 10 ^ p) 1
    else nearest_double m (10 ^ (- p)) in
  make_number negative mm e.

(** The doubles that [Dbl] stands for. *)
Definition is_double (m e : Z) : bool :=
  Z.odd m && (Z.abs m <? 2 ^ 53) && (-1074 <=? e) && (e <? 0).

(** *** Arithmetic *)

(** A finite number as a quotient of integers with a positive
    denominator. *)
Definition quotient_of (n : number) : option (Z * Z) :=
  match n with
  | Int z => Some (z, 1)
  | Dbl m e => Some (m, 2 ^ (- e))
  | NaN | Inf _ => None
  end.

(** [x < y] *)
Definition num_ltb (x y : number) : bool :=
  match x, y with
  | NaN, _ | _, NaN => false
  | Inf nx, Inf ny => nx && negb ny
  | Inf nx, _ => nx
  | _, Inf ny => negb ny
  | _, _ =>
      match quotient_of x, quotient_of y with
      | Some (a, b), Some (c, d) => a * d <? c * b
      | _, _ => false
      end
  end.

(** [x + y] *)
Definition num_add (x y : number) : number :=
  match x, y with
  | Int a, Int b => Int (a + b)
  | NaN, _ | _, NaN => NaN
  | Inf nx, Inf ny => if Bool.eqb nx ny then Inf nx else NaN
  | Inf nx, _ => Inf nx
  | _, Inf ny => Inf ny
  | _, _ =>
      match quotient_of x, quotient_of y with
      | Some (a, b), Some (c, d) => round_q (a * d + c * b) (b * d)
      | _, _ => NaN
      end
  end.

(** [x / t] for a positive integer [t]. *)
Definition num_div (x : number) (t : Z) : number :=
  match x with
  | Int a => round_q a t
  | Dbl m e => round_q m (t * 2 ^ (- e))
  | NaN => NaN
  | Inf negative => Inf negative
  end.

(** [Math.ceil(x)] *)
Definition Math_ceil (x : number) : number :=
  match x with
  | Dbl m e => Int (- ((- m) / 2 ^ (- e)))
  | _ => x
  end.

(** [Math.round(x)]: the nearest integer, a half upwards. *)
Definition Math_round (x : number) : number :=
  match x with
  | Dbl m e => Int ((2 * m + 2 ^ (- e)) / 2 ^ (1 - e))
  | _ => x
  end.

(** [Math.max(x, y)] and [Math.min(x, y)] *)
Definition Math_max (x y : number) : number :=
  match x, y with
  | NaN, _ | _, NaN => NaN
  | _, _ => if num_ltb x y then y else x
  end.
Definition Math_min (x y : number) : number :=
  match x, y with
  | NaN, _ | _, NaN => NaN
  | _, _ => if num_ltb y x then y else x
  end.

(** *** Numerals *)

Fixpoint span_digits (s : string) : string * string :=
  match s with
  | String c s' =>
      if is_digit c then let '(d, rest) := span_digits s' in (String c d, rest)
      else (EmptyString, s)
  | EmptyString => (EmptyString, EmptyString)
  end.

(** The number of a decimal numeral: the digits [i] before the point, the
    digits after the point and the exponent, when they are there. A numeral
    of digits only is the integer it writes. *)
Definition numeral (negative : bool) (i : string) (f : option string)
    (x : option Z) : number :=
  match f, x with
  | None, None => Int (signed negative (Z.of_N (N_of_digits i 0)))
  | _, _ =>
      let fd := default EmptyString f in
      round_dec negative (Z.of_N (N_of_digits (i ++ fd) 0))
        (default 0 x - Z.of_nat (slen fd))
  end.

(** An exponent part [e], [e+] or [e-] with its digits, when the text
    starts with one: the exponent and the rest. *)
Definition parse_exponent (s : string) : option (option Z * string) :=
  match s with
  | String c r =>
      if Ascii.eqb c "e" || Ascii.eqb c "E" then
        let '(negative, r1) :=
          match r with
          | String "-" r' => (true, r')
          | String "+" r' => (false, r')
          | _ => (false, r)
          end in
        let '(x, rest) := span_digits r1 in
        if nonempty x
        then Some (Some (signed negative (Z.of_N (N_of_digits x 0))), rest)
        else None
      else Some (None, s)
  | EmptyString => Some (None, s)
  end.

(** *** [Number.prototype.toString] on the doubles that are not integers

    The digits [s] and the exponent [q] of the shortest decimal [s * 10^q]
    that is read as the double; of two of one length, the nearer one. The
    candidates of a length are the two neighbours of the double among the
    decimals of that length, taken from its exact expansion. *)

Fixpoint strip_zeros (fuel : nat) (s q : Z) : Z * Z :=
  match fuel with
  | O => (s, q)
  | S f =>
      if (0 <? s) && (s mod 10 =? 0) then strip_zeros f (s / 10) (q + 1)
      else (s, q)
  end.

Definition stripped (s q : Z) : Z * Z :=
  strip_zeros (S (Z.to_nat (Z.log2 s))) s q.

(** [s * 10^q] is read as the double [a * 2^e]. *)
Definition reads_as (a e : Z) (c : Z * Z) : bool :=
  match round_dec false (fst c) (snd c) with
  | Dbl m' e' => (m' =? a) && (e' =? e)
  | _ => false
  end.

(** The decimal that drops the last [j] digits of the expansion [D * 10^e]
    of the double, rounded down or up, if one of the two is read back. *)
Definition candidate (a e D : Z) (j : nat) : option (Z * Z) :=
  let u := 10 ^ Z.of_nat j in
  let q := e + Z.of_nat j in
  let lo := stripped (D / u) q in
  let hi := stripped (D / u + 1) q in
  let r := D mod u in
  match reads_as a e lo, reads_as a e hi with
  | true, true =>
      Some (if 2 * r <? u then lo
            else if u <? 2 * r then hi
            else if Z.even (D / u) then lo else hi)
  | true, false => Some lo
  | false, true => Some hi
  | false, false => None
  end.

(** From the shortest length on; with no digit dropped the decimal is the
    expansion itself. *)
Fixpoint search_shortest (a e D : Z) (j : nat) : Z * Z :=
  match j with
  | O => (D, e)
  | S j' =>
      match candidate a e D j with
      | Some c => c
      | None => search_shortest a e D j'
      end
  end.

(** The double [a * 2^e], [e < 0], is [a * 5^(-e) * 10^e]. *)
Definition shortest_decimal (a e : Z) : Z * Z :=
  let D := a * 5 ^ (- e) in
  search_shortest a e D (pred (slen (string_of_N (Z.to_N D)))).

(** The text of the decimal with the digits [ds] and the point after [n]
    digits. *)
Definition format_decimal (ds : string) (n : Z) : string :=
  let k := Z.of_nat (slen ds) in
  if (k <=? n) && (n <=? 21) then ds ++ repeat_string "0" (Z.to_nat (n - k))
  else if (0 <? n) && (n <=? 21)
  then stake (Z.to_nat n) ds ++ "." ++ sdrop (Z.to_nat n) ds
  else if (-6 <? n) && (n <=? 0)
  then "0." ++ repeat_string "0" (Z.to_nat (- n)) ++ ds
  else
    let x := n - 1 in
    let exponent :=
      "e" ++ (if x <? 0 then "-" else "+") ++ string_of_N (Z.to_N (Z.abs x)) in
    match ds with
    | String d EmptyString => String d exponent
    | String d rest => String d ("." ++ rest ++ exponent)
    | EmptyString => exponent
    end.

Definition string_of_double (m e : Z) : string :=
  let '(s, q) := shortest_decimal (Z.abs m) e in
  let ds := string_of_N (Z.to_N s) in
  (if m <? 0 then "-" else EmptyString)
  ++ format_decimal ds (q + Z.of_nat (slen ds)).

(** ** Regular expressions

    The constructs the sources use: literals, classes, sequence, greedy and
    lazy repetition, capturing groups, the end anchor (with and without the
    [m] flag) and a one-character lookbehind. *)

Inductive regex :=
| Eps
| Chr (a : ascii)
| Cls (p : ascii -> bool)
| Seq (r1 r2 : regex)
| Alt (r1 r2 : regex)
| Star (greedy : bool) (r : regex)
| Grp (i : nat) (r : regex)
| Eol (multiline : bool)
| Behind (p : ascii -> bool).

Fixpoint Lit (s : string) : regex :=
  match s with
  | EmptyString => Eps
  | String c EmptyString => Chr c
  | String c s' => Seq (Chr c) (Lit s')
  end.

Definition Plus (greedy : bool) (r : regex) : regex := Seq r (Star greedy r).
Definition Opt (r : regex) : regex := Alt r Eps.
Definition any_char : ascii -> bool := fun _ => true.
Definition dot : ascii -> bool := fun c => negb (is_line_terminator c).
Definition one_of (s : string) : ascii -> bool :=
  fun c => (0 <? count_char c s)%nat.
Definition none_of (s : string) : ascii -> bool :=
  fun c => negb (one_of s c).

(** A position in the subject: the text before it, nearest character first,
    and the text after it. *)
Record cursor := Cursor { before : string; after : string }.

Definition captures := list (nat * string).

Fixpoint capture (i : nat) (caps : captures) : string :=
  match caps with
  | [] => EmptyString
  | (j, s) :: rest => if (i =? j)%nat then s else capture i rest
  end.

Definition step_cursor (c : cursor) : option (ascii * cursor) :=
  match after c with
  | EmptyString => None
  | String x rest => Some (x, Cursor (String x (before c)) rest)
  end.

(** The text between two cursors of one subject. *)
Definition consumed (c c' : cursor) : string :=
  stake (slen (after c) - slen (after c')) (after c).

(** [rmatch r c caps k]: match [r] at [c], then continue with [k];
    alternatives are tried in the order of a backtracking matcher. An
    iteration of a repetition that consumes nothing is rejected. *)
Fixpoint rmatch {R : Type} (r : regex) (c : cursor) (caps : captures)
    (k : cursor -> captures -> option R) : option R :=
  match r with
  | Eps => k c caps
  | Chr a =>
      match step_cursor c with
      | Some (x, c') => if Ascii.eqb x a then k c' caps else None
      | None => None
      end
  | Cls p =>
      match step_cursor c with
      | Some (x, c') => if p x then k c' caps else None
      | None => None
      end
  | Seq r1 r2 => rmatch r1 c caps (fun c' caps' => rmatch r2 c' caps' k)
  | Alt r1 r2 =>
      match rmatch r1 c caps k with
      | Some x => Some x
      | None => rmatch r2 c caps k
      end
  | Star greedy r1 =>
      (fix loop (n : nat) (c : cursor) (caps : captures) : option R :=
         let iterate :=
           match n with
           | O => None
           | S n' =>
               rmatch r1 c caps (fun c' caps' =>
                 if (slen (after c') <? slen (after c))%nat
                 then loop n' c' caps' else None)
           end in
         if greedy then
           match iterate with
           | Some x => Some x
           | None => k c caps
           end
         else
           match k c caps with
           | Some x => Some x
           | None => iterate
           end) (slen (after c)) c caps
  | Grp i r1 =>
      rmatch r1 c caps (fun c' caps' => k c' ((i, consumed c c') :: caps'))
  | Eol multiline =>
      match after c with
      | EmptyString => k c caps
      | String x _ =>
          if multiline && is_line_terminator x then k c caps else None
      end
  | Behind p =>
      match before c with
      | EmptyString => None
      | String x _ => if p x then k c caps else None
      end
  end.

(** One attempt at a fixed position: the end cursor and the captures. *)
Definition match_at (r : regex) (c : cursor) : option (cursor * captures) :=
  rmatch r c [] (fun c' caps => Some (c', caps)).

(** [String.prototype.match] without the [g] flag: the leftmost match, its
    text and its captures. *)
Fixpoint search_from (r : regex) (pre s : string) : option (string * captures) :=
  match match_at r (Cursor pre s) with
  | Some (c', caps) => Some (consumed (Cursor pre s) c', caps)
  | None =>
      match s with
      | EmptyString => None
      | String x s' => search_from r (String x pre) s'
      end
  end.
Definition search (r : regex) (s : string) : option (string * captures) :=
  search_from r EmptyString s.

(** A replacement template: literal text and group references. *)
Inductive tpart := TLit (s : string) | TGrp (i : nat).

Fixpoint expand (t : list tpart) (caps : captures) : string :=
  match t with
  | [] => EmptyString
  | TLit s :: t' => s ++ expand t' caps
  | TGrp i :: t' => capture i caps ++ expand t' caps
  end.

(** [String.prototype.replace] with a global regex. [skip] counts the
    characters of the subject still covered by the last match. *)
Fixpoint replace_from (r : regex) (t : list tpart) (pre s : string)
    (skip : nat) : string :=
  match skip with
  | S k =>
      match s with
      | EmptyString => EmptyString
      | String x s' => replace_from r t (String x pre) s' k
      end
  | O =>
      match match_at r (Cursor pre s) with
      | Some (c', caps) =>
          let n := (slen s - slen (after c'))%nat in
          expand t caps ++
          match s with
          | EmptyString => EmptyString
          | String x s' =>
              match n with
              | O => String x (replace_from r t (String x pre) s' O)
              | S k => replace_from r t (String x pre) s' k
              end
          end
      | None =>
          match s with
          | EmptyString => EmptyString
          | String x s' => String x (replace_from r t (String x pre) s' O)
          end
      end
  end.
Definition replace_all (r : regex) (t : list tpart) (s : string) : string :=
  replace_from r t EmptyString s O.

(** [String.prototype.split] with a regex separator that has no capturing
    group. [piece] is the text since the last separator, nearest character
    first. A match is tried at every position; an empty match at the start
    of a piece does not split. *)
Fixpoint split_from (r : regex) (pre s : string) (skip : nat)
    (piece : string) : list string :=
  match s with
  | EmptyString => [srev piece]
  | String x s' =>
      match skip with
      | S k => split_from r (String x pre) s' k EmptyString
      | O =>
          match match_at r (Cursor pre s) with
          | Some (c', _) =>
              match (slen s - slen (after c'))%nat with
              | O =>
                  match piece with
                  | EmptyString =>
                      split_from r (String x pre) s' O (String x piece)
                  | _ =>
                      srev piece ::
                      split_from r (String x pre) s' O (String x EmptyString)
                  end
              | S k => srev piece :: split_from r (String x pre) s' k EmptyString
              end
          | None => split_from r (String x pre) s' O (String x piece)
          end
      end
  end.

Definition split (r : regex) (s : string) : list string :=
  match s with
  | EmptyString =>
      match match_at r (Cursor EmptyString EmptyString) with
      | Some _ => []
      | None => [EmptyString]
      end
  | _ => split_from r EmptyString s O EmptyString
  end.

(** ** Primitive operations on values *)

Definition hex_value (c : ascii) : option N :=
  if is_digit c then Some (code c - 48)%N
  else if in_range 97 102 c then Some (code c - 87)%N
  else if in_range 65 70 c then Some (code c - 55)%N
  else None.

Definition dq : ascii := Eval compute in ascii_of_nat 34.
Definition nl : ascii := Eval compute in ascii_of_nat 10.
Definition quoted (s : string) : string := String dq (s ++ String dq EmptyString).
Definition str1 (c : ascii) : string := String c EmptyString.

Definition nullish (v : JSValue) : bool :=
  match v with
  | JUndefined | JNull => true
  | _ => false
  end.

Definition truthy (v : JSValue) : bool :=
  match v with
  | JUndefined | JNull => false
  | JBool b => b
  | JNum (Int z) => negb (z =? 0)
  | JNum NaN => false
  | JNum (Dbl _ _) | JNum (Inf _) => true
  | JStr EmptyString => false
  | JStr _ => true
  | JArr _ | JObj _ => true
  end.

(** [a || b] and [a ?? b] on values. *)
Definition or_else (a b : JSValue) : JSValue := if truthy a then a else b.
Definition coalesce (a b : JSValue) : JSValue := if nullish a then b else a.

Definition typeof (v : JSValue) : string :=
  match v with
  | JUndefined => "undefined"
  | JNull | JArr _ | JObj _ => "object"
  | JBool _ => "boolean"
  | JNum _ => "number"
  | JStr _ => "string"
  end.

Definition isArray (v : JSValue) : bool :=
  match v with
  | JArr _ => true
  | _ => false
  end.

Definition string_of_number (n : number) : string :=
  match n with
  | Int z => string_of_Z z
  | NaN => "NaN"
  | Dbl m e => string_of_double m e
  | Inf negative => if negative then "-Infinity" else "Infinity"
  end.

(** [String(v)]. *)
Fixpoint ToString (v : JSValue) : string :=
  match v with
  | JUndefined => "undefined"
  | JNull => "null"
  | JBool true => "true"
  | JBool false => "false"
  | JNum n => string_of_number n
  | JStr s => s
  | JArr items =>
      join ","
        ((fix each (l : list JSValue) : list string :=
            match l with
            | [] => []
            | x :: l' => (if nullish x then EmptyString else ToString x) :: each l'
            end) items)
  | JObj _ => "[object Object]"
  end.

(** The numeral-to-number conversion of [Number(s)]: a decimal literal
    after its sign, which may do without digits before or after the point,
    or [Infinity]. *)
Definition decimal_literal (negative : bool) (d : string) : number :=
  if String.eqb d "Infinity" then Inf negative
  else
    let '(i, s1) := span_digits d in
    let '(f, s2) :=
      match s1 with
      | String "." r => let '(f, r') := span_digits r in (Some f, r')
      | _ => (None, s1)
      end in
    if nonempty i || nonempty (default EmptyString f) then
      match parse_exponent s2 with
      | Some (x, EmptyString) => numeral negative i f x
      | _ => NaN
      end
    else NaN.

(** The digits of a literal in base 2, 8 or 16. *)
Definition radix_digit (base : N) (c : ascii) : option N :=
  match hex_value c with
  | Some v => if (v <? base)%N then Some v else None
  | None => None
  end.

Fixpoint radix_value (base : N) (s : string) (acc : N) : option N :=
  match s with
  | EmptyString => Some acc
  | String c s' =>
      match radix_digit base c with
      | Some v => radix_value base s' (base * acc + v)%N
      | None => None
      end
  end.

(** [0x], [0o] and [0b] literals, which take no sign. *)
Definition radix_literal (d : string) : option Z :=
  match d with
  | String "0" (String x (String c r)) =>
      let base :=
        if Ascii.eqb x "x" || Ascii.eqb x "X" then Some 16%N
        else if Ascii.eqb x "o" || Ascii.eqb x "O" then Some 8%N
        else if Ascii.eqb x "b" || Ascii.eqb x "B" then Some 2%N
        else None in
      match base with
      | Some b =>
          match radix_value b (String c r) 0 with
          | Some v => Some (Z.of_N v)
          | None => None
          end
      | None => None
      end
  | _ => None
  end.

Definition StringToNumber (s : string) : number :=
  match trim s with
  | EmptyString => Int 0
  | String "-" d => decimal_literal true d
  | String "+" d => decimal_literal false d
  | d =>
      match radix_literal d with
      | Some z => Int z
      | None => decimal_literal false d
      end
  end.

(** [Number(v)]. *)
Definition ToNumber (v : JSValue) : number :=
  match v with
  | JUndefined => NaN
  | JNull => Int 0
  | JBool true => Int 1
  | JBool false => Int 0
  | JNum n => n
  | JStr s => StringToNumber s
  | JArr _ => StringToNumber (ToString v)
  | JObj _ => NaN
  end.

(** *** Objects and arrays *)

Fixpoint obj_get (props : list (string * JSValue)) (k : string) : JSValue :=
  match props with
  | [] => JUndefined
  | (k', v) :: rest => if String.eqb k' k then v else obj_get rest k
  end.

Fixpoint obj_has (props : list (string * JSValue)) (k : string) : bool :=
  match props with
  | [] => false
  | (k', _) :: rest => String.eqb k' k || obj_has rest k
  end.

(** Assignment of a property: in place when the key is present, appended
    otherwise. *)
Fixpoint obj_set (k : string) (v : JSValue) (props : list (string * JSValue))
    : list (string * JSValue) :=
  match props with
  | [] => [(k, v)]
  | (k', v') :: rest =>
      if String.eqb k' k then (k', v) :: rest else (k', v') :: obj_set k v rest
  end.

(** [{...a, ...b}] on property lists. *)
Definition obj_spread (a b : list (string * JSValue)) : list (string * JSValue) :=
  fold_left (fun acc kv => obj_set (fst kv) (snd kv) acc) b a.

(** An array index is the canonical numeral of a natural number. *)
Definition array_index (k : string) : option nat :=
  match k with
  | EmptyString => None
  | String c rest =>
      if Ascii.eqb c "0" then
        match rest with
        | EmptyString => Some O
        | _ => None
        end
      else if all_digits k then Some (N.to_nat (N_of_digits k 0)) else None
  end.

Definition jnat (n : nat) : JSValue := JNum (Int (Z.of_nat n)).

(** [v[k]] for a value that is neither [null] nor [undefined]. *)
Definition get_own (v : JSValue) (k : string) : JSValue :=
  match v with
  | JObj props => obj_get props k
  | JArr items =>
      if String.eqb k "length" then jnat (length items)
      else match array_index k with
           | Some i => nth i items JUndefined
           | None => JUndefined
           end
  | JStr s =>
      if String.eqb k "length" then jnat (slen s)
      else match array_index k with
           | Some i =>
               match sdrop i s with
               | String c _ => JStr (str1 c)
               | EmptyString => JUndefined
               end
           | None => JUndefined
           end
  | _ => JUndefined
  end.

(** [v.k]: a [TypeError] on [null] and [undefined]. *)
Definition get (v : JSValue) (k : string) : Res JSValue :=
  if nullish v
  then Throw (TypeError ("Cannot read properties of " ++ ToString v))
  else Ok (get_own v k).

(** [v?.k]. *)
Definition get_opt (v : JSValue) (k : string) : JSValue :=
  if nullish v then JUndefined else get_own v k.

(** [v[key]] with a computed key. *)
Definition get_at (v key : JSValue) : Res JSValue := get v (ToString key).

(** [v.toLowerCase()]: only strings have the method. *)
Definition call_toLowerCase (v : JSValue) : Res string :=
  match v with
  | JStr s => Ok (toLowerCase s)
  | JUndefined | JNull =>
      Throw (TypeError ("Cannot read properties of " ++ ToString v))
  | _ => Throw (TypeError "toLowerCase is not a function")
  end.

(** ** JSON

    [JSON.stringify] and [JSON.parse] of the host, on the values of the
    model. *)

Definition hex_digit (n : N) : ascii :=
  if (n <? 10)%N then ascii_of_N (48 + n) else ascii_of_N (87 + n).

Definition escape_char (c : ascii) : string :=
  if Ascii.eqb c dq then String "\" (str1 dq)
  else if Ascii.eqb c "\" then "\\"
  else if (code c =? 8)%N then "\b"
  else if (code c =? 12)%N then "\f"
  else if (code c =? 10)%N then "\n"
  else if (code c =? 13)%N then "\r"
  else if (code c =? 9)%N then "\t"
  else if (code c <? 32)%N
       then "\u00" ++ String (hex_digit (code c / 16)) (str1 (hex_digit (code c mod 16)))
  else str1 c.

Fixpoint escape_string (s : string) : string :=
  match s with
  | EmptyString => EmptyString
  | String c s' => escape_char c ++ escape_string s'
  end.

Definition quote_json (s : string) : string :=
  String dq (escape_string s ++ str1 dq).

Fixpoint JSON_stringify (v : JSValue) : option string :=
  match v with
  | JUndefined => None
  | JNull => Some "null"
  | JBool true => Some "true"
  | JBool false => Some "false"
  | JNum (Int z) => Some (string_of_Z z)
  | JNum NaN => Some "null"
  | JNum (Dbl m e) => Some (string_of_double m e)
  | JNum (Inf _) => Some "null"
  | JStr s => Some (quote_json s)
  | JArr items =>
      Some ("[" ++
        join ","
          ((fix each (l : list JSValue) : list string :=
              match l with
              | [] => []
              | x :: l' =>
                  match JSON_stringify x with
                  | Some t => t
                  | None => "null"
                  end :: each l'
              end) items) ++ "]")
  | JObj props =>
      Some ("{" ++
        join ","
          ((fix each (l : list (string * JSValue)) : list string :=
              match l with
              | [] => []
              | (k, x) :: l' =>
                  match JSON_stringify x with
                  | Some t => (quote_json k ++ ":" ++ t) :: each l'
                  | None => each l'
                  end
              end) props) ++ "}")
  end.

(** Insignificant white space of JSON: space, tab, line feed, carriage
    return. *)
Definition is_json_ws (c : ascii) : bool :=
  (code c =? 32)%N || (code c =? 9)%N || (code c =? 10)%N || (code c =? 13)%N.

Fixpoint skip_ws (s : string) : string :=
  match s with
  | String c s' => if is_json_ws c then skip_ws s' else s
  | EmptyString => EmptyString
  end.

Definition simple_escape (e : ascii) : option ascii :=
  if Ascii.eqb e dq then Some dq
  else if Ascii.eqb e "\" then Some "\"%char
  else if Ascii.eqb e "/" then Some "/"%char
  else if Ascii.eqb e "b" then Some (ascii_of_N 8)
  else if Ascii.eqb e "f" then Some (ascii_of_N 12)
  else if Ascii.eqb e "n" then Some (ascii_of_N 10)
  else if Ascii.eqb e "r" then Some (ascii_of_N 13)
  else if Ascii.eqb e "t" then Some (ascii_of_N 9)
  else None.

(** The code unit of the escape [\uXXXX]. *)
Definition unicode_escape (h1 h2 h3 h4 : ascii) : option N :=
  match hex_value h1, hex_value h2, hex_value h3, hex_value h4 with
  | Some a, Some b, Some c, Some d => Some (4096 * a + 256 * b + 16 * c + d)%N
  | _, _, _, _ => None
  end.

(** A code point as text: a code unit of the model when it is below 256,
    its UTF-8 bytes otherwise. *)
Definition utf8 (cp : N) : string :=
  let byte (n : N) : ascii := ascii_of_N n in
  let cont (n : N) : ascii := ascii_of_N (128 + n mod 64)%N in
  if (cp <? 256)%N then str1 (byte cp)
  else if (cp <? 2048)%N
  then String (byte (192 + cp / 64)%N) (str1 (cont cp))
  else if (cp <? 65536)%N
  then String (byte (224 + cp / 4096)%N)
         (String (cont (cp / 64)%N) (str1 (cont cp)))
  else String (byte (240 + cp / 262144)%N)
         (String (cont (cp / 4096)%N)
            (String (cont (cp / 64)%N) (str1 (cont cp)))).

(** The two halves of a surrogate pair and its code point. *)
Definition is_high_surrogate (u : N) : bool := ((55296 <=? u) && (u <=? 56319))%N.
Definition is_low_surrogate (u : N) : bool := ((56320 <=? u) && (u <=? 57343))%N.
Definition code_point (hi lo : N) : N :=
  (65536 + (hi - 55296) * 1024 + (lo - 56320))%N.

(** The text of a string literal after its opening quote: the decoded
    string and what follows the closing quote. *)
Fixpoint parse_string_body (s : string) : option (string * string) :=
  match s with
  | EmptyString => None
  | String c s' =>
      if Ascii.eqb c dq then Some (EmptyString, s')
      else if Ascii.eqb c "\" then
        match s' with
        | EmptyString => None
        | String e s'' =>
            match simple_escape e with
            | Some x =>
                match parse_string_body s'' with
                | Some (t, rest) => Some (String x t, rest)
                | None => None
                end
            | None =>
                if Ascii.eqb e "u" then
                  match s'' with
                  | String h1 (String h2 (String h3 (String h4 s3))) =>
                      match unicode_escape h1 h2 h3 h4 with
                      | Some u =>
                          let single :=
                            match parse_string_body s3 with
                            | Some (t, rest) => Some (utf8 u ++ t, rest)
                            | None => None
                            end in
                          if is_high_surrogate u then
                            match s3 with
                            | String b (String v (String g1 (String g2
                                (String g3 (String g4 s4))))) =>
                                match
                                  (if Ascii.eqb b "\" && Ascii.eqb v "u"
                                   then unicode_escape g1 g2 g3 g4 else None)
                                with
                                | Some l =>
                                    if is_low_surrogate l then
                                      match parse_string_body s4 with
                                      | Some (t, rest) =>
                                          Some (utf8 (code_point u l) ++ t, rest)
                                      | None => None
                                      end
                                    else single
                                | None => single
                                end
                            | _ => single
                            end
                          else single
                      | None => None
                      end
                  | _ => None
                  end
                else None
            end
        end
      else if (code c <? 32)%N then None
      else
        match parse_string_body s' with
        | Some (t, rest) => Some (String c t, rest)
        | None => None
        end
  end.

(** [0], or digits that do not start with [0]. *)
Definition ok_lead (d : string) : bool :=
  match d with
  | EmptyString => false
  | String c d' => if Ascii.eqb c "0" then negb (nonempty d') else true
  end.

(** A fraction part, when the text starts with a point: its digits, of
    which there is one at least, and the rest. *)
Definition parse_fraction (s : string) : option (option string * string) :=
  match s with
  | String c r =>
      if Ascii.eqb c "." then
        let '(f, rest) := span_digits r in
        if nonempty f then Some (Some f, rest) else None
      else Some (None, s)
  | EmptyString => Some (None, s)
  end.

(** A numeral after its optional sign: the integer part, then a fraction
    and an exponent when they are there. *)
Definition parse_unsigned (negative : bool) (s : string)
    : option (JSValue * string) :=
  let '(i, s1) := span_digits s in
  if ok_lead i then
    match parse_fraction s1 with
    | Some (f, s2) =>
        match parse_exponent s2 with
        | Some (x, s3) => Some (JNum (numeral negative i f x), s3)
        | None => None
        end
    | None => None
    end
  else None.

Definition parse_number (s : string) : option (JSValue * string) :=
  match s with
  | EmptyString => None
  | String c s' =>
      if Ascii.eqb c "-" then parse_unsigned true s'
      else parse_unsigned false s
  end.

Definition expect (word : string) (v : JSValue) (s : string)
    : option (JSValue * string) :=
  if starts_with word s then Some (v, sdrop (slen word) s) else None.

(** The character [c] after white space, and what follows it. *)
Definition eat (c : ascii) (s : string) : option string :=
  match skip_ws s with
  | String x rest => if Ascii.eqb x c then Some rest else None
  | EmptyString => None
  end.

(** The elements of an array after the first bracket, with [p] for an
    element: values separated by commas, up to the closing bracket. *)
Fixpoint parse_elements (p : string -> option (JSValue * string)) (n : nat)
    (s : string) (acc : list JSValue) : option (JSValue * string) :=
  match n with
  | O => None
  | S n' =>
      match p s with
      | Some (v, rest) =>
          match eat "," rest with
          | Some rest' => parse_elements p n' rest' (v :: acc)
          | None =>
              match eat "]" rest with
              | Some rest' => Some (JArr (rev (v :: acc)), rest')
              | None => None
              end
          end
      | None => None
      end
  end.

(** The members of an object after the first brace, with [p] for a value:
    a later member with the key of an earlier one replaces its value. *)
Fixpoint parse_members (p : string -> option (JSValue * string)) (n : nat)
    (s : string) (acc : list (string * JSValue)) : option (JSValue * string) :=
  match n with
  | O => None
  | S n' =>
      match eat dq s with
      | Some s1 =>
          match parse_string_body s1 with
          | Some (k, s2) =>
              match eat ":" s2 with
              | Some s3 =>
                  match p s3 with
                  | Some (v, rest) =>
                      match eat "," rest with
                      | Some rest' => parse_members p n' rest' (obj_set k v acc)
                      | None =>
                          match eat "}" rest with
                          | Some rest' => Some (JObj (obj_set k v acc), rest')
                          | None => None
                          end
                      end
                  | None => None
                  end
              | None => None
              end
          | None => None
          end
      | None => None
      end
  end.

(** One JSON value at the head of [s], after white space, and the rest. *)
Fixpoint parse_value (fuel : nat) (s : string) : option (JSValue * string) :=
  match fuel with
  | O => None
  | S f =>
      match skip_ws s with
      | EmptyString => None
      | String c s' =>
          if Ascii.eqb c "n" then expect "null" JNull (String c s')
          else if Ascii.eqb c "t" then expect "true" (JBool true) (String c s')
          else if Ascii.eqb c "f" then expect "false" (JBool false) (String c s')
          else if Ascii.eqb c dq then
            match parse_string_body s' with
            | Some (t, rest) => Some (JStr t, rest)
            | None => None
            end
          else if Ascii.eqb c "[" then
            match eat "]" s' with
            | Some rest => Some (JArr [], rest)
            | None => parse_elements (parse_value f) f s' []
            end
          else if Ascii.eqb c "{" then
            match eat "}" s' with
            | Some rest => Some (JObj [], rest)
            | None => parse_members (parse_value f) f s' []
            end
          else parse_number (String c s')
      end
  end.

(** [JSON.parse]: one value and nothing but white space after it. *)
Definition JSON_parse (s : string) : Res JSValue :=
  match parse_value (S (slen s)) s with
  | Some (v, rest) =>
      match skip_ws rest with
      | EmptyString => Ok v
      | _ => Throw (SyntaxError "Unexpected non-whitespace character after JSON")
      end
  | None => Throw (SyntaxError "Unexpected token in JSON")
  end.

(** ** server/utils/jsonParser.js *)

Definition ws_star : regex := Star true (Cls is_space).

(** [/```json\s*/g] *)
Definition re_fence_open : regex := Seq (Lit "```json") ws_star.
(** [/```\s*$/g] *)
Definition re_fence_close : regex := Seq (Lit "```") (Seq ws_star (Eol false)).
(** [/\/\/.*$/gm] *)
Definition re_line_comment : regex :=
  Seq (Lit "//") (Seq (Star true (Cls dot)) (Eol true)).
(** [/\/\*[\s\S]*?\*\//g] *)
Definition re_block_comment : regex :=
  Seq (Lit "/*") (Seq (Star false (Cls any_char)) (Lit "*/")).
(** Unquoted property names: group 1 is [[,{]\s*], group 2 is
    [[a-zA-Z_][a-zA-Z0-9_]*], followed by [\s*:]; global. *)
Definition re_bare_key : regex :=
  Seq (Grp 1 (Seq (Cls (one_of ",{")) ws_star))
    (Seq (Grp 2 (Seq (Cls is_ident_start) (Star true (Cls is_ident_part))))
       (Seq ws_star (Chr ":"))).
(** [/:\s*'([^']*?)'/g] *)
Definition re_single_quoted : regex :=
  Seq (Chr ":") (Seq ws_star
    (Seq (Chr "'") (Seq (Grp 1 (Star false (Cls (none_of "'")))) (Chr "'")))).
(** [/,(\s*[}\]])/g] *)
Definition re_trailing_comma : regex :=
  Seq (Chr ",") (Grp 1 (Seq ws_star (Cls (one_of "}]")))).
(** [/"\s*\n\s*"/g], [/}\s*\n\s*{/g] and [/]\s*\n\s*\[/g] *)
Definition re_adjacent (a b : ascii) : regex :=
  Seq (Chr a) (Seq ws_star (Seq (Chr nl) (Seq ws_star (Chr b)))).
(** [/,(\s*})/g] and [/,(\s*])/g] *)
Definition re_comma_before (a : ascii) : regex :=
  Seq (Chr ",") (Grp 1 (Seq ws_star (Chr a))).

Definition fix_string (jsonStr : string) : string :=
  (* Remove markdown code fences *)
  let jsonStr := replace_all re_fence_close [] (replace_all re_fence_open [] jsonStr) in
  (* Remove single-line comments *)
  let jsonStr := replace_all re_line_comment [] jsonStr in
  (* Remove multi-line comments *)
  let jsonStr := replace_all re_block_comment [] jsonStr in
  (* Fix unquoted property names *)
  let jsonStr :=
    replace_all re_bare_key
      [TGrp 1; TLit (str1 dq); TGrp 2; TLit (String dq ":")] jsonStr in
  (* Convert single quotes to double quotes for values *)
  let jsonStr :=
    replace_all re_single_quoted
      [TLit (String ":" (String " " (str1 dq))); TGrp 1; TLit (str1 dq)] jsonStr in
  (* Remove trailing commas *)
  let jsonStr := replace_all re_trailing_comma [TGrp 1] jsonStr in
  (* Add missing commas between adjacent strings/objects/arrays across newlines *)
  let jsonStr :=
    replace_all (re_adjacent dq dq)
      [TLit (String dq (String "," (String nl (str1 dq))))] jsonStr in
  let jsonStr :=
    replace_all (re_adjacent "}" "{") [TLit (String "}" (String "," (String nl "{")))] jsonStr in
  let jsonStr :=
    replace_all (re_adjacent "]" "[") [TLit (String "]" (String "," (String nl "[")))] jsonStr in
  (* Remove any trailing commas again just in case *)
  let jsonStr := replace_all (re_comma_before "}") [TGrp 1] jsonStr in
  let jsonStr := replace_all (re_comma_before "]") [TGrp 1] jsonStr in
  (* Balance braces/brackets if off by a small margin *)
  let openBraces := count_char "{" jsonStr in
  let closeBraces := count_char "}" jsonStr in
  let openBrackets := count_char "[" jsonStr in
  let closeBrackets := count_char "]" jsonStr in
  let jsonStr :=
    if (closeBraces <? openBraces)%nat
    then jsonStr ++ repeat_string "}" (openBraces - closeBraces) else jsonStr in
  let jsonStr :=
    if (closeBrackets <? openBrackets)%nat
    then jsonStr ++ repeat_string "]" (openBrackets - closeBrackets) else jsonStr in
  trim jsonStr.

Definition fixCommonJSONIssues (jsonStr : JSValue) : JSValue :=
  match jsonStr with
  | JStr s => JStr (fix_string s)
  | _ => jsonStr
  end.

(** The suffix of [text] that starts at the first occurrence of [a]. *)
Fixpoint from_first (a : ascii) (text : string) : option string :=
  match text with
  | EmptyString => None
  | String ch rest => if Ascii.eqb ch a then Some text else from_first a rest
  end.

(** The loop of [extractBalanced]: the prefix of [s] up to the character at
    which the depth returns to zero. *)
Fixpoint scan_balanced (openChar closeChar : ascii) (s : string) (depth : Z)
    : option string :=
  match s with
  | EmptyString => None
  | String ch rest =>
      let depth :=
        if Ascii.eqb ch openChar then depth + 1
        else if Ascii.eqb ch closeChar then depth - 1
        else depth in
      if depth =? 0 then Some (str1 ch)
      else
        match scan_balanced openChar closeChar rest depth with
        | Some t => Some (String ch t)
        | None => None
        end
  end.

Definition extractBalanced (text : string) (openChar closeChar : ascii)
    : option string :=
  match from_first openChar text with
  | None => None
  | Some suffix => scan_balanced openChar closeChar suffix 0
  end.

(** [/```(?:json)?\s*\n?([\s\S]*?)\n?```/] *)
Definition re_fenced : regex :=
  Seq (Lit "```") (Seq (Opt (Lit "json")) (Seq ws_star (Seq (Opt (Chr nl))
    (Seq (Grp 1 (Star false (Cls any_char))) (Seq (Opt (Chr nl)) (Lit "```")))))).
(** [/\{[\s\S]*\}/] and [/\[[\s\S]*\]/] *)
Definition re_greedy (a b : ascii) : regex :=
  Seq (Chr a) (Seq (Star true (Cls any_char)) (Chr b)).

(** One repair attempt: [try { return JSON.parse(fix(text)) } catch (_) {}]. *)
Definition try_cleaned (text : string) : option JSValue :=
  match JSON_parse (ToString (fixCommonJSONIssues (JStr text))) with
  | Ok v => Some v
  | Throw _ => None
  end.

(** [extractBalanced(response, a, b)], or the greedy match when that is
    empty. *)
Definition extract (response : string) (a b : ascii) : option string :=
  match extractBalanced response a b with
  | Some t => Some t
  | None =>
      match search (re_greedy a b) response with
      | Some (t, _) => Some t
      | None => None
      end
  end.

Definition first_some {A} (a : option A) (b : option A) : option A :=
  match a with
  | Some x => Some x
  | None => b
  end.

Definition parseAIJSONResponse (response : JSValue) : Res JSValue :=
  match response with
  | JStr response =>
      match JSON_parse response with
      | Ok v => Ok v
      | Throw _ =>
          (* Try code fence extraction *)
          let fenced :=
            match search re_fenced response with
            | Some (_, caps) => try_cleaned (trim (capture 1 caps))
            | None => None
            end in
          (* Try object extraction *)
          let object :=
            match extract response "{" "}" with
            | Some objStr => try_cleaned objStr
            | None => None
            end in
          (* Try array extraction *)
          let array :=
            match extract response "[" "]" with
            | Some arrStr => try_cleaned arrStr
            | None => None
            end in
          match first_some fenced (first_some object array) with
          | Some v => Ok v
          | None => Throw (Error "No valid JSON found in AI response")
          end
      end
  | _ =>
      match JSON_parse (ToString response) with
      | Ok v => Ok v
      | Throw _ => Throw (Error "Response is not a valid JSON string")
      end
  end.

(** ** Collaborators and effects

    An [async] function is a state transformer on the state it can reach,
    returning a value or an exception. The external collaborators are
    functions on an abstract [World]; a rejected promise is a [Throw]. *)

Definition SE (St A : Type) : Type := St -> Res A * St.

Definition ret {St A} (a : A) : SE St A := fun s => (Ok a, s).
Definition throw {St A} (e : Exn) : SE St A := fun s => (Throw e, s).
Definition bind {St A B} (m : SE St A) (k : A -> SE St B) : SE St B :=
  fun s =>
    match m s with
    | (Ok a, s') => k a s'
    | (Throw e, s') => (Throw e, s')
    end.
Definition catch {St A} (m : SE St A) (h : Exn -> SE St A) : SE St A :=
  fun s =>
    match m s with
    | (Ok a, s') => (Ok a, s')
    | (Throw e, s') => h e s'
    end.
Definition lift {St A} (r : Res A) : SE St A := fun s => (r, s).
Definition gets {St A} (f : St -> A) : SE St A := fun s => (Ok (f s), s).
Definition modify {St} (f : St -> St) : SE St unit := fun s => (Ok tt, f s).

Notation "x <- m ;; k" := (bind m (fun x => k))
  (at level 100, m at next level, right associativity).
Notation "m ;;; k" := (bind m (fun _ => k))
  (at level 100, right associativity).

(** What [generateContentForStep] receives besides the step. *)
Record GenContext := {
  ctx_topic : JSValue;
  ctx_userProfile : JSValue;
  ctx_learningAnalysis : JSValue;
  ctx_enhancedContext : JSValue;
  ctx_previousBlocks : list JSValue;
  ctx_conversationSummary : JSValue;
}.

(** The collaborators. The wording of a prompt is immaterial here, so the
    prompt builders are functions whose values are not inspected; building
    the prompt of a step may throw. *)
Record Services (World : Type) := {
  (* aiProviderManager.generateResponse(prompt, 'gemini') *)
  generateResponse : string -> SE World string;
  (* prompts.createLessonPlanPrompt({ topic, userProfile }) *)
  createLessonPlanPrompt : JSValue -> JSValue -> string;
  (* the prompt of a narration, quiz or reflection step with its context lines *)
  stepPrompt : string -> JSValue -> GenContext -> Res string;
  (* the feedback prompt of submitResponse *)
  feedbackPrompt : string -> JSValue -> JSValue -> string;
  (* enhancedPersonalizationEngine.generatePersonalizationInsights(userId) *)
  generatePersonalizationInsights : string -> SE World (list (string * JSValue));
  (* persistentMemory.generateEnhancedContext(userId) *)
  generateEnhancedContext : string -> SE World JSValue;
  (* persistentMemory.summarizeContext(userId) *)
  summarizeContext : string -> SE World JSValue;
  (* userAssessmentTracker.performRealTimeAssessment(userId, payload) *)
  performRealTimeAssessment : string -> JSValue -> SE World JSValue;
  (* advancedTutoringStrategy.generateTutoringStrategy(userId, context) *)
  generateTutoringStrategy : string -> JSValue -> SE World JSValue;
}.
Arguments generateResponse {World} _ _ _.
Arguments createLessonPlanPrompt {World} _ _ _.
Arguments stepPrompt {World} _ _ _ _.
Arguments feedbackPrompt {World} _ _ _ _.
Arguments generatePersonalizationInsights {World} _ _ _.
Arguments generateEnhancedContext {World} _ _ _.
Arguments summarizeContext {World} _ _ _.
Arguments performRealTimeAssessment {World} _ _ _ _.
Arguments generateTutoringStrategy {World} _ _ _ _.

(** ** The lesson planner *)

(** [String(v || 'narration').toLowerCase()] *)
Definition step_type (v : JSValue) : string :=
  toLowerCase (ToString (or_else v (JStr "narration"))).

(** The callback of [parsed.map] in [createPlan]; [idx] counts from 0. *)
Definition normalize_step (step : JSValue) (idx : nat) : Res JSValue :=
  let? id := get step "id" in
  let? type := get step "type" in
  let? title := get step "title" in
  let? objective := get step "objective" in
  let? estimated_minutes := get step "estimated_minutes" in
  let? options := get step "options" in
  Ok (JObj [
    ("id", or_else id (JStr ("step_" ++ string_of_nat (idx + 1))));
    ("type", JStr (step_type type));
    ("title", or_else title (JStr ("Step " ++ string_of_nat (idx + 1))));
    ("objective", or_else objective (JStr "Learn a key concept"));
    ("estimated_minutes", JNum (ToNumber (or_else estimated_minutes (JNum (Int 2)))));
    ("options", if isArray options then options else JUndefined)
  ]).

Fixpoint normalize_steps (parsed : list JSValue) (idx : nat) : Res (list JSValue) :=
  match parsed with
  | [] => Ok []
  | step :: rest =>
      let? s := normalize_step step idx in
      let? ss := normalize_steps rest (S idx) in
      Ok (s :: ss)
  end.

(** One element of the fallback plan; [i] counts from 0. *)
Definition fallback_step (i : nat) : JSValue :=
  let idx := (i + 1)%nat in
  let isChoice := (idx mod 4 =? 0)%nat in
  let n := string_of_nat idx in
  JObj [
    ("id", JStr (if isChoice then "choice_" ++ n else "step_" ++ n));
    ("type", JStr (if isChoice then "choice"
                   else if (idx mod 3 =? 0)%nat then "quiz" else "narration"));
    ("title", JStr (if isChoice then "Choose your path " ++ n
                    else "Learning Step " ++ n));
    ("objective", JStr (if isChoice then "Select an exploration path"
                        else "Understand concept " ++ n));
    ("estimated_minutes", JNum (Int (if isChoice then 2 else 3)));
    ("options",
      if isChoice then
        JArr [
          JObj [("text", JStr "Path A");
                ("next", JStr ("step_" ++ string_of_nat (idx + 1)))];
          JObj [("text", JStr "Path B");
                ("next", JStr ("step_" ++ string_of_nat (idx + 1)))]
        ]
      else JUndefined)
  ].

(** Fallback deterministic plan (8 steps). *)
Definition fallback_plan : list JSValue := map fallback_step (seq 0 8).

(** The inner [try] of [createPlan]: the parsed answer, normalized. *)
Definition normalized_plan (raw : string) : Res (list JSValue) :=
  let? parsed := parseAIJSONResponse (JStr raw) in
  match parsed with
  | JArr items =>
      (* Basic normalization *)
      normalize_steps items 0
  | _ => Throw (Error "Planner must return a JSON array")
  end.

(** The inner [catch (e)] of [createPlan]: the repaired answer as it is. *)
Definition repaired_plan (raw : string) (e : Exn) : Res (list JSValue) :=
  let cleaned := fixCommonJSONIssues (JStr (ToString (JStr raw))) in
  let? parsed := JSON_parse (ToString cleaned) in
  match parsed with
  | JArr items => Ok items
  | _ => Throw e
  end.

Section Planner.
Context {World : Type} (svc : Services World).

Definition createPlan (topic userProfile : JSValue) : SE World (list JSValue) :=
  let plannerPrompt := createLessonPlanPrompt svc topic userProfile in
  catch
    (raw <- generateResponse svc plannerPrompt ;;
     lift (res_catch (normalized_plan raw) (repaired_plan raw)))
    (fun _ => ret fallback_plan).

End Planner.

(** ** The step content generator *)

Definition default_choices : JSValue :=
  JArr [
    JObj [("text", JStr "Explore Path A"); ("next_block", JNull);
          ("consequence", JStr "Different examples");
          ("learning_value", JStr "Application focus");
          ("difficulty_level", JStr "adaptive")];
    JObj [("text", JStr "Explore Path B"); ("next_block", JNull);
          ("consequence", JStr "Different examples");
          ("learning_value", JStr "Concept focus");
          ("difficulty_level", JStr "adaptive")]
  ].

(** The callback of [step.options.map] for a choice step. *)
Definition choice_of_option (learningAnalysis opt : JSValue) : Res JSValue :=
  let? text := get opt "text" in
  let? next := get opt "next" in
  let? consequence := get opt "consequence" in
  let? learning_value := get opt "learning_value" in
  Ok (JObj [
    ("text", or_else text (JStr "Choose"));
    ("next_block", or_else next JNull);
    ("consequence", or_else consequence JNull);
    ("learning_value", or_else learning_value JNull);
    ("difficulty_level",
      or_else (get_opt learningAnalysis "currentLevel") (JStr "adaptive"))
  ]).

Fixpoint map_res {A B} (f : A -> Res B) (l : list A) : Res (list B) :=
  match l with
  | [] => Ok []
  | x :: rest =>
      let? y := f x in
      let? ys := map_res f rest in
      Ok (y :: ys)
  end.

Definition choice_block (step : JSValue) (learningAnalysis : JSValue) : Res JSValue :=
  let? options := get step "options" in
  let? choices :=
    match options with
    | JArr (o :: os) =>
        let? cs := map_res (choice_of_option learningAnalysis) (o :: os) in
        Ok (JArr cs)
    | _ => Ok default_choices
    end in
  let? id := get step "id" in
  let? title := get step "title" in
  let? objective := get step "objective" in
  Ok (JObj [
    ("block_id", id);
    ("type", JStr "choice");
    ("title", title);
    ("content", JStr "Choose your next course of action to continue the mission.");
    ("learning_goal", objective);
    ("choices", choices);
    ("llm_instruction",
      JStr "Present options neutrally. After user selects, branch to indicated next block.")
  ]).

Definition image_block (step : JSValue) : Res JSValue :=
  let? id := get step "id" in
  let? title := get step "title" in
  let? objective := get step "objective" in
  Ok (JObj [
    ("block_id", id);
    ("type", JStr "image");
    ("title", title);
    ("content", objective);
    ("learning_goal", objective);
    ("media", JObj [("image", JStr "/images/space_scene.png")]);
    ("llm_instruction",
      JStr "Use the image to anchor the brief explanation. Invite observation.")
  ]).

(** Fallback minimal block. *)
Definition fallback_block (step : JSValue) (type : string) : Res JSValue :=
  let? id := get step "id" in
  let? title := get step "title" in
  let? objective := get step "objective" in
  Ok (JObj [
    ("block_id", id);
    ("type", JStr type);
    ("title", title);
    ("content", JStr ("This slide covers: " ++ ToString objective));
    ("learning_goal", objective);
    ("media", JObj [("image", JStr "/images/mars_base_dark.png")]);
    ("llm_instruction", JStr "Provide supportive, encouraging guidance.");
    ("error", JStr "Fallback content due to AI error")
  ]).

(** The two readings of a generated text: [parseAIJSONResponse], then the
    repaired text given to [JSON.parse]. *)
Definition normalize_response (response : string) : Res JSValue :=
  res_catch (parseAIJSONResponse (JStr response))
    (fun _ =>
       let cleaned := fixCommonJSONIssues (JStr (ToString (JStr response))) in
       JSON_parse (ToString cleaned)).

Section Generator.
Context {World : Type} (svc : Services World).

Definition generateContentForStep (step : JSValue) (ctx : GenContext)
    : SE World JSValue :=
  stepType <- lift (get step "type") ;;
  let type := step_type stepType in
  catch
    (if String.eqb type "choice" then
       (* Choice blocks are lightweight and primarily structural *)
       lift (choice_block step (ctx_learningAnalysis ctx))
     else if String.eqb type "image" then
       (* Simple non-LLM image block *)
       lift (image_block step)
     else
       (* Use specialized prompts for narration, quiz, reflection *)
       prompt <- lift (stepPrompt svc type step ctx) ;;
       response <- generateResponse svc prompt ;;
       lift (normalize_response response))
    (fun error => lift (fallback_block step type)).

End Generator.

(** ** The lesson session engine *)

Record SessionState := {
  sessionId : string;
  user_id : string;                          (* state.user.id *)
  mission_id : string;                       (* state.lesson.mission_id *)
  title : string;                            (* state.lesson.title *)
  blocks : list JSValue;                     (* state.lesson.blocks *)
  personalization : list (string * JSValue); (* an object *)
  enhancedContext : JSValue;
  conversationSummary : JSValue;
  topic : JSValue;
  userProfile : JSValue;
  plan : list JSValue;
  planIndexById : list (string * nat);
  blockIndex : nat;
  turnIndex : nat;
  turnsByBlock : gmap nat (list JSValue);
  lastAssessment : JSValue;
}.

Definition set_cursor (b t : nat) (st : SessionState) : SessionState :=
  {| sessionId := sessionId st; user_id := user_id st;
     mission_id := mission_id st; title := title st; blocks := blocks st;
     personalization := personalization st;
     enhancedContext := enhancedContext st;
     conversationSummary := conversationSummary st;
     topic := topic st; userProfile := userProfile st; plan := plan st;
     planIndexById := planIndexById st;
     blockIndex := b; turnIndex := t;
     turnsByBlock := turnsByBlock st; lastAssessment := lastAssessment st |}.

Definition set_turns (i : nat) (turns : list JSValue) (st : SessionState)
    : SessionState :=
  {| sessionId := sessionId st; user_id := user_id st;
     mission_id := mission_id st; title := title st; blocks := blocks st;
     personalization := personalization st;
     enhancedContext := enhancedContext st;
     conversationSummary := conversationSummary st;
     topic := topic st; userProfile := userProfile st; plan := plan st;
     planIndexById := planIndexById st;
     blockIndex := blockIndex st; turnIndex := turnIndex st;
     turnsByBlock := <[i := turns]> (turnsByBlock st);
     lastAssessment := lastAssessment st |}.

Definition push_block (b : JSValue) (st : SessionState) : SessionState :=
  {| sessionId := sessionId st; user_id := user_id st;
     mission_id := mission_id st; title := title st;
     blocks := app (blocks st) [b];
     personalization := personalization st;
     enhancedContext := enhancedContext st;
     conversationSummary := conversationSummary st;
     topic := topic st; userProfile := userProfile st; plan := plan st;
     planIndexById := planIndexById st;
     blockIndex := blockIndex st; turnIndex := turnIndex st;
     turnsByBlock := turnsByBlock st; lastAssessment := lastAssessment st |}.

Definition set_context (p : list (string * JSValue)) (e c : JSValue)
    (st : SessionState) : SessionState :=
  {| sessionId := sessionId st; user_id := user_id st;
     mission_id := mission_id st; title := title st; blocks := blocks st;
     personalization := p; enhancedContext := e; conversationSummary := c;
     topic := topic st; userProfile := userProfile st; plan := plan st;
     planIndexById := planIndexById st;
     blockIndex := blockIndex st; turnIndex := turnIndex st;
     turnsByBlock := turnsByBlock st; lastAssessment := lastAssessment st |}.

Definition set_lastAssessment (a : JSValue) (st : SessionState) : SessionState :=
  {| sessionId := sessionId st; user_id := user_id st;
     mission_id := mission_id st; title := title st; blocks := blocks st;
     personalization := personalization st;
     enhancedContext := enhancedContext st;
     conversationSummary := conversationSummary st;
     topic := topic st; userProfile := userProfile st; plan := plan st;
     planIndexById := planIndexById st;
     blockIndex := blockIndex st; turnIndex := turnIndex st;
     turnsByBlock := turnsByBlock st; lastAssessment := a |}.

(** [Object.fromEntries(planSteps.map((s, i) => [s.id, i]))]: a later step
    with the same id overrides the position. *)
Fixpoint index_set (k : string) (i : nat) (idx : list (string * nat))
    : list (string * nat) :=
  match idx with
  | [] => [(k, i)]
  | (k', i') :: rest =>
      if String.eqb k' k then (k', i) :: rest else (k', i') :: index_set k i rest
  end.

Fixpoint index_get (idx : list (string * nat)) (k : string) : option nat :=
  match idx with
  | [] => None
  | (k', i) :: rest => if String.eqb k' k then Some i else index_get rest k
  end.

Fixpoint index_steps (steps : list JSValue) (i : nat) (acc : list (string * nat))
    : Res (list (string * nat)) :=
  match steps with
  | [] => Ok acc
  | s :: rest =>
      let? id := get s "id" in
      index_steps rest (S i) (index_set (ToString id) i acc)
  end.

(** [state.planIndexById[id]] *)
Definition plan_index (st : SessionState) (id : JSValue) : option nat :=
  index_get (planIndexById st) (ToString id).

(** [arr[i]] on an array held as a list. *)
Definition at_index (l : list JSValue) (i : nat) : JSValue := nth i l JUndefined.

(** The step after the step of [block] in the plan:
    [state.plan[(state.planIndexById[block.block_id] ?? state.blockIndex) + 1]]. *)
Definition sequential_successor (st : SessionState) (block : JSValue) : JSValue :=
  at_index (plan st)
    (default (blockIndex st) (plan_index st (get_own block "block_id")) + 1).

(** *** The turn splitter *)

(** [/\n\s*\n/] *)
Definition re_blank_line : regex := Seq (Chr nl) (Seq ws_star (Chr nl)).
(** [/(?<=[.!?])\s+/] *)
Definition re_sentence_gap : regex :=
  Seq (Behind (one_of ".!?")) (Plus true (Cls is_space)).

Definition narration_turn (say : string) : JSValue :=
  JObj [("say", JStr say); ("question", JNull);
        ("meta", JObj [("type", JStr "narration")])].

Definition socratic_turn (question : JSValue) : JSValue :=
  JObj [("say", JNull); ("question", question);
        ("meta", JObj [("type", JStr "socratic")])].

Definition continuity_turn : JSValue := narration_turn "Let’s continue.".

Definition paragraphs (content : string) : list string :=
  List.filter nonempty (map trim (split re_blank_line content)).

Definition sentences (p : string) : list string :=
  List.filter nonempty (split re_sentence_gap p).

(** Keep 1-2 sentences per turn for natural cadence. *)
Definition paragraph_turn (p : string) : JSValue :=
  narration_turn (join " " (firstn 2 (sentences p))).

Definition splitContentIntoTurns (content : JSValue) : list JSValue :=
  match content with
  | JStr EmptyString => [continuity_turn]
  | JStr s =>
      match map paragraph_turn (paragraphs s) with
      | [] => [narration_turn (stake 200 s)]
      | turns => turns
      end
  | _ => [continuity_turn]
  end.

(** [x > 0] *)
Definition gt_zero (x : JSValue) : bool :=
  match ToNumber x with
  | Int z => 0 <? z
  | NaN => false
  | Dbl m _ => 0 <? m
  | Inf negative => negb negative
  end.

(** [baseTurns.splice(1, 0, x)] *)
Definition splice1 (l : list JSValue) (x : JSValue) : list JSValue :=
  app (firstn 1 l) (x :: skipn 1 l).

(** The turns computed by [_ensureTurnsForBlock] for a block. *)
Definition turns_of_block (block : JSValue) : Res (list JSValue) :=
  let? content := get block "content" in
  (* Derive short turns from the block content, add Socratic elements *)
  let baseTurns := splitContentIntoTurns content in
  (* Add a Socratic question if available *)
  let socratic :=
    or_else (get_opt (get_own block "tutoring_elements") "socratic_questions")
            (JArr []) in
  let baseTurns :=
    if gt_zero (get_own socratic "length")
    then splice1 baseTurns (socratic_turn (get_own socratic "0"))
    else baseTurns in
  (* Clamp to a reasonable size *)
  Ok (firstn 6 baseTurns).

Definition ensureTurnsForBlock (st : SessionState) (i : nat) : Res SessionState :=
  match turnsByBlock st !! i with
  | Some _ => Ok st
  | None =>
      let? turns := turns_of_block (at_index (blocks st) i) in
      Ok (set_turns i turns st)
  end.

(** [(v || '').toLowerCase() === 'choice'] *)
Definition is_choice_type (v : JSValue) : Res bool :=
  let? t := call_toLowerCase (or_else v (JStr EmptyString)) in
  Ok (String.eqb t "choice").

Definition default_turn : JSValue :=
  JObj [("say", JStr "Continuing…"); ("question", JNull)].

Definition currentTurnPayload (st : SessionState) : Res JSValue :=
  let block := at_index (blocks st) (blockIndex st) in
  let turns := default [] (turnsByBlock st !! blockIndex st) in
  let turn := or_else (at_index turns (turnIndex st)) default_turn in
  let? blockId := get block "block_id" in
  let blockType := get_own block "type" in
  let? isChoice := is_choice_type blockType in
  Ok (JObj [
    ("sessionId", JStr (sessionId st));
    ("missionId", JStr (mission_id st));
    ("title", JStr (title st));
    ("blockId", blockId);
    ("blockType", blockType);
    ("indices", JObj [("block", jnat (blockIndex st)); ("turn", jnat (turnIndex st))]);
    ("tutor_turn", JObj [
       ("say", get_own turn "say");
       ("question", get_own turn "question");
       ("media", or_else (get_own block "media") JNull)]);
    ("choices",
       if isChoice then or_else (get_own block "choices") (JArr []) else JUndefined);
    ("next_hint",
       if truthy (get_own block "llm_instruction")
       then JStr "Tutor will guide with short, supportive turns." else JNull);
    ("done", JBool false)
  ]).

Definition lesson_complete : JSValue :=
  JObj [("done", JBool true); ("message", JStr "Lesson complete. Great job!")].

(** [{ ...payload, k1: v1, ... }] *)
Definition extend (payload : JSValue) (more : list (string * JSValue)) : JSValue :=
  match payload with
  | JObj props => JObj (obj_spread props more)
  | _ => JObj more
  end.

Section Engine.
Context {World : Type} (svc : Services World).

(** The state an operation on one session can reach: the session object
    and the world of the collaborators. *)
Definition Op (A : Type) : Type := SE (SessionState * World) A.

Definition in_world {A} (m : SE World A) : Op A :=
  fun s =>
    let '(r, w) := m (snd s) in (r, (fst s, w)).
Definition state : Op SessionState := gets fst.
Definition update (f : SessionState -> SessionState) : Op unit :=
  modify (fun s => (f (fst s), snd s)).
Definition try_state (f : SessionState -> Res SessionState) : Op unit :=
  fun s =>
    match f (fst s) with
    | Ok st => (Ok tt, (st, snd s))
    | Throw e => (Throw e, s)
    end.

(** Refresh personalization and context: three calls, each with its own
    fallback to the value held by the session. *)
Definition refresh : Op unit :=
  st <- state ;;
  p <- in_world (catch (generatePersonalizationInsights svc (user_id st))
                   (fun _ => ret (personalization st))) ;;
  e <- in_world (catch (generateEnhancedContext svc (user_id st))
                   (fun _ => ret (enhancedContext st))) ;;
  c <- in_world (catch (summarizeContext svc (user_id st))
                   (fun _ => ret (conversationSummary st))) ;;
  update (set_context p e c).

(** Generate the block of [nextStep], append it, move the cursor to it and
    memoize its turns. *)
Definition advance_to (nextStep : JSValue) : Op unit :=
  refresh ;;;
  st <- state ;;
  nextBlock <- in_world (generateContentForStep svc nextStep
    {| ctx_topic := topic st;
       ctx_userProfile := userProfile st;
       ctx_learningAnalysis :=
         or_else (obj_get (personalization st) "learningAnalysis") JNull;
       ctx_enhancedContext := enhancedContext st;
       ctx_previousBlocks := blocks st;
       ctx_conversationSummary := conversationSummary st |}) ;;
  update (push_block nextBlock) ;;;
  update (fun st => set_cursor (blockIndex st + 1) 0 st) ;;;
  try_state (fun st => ensureTurnsForBlock st (blockIndex st)).

Definition payload : Op JSValue :=
  st <- state ;; lift (currentTurnPayload st).

Definition nextTurn_session : Op JSValue :=
  st <- state ;;
  let blockIndex := blockIndex st in
  let turnIndex := turnIndex st in
  let turns := default [] (turnsByBlock st !! blockIndex) in
  if (turnIndex + 1 <? length turns)%nat then
    update (set_cursor blockIndex (turnIndex + 1)) ;;;
    payload
  else
    (* If current block is a choice, surface options and wait for submitResponse *)
    isChoice <- lift (is_choice_type (get_opt (at_index (blocks st) blockIndex) "type")) ;;
    if isChoice : bool then
      p <- payload ;;
      ret (extend p [
        ("awaitingChoice", JBool true);
        ("choices", or_else (get_own (at_index (blocks st) blockIndex) "choices") (JArr []))])
    else
      (* Move or generate next block *)
      let hasNextGenerated := (blockIndex + 1 <? length (blocks st))%nat in
      if hasNextGenerated then
        update (set_cursor (blockIndex + 1) 0) ;;;
        try_state (fun st => ensureTurnsForBlock st (blockIndex + 1)) ;;;
        payload
      else
        (* Lazily generate next step from plan *)
        let currentBlock := at_index (blocks st) blockIndex in
        block_id <- lift (get currentBlock "block_id") ;;
        let currentStepIdx := default blockIndex (plan_index st block_id) in
        let nextStep := at_index (plan st) (currentStepIdx + 1) in
        if truthy nextStep then
          advance_to nextStep ;;;
          payload
        else
          ret lesson_complete.

(** [choices.find(c => (c.text || '').toLowerCase() === wanted)] *)
Fixpoint find_choice (choices : list JSValue) (wanted : string) : Res JSValue :=
  match choices with
  | [] => Ok JUndefined
  | c :: rest =>
      let? text := get c "text" in
      let? t := call_toLowerCase (or_else text (JStr EmptyString)) in
      if String.eqb t wanted then Ok c else find_choice rest wanted
  end.

(** The option selected by [userResponse] among the choices of [block]. *)
Definition select_choice (block userResponse : JSValue) : Res JSValue :=
  let isObject := String.eqb (typeof userResponse) "object" in
  let? selectionIndex :=
    if isObject
    then (let? i := get userResponse "choiceIndex" in Ok (coalesce i JNull))
    else Ok JNull in
  let? selectionText :=
    if isObject
    then (let? t := get userResponse "choiceText" in Ok (coalesce t JNull))
    else Ok JNull in
  let choices :=
    if isArray (get_own block "choices") then get_own block "choices" else JArr [] in
  let byIndex :=
    if nullish selectionIndex then JUndefined
    else get_own choices (ToString selectionIndex) in
  if negb (nullish selectionIndex) && truthy byIndex then Ok byIndex
  else if truthy selectionText then
    match choices with
    | JArr cs => find_choice cs (toLowerCase (ToString selectionText))
    | _ => Ok JUndefined
    end
  else Ok JNull.

(** The plan step a choice block continues with. *)
Definition branch_target (st : SessionState) (block chosen : JSValue) : JSValue :=
  let nextId := or_else (get_opt chosen "next_block") JNull in
  let nextIdx := if nullish nextId then None else plan_index st nextId in
  let planIdxFallback :=
    (default (blockIndex st) (plan_index st (get_own block "block_id")) + 1)%nat in
  match nextIdx with
  | Some i => at_index (plan st) i
  | None => at_index (plan st) planIdxFallback
  end.

Definition response_text (userResponse : JSValue) : JSValue :=
  match userResponse with
  | JStr _ => userResponse
  | _ =>
      match JSON_stringify userResponse with
      | Some t => JStr t
      | None => JUndefined
      end
  end.

(** [0.6] *)
Definition six_tenths : number := Eval vm_compute in round_dec false 6 (-1).

(** The neutral feedback. *)
Definition default_feedback : JSValue :=
  JObj [("feedback", JStr "Thanks for sharing!");
        ("next_action", JStr "question");
        ("follow_up_question", JNull);
        ("confidence", JNum six_tenths)].

Definition maybeRecommendNext (feedback : JSValue) : Op JSValue :=
  st <- state ;;
  catch
    (strategy <- in_world (generateTutoringStrategy svc (user_id st)
       (JObj [("lessonData", JObj [("title", JStr (title st))]);
              ("currentBlock", at_index (blocks st) (blockIndex st));
              ("feedback", feedback)])) ;;
     actions <- lift (get strategy "actions") ;;
     methodology <- lift (get strategy "methodology") ;;
     ret (JObj [("next_actions", get_opt actions "immediate_actions");
                ("methodology", get_opt methodology "primary_methodology")]))
    (fun _ => ret JNull).

Definition submitResponse_session (userId : string) (userResponse : JSValue)
    : Op JSValue :=
  st <- state ;;
  let block := at_index (blocks st) (blockIndex st) in
  (* Real-time assessment feedback *)
  blockType <- lift (get block "type") ;;
  assessment <- in_world (catch
    (performRealTimeAssessment svc userId
       (JObj [("userResponse", response_text userResponse);
              ("responseTime", JNum (Int 0));
              ("questionType", or_else blockType (JStr "prompt"));
              ("expectedAnswer", or_else (get_own block "learning_goal") JNull);
              ("lessonContext",
                 JObj [("missionId", JStr (mission_id st));
                       ("title", JStr (title st)); ("block", block)]);
              ("previousAttempts", JNum (Int 0));
              ("hintUsage", JNum (Int 0))]))
    (fun _ => ret JNull)) ;;
  update (set_lastAssessment assessment) ;;;
  (* If awaiting a choice selection, branch generation *)
  isChoice <- lift (is_choice_type blockType) ;;
  if isChoice : bool then
    chosen <- lift (select_choice block userResponse) ;;
    let nextStep := branch_target st block chosen in
    (if truthy nextStep then advance_to nextStep else ret tt) ;;;
    p <- payload ;;
    ret (extend (JObj [("branched", JBool true); ("choice", or_else chosen JNull)])
           (match p with JObj props => props | _ => [] end))
  else
    (* Generate brief, natural feedback and a micro-next step using LLM *)
    feedback <- in_world (catch
      (resp <- generateResponse svc
                 (feedbackPrompt svc (title st) block userResponse) ;;
       lift (parseAIJSONResponse (JStr resp)))
      (fun _ => ret default_feedback)) ;;
    next_recommendation <- maybeRecommendNext feedback ;;
    ret (JObj [("assessment", assessment);
               ("feedback", feedback);
               ("next_recommendation", next_recommendation)]).

(** *** The session store *)

Record EngineState := {
  sessions : gmap string SessionState;
  world : World;
}.

Definition sessionKey (userId missionId : string) : string :=
  userId ++ ":" ++ missionId.

(** Run an operation on the session of a key: [_requireSession], then the
    body, whose writes land in the stored session object. *)
Definition on_session {A} (userId missionId : string) (op : Op A)
    : SE EngineState A :=
  fun eng =>
    match sessions eng !! sessionKey userId missionId with
    | None => (Throw (Error "Session not found"), eng)
    | Some st =>
        let '(r, (st', w')) := op (st, world eng) in
        (r, {| sessions := <[sessionKey userId missionId := st']> (sessions eng);
               world := w' |})
    end.

Definition nextTurn (userId missionId : string) : SE EngineState JSValue :=
  on_session userId missionId nextTurn_session.

Definition submitResponse (userId missionId : string) (userResponse : JSValue)
    : SE EngineState JSValue :=
  on_session userId missionId (submitResponse_session userId userResponse).

Definition endSession (userId missionId : string) : SE EngineState JSValue :=
  fun eng =>
    (Ok (JObj [("ended", JBool true)]),
     {| sessions := delete (sessionKey userId missionId) (sessions eng);
        world := world eng |}).

Definition getState (userId missionId : string) : SE EngineState SessionState :=
  on_session userId missionId state.

End Engine.

(** ** A concrete environment: every collaborator is unreachable *)

Definition offline : Services unit := {|
  generateResponse := fun _ => throw (Error "AI generation failed: offline");
  createLessonPlanPrompt := fun _ _ => "plan";
  stepPrompt := fun _ _ _ => Ok "step";
  feedbackPrompt := fun _ _ _ => "feedback";
  generatePersonalizationInsights := fun _ => throw (Error "offline");
  generateEnhancedContext := fun _ => throw (Error "offline");
  summarizeContext := fun _ => throw (Error "offline");
  performRealTimeAssessment := fun _ _ => throw (Error "offline");
  generateTutoringStrategy := fun _ _ => throw (Error "offline");
|}.

(** The generation service answers every prompt with [text]. *)
Definition answering (text : string) : Services unit := {|
  generateResponse := fun _ => ret text;
  createLessonPlanPrompt := fun _ _ => "plan";
  stepPrompt := fun _ _ _ => Ok "step";
  feedbackPrompt := fun _ _ _ => "feedback";
  generatePersonalizationInsights := fun _ => throw (Error "offline");
  generateEnhancedContext := fun _ => throw (Error "offline");
  summarizeContext := fun _ => throw (Error "offline");
  performRealTimeAssessment := fun _ _ => throw (Error "offline");
  generateTutoringStrategy := fun _ _ => throw (Error "offline");
|}.

Definition plan_of_index (steps : list JSValue) : list (string * nat) :=
  match index_steps steps 0 [] with
  | Ok idx => idx
  | Throw _ => []
  end.

(** A session at the start of the first block of [steps]. *)
Definition session_on (steps : list JSValue) (first : JSValue) (turns : list JSValue)
    : SessionState := {|
  sessionId := "u1:m1"; user_id := "u1"; mission_id := "m1";
  title := "Mission: orbits"; blocks := [first];
  personalization := []; enhancedContext := JObj [];
  conversationSummary := JStr EmptyString;
  topic := JStr "orbits"; userProfile := JObj [];
  plan := steps; planIndexById := plan_of_index steps;
  blockIndex := 0; turnIndex := 0;
  turnsByBlock := {[ 0%nat := turns ]};
  lastAssessment := JNull |}.

Definition step (id type : string) (options : JSValue) : JSValue :=
  JObj [("id", JStr id); ("type", JStr type); ("title", JStr id);
        ("objective", JStr "obj"); ("estimated_minutes", JNum (Int 2));
        ("options", options)].
Definition opt (text next : string) : JSValue :=
  JObj [("text", JStr text); ("next", JStr next)].

(** * More of the sources

    The functions of the sources beside the ones embedded above: how a
    session is opened, the cache and the passes of the lesson generator,
    the structure of a generated lesson, the planner pipeline of the
    orchestrator, the dialogue state of the tutoring strategy and the
    configuration helper. *)

(** ** Opening a session

    [startSession] of [lessonSessionEngine.js]. Besides the collaborators
    of the engine it reads the stored profile of the user and the clock.
    The fields of the lesson and of the state that no operation of the
    engine reads ([description], [total_blocks], [estimated_duration],
    [difficulty_level], [learning_objectives], [user.name], [startedAt],
    [history]) are not kept; the one among them whose evaluation can
    throw, [planSteps[0].estimated_minutes], is evaluated. The id of the
    user is held as its text, as everywhere in the engine. *)

Record Surroundings (World : Type) := {
  (* persistentMemory.getUserProfile(userId) *)
  getUserProfile : string -> SE World JSValue;
  (* Date.now(): the clock is read off the world *)
  now : World -> Z;
}.
Arguments getUserProfile {World} _ _ _.
Arguments now {World} _ _.

Section Start.
Context {World : Type} (svc : Services World) (env : Surroundings World).

(** A call of a collaborator from an operation of the engine itself. *)
Definition in_store {A} (m : SE World A) : SE (EngineState (World := World)) A :=
  fun eng =>
    let '(r, w) := m (world eng) in
    (r, {| sessions := sessions eng; world := w |}).

Definition startSession (user lessonRequest : JSValue)
    : SE (EngineState (World := World)) JSValue :=
  (* New pipeline: plan -> generate first block lazily *)
  let topic :=
    or_else (or_else (get_opt lessonRequest "topic")
                     (get_opt lessonRequest "baseLesson"))
            (JStr "space_exploration") in
  id <- lift (get user "id") ;;
  let userId := ToString id in
  userProfile <- in_store (catch (getUserProfile env userId)
    (fun _ => ret (JObj [
       ("identity",
          JObj [("name", or_else (get_own user "name") (JStr "Explorer"))]);
       ("learning", JObj [])]))) ;;
  planSteps <- in_store (createPlan svc topic userProfile) ;;
  t <- gets (fun eng => now env (world eng)) ;;
  let missionId := "dynamic_lesson_" ++ string_of_Z t in
  let sessionId := sessionKey userId missionId in
  personalization <- in_store (catch (generatePersonalizationInsights svc userId)
                                 (fun _ => ret [])) ;;
  enhancedContext <- in_store (catch (generateEnhancedContext svc userId)
                                 (fun _ => ret (JObj []))) ;;
  conversationSummary <- in_store (catch (summarizeContext svc userId)
                                     (fun _ => ret (JStr EmptyString))) ;;
  firstBlock <- in_store (generateContentForStep svc (at_index planSteps 0)
    {| ctx_topic := topic;
       ctx_userProfile := userProfile;
       ctx_learningAnalysis :=
         or_else (obj_get personalization "learningAnalysis") JNull;
       ctx_enhancedContext := enhancedContext;
       ctx_previousBlocks := [];
       ctx_conversationSummary := conversationSummary |}) ;;
  (* estimated_duration: (planSteps[0].estimated_minutes || 2) *)
  lift (get (at_index planSteps 0) "estimated_minutes") ;;;
  index <- lift (index_steps planSteps 0 []) ;;
  let state := {|
    sessionId := sessionId;
    user_id := userId;
    mission_id := missionId;
    title := "Mission: " ++ ToString topic;
    blocks := [firstBlock];
    personalization := personalization;
    enhancedContext := enhancedContext;
    conversationSummary := conversationSummary;
    topic := topic;
    userProfile := userProfile;
    plan := planSteps;
    planIndexById := index;
    blockIndex := 0;
    turnIndex := 0;
    turnsByBlock := ∅;
    lastAssessment := JNull |} in
  state <- lift (ensureTurnsForBlock state 0) ;;
  fun eng =>
    (currentTurnPayload state,
     {| sessions := <[sessionId := state]> (sessions eng); world := world eng |}).

End Start.

(** ** The lesson cache of the generator

    [generatedLessonsCache] of [dynamicLessonGenerator.js] is a [Map],
    which iterates in insertion order: a list of entries with pairwise
    distinct keys, the oldest first. *)

Fixpoint map_get {V} (m : list (string * V)) (k : string) : option V :=
  match m with
  | [] => None
  | (k', v) :: rest => if String.eqb k' k then Some v else map_get rest k
  end.

(** [Map.prototype.set]: the value of a present key is replaced where it
    is; a new key goes to the end. *)
Fixpoint map_set {V} (k : string) (v : V) (m : list (string * V))
    : list (string * V) :=
  match m with
  | [] => [(k, v)]
  | (k', v') :: rest =>
      if String.eqb k' k then (k', v) :: rest else (k', v') :: map_set k v rest
  end.

Fixpoint map_delete {V} (k : string) (m : list (string * V)) : list (string * V) :=
  match m with
  | [] => []
  | (k', v') :: rest =>
      if String.eqb k' k then rest else (k', v') :: map_delete k rest
  end.

Record CacheEntry := {
  cached_lesson : JSValue;   (* lesson *)
  timestamp : Z;             (* Date.now() at the time of caching *)
}.

Definition LessonCache : Type := list (string * CacheEntry).

Definition maxCacheSize : nat := 100.

(** [`${userId}_${lessonId}`] *)
Definition cacheKey (userId lessonId : JSValue) : string :=
  ToString userId ++ "_" ++ ToString lessonId.

(** [cacheGeneratedLesson(userId, lesson)] when the clock shows [now]. *)
Definition cacheGeneratedLesson (now : Z) (userId lesson : JSValue)
    : SE LessonCache unit :=
  fun cache =>
    let cache :=
      if (maxCacheSize <=? length cache)%nat then
        match cache with
        | (firstKey, _) :: _ => map_delete firstKey cache
        | [] => cache
        end
      else cache in
    match get lesson "mission_id" with
    | Ok mission_id =>
        (Ok tt,
         map_set (cacheKey userId mission_id)
           {| cached_lesson := lesson; timestamp := now |} cache)
    | Throw e => (Throw e, cache)
    end.

(** [getCachedLesson(userId, lessonId)] when the clock shows [now]. *)
Definition getCachedLesson (now : Z) (userId lessonId : JSValue)
    (cache : LessonCache) : JSValue :=
  let key := cacheKey userId lessonId in
  match map_get cache key with
  | Some cached =>
      if now - timestamp cached <? 30 * 60 * 1000
      then cached_lesson cached
      else JNull
  | None => JNull
  end.

(** ** The passes over a generated lesson

    The passes of [applyTutoringStrategies] in [dynamicLessonGenerator.js]
    work on [lesson.blocks], held as a list as in the session engine; the
    other fields of the lesson are not touched by them. *)

Definition assessment_checkpoint (i : nat) : JSValue :=
  JObj [
    ("block_id", JStr ("assessment_checkpoint_" ++ string_of_nat i));
    ("type", JStr "assessment");
    ("title", JStr "Knowledge Check");
    ("content", JStr "Let's pause and check your understanding so far...");
    ("learning_goal", JStr "Assess current understanding and identify gaps");
    ("assessment_type", JStr "formative");
    ("adaptive_feedback", JBool true);
    ("remediation_path", JStr "Review previous concepts if needed");
    ("advancement_path", JStr "Continue to next level if mastered")
  ].

(** [blocks.splice(i, 0, x)] for an index within the array. *)
Definition splice_at (i : nat) (x : JSValue) (blocks : list JSValue)
    : list JSValue :=
  app (firstn i blocks) (x :: skipn i blocks).

(** The loop of [addAssessmentCheckpoints]; one unit of fuel per test of
    the loop condition, [None] when the fuel runs out. *)
Fixpoint checkpoints_from (fuel assessmentInterval i : nat)
    (blocks : list JSValue) : option (list JSValue) :=
  match fuel with
  | O => None
  | S fuel' =>
      if (i <? length blocks)%nat then
        (* Insert assessment block *)
        checkpoints_from fuel' assessmentInterval (i + assessmentInterval)
          (splice_at i (assessment_checkpoint i) blocks)
      else Some blocks
  end.

Definition addAssessmentCheckpoints (fuel : nat) (blocks : list JSValue)
    : option (list JSValue) :=
  (* Math.ceil(lesson.blocks.length / 3) *)
  let assessmentInterval := ((length blocks + 2) / 3)%nat in
  checkpoints_from fuel assessmentInterval assessmentInterval blocks.

(** ** The structure of a generated lesson

    [generateLessonStructure] of [dynamicLessonGenerator.js]. The lists of
    the request are arrays, as the prompt needs them to be; the wording of
    the prompt is immaterial and building it may throw. *)

Record StructureParams := {
  sp_learningAnalysis : JSValue;
  sp_baseLessonTemplate : JSValue;
  sp_learningObjectives : list JSValue;
  sp_difficultyLevel : JSValue;
  sp_estimatedDuration : JSValue;
  sp_focusAreas : list JSValue;
  sp_weaknessesToAddress : list JSValue;
  sp_strengthsToLeverage : list JSValue;
}.

(** [Math.max(6, Math.min(12, Math.ceil(estimatedDuration / 2)))] *)
Definition fallback_totalBlocks (estimatedDuration : Z) : nat :=
  Z.to_nat (Z.max 6 (Z.min 12 ((estimatedDuration + 1) / 2))).

(** [Math.max(1, Math.round(estimatedDuration / totalBlocks))]: [Math.round]
    rounds a half upwards. *)
Definition fallback_minutes (estimatedDuration : Z) (totalBlocks : nat) : Z :=
  Z.max 1 ((2 * estimatedDuration + Z.of_nat totalBlocks)
           / (2 * Z.of_nat totalBlocks)).

(** The same two expressions on a duration that is not an integer. *)
Definition fallback_totalBlocks_of (estimatedDuration : number) : number :=
  Math_max (Int 6) (Math_min (Int 12) (Math_ceil (num_div estimatedDuration 2))).

Definition fallback_minutes_of (estimatedDuration : number) (totalBlocks : nat)
    : number :=
  Math_max (Int 1)
    (Math_round (num_div estimatedDuration (Z.of_nat totalBlocks))).

(** [list[i % Math.max(1, list.length)]] *)
Definition cycled (l : list JSValue) (i : nat) : JSValue :=
  at_index l (i mod Nat.max 1 (length l)).

(** One element of the fallback structure; [i] counts from 0. *)
Definition fallback_structure_block (params : StructureParams)
    (estimated_minutes : number) (totalBlocks i : nat) : JSValue :=
  let idx := (i + 1)%nat in
  let isChoice := (idx mod 3 =? 0)%nat in
  JObj [
    ("block_id",
       JStr ((if isChoice then "choice" else "block") ++ "_" ++ string_of_nat idx));
    ("type", JStr (if isChoice then "choice" else "narration"));
    ("title", JStr (if isChoice then "Decision Point " ++ string_of_nat idx
                    else "Learning Block " ++ string_of_nat idx));
    ("learning_focus",
       or_else (cycled (sp_focusAreas params) i)
         (or_else (cycled (sp_learningObjectives params) i) (JStr "core concept")));
    ("personalization_notes",
       JStr "Fallback structure tailored from provided parameters");
    ("estimated_minutes", JNum estimated_minutes);
    ("difficulty_progression",
       JStr (if (3 * i <? totalBlocks)%nat then "building"
             else if (3 * i <? 2 * totalBlocks)%nat then "developing"
             else "advancing"));
    ("tutoring_strategy",
       JStr (if isChoice then "guided practice" else "direct instruction"))
  ].

(** Fallback: a simple deterministic structure, at the time [now]. A
    duration that is not a number gives no block at all. *)
Definition fallback_structure (now : Z) (params : StructureParams) : JSValue :=
  let estimatedDuration := sp_estimatedDuration params in
  let learningObjectives := sp_learningObjectives params in
  let '(total_blocks, block_structure) :=
    match ToNumber estimatedDuration with
    | Int d =>
        let totalBlocks := fallback_totalBlocks d in
        (jnat totalBlocks,
         map (fallback_structure_block params
                (Int (fallback_minutes d totalBlocks)) totalBlocks)
           (seq 0 totalBlocks))
    | NaN => (JNum NaN, [])
    | d =>
        match fallback_totalBlocks_of d with
        | Int t =>
            let totalBlocks := Z.to_nat t in
            (jnat totalBlocks,
             map (fallback_structure_block params
                    (fallback_minutes_of d totalBlocks) totalBlocks)
               (seq 0 totalBlocks))
        | n => (JNum n, [])
        end
    end in
  JObj [
    ("mission_id", JStr ("dynamic_lesson_" ++ string_of_Z now));
    ("title", JStr "Adaptive Space Mission (Fallback)");
    ("description",
       JStr "Auto-generated structure due to AI unavailability. Uses provided objectives and focus areas.");
    ("total_blocks", total_blocks);
    ("estimated_duration", estimatedDuration);
    ("difficulty_level", sp_difficultyLevel params);
    ("learning_objectives",
       match learningObjectives with
       | _ :: _ => JArr learningObjectives
       | [] => JArr [JStr "Understand key ideas"; JStr "Practice application";
                     JStr "Reflect and connect"]
       end);
    ("personalization_strategy", JStr "Parameter-driven tailoring (fallback mode)");
    ("tutoring_approach", JStr "guided");
    ("block_structure", JArr block_structure)
  ].

Section Structure.
Context {World : Type} (svc : Services World).
(* the prompt of the structure, and [Date.now()] *)
Context (structurePrompt : StructureParams -> Res string) (clock : World -> Z).

Definition generateLessonStructure (params : StructureParams) : SE World JSValue :=
  prompt <- lift (structurePrompt params) ;;
  catch
    (response <- generateResponse svc prompt ;;
     lift (parseAIJSONResponse (JStr response)))
    (fun error => fun w => (Ok (fallback_structure (clock w) params), w)).

End Structure.

(** ** The planner pipeline of the orchestrator

    [handleDynamicLessonGeneration] of [aiOrchestrator.js]: plan, insights,
    one slide per step, lesson. *)

(** [planSteps.reduce((sum, s) => sum + (Number(s.estimated_minutes) || 2), 0)] *)
Fixpoint total_minutes (planSteps : list JSValue) (sum : number) : Res number :=
  match planSteps with
  | [] => Ok sum
  | s :: rest =>
      let? minutes := get s "estimated_minutes" in
      let m :=
        if truthy (JNum (ToNumber minutes)) then ToNumber minutes else Int 2 in
      total_minutes rest (num_add sum m)
  end.

(** The callback of [planSteps.map] for [block_structure]. *)
Definition structure_of_step (s : JSValue) : Res JSValue :=
  let? id := get s "id" in
  let? type := get s "type" in
  let? title := get s "title" in
  Ok (JObj [("block_id", id); ("type", type); ("title", title)]).

Section Orchestrator.
Context {World : Type} (svc : Services World) (env : Surroundings World).
(* enhancedPersonalizationEngine.generatePersonalizationInsights(userId, contextData) *)
Context (insightsFor : JSValue -> JSValue -> SE World JSValue).
(* new Date().toISOString() *)
Context (isoTime : World -> string).

(** Generate slides per step, sequentially; [blocks] are the slides so far. *)
Fixpoint generate_slides (topic fullProfile learningAnalysis : JSValue)
    (planSteps blocks : list JSValue) : SE World (list JSValue) :=
  match planSteps with
  | [] => ret blocks
  | step :: rest =>
      block <- generateContentForStep svc step
        {| ctx_topic := topic;
           ctx_userProfile := fullProfile;
           ctx_learningAnalysis := learningAnalysis;
           ctx_enhancedContext := JNull;
           ctx_previousBlocks := blocks;
           ctx_conversationSummary := JStr EmptyString |} ;;
      generate_slides topic fullProfile learningAnalysis rest (app blocks [block])
  end.

Definition handleDynamicLessonGeneration (context : JSValue) : SE World JSValue :=
  user <- lift (get context "user") ;;
  requestContext <- lift (get context "context") ;;
  userId <- lift (get user "id") ;;
  baseLesson <- lift (get requestContext "baseLesson") ;;
  let topic :=
    or_else (or_else baseLesson (get_own requestContext "topic"))
            (JStr "space_exploration") in
  (* 1) Plan *)
  fullProfile <- catch (getUserProfile env (ToString userId))
    (fun _ => ret (or_else (get_own context "userProfile") (JObj []))) ;;
  planSteps <- createPlan svc topic fullProfile ;;
  (* 2) Personalization insights *)
  personalizationInsights <- insightsFor userId
    (JObj [("currentLesson", JObj [("topic", topic); ("planSteps", JArr planSteps)]);
           ("forceRefresh", JBool false)]) ;;
  (* 3) Generate slides per step *)
  learningAnalysis <- lift (get personalizationInsights "learningAnalysis") ;;
  blocks <- generate_slides topic fullProfile (or_else learningAnalysis JNull)
              planSteps [] ;;
  (* 4) Assemble lesson *)
  now <- gets (now env) ;;
  let missionId := "dynamic_lesson_" ++ string_of_Z now in
  estimated_duration <- lift (total_minutes planSteps (Int 0)) ;;
  block_structure <- lift (map_res structure_of_step planSteps) ;;
  generated_at <- gets isoTime ;;
  let generatedLesson := JObj [
    ("mission_id", JStr missionId);
    ("title", JStr ("Mission: " ++ ToString topic));
    ("description", JStr "Personalized, interactive lesson with branching choices.");
    ("total_blocks", jnat (length blocks));
    ("estimated_duration", JNum estimated_duration);
    ("difficulty_level",
       or_else (get_own requestContext "difficultyLevel") (JStr "adaptive"));
    ("learning_objectives",
       or_else (get_own requestContext "learningObjectives") (JArr []));
    ("block_structure", JArr block_structure);
    ("blocks", JArr blocks);
    ("generated_at", JStr generated_at);
    ("user_id", userId);
    ("personalization_applied", JBool true)
  ] in
  ret (JObj [
    ("message",
       JStr ("I've created a personalized multi-step lesson on "
             ++ quoted (ToString topic) ++ " with "
             ++ string_of_nat (length blocks) ++ " slides."));
    ("type", JStr "dynamic_lesson_generation");
    ("lesson", generatedLesson);
    ("personalization", personalizationInsights);
    ("metadata", JObj [
       ("generation_method", JStr "planner_worker_pipeline");
       ("personalization_confidence", get_own personalizationInsights "confidence");
       ("total_blocks", jnat (length blocks))])
  ]).

End Orchestrator.

(** ** The Socratic dialogue state of the tutoring strategy

    [updateSocraticDialogue] of the tutoring strategy module: per user, the
    questions asked so far and their count. *)

Record Dialogue := {
  sequence : list JSValue;
  depth : Z;
  last_update : Z;
}.

(** [list.slice(-n)] *)
Definition last_n (n : nat) (l : list JSValue) : list JSValue :=
  skipn (length l - n) l.

(** The entry of a questioning strategy, made at the time [now]. *)
Definition socratic_entry (now : Z) (questioningStrategy : JSValue) : Res JSValue :=
  let? questioning_sequence := get questioningStrategy "questioning_sequence" in
  Ok (JObj [
    ("timestamp", JNum (Int now));
    ("strategy", questioningStrategy);
    ("question",
       or_else (get_opt (get_opt questioning_sequence "opening_questions")
                        "knowledge_probe")
               (JStr "What do you think about this?"))
  ]).

(** [updateSocraticDialogue(userId, questioningStrategy)]; the clock shows
    [now] when the entry is made and [later] when the state is stamped. *)
Definition updateSocraticDialogue (now later : Z) (userId : string)
    (questioningStrategy : JSValue) : SE (gmap string Dialogue) unit :=
  fun socraticDialogueState =>
    let current :=
      default {| sequence := []; depth := 0; last_update := 0 |}
              (socraticDialogueState !! userId) in
    match socratic_entry now questioningStrategy with
    | Ok entry =>
        (Ok tt,
         <[userId := {|
             (* Keep last 10 questions *)
             sequence := last_n 10 (app (sequence current) [entry]);
             depth := depth current + 1;
             last_update := later |}]> socraticDialogueState)
    | Throw e => (Throw e, socraticDialogueState)
    end.

(** ** The configuration helper

    [parseOrigins] of the centralized configuration: the list of allowed
    origins read from an environment value. *)

(** [s.split(sep)] for a separator of one character. *)
Fixpoint split_char (sep : ascii) (s : string) : list string :=
  match s with
  | EmptyString => [EmptyString]
  | String c s' =>
      if Ascii.eqb c sep then EmptyString :: split_char sep s'
      else
        match split_char sep s' with
        | x :: xs => String c x :: xs
        | [] => [str1 c]
        end
  end.

Definition parseOrigins (envValue : JSValue) : list string :=
  match envValue with
  | JStr s =>
      if nonempty s
      then filter (fun o => nonempty o = true) (map trim (split_char "," s))
      else []
  | _ => []
  end.

(** * The vocabulary of the properties

    Predicates, measures and sample data the statements below are written
    with. *)

Definition first_char (s : string) : option ascii :=
  match s with
  | EmptyString => None
  | String c _ => Some c
  end.

Definition step_ids (steps : list JSValue) : list JSValue :=
  map (fun s => get_own s "id") steps.

Definition minutes_at_least_one (s : JSValue) : bool :=
  match get_own s "estimated_minutes" with
  | JNum (Int z) => 1 <=? z
  | JNum (Dbl m e) => 2 ^ (- e) <=? m
  | JNum (Inf negative) => negb negative
  | _ => false
  end.

Definition enumerated_type (s : JSValue) : bool :=
  match get_own s "type" with
  | JStr t =>
      String.eqb t "narration" || String.eqb t "quiz" || String.eqb t "image"
      || String.eqb t "reflection" || String.eqb t "choice"
  | _ => false
  end.

(** What normalization guarantees of a step: a present id, a lower-case
    type, a number of minutes. *)
Definition normalized (s : JSValue) : Prop :=
  truthy (get_own s "id") = true /\
  (exists t, get_own s "type" = JStr (toLowerCase t)) /\
  (exists n, get_own s "estimated_minutes" = JNum n).

Definition no_context : GenContext := {|
  ctx_topic := JStr "orbits"; ctx_userProfile := JObj [];
  ctx_learningAnalysis := JNull; ctx_enhancedContext := JObj [];
  ctx_previousBlocks := []; ctx_conversationSummary := JStr EmptyString |}.

(** The payload of a session whose current block is an object with a
    textual type. *)
Definition payload_of (st : SessionState) (isChoice : bool) : JSValue :=
  let block := at_index (blocks st) (blockIndex st) in
  let turns := default [] (turnsByBlock st !! blockIndex st) in
  let turn := or_else (at_index turns (turnIndex st)) default_turn in
  JObj [
    ("sessionId", JStr (sessionId st));
    ("missionId", JStr (mission_id st));
    ("title", JStr (title st));
    ("blockId", get_own block "block_id");
    ("blockType", get_own block "type");
    ("indices", JObj [("block", jnat (blockIndex st)); ("turn", jnat (turnIndex st))]);
    ("tutor_turn", JObj [
       ("say", get_own turn "say");
       ("question", get_own turn "question");
       ("media", or_else (get_own block "media") JNull)]);
    ("choices",
       if isChoice then or_else (get_own block "choices") (JArr []) else JUndefined);
    ("next_hint",
       if truthy (get_own block "llm_instruction")
       then JStr "Tutor will guide with short, supportive turns." else JNull);
    ("done", JBool false)
  ].

(** A block the engine can present: an object, or at least a value that is
    neither [null] nor [undefined], whose [type] is text or absent. *)
Definition block_ok (b : JSValue) : bool :=
  negb (nullish b) &&
  match or_else (get_own b "type") (JStr EmptyString) with
  | JStr _ => true
  | _ => false
  end.

(** What [ensureTurnsForBlock] leaves alone. *)
Definition same_but_turns (st st' : SessionState) : Prop :=
  blocks st' = blocks st /\ blockIndex st' = blockIndex st /\
  turnIndex st' = turnIndex st /\ plan st' = plan st /\
  planIndexById st' = planIndexById st /\
  lastAssessment st' = lastAssessment st.

(** The state after the block [b] has been appended and the cursor moved to
    the next position. *)
Definition advanced (b : JSValue) (st : SessionState) : SessionState :=
  set_cursor (blockIndex st + 1) 0 (push_block b st).

(** The response of [submitResponse] on a choice block, from the payload of
    the state it ends in. *)
Definition branched_response (chosen : JSValue) (st : SessionState) : Res JSValue :=
  let? p := currentTurnPayload st in
  Ok (extend (JObj [("branched", JBool true); ("choice", or_else chosen JNull)])
        (match p with JObj props => props | _ => [] end)).

(** Every block the generator yields can be presented. *)
Definition yields_blocks {World : Type} (svc : Services World) : Prop :=
  forall step ctx (w : World) b,
    fst (generateContentForStep svc step ctx w) = Ok b -> block_ok b = true.

(** An option that the text [wanted] does not name. *)
Definition unmatched (wanted : string) (c : JSValue) : Prop :=
  nullish c = false /\
  exists s, or_else (get_own c "text") (JStr EmptyString) = JStr s /\
    toLowerCase s <> wanted.

Definition choices_of (block : JSValue) : list JSValue :=
  match get_own block "choices" with
  | JArr cs => cs
  | _ => []
  end.

(** The outcome of [submitResponse] on a choice block: the response is
    branched and carries [choice]; the session has moved to a block
    generated for the step [target] when there is such a step, and has kept
    its blocks and its cursor when there is none. *)
Definition branches_to {World : Type} (svc : Services World)
    (eng : EngineState (World := World)) (u m : string) (st : SessionState)
    (resp choice target : JSValue) : Prop :=
  exists p eng' st',
    submitResponse svc u m resp eng = (Ok p, eng') /\
    get_own p "branched" = JBool true /\
    get_own p "choice" = choice /\
    sessions eng' !! sessionKey u m = Some st' /\
    if truthy target then
      exists b,
        (exists ctx w0,
           fst (generateContentForStep svc target ctx w0) = Ok b) /\
        blocks st' = (blocks st ++ [b])%list /\
        blockIndex st' = (blockIndex st + 1)%nat /\ turnIndex st' = 0%nat /\
        get_own p "blockId" = get_own b "block_id"
    else
      blocks st' = blocks st /\ blockIndex st' = blockIndex st /\
      turnIndex st' = turnIndex st.

(** An option that the text [wanted] names. *)
Definition matched (wanted : string) (c : JSValue) : Prop :=
  nullish c = false /\
  exists s, or_else (get_own c "text") (JStr EmptyString) = JStr s /\
    toLowerCase s = wanted.

Definition engine_with (st : SessionState) : EngineState (World := unit) :=
  {| sessions := {[ sessionKey "u1" "m1" := st ]}; world := tt |}.

Definition block_for (s : JSValue) : JSValue :=
  match fst (generateContentForStep offline s no_context tt) with
  | Ok b => b
  | Throw _ => JNull
  end.

Definition turns_for (b : JSValue) : list JSValue :=
  match turns_of_block b with
  | Ok turns => turns
  | Throw _ => []
  end.

(** Scenario B: step [s1] is a choice between [s2] and [s3]. *)
Definition plan_b : list JSValue :=
  [step "s1" "choice" (JArr [opt "A" "s2"; opt "B" "s3"]);
   step "s2" "narration" JUndefined;
   step "s3" "narration" JUndefined].

Definition session_b : SessionState :=
  session_on plan_b (block_for (step "s1" "choice" (JArr [opt "A" "s2"; opt "B" "s3"])))
    (turns_for (block_for (step "s1" "choice" (JArr [opt "A" "s2"; opt "B" "s3"])))).

(** The engine state with the session of a key replaced. *)
Definition with_session {World : Type} (eng : EngineState (World := World))
    (u m : string) (st : SessionState) : EngineState :=
  {| sessions := <[sessionKey u m := st]> (sessions eng); world := world eng |}.

(** [n] calls of [nextTurn] in a row: the results and the final state. *)
Fixpoint nextTurn_times {World : Type} (svc : Services World) (n : nat)
    (u m : string) (eng : EngineState (World := World)) :
    list (Res JSValue) * EngineState :=
  match n with
  | O => ([], eng)
  | S k =>
      let '(r, eng1) := nextTurn svc u m eng in
      let '(rs, eng2) := nextTurn_times svc k u m eng1 in
      (r :: rs, eng2)
  end.

(** A narration block of two paragraphs, as the generator returns it. *)
Definition narration_block (id : string) : JSValue :=
  JObj [("block_id", JStr id); ("type", JStr "narration");
        ("title", JStr id);
        ("content",
          JStr ("Orbits are paths." ++ String nl (String nl "Gravity bends them.")));
        ("learning_goal", JStr "obj")].

(** A plan of one narration step; the session is on its block. *)
Definition plan_a : list JSValue := [step "s1" "narration" JUndefined].

Definition session_a : SessionState :=
  session_on plan_a (narration_block "s1") (turns_for (narration_block "s1")).

(** A plan of two narration steps; the session is on the block of the
    first. *)
Definition plan_c : list JSValue :=
  [step "s1" "narration" JUndefined; step "s2" "narration" JUndefined].

Definition session_c : SessionState :=
  session_on plan_c (narration_block "s1") (turns_for (narration_block "s1")).

(** The session of plan [plan_a] on the last turn of its only block. *)
Definition session_end : SessionState := set_cursor 0 1 session_a.

(** The assessment service answers; the other collaborators are
    unreachable. *)
Definition assessing : Services unit := {|
  generateResponse := fun _ => throw (Error "AI generation failed: offline");
  createLessonPlanPrompt := fun _ _ => "plan";
  stepPrompt := fun _ _ _ => Ok "step";
  feedbackPrompt := fun _ _ _ => "feedback";
  generatePersonalizationInsights := fun _ => throw (Error "offline");
  generateEnhancedContext := fun _ => throw (Error "offline");
  summarizeContext := fun _ => throw (Error "offline");
  performRealTimeAssessment := fun _ _ => ret (JObj [("score", JNum (Int 1))]);
  generateTutoringStrategy := fun _ _ => throw (Error "offline");
|}.

Fixpoint distinct (ks : list string) : bool :=
  match ks with
  | [] => true
  | k :: rest => negb (existsb (String.eqb k) rest) && distinct rest
  end.

(** The values [JSON.stringify] writes in full: no [undefined], no [NaN],
    no infinity, no key twice in an object. *)
Fixpoint valid_json (v : JSValue) : bool :=
  match v with
  | JUndefined => false
  | JNull | JBool _ | JStr _ => true
  | JNum (Int _) => true
  | JNum (Dbl m e) => is_double m e
  | JNum NaN | JNum (Inf _) => false
  | JArr items =>
      (fix all (l : list JSValue) : bool :=
         match l with
         | [] => true
         | x :: l' => valid_json x && all l'
         end) items
  | JObj props =>
      (fix all (l : list (string * JSValue)) : bool :=
         match l with
         | [] => true
         | (_, x) :: l' => valid_json x && all l'
         end) props
      && distinct (map fst props)
  end.

Fixpoint json_size (v : JSValue) : nat :=
  match v with
  | JArr items =>
      S ((fix sum (l : list JSValue) : nat :=
            match l with
            | [] => O
            | x :: l' => (json_size x + sum l')%nat
            end) items)
  | JObj props =>
      S ((fix sum (l : list (string * JSValue)) : nat :=
            match l with
            | [] => O
            | (_, x) :: l' => (json_size x + sum l')%nat
            end) props)
  | _ => 1%nat
  end.

Definition element_text (x : JSValue) : string :=
  match JSON_stringify x with
  | Some t => t
  | None => "null"
  end.

Definition member_text (kx : string * JSValue) : string :=
  quote_json (fst kx) ++ ":" ++ element_text (snd kx).

(** What may follow a value inside a text: nothing, a comma or a closing
    bracket. *)
Definition closes (rest : string) : bool :=
  match rest with
  | EmptyString => true
  | String c _ => Ascii.eqb c "," || Ascii.eqb c "]" || Ascii.eqb c "}"
  end.

Section JSValue_induction.
Variable P : JSValue -> Prop.
Hypothesis Hundef : P JUndefined.
Hypothesis Hnull : P JNull.
Hypothesis Hbool : forall b, P (JBool b).
Hypothesis Hnum : forall n, P (JNum n).
Hypothesis Hstr : forall s, P (JStr s).
Hypothesis Harr : forall items, Forall P items -> P (JArr items).
Hypothesis Hobj : forall props, Forall (fun kx => P (snd kx)) props -> P (JObj props).

Fixpoint JSValue_nested_ind (v : JSValue) : P v :=
  match v with
  | JUndefined => Hundef
  | JNull => Hnull
  | JBool b => Hbool b
  | JNum n => Hnum n
  | JStr s => Hstr s
  | JArr items =>
      Harr items
        ((fix go (l : list JSValue) : Forall P l :=
            match l with
            | [] => List.Forall_nil P
            | x :: l' => List.Forall_cons P x l' (JSValue_nested_ind x) (go l')
            end) items)
  | JObj props =>
      Hobj props
        ((fix go (l : list (string * JSValue)) : Forall (fun kx => P (snd kx)) l :=
            match l with
            | [] => List.Forall_nil _
            | kx :: l' =>
                List.Forall_cons _ kx l' (JSValue_nested_ind (snd kx)) (go l')
            end) props)
  end.

End JSValue_induction.

Definition not_digit_first (rest : string) : bool :=
  match rest with
  | EmptyString => true
  | String c _ => negb (is_digit c)
  end.

(** The first character of the text of a value. *)
Definition opens (c : ascii) : bool :=
  is_digit c || Ascii.eqb c "-" || Ascii.eqb c "n" || Ascii.eqb c "t"
  || Ascii.eqb c "f" || Ascii.eqb c dq || Ascii.eqb c "[" || Ascii.eqb c "{".

(** Parsing the text of a value gives the value back, whatever closes the
    value in the surrounding text. *)
Definition parses (v : JSValue) : Prop :=
  forall (fuel : nat) (t rest : string),
    valid_json v = true -> JSON_stringify v = Some t ->
    (json_size v <= fuel)%nat -> closes rest = true ->
    parse_value fuel (t ++ rest) = Some (v, rest).

Definition a1_b2 : JSValue := JObj [("a", JNum (Int 1)); ("b", JNum (Int 2))].

Definition sample_value : JSValue :=
  JObj [("id", JStr "s1"); ("minutes", JNum (Int (-3)));
        ("confidence", JNum six_tenths);
        ("tags", JArr [JStr ("a" ++ str1 dq ++ str1 nl); JNull; JBool true]);
        ("more", JObj [])].

(** ** For the properties of the regular expressions *)

(** No character of [s] is one of [ban]. *)
Fixpoint free (ban : ascii -> bool) (s : string) : bool :=
  match s with
  | EmptyString => true
  | String c s' => negb (ban c) && free ban s'
  end.

(** Every match of the expression takes a character of [ban]. *)
Inductive Needs (ban : ascii -> bool) : regex -> Prop :=
| Needs_chr (a : ascii) : ban a = true -> Needs ban (Chr a)
| Needs_cls (q : ascii -> bool) :
    (forall c, q c = true -> ban c = true) -> Needs ban (Cls q)
| Needs_seq_l (r1 r2 : regex) : Needs ban r1 -> Needs ban (Seq r1 r2)
| Needs_seq_r (r1 r2 : regex) : Needs ban r2 -> Needs ban (Seq r1 r2)
| Needs_alt (r1 r2 : regex) : Needs ban r1 -> Needs ban r2 -> Needs ban (Alt r1 r2)
| Needs_grp (i : nat) (r : regex) : Needs ban r -> Needs ban (Grp i r).

(** The characters the readings of a generated text react to: the back
    quote, the slash, the colon, the quotation mark, the braces and the
    brackets. *)
Definition json_marks : ascii -> bool :=
  one_of ("`/:" ++ str1 dq ++ "{}[]").

(** A text that holds none of these characters and does not start, after
    white space, like a JSON value. *)
Definition prose (s : string) : bool :=
  free json_marks s &&
  match trimStart s with
  | EmptyString => true
  | String c _ => negb (opens c)
  end.

(** The text ends with a full stop, an exclamation mark or a question
    mark, and inside it no white space follows such a mark or a line
    feed. *)
Fixpoint steady (s : string) : bool :=
  match s with
  | EmptyString => false
  | String c EmptyString => one_of ".!?" c
  | String c (String d _ as s') =>
      negb ((Ascii.eqb c nl || one_of ".!?" c) && is_space d) && steady s'
  end.

(** No white space follows a line feed, and the last character is not a
    line feed. *)
Fixpoint calm (s : string) : bool :=
  match s with
  | EmptyString => true
  | String c EmptyString => negb (Ascii.eqb c nl)
  | String c (String d _ as s') => negb (Ascii.eqb c nl && is_space d) && calm s'
  end.

(** A sentence for the turn splitter: such a text that starts with a
    character that is not white space. *)
Definition sentence_ok (s : string) : bool :=
  match s with
  | EmptyString => false
  | String c _ => negb (is_space c) && steady s
  end.

(** The content made of paragraphs of sentences: the sentences of a
    paragraph separated by a space, the paragraphs by an empty line. *)
Definition blank_line : string := String nl (String nl EmptyString).
Definition content_of (paragraphs : list (list string)) : string :=
  join blank_line (map (join " ") paragraphs).

(** No colon of the text comes right after white space or a character of
    an identifier; [quiet] says that the character before the text is one
    of these. *)
Fixpoint colons_ok (quiet : bool) (s : string) : bool :=
  match s with
  | EmptyString => true
  | String c r =>
      negb (quiet && Ascii.eqb c ":")
      && colons_ok (is_space c || is_ident_part c) r
  end.

(** The first character after the white space at the start of the text, if
    there is one, is not one of [chars]. *)
Definition not_next (chars : string) (s : string) : bool :=
  match trimStart s with
  | EmptyString => true
  | String d _ => negb (one_of chars d)
  end.

(** No comma of the text has a closing brace or bracket as the next
    character that is not white space. *)
Fixpoint commas_ok (s : string) : bool :=
  match s with
  | EmptyString => true
  | String c r =>
      (if Ascii.eqb c "," then not_next "}]" r else true) && commas_ok r
  end.

(** A text on which the repair pass finds nothing to repair: no backtick,
    slash, apostrophe or line feed; no colon right after white space or a
    character of an identifier, and no comma before a closing brace or
    bracket; no brace or bracket left open; and no white space at either
    end. *)
Definition tidy (s : string) : bool :=
  free (one_of ("`/'" ++ String nl EmptyString)) s
  && colons_ok false s && commas_ok s
  && (count_char "{" s <=? count_char "}" s)%nat
  && (count_char "[" s <=? count_char "]" s)%nat
  && String.eqb (trim s) s.

(** The text in a fenced code block. *)
Definition fenced (s : string) : string :=
  "```json" ++ String nl (s ++ String nl "```").

(** A paragraph as the splitter leaves it: nothing to trim, and no blank
    line inside. *)
Definition paragraph_ok (p : string) : Prop :=
  calm p = true
  /\ (exists d r, p = String d r /\ is_space d = false)
  /\ (exists x l, p = x ++ str1 l /\ is_space l = false).

(** Two paragraphs: one of three sentences, the second of them over two
    lines, and one of a single sentence. *)
Definition lesson_paragraphs : list (list string) :=
  [["Plants make food from light.";
    "They use water" ++ String nl "and air!";
    "This is called photosynthesis."];
   ["What do you think?"]].

Definition lesson_block : JSValue :=
  JObj [("block_id", JStr "step_1"); ("type", JStr "narration");
        ("content", JStr (content_of lesson_paragraphs));
        ("tutoring_elements",
          JObj [("socratic_questions", JArr [JStr "Where does the air go?"])])].

(** ** For the further properties *)

(** What a session keeps through every operation of the engine: the blocks
    generated so far, the turns memoized so far, the plan and the
    identities; and the cursor does not move backwards. *)
Definition grown (st st' : SessionState) : Prop :=
  blocks st `prefix_of` blocks st' /\
  (forall i turns,
     turnsByBlock st !! i = Some turns -> turnsByBlock st' !! i = Some turns) /\
  plan st' = plan st /\ planIndexById st' = planIndexById st /\
  sessionId st' = sessionId st /\ user_id st' = user_id st /\
  mission_id st' = mission_id st /\ title st' = title st /\
  topic st' = topic st /\ userProfile st' = userProfile st /\
  (blockIndex st <= blockIndex st')%nat.

(** An operation under which a session only grows, whatever it returns. *)
Definition growing (World : Type) {A : Type} (op : Op (World := World) A) : Prop :=
  forall st w, grown st (fst (snd (op (st, w)))).

(** The cursor of a session is on the last of its blocks. *)
Definition on_last_block (st : SessionState) : Prop :=
  (blockIndex st + 1 = length (blocks st))%nat.

(** An operation that leaves the cursor on the last block when it is
    there, whatever it returns. *)
Definition keeps_last (World : Type) {A : Type} (op : Op (World := World) A)
    : Prop :=
  forall st w, on_last_block st -> on_last_block (fst (snd (op (st, w)))).

(** The profile store is unreachable and the clock shows [t]. *)
Definition clock_at (t : Z) : Surroundings unit := {|
  getUserProfile := fun _ => throw (Error "offline");
  now := fun _ => t;
|}.

(** The keys of a cache are pairwise distinct and it is not over its size. *)
Definition cache_ok (cache : LessonCache) : Prop :=
  NoDup (map fst cache) /\ (length cache <= maxCacheSize)%nat.

Definition full_cache : LessonCache :=
  map (fun i => ("u_" ++ string_of_nat i,
                 {| cached_lesson := JNull; timestamp := 0 |}))
      (seq 0 100).

(** The blocks [rest] with a checkpoint before every stretch of
    [interval - 1] of them; the first checkpoint has index [i]. *)
Fixpoint interleaved (fuel interval i : nat) (rest : list JSValue)
    : list JSValue :=
  match fuel, rest with
  | S fuel', _ :: _ =>
      assessment_checkpoint i ::
        app (firstn (interval - 1) rest)
            (interleaved fuel' interval (i + interval) (skipn (interval - 1) rest))
  | _, _ => []
  end.

(** A block of a lesson structure is a narration or a choice. *)
Definition narration_or_choice (b : JSValue) : bool :=
  match get_own b "type" with
  | JStr t => String.eqb t "narration" || String.eqb t "choice"
  | _ => false
  end.

Definition twenty_minutes : StructureParams := {|
  sp_learningAnalysis := JObj [];
  sp_baseLessonTemplate := JNull;
  sp_learningObjectives := [];
  sp_difficultyLevel := JStr "adaptive";
  sp_estimatedDuration := JNum (Int 20);
  sp_focusAreas := [JStr "orbits"];
  sp_weaknessesToAddress := [];
  sp_strengthsToLeverage := [];
|}.

(** The updates of a list, one after the other; an update that throws
    leaves the state as it is. *)
Definition dialogue_after (userId : string)
    (updates : list (Z * Z * JSValue)) (state : gmap string Dialogue)
    : gmap string Dialogue :=
  fold_left
    (fun s u => snd (updateSocraticDialogue (fst (fst u)) (snd (fst u)) userId (snd u) s))
    updates state.

(** The entries of a list of updates. *)
Definition entries_of (updates : list (Z * Z * JSValue)) : list JSValue :=
  map (fun u => match socratic_entry (fst (fst u)) (snd u) with
                | Ok entry => entry
                | Throw _ => JUndefined
                end) updates.

(** An origin as [parseOrigins] returns it: not empty, without white space
    at either end, without a comma. *)
Definition origin_ok (o : string) : Prop :=
  o <> EmptyString /\ trim o = o /\ count_char "," o = 0%nat.

(** * Properties *)

(** ** Numerals *)

Lemma digit_char_spec (d : nat) :
  (d < 10)%nat ->
  is_digit (digit_char d) = true /\
  digit_value (digit_char d) = N.of_nat d /\
  (digit_char d = "0"%char -> d = 0%nat).
Proof.
  intros H.
  do 10 (destruct d as [|d]; [repeat split; try reflexivity; try discriminate|]).
  lia.
Qed.

Lemma append_assoc (a b c : string) : (a ++ b) ++ c = a ++ (b ++ c).
Proof. induction a as [|x a IH]; simpl; [reflexivity|by rewrite IH]. Qed.

Lemma append_nil_r (a : string) : a ++ EmptyString = a.
Proof. induction a as [|x a IH]; simpl; [reflexivity|by rewrite IH]. Qed.

Lemma slen_app (a b : string) :
  String.length (a ++ b) = (String.length a + String.length b)%nat.
Proof. induction a as [|x a IH]; simpl; [reflexivity|by rewrite IH]. Qed.

Lemma all_digits_app (a b : string) :
  all_digits (a ++ b) = all_digits a && all_digits b.
Proof.
  induction a as [|x a IH]; simpl; [reflexivity|].
  rewrite IH. by rewrite andb_assoc.
Qed.

Lemma N_of_digits_app (a b : string) (acc : N) :
  N_of_digits (a ++ b) acc = N_of_digits b (N_of_digits a acc).
Proof. revert acc. induction a as [|x a IH]; intros acc; simpl; [reflexivity|apply IH]. Qed.

Lemma digits_of_pos_fuel_spec (fuel : nat) :
  forall (n : N) (acc : string),
    (n < 2 ^ N.of_nat fuel)%N ->
    exists d,
      digits_of_pos_fuel fuel n acc = d ++ acc /\
      all_digits d = true /\
      (forall a, N_of_digits d a = (a * 10 ^ N.of_nat (slen d) + n)%N) /\
      (n <> 0%N -> d <> EmptyString /\ first_char d <> Some "0"%char) /\
      (n = 0%N -> fuel <> 0%nat -> d = "0").
Proof.
  induction fuel as [|f IH]; intros n acc Hn.
  - exists EmptyString. simpl in *.
    split; [reflexivity|]. split; [reflexivity|]. split; [intros a; lia|].
    split; [lia|congruence].
  - cbn [digits_of_pos_fuel].
    pose proof (N.div_mod n 10 ltac:(lia)) as Hdm.
    pose proof (N.mod_upper_bound n 10 ltac:(lia)) as Hub.
    assert (Hd : (N.to_nat (n mod 10) < 10)%nat) by lia.
    destruct (digit_char_spec _ Hd) as (Hdig & Hval & Hzero).
    destruct (N.eqb_spec (n / 10) 0) as [Hq|Hq].
    + exists (String (digit_char (N.to_nat (n mod 10))) EmptyString).
      split; [reflexivity|].
      split; [cbn [all_digits]; by rewrite Hdig|].
      split.
      { intros a. cbn [N_of_digits slen String.length]. rewrite Hval.
        change (10 ^ N.of_nat 1)%N with 10%N. lia. }
      split.
      * intros Hn0. split; [discriminate|].
        cbn [first_char]. intros [= H0]. apply Hzero in H0. lia.
      * intros -> _. reflexivity.
    + assert (Hlt : (n / 10 < 2 ^ N.of_nat f)%N).
      { replace (N.of_nat (S f)) with (N.succ (N.of_nat f)) in Hn by lia.
        rewrite N.pow_succ_r' in Hn. lia. }
      destruct (IH (n / 10)%N (String (digit_char (N.to_nat (n mod 10))) acc) Hlt)
        as (d & Hd1 & Hd2 & Hd3 & Hd4 & _).
      exists (d ++ String (digit_char (N.to_nat (n mod 10))) EmptyString).
      rewrite Hd1, append_assoc.
      split; [reflexivity|].
      split; [rewrite all_digits_app, Hd2; cbn [all_digits]; by rewrite Hdig|].
      split.
      { intros a. rewrite N_of_digits_app, Hd3. cbn [N_of_digits]. rewrite Hval.
        unfold slen. rewrite slen_app. cbn [String.length].
        replace (N.of_nat (String.length d + 1))
          with (N.succ (N.of_nat (String.length d))) by lia.
        rewrite N.pow_succ_r'. lia. }
      split.
      * intros _. destruct (Hd4 Hq) as [Hne Hf].
        destruct d; [done|]. split; [discriminate|exact Hf].
      * intros ->. done.
Qed.

Lemma string_of_N_spec (n : N) :
  all_digits (string_of_N n) = true /\
  N_of_digits (string_of_N n) 0 = n /\
  string_of_N n <> EmptyString /\
  (n <> 0%N -> first_char (string_of_N n) <> Some "0"%char) /\
  (n = 0%N -> string_of_N n = "0").
Proof.
  unfold string_of_N.
  assert (Hn : (n < 2 ^ N.of_nat (S (N.to_nat (N.log2 n))))%N).
  { replace (N.of_nat (S (N.to_nat (N.log2 n)))) with (N.succ (N.log2 n)) by lia.
    destruct (N.eq_dec n 0) as [->|Hne]; [reflexivity|].
    apply N.log2_spec. lia. }
  destruct (digits_of_pos_fuel_spec _ n EmptyString Hn) as (d & H1 & H2 & H3 & H4 & H5).
  rewrite H1, append_nil_r.
  split; [exact H2|]. split; [rewrite H3; lia|].
  destruct (N.eq_dec n 0) as [->|Hne].
  - rewrite (H5 eq_refl) by lia. repeat split; try discriminate. congruence.
  - destruct (H4 Hne). repeat split; auto.
Qed.

(** ** The turn splitter *)

Lemma srev_append_nonempty (s acc : string) :
  acc <> EmptyString -> srev_append s acc <> EmptyString.
Proof.
  revert acc. induction s as [|c s IH]; intros acc H; simpl; [exact H|].
  apply IH. discriminate.
Qed.

Lemma srev_nonempty (s : string) : s <> EmptyString -> srev s <> EmptyString.
Proof.
  destruct s as [|c s]; [congruence|]. intros _. unfold srev. simpl.
  apply srev_append_nonempty. discriminate.
Qed.

(** With a non-empty piece in hand, the first piece of a split is not
    empty. *)
Lemma split_from_head (r : regex) (s pre piece : string) :
  piece <> EmptyString ->
  exists h t, split_from r pre s 0 piece = h :: t /\ h <> EmptyString.
Proof.
  revert pre piece. induction s as [|x s IH]; intros pre piece Hp; simpl.
  - eexists _, _. split; [reflexivity|]. by apply srev_nonempty.
  - destruct (match_at r (Cursor pre (String x s))) as [[c' caps]|].
    + destruct piece as [|a piece]; [congruence|].
      destruct (_ - _)%nat; eexists _, _;
        (split; [reflexivity|]); by apply srev_nonempty.
    + apply IH. discriminate.
Qed.

(** The sentence separator needs a character before it, so it does not
    match at the start of a paragraph. *)
Lemma sentence_gap_not_at_start (s : string) :
  match_at re_sentence_gap (Cursor EmptyString s) = None.
Proof. reflexivity. Qed.

Lemma sentences_nonempty (p : string) :
  nonempty p = true -> sentences p <> [].
Proof.
  destruct p as [|x p]; [discriminate|]. intros _.
  unfold sentences, split. cbn [split_from].
  rewrite sentence_gap_not_at_start.
  destruct (split_from_head re_sentence_gap p (String x EmptyString)
              (String x EmptyString)) as (h & t & -> & Hh); [discriminate|].
  simpl. destruct h; [congruence|]. simpl. discriminate.
Qed.

Lemma paragraphs_nonempty (s p : string) :
  In p (paragraphs s) -> nonempty p = true.
Proof. unfold paragraphs. intros H. apply filter_In in H. tauto. Qed.

Lemma one_or_two_sentences (p : string) :
  nonempty p = true -> (1 <= length (firstn 2 (sentences p)) <= 2)%nat.
Proof.
  intros H. apply sentences_nonempty in H.
  destruct (sentences p) as [|a [|b l]]; [congruence| |]; simpl; lia.
Qed.

Lemma splitContentIntoTurns_nonempty (content : JSValue) :
  splitContentIntoTurns content <> [].
Proof.
  destruct content as [| | | |s| |]; simpl; try discriminate.
  destruct s; [discriminate|].
  destruct (map paragraph_turn _); discriminate.
Qed.

Lemma get_not_nullish (v : JSValue) (k : string) :
  nullish v = false -> get v k = Ok (get_own v k).
Proof. unfold get. by intros ->. Qed.

(** ** Regular expressions *)

Lemma free_app (ban : ascii -> bool) (a b : string) :
  free ban (a ++ b) = free ban a && free ban b.
Proof.
  induction a as [|x a IH]; [reflexivity|]. cbn [String.append free].
  rewrite IH. by rewrite andb_assoc.
Qed.

Lemma free_suffix (ban : ascii -> bool) (s pre post : string) :
  free ban s = true -> s = pre ++ post -> free ban post = true.
Proof.
  intros H ->. rewrite free_app in H. by apply andb_prop in H as [_ H].
Qed.

(** A match is a result of the continuation, called on a cursor further on
    in the text. *)
Lemma rmatch_none {R : Type} (r : regex) :
  forall (c : cursor) (caps : captures) (k : cursor -> captures -> option R),
    (forall c' caps', (exists pre, after c = pre ++ after c') -> k c' caps' = None) ->
    rmatch r c caps k = None.
Proof.
  induction r as [|a|p|r1 IH1 r2 IH2|r1 IH1 r2 IH2|greedy r1 IH1|i r1 IH1|m|p];
    intros c caps k Hk.
  - apply Hk. by exists EmptyString.
  - cbn [rmatch]. destruct c as [pre [|x rest]]; [reflexivity|].
    cbn [step_cursor after before]. destruct (Ascii.eqb x a); [|reflexivity].
    apply Hk. by exists (str1 x).
  - cbn [rmatch]. destruct c as [pre [|x rest]]; [reflexivity|].
    cbn [step_cursor after before]. destruct (p x); [|reflexivity].
    apply Hk. by exists (str1 x).
  - cbn [rmatch]. apply IH1. intros c' caps' [pre Hpre].
    apply IH2. intros c'' caps'' [pre' Hpre'].
    apply Hk. exists (pre ++ pre'). by rewrite Hpre, Hpre', append_assoc.
  - cbn [rmatch]. by rewrite (IH1 c caps k Hk), (IH2 c caps k Hk).
  - cbn [rmatch].
    assert (Hloop : forall n c1 caps1,
      (exists pre, after c = pre ++ after c1) ->
      (fix loop (n : nat) (c : cursor) (caps : captures) {struct n} : option R :=
         let iterate :=
           match n with
           | O => None
           | S n' =>
               rmatch r1 c caps (fun c' caps' =>
                 if (slen (after c') <? slen (after c))%nat
                 then loop n' c' caps' else None)
           end in
         if greedy then
           match iterate with
           | Some x => Some x
           | None => k c caps
           end
         else
           match k c caps with
           | Some x => Some x
           | None => iterate
           end) n c1 caps1 = None).
    { induction n as [|n IHn]; intros c1 caps1 [pre Hpre].
      - rewrite (Hk c1 caps1) by (by exists pre). by destruct greedy.
      - rewrite (Hk c1 caps1) by (by exists pre).
        rewrite IH1; [by destruct greedy|].
        intros c' caps' [pre' Hpre'].
        destruct (_ <? _)%nat; [|reflexivity].
        apply IHn. exists (pre ++ pre'). by rewrite Hpre, Hpre', append_assoc. }
    apply Hloop. by exists EmptyString.
  - cbn [rmatch]. apply IH1. intros c' caps' Hpre. by apply Hk.
  - cbn [rmatch]. rewrite Hk by (by exists EmptyString).
    destruct (after c); [reflexivity|]. by destruct (_ && _).
  - cbn [rmatch]. rewrite Hk by (by exists EmptyString).
    destruct (before c); [reflexivity|]. by destruct (p _).
Qed.

(** An expression that needs a character the text does not have does not
    match. *)
Lemma needs_no_match {R : Type} (ban : ascii -> bool) (r : regex) :
  Needs ban r ->
  forall (c : cursor) (caps : captures) (k : cursor -> captures -> option R),
    free ban (after c) = true -> rmatch r c caps k = None.
Proof.
  induction 1 as [a Ha|q Hq|r1 r2 _ IH|r1 r2 _ IH|r1 r2 _ IH1 _ IH2|i r _ IH];
    intros c caps k Hfree.
  - cbn [rmatch]. destruct c as [pre [|x rest]]; [reflexivity|].
    cbn [step_cursor after before free] in *.
    apply andb_prop in Hfree as [Hx _].
    destruct (Ascii.eqb_spec x a) as [->|]; [|reflexivity].
    by rewrite Ha in Hx.
  - cbn [rmatch]. destruct c as [pre [|x rest]]; [reflexivity|].
    cbn [step_cursor after before free] in *.
    apply andb_prop in Hfree as [Hx _].
    destruct (q x) eqn:E; [|reflexivity].
    by rewrite (Hq x E) in Hx.
  - cbn [rmatch]. by apply IH.
  - cbn [rmatch]. apply rmatch_none. intros c' caps' [pre Hpre].
    apply IH. by apply (free_suffix ban _ pre _ Hfree).
  - cbn [rmatch]. by rewrite IH1, IH2.
  - cbn [rmatch]. by apply IH.
Qed.

Lemma match_at_free (ban : ascii -> bool) (r : regex) (pre s : string) :
  Needs ban r -> free ban s = true -> match_at r (Cursor pre s) = None.
Proof. intros Hn Hf. unfold match_at. by apply (needs_no_match ban). Qed.

Lemma replace_all_free (ban : ascii -> bool) (r : regex) (t : list tpart)
    (s : string) :
  Needs ban r -> free ban s = true -> replace_all r t s = s.
Proof.
  intros Hn. unfold replace_all. generalize EmptyString as pre.
  induction s as [|x s IH]; intros pre Hf.
  - cbn [replace_from]. by rewrite (match_at_free ban).
  - cbn [replace_from]. rewrite (match_at_free ban) by assumption.
    cbn [free] in Hf. apply andb_prop in Hf as [_ Hf]. by rewrite IH.
Qed.

Lemma search_free (ban : ascii -> bool) (r : regex) (s : string) :
  Needs ban r -> free ban s = true -> search r s = None.
Proof.
  intros Hn. unfold search. generalize EmptyString as pre.
  induction s as [|x s IH]; intros pre Hf.
  - cbn [search_from]. by rewrite (match_at_free ban).
  - cbn [search_from]. rewrite (match_at_free ban) by assumption.
    cbn [free] in Hf. apply andb_prop in Hf as [_ Hf]. by apply IH.
Qed.

Lemma free_count (ban : ascii -> bool) (c : ascii) (s : string) :
  ban c = true -> free ban s = true -> count_char c s = 0%nat.
Proof.
  intros Hc. induction s as [|x s IH]; [reflexivity|]. cbn [free count_char].
  intros H. apply andb_prop in H as [Hx H]. rewrite (IH H).
  destruct (Ascii.eqb_spec x c) as [->|]; [by rewrite Hc in Hx|reflexivity].
Qed.

Lemma free_from_first (ban : ascii -> bool) (c : ascii) (s : string) :
  ban c = true -> free ban s = true -> from_first c s = None.
Proof.
  intros Hc. induction s as [|x s IH]; [reflexivity|]. cbn [free from_first].
  intros H. apply andb_prop in H as [Hx H].
  destruct (Ascii.eqb_spec x c) as [->|]; [by rewrite Hc in Hx|by apply IH].
Qed.

Ltac needs :=
  lazymatch goal with
  | |- Needs _ (Chr _) => apply Needs_chr; reflexivity
  | |- Needs _ (Seq _ _) =>
      first [apply Needs_seq_l; needs | apply Needs_seq_r; needs]
  | |- Needs _ (Grp _ _) => apply Needs_grp; needs
  | |- Needs _ (Alt _ _) => apply Needs_alt; needs
  | |- Needs _ (Cls _) =>
      apply Needs_cls;
      let c := fresh "c" in
      intros c; by destruct c as [[] [] [] [] [] [] [] []]
  | |- Needs _ (Star _ _) => fail
  | |- Needs _ Eps => fail
  | |- Needs _ (Eol _) => fail
  | |- Needs _ (Behind _) => fail
  | |- Needs ?ban ?r => let r' := eval hnf in r in change (Needs ban r'); needs
  end.

(** ** Texts that are not JSON *)

Lemma srev_append_spec (s acc : string) :
  srev_append s acc = srev s ++ acc.
Proof.
  unfold srev. revert acc.
  induction s as [|x s IH]; intros acc; simpl; [reflexivity|].
  rewrite (IH (String x acc)), (IH (String x EmptyString)).
  by rewrite append_assoc.
Qed.

Lemma srev_cons (x : ascii) (s : string) : srev (String x s) = srev s ++ str1 x.
Proof. unfold srev at 1. simpl. by rewrite srev_append_spec. Qed.

Lemma srev_app (a b : string) : srev (a ++ b) = srev b ++ srev a.
Proof.
  induction a as [|x a IH]; simpl.
  - by rewrite append_nil_r.
  - by rewrite !srev_cons, IH, append_assoc.
Qed.

Lemma srev_involutive (s : string) : srev (srev s) = s.
Proof.
  induction s as [|x s IH]; [reflexivity|].
  by rewrite srev_cons, srev_app, IH.
Qed.

Lemma trimStart_snoc (x : string) (c : ascii) :
  is_space c = false -> exists t, trimStart (x ++ str1 c) = t ++ str1 c.
Proof.
  intros Hc. induction x as [|y x IH].
  - exists EmptyString. cbn. by rewrite Hc.
  - cbn [String.append trimStart]. destruct (is_space y); [exact IH|].
    by exists (String y x).
Qed.

(** The first character of a trimmed text is the first character after
    the leading white space. *)
Lemma trim_first (s : string) (c : ascii) (a : string) :
  trimStart s = String c a -> is_space c = false ->
  exists r, trim s = String c r.
Proof.
  intros E Hc. unfold trim. rewrite E, srev_cons.
  destruct (trimStart_snoc (srev a) c Hc) as [t ->].
  rewrite srev_app. cbn. eauto.
Qed.

Lemma trimStart_not_space (s : string) (c : ascii) (a : string) :
  trimStart s = String c a -> is_space c = false.
Proof.
  induction s as [|x s IH]; [discriminate|]. cbn [trimStart].
  destruct (is_space x) eqn:Hx; [exact IH|]. by intros [= <- <-].
Qed.

Lemma trim_empty (s : string) : trimStart s = EmptyString -> trim s = EmptyString.
Proof. intros E. unfold trim. by rewrite E. Qed.

Lemma skip_ws_trimStart (s : string) : trimStart (skip_ws s) = trimStart s.
Proof.
  induction s as [|x s IH]; [reflexivity|]. cbn [skip_ws].
  destruct (is_json_ws x) eqn:Hx; [|reflexivity].
  cbn [trimStart]. rewrite IH.
  assert (Hs : is_space x = true); [|by rewrite Hs].
  revert Hx. by destruct x as [[] [] [] [] [] [] [] []].
Qed.

Lemma skip_ws_head (s : string) (c : ascii) (a : string) :
  skip_ws s = String c a -> is_json_ws c = false.
Proof.
  induction s as [|x s IH]; [discriminate|]. cbn [skip_ws].
  destruct (is_json_ws x) eqn:Hx; [exact IH|]. by intros [= <- <-].
Qed.

Lemma space_not_opens (c : ascii) : is_space c = true -> opens c = false.
Proof. by destruct c as [[] [] [] [] [] [] [] []]. Qed.

(** A character that opens no value starts no value. *)
Lemma parse_value_not_opens (f : nat) (c : ascii) (s : string) :
  opens c = false -> is_json_ws c = false -> parse_value f (String c s) = None.
Proof.
  destruct f as [|f]; [reflexivity|]. intros Ho Hw.
  cbn [parse_value skip_ws]. rewrite Hw.
  revert Ho. unfold opens.
  destruct (is_digit c) eqn:Hd; [discriminate|].
  destruct (Ascii.eqb c "-") eqn:E1; [discriminate|].
  destruct (Ascii.eqb c "n"); [discriminate|].
  destruct (Ascii.eqb c "t"); [discriminate|].
  destruct (Ascii.eqb c "f"); [discriminate|].
  destruct (Ascii.eqb c dq); [discriminate|].
  destruct (Ascii.eqb c "["); [discriminate|].
  destruct (Ascii.eqb c "{"); [discriminate|].
  intros _. unfold parse_number. rewrite E1.
  unfold parse_unsigned. cbn [span_digits]. rewrite Hd. reflexivity.
Qed.

Lemma JSON_parse_not_opens (s : string) :
  match trimStart s with
  | EmptyString => true
  | String c _ => negb (opens c)
  end = true ->
  JSON_parse s = Throw (SyntaxError "Unexpected token in JSON").
Proof.
  intros H. unfold JSON_parse.
  assert (E : parse_value (S (slen s)) s = None); [|by rewrite E].
  cbn [parse_value].
  destruct (skip_ws s) as [|c a] eqn:Es; [reflexivity|].
  pose proof (skip_ws_head _ _ _ Es) as Hw.
  assert (Ho : opens c = false).
  { destruct (is_space c) eqn:Hc; [by apply space_not_opens|].
    rewrite <- skip_ws_trimStart, Es in H. cbn [trimStart] in H.
    rewrite Hc in H. by destruct (opens c). }
  pose proof (parse_value_not_opens (S (slen s)) c a Ho Hw) as Hp.
  cbn [parse_value skip_ws] in Hp. rewrite Hw in Hp. exact Hp.
Qed.

Lemma JSON_parse_trim_not_opens (s : string) :
  match trimStart s with
  | EmptyString => true
  | String c _ => negb (opens c)
  end = true ->
  JSON_parse (trim s) = Throw (SyntaxError "Unexpected token in JSON").
Proof.
  intros H. destruct (trimStart s) as [|c a] eqn:E.
  - by rewrite (trim_empty _ E).
  - pose proof (trimStart_not_space _ _ _ E) as Hc.
    destruct (trim_first _ _ _ E Hc) as [r ->].
    apply JSON_parse_not_opens. cbn [trimStart]. by rewrite Hc.
Qed.

(** On a text without the marks the repair pass only trims. *)
Lemma fix_string_free (s : string) :
  free json_marks s = true -> fix_string s = trim s.
Proof.
  intros Hf. unfold fix_string.
  rewrite (replace_all_free json_marks re_fence_open [] s) by (needs || exact Hf).
  rewrite (replace_all_free json_marks re_fence_close [] s) by (needs || exact Hf).
  rewrite (replace_all_free json_marks re_line_comment [] s) by (needs || exact Hf).
  rewrite (replace_all_free json_marks re_block_comment [] s) by (needs || exact Hf).
  rewrite (replace_all_free json_marks re_bare_key _ s) by (needs || exact Hf).
  rewrite (replace_all_free json_marks re_single_quoted _ s) by (needs || exact Hf).
  rewrite (replace_all_free json_marks re_trailing_comma _ s) by (needs || exact Hf).
  rewrite (replace_all_free json_marks (re_adjacent dq dq) _ s) by (needs || exact Hf).
  rewrite (replace_all_free json_marks (re_adjacent "}" "{") _ s) by (needs || exact Hf).
  rewrite (replace_all_free json_marks (re_adjacent "]" "[") _ s) by (needs || exact Hf).
  rewrite (replace_all_free json_marks (re_comma_before "}") _ s) by (needs || exact Hf).
  rewrite (replace_all_free json_marks (re_comma_before "]") _ s) by (needs || exact Hf).
  rewrite !(free_count json_marks _ s) by (reflexivity || exact Hf).
  reflexivity.
Qed.

(** A text of prose has no reading: [parseAIJSONResponse] finds no JSON in
    it, and the repaired text is not JSON either. *)
Lemma prose_not_json (s : string) :
  prose s = true ->
  parseAIJSONResponse (JStr s) = Throw (Error "No valid JSON found in AI response") /\
  JSON_parse (fix_string s) = Throw (SyntaxError "Unexpected token in JSON").
Proof.
  unfold prose. intros H. apply andb_prop in H as [Hf Ho]. split.
  - unfold parseAIJSONResponse. rewrite (JSON_parse_not_opens s Ho).
    rewrite (search_free json_marks re_fenced s) by (needs || exact Hf).
    unfold extract, extractBalanced.
    rewrite !(free_from_first json_marks _ s) by (reflexivity || exact Hf).
    rewrite (search_free json_marks (re_greedy "{" "}") s) by (needs || exact Hf).
    rewrite (search_free json_marks (re_greedy "[" "]") s) by (needs || exact Hf).
    reflexivity.
  - rewrite (fix_string_free s Hf). by apply JSON_parse_trim_not_opens.
Qed.

(** ** Splitting *)

Lemma join_cons (sep x : string) (l : list string) :
  l <> [] -> join sep (x :: l) = x ++ sep ++ join sep l.
Proof. by destruct l. Qed.

(** The text up to a separator: no match in [a], then the match [sep]. *)
Lemma split_from_scan (r : regex) (a : string) :
  forall (pre s piece : string),
    (forall a1 a2, a = a1 ++ a2 -> a2 <> EmptyString ->
       match_at r (Cursor (srev a1 ++ pre) (a2 ++ s)) = None) ->
    s <> EmptyString ->
    split_from r pre (a ++ s) 0 piece =
      split_from r (srev a ++ pre) s 0 (srev a ++ piece).
Proof.
  induction a as [|x a IH]; intros pre s piece Hq Hs; [reflexivity|].
  cbn [String.append split_from].
  pose proof (Hq EmptyString (String x a) eq_refl ltac:(discriminate)) as H0.
  change (srev EmptyString ++ pre) with pre in H0. cbn [String.append] in H0.
  rewrite H0.
  rewrite (IH (String x pre) s (String x piece)); [|..|exact Hs].
  - rewrite !srev_cons, !append_assoc. reflexivity.
  - intros a1 a2 -> Ha2.
    specialize (Hq (String x a1) a2 eq_refl Ha2).
    by rewrite srev_cons, append_assoc in Hq.
Qed.

Lemma split_from_last (r : regex) (a : string) :
  forall (pre piece : string),
    (forall a1 a2, a = a1 ++ a2 -> a2 <> EmptyString ->
       match_at r (Cursor (srev a1 ++ pre) a2) = None) ->
    split_from r pre a 0 piece = [srev piece ++ a].
Proof.
  induction a as [|x a IH]; intros pre piece Hq.
  - cbn [split_from]. by rewrite append_nil_r.
  - cbn [split_from].
    pose proof (Hq EmptyString (String x a) eq_refl ltac:(discriminate)) as H0.
    change (srev EmptyString ++ pre) with pre in H0. cbn [String.append] in H0.
    rewrite H0.
    rewrite (IH (String x pre) (String x piece)).
    + by rewrite srev_cons, append_assoc.
    + intros a1 a2 -> Ha2.
      specialize (Hq (String x a1) a2 eq_refl Ha2).
      by rewrite srev_cons, append_assoc in Hq.
Qed.

Lemma split_from_skip (r : regex) (sep : string) :
  forall (pre s : string),
    split_from r pre (sep ++ s) (slen sep) EmptyString =
      split_from r (srev sep ++ pre) s 0 EmptyString.
Proof.
  unfold slen. induction sep as [|x sep IH]; intros pre s; [reflexivity|].
  cbn [String.append split_from String.length].
  rewrite (IH (String x pre) s). by rewrite srev_cons, append_assoc.
Qed.

Lemma split_from_sep (r : regex) (x : ascii) (sep pre s piece : string)
    (caps : captures) :
  match_at r (Cursor pre (String x sep ++ s)) =
    Some (Cursor (srev (String x sep) ++ pre) s, caps) ->
  split_from r pre (String x sep ++ s) 0 piece =
    srev piece :: split_from r (srev (String x sep) ++ pre) s 0 EmptyString.
Proof.
  intros Hm. cbn [String.append split_from]. cbn [String.append] in Hm.
  rewrite Hm. cbn [after].
  replace (slen (String x (sep ++ s)) - slen s)%nat with (S (slen sep)).
  - f_equal. rewrite split_from_skip. by rewrite srev_cons, append_assoc.
  - unfold slen. cbn [String.length]. rewrite slen_app. lia.
Qed.

(** *** The greedy repetition of a class *)

Lemma star_class_end {R : Type} (p : ascii -> bool) (pre rest : string)
    (caps : captures) (k : cursor -> captures -> option R) :
  match rest with
  | EmptyString => true
  | String x _ => negb (p x)
  end = true ->
  rmatch (Star true (Cls p)) (Cursor pre rest) caps k = k (Cursor pre rest) caps.
Proof.
  intros H. cbn [rmatch after]. destruct rest as [|x rest]; [reflexivity|].
  cbn [slen String.length rmatch step_cursor after before].
  apply negb_true_iff in H. by rewrite H.
Qed.

Lemma star_class_step {R : Type} (p : ascii -> bool) (pre : string) (x : ascii)
    (rest : string) (caps : captures) (k : cursor -> captures -> option R) :
  p x = true ->
  rmatch (Star true (Cls p)) (Cursor pre (String x rest)) caps k =
    match rmatch (Star true (Cls p)) (Cursor (String x pre) rest) caps k with
    | Some y => Some y
    | None => k (Cursor pre (String x rest)) caps
    end.
Proof.
  intros H. cbn [rmatch after slen String.length step_cursor before].
  rewrite H.
  assert (E : (String.length rest <? S (String.length rest))%nat = true)
    by (apply Nat.ltb_lt; lia).
  unfold slen. cbn [String.length]. by rewrite E.
Qed.

(** *** One step of the matcher *)

Lemma rmatch_seq {R : Type} (r1 r2 : regex) (c : cursor) (caps : captures)
    (k : cursor -> captures -> option R) :
  rmatch (Seq r1 r2) c caps k =
    rmatch r1 c caps (fun c' caps' => rmatch r2 c' caps' k).
Proof. reflexivity. Qed.

Lemma rmatch_grp {R : Type} (i : nat) (r : regex) (c : cursor) (caps : captures)
    (k : cursor -> captures -> option R) :
  rmatch (Grp i r) c caps k =
    rmatch r c caps (fun c' caps' => k c' ((i, consumed c c') :: caps')).
Proof. reflexivity. Qed.

Lemma rmatch_alt {R : Type} (r1 r2 : regex) (c : cursor) (caps : captures)
    (k : cursor -> captures -> option R) :
  rmatch (Alt r1 r2) c caps k =
    match rmatch r1 c caps k with
    | Some x => Some x
    | None => rmatch r2 c caps k
    end.
Proof. reflexivity. Qed.

Lemma rmatch_eps {R : Type} (c : cursor) (caps : captures)
    (k : cursor -> captures -> option R) :
  rmatch Eps c caps k = k c caps.
Proof. reflexivity. Qed.

Lemma rmatch_chr {R : Type} (a : ascii) (pre s : string) (caps : captures)
    (k : cursor -> captures -> option R) :
  rmatch (Chr a) (Cursor pre s) caps k =
    match s with
    | String x s' =>
        if Ascii.eqb x a then k (Cursor (String x pre) s') caps else None
    | EmptyString => None
    end.
Proof. by destruct s. Qed.

Lemma rmatch_cls {R : Type} (p : ascii -> bool) (pre s : string)
    (caps : captures) (k : cursor -> captures -> option R) :
  rmatch (Cls p) (Cursor pre s) caps k =
    match s with
    | String x s' => if p x then k (Cursor (String x pre) s') caps else None
    | EmptyString => None
    end.
Proof. by destruct s. Qed.

Lemma rmatch_behind {R : Type} (p : ascii -> bool) (pre s : string)
    (caps : captures) (k : cursor -> captures -> option R) :
  rmatch (Behind p) (Cursor pre s) caps k =
    match pre with
    | String x _ => if p x then k (Cursor pre s) caps else None
    | EmptyString => None
    end.
Proof. reflexivity. Qed.

(** *** Blank lines *)

Lemma not_space_not_nl (d : ascii) : is_space d = false -> Ascii.eqb d nl = false.
Proof.
  intros H. destruct (Ascii.eqb_spec d nl) as [->|]; [discriminate|reflexivity].
Qed.

(** No blank line starts at a line feed that is followed by a character
    that is not white space. *)
Lemma blank_line_none (pre s : string) :
  match s with
  | String x (String d _) => negb (Ascii.eqb x nl && is_space d)
  | _ => true
  end = true ->
  match_at re_blank_line (Cursor pre s) = None.
Proof.
  intros H. unfold match_at, re_blank_line, ws_star.
  rewrite rmatch_seq, rmatch_chr.
  destruct s as [|x [|d s]]; [reflexivity| |].
  - destruct (Ascii.eqb x nl); [|reflexivity].
    rewrite rmatch_seq, star_class_end by reflexivity. by rewrite rmatch_chr.
  - destruct (Ascii.eqb x nl); [|reflexivity].
    cbn [andb] in H. apply negb_true_iff in H.
    rewrite rmatch_seq, star_class_end by (by rewrite H).
    by rewrite rmatch_chr, (not_space_not_nl d H).
Qed.

Lemma blank_line_sep (pre : string) (c : ascii) (p : string) :
  is_space c = false ->
  match_at re_blank_line (Cursor pre (blank_line ++ String c p)) =
    Some (Cursor (srev blank_line ++ pre) (String c p), []).
Proof.
  intros H. unfold match_at, re_blank_line, ws_star, blank_line.
  cbn [String.append]. rewrite rmatch_seq, rmatch_chr, Ascii.eqb_refl.
  rewrite rmatch_seq, star_class_step by reflexivity.
  rewrite star_class_end by (by rewrite H).
  rewrite rmatch_chr, (not_space_not_nl c H).
  by rewrite rmatch_chr, Ascii.eqb_refl.
Qed.

Lemma calm_pair (c d : ascii) (s : string) :
  calm (String c (String d s)) =
    negb (Ascii.eqb c nl && is_space d) && calm (String d s).
Proof. reflexivity. Qed.

Lemma steady_pair (c d : ascii) (s : string) :
  steady (String c (String d s)) =
    negb ((Ascii.eqb c nl || one_of ".!?" c) && is_space d)
    && steady (String d s).
Proof. reflexivity. Qed.

Lemma calm_suffix (a b : string) : calm (a ++ b) = true -> calm b = true.
Proof.
  induction a as [|x a IH]; [done|]. cbn [String.append].
  destruct (a ++ b) as [|d r] eqn:E.
  - destruct a; [|discriminate]. cbn in E. by subst b.
  - rewrite calm_pair. intros H. apply andb_prop in H as [_ H]. by apply IH.
Qed.

Lemma calm_app (a b : string) :
  calm a = true -> calm b = true -> calm (a ++ b) = true.
Proof.
  intros Ha Hb. induction a as [|x a IH]; [exact Hb|].
  cbn [String.append]. destruct a as [|d a].
  - cbn [String.append]. destruct b as [|d b]; [exact Ha|].
    rewrite calm_pair, Hb. cbn [calm] in Ha. apply negb_true_iff in Ha.
    by rewrite Ha.
  - cbn [String.append] in *. rewrite calm_pair in *.
    apply andb_prop in Ha as [H1 H2]. rewrite H1. by apply IH.
Qed.

(** No blank line starts inside a calm text. *)
Lemma calm_quiet (s : string) (a1 a2 pre tail : string) :
  calm s = true -> s = a1 ++ a2 -> a2 <> EmptyString ->
  match_at re_blank_line (Cursor pre (a2 ++ tail)) = None.
Proof.
  intros Hc -> Ha2. apply calm_suffix in Hc.
  destruct a2 as [|x [|d r]]; [congruence| |]; apply blank_line_none.
  - cbn [calm String.append] in *. destruct tail; [reflexivity|].
    apply negb_true_iff in Hc. by rewrite Hc.
  - rewrite calm_pair in Hc. cbn [String.append].
    by apply andb_prop in Hc as [-> _].
Qed.

(** *** Sentences *)

(** No gap between sentences starts before a character that is not white
    space, nor after a character that is not a closing mark. *)
Lemma gap_none (pre s : string) :
  match s with
  | String d _ => negb (is_space d)
  | EmptyString => true
  end
  || match pre with
     | String c _ => negb (one_of ".!?" c)
     | EmptyString => true
     end = true ->
  match_at re_sentence_gap (Cursor pre s) = None.
Proof.
  intros H. unfold match_at, re_sentence_gap, Plus.
  rewrite rmatch_seq, rmatch_behind.
  destruct pre as [|c pre]; [reflexivity|].
  destruct (one_of ".!?" c); [|reflexivity].
  rewrite rmatch_seq, rmatch_cls.
  destruct s as [|d s]; [reflexivity|].
  cbn [negb orb] in H. rewrite orb_false_r in H.
  apply negb_true_iff in H. by rewrite H.
Qed.

Lemma gap_sep (pre : string) (c d : ascii) (p : string) :
  one_of ".!?" c = true -> is_space d = false ->
  match_at re_sentence_gap (Cursor (String c pre) (" " ++ String d p)) =
    Some (Cursor (srev " " ++ String c pre) (String d p), []).
Proof.
  intros Hc Hd. unfold match_at, re_sentence_gap, Plus.
  cbn [String.append]. rewrite rmatch_seq, rmatch_behind, Hc.
  rewrite rmatch_seq, rmatch_cls. change (is_space " ") with true. cbv iota.
  by rewrite star_class_end by (by rewrite Hd).
Qed.

Lemma steady_suffix (a b : string) :
  steady (a ++ b) = true -> b <> EmptyString -> steady b = true.
Proof.
  intros H Hb. induction a as [|x a IH]; [exact H|]. cbn [String.append] in H.
  destruct (a ++ b) as [|d r] eqn:E.
  - destruct a; [|discriminate]. cbn in E. congruence.
  - rewrite steady_pair in H. apply andb_prop in H as [_ H]. by apply IH.
Qed.

Lemma steady_last (s : string) :
  steady s = true -> exists x l, s = x ++ str1 l /\ one_of ".!?" l = true.
Proof.
  induction s as [|c s IH]; [discriminate|]. destruct s as [|d s].
  - cbn [steady]. intros H. by exists EmptyString, c.
  - rewrite steady_pair. intros H. apply andb_prop in H as [_ H].
    destruct (IH H) as (x & l & E & Hl). rewrite E.
    by exists (String c x), l.
Qed.

Lemma steady_calm (s : string) : steady s = true -> calm s = true.
Proof.
  induction s as [|c s IH]; [done|]. destruct s as [|d s].
  - cbn [steady calm]. intros H.
    destruct (Ascii.eqb_spec c nl) as [->|]; [discriminate|reflexivity].
  - rewrite steady_pair, calm_pair. intros H. apply andb_prop in H as [H1 H2].
    rewrite (IH H2), andb_true_r.
    destruct (Ascii.eqb c nl); [|reflexivity].
    cbn [orb andb] in *. exact H1.
Qed.

(** No gap starts inside a sentence. *)
Lemma sentence_quiet (s : string) (a1 a2 pre tail : string) :
  sentence_ok s = true -> s = a1 ++ a2 -> a2 <> EmptyString ->
  match_at re_sentence_gap (Cursor (srev a1 ++ pre) (a2 ++ tail)) = None.
Proof.
  intros Hs E Ha2. destruct a2 as [|d a2]; [congruence|].
  apply gap_none. cbn [String.append].
  destruct (srev a1) as [|c t] eqn:Er.
  - assert (a1 = EmptyString) as ->.
    { rewrite <- (srev_involutive a1), Er. reflexivity. }
    cbn [String.append] in E. subst s. cbn [sentence_ok] in Hs.
    apply andb_prop in Hs as [-> _]. reflexivity.
  - assert (Ea : a1 = srev t ++ str1 c).
    { rewrite <- (srev_involutive a1), Er. apply srev_cons. }
    subst a1. rewrite append_assoc in E. cbn [str1 String.append] in E.
    destruct s as [|c0 s0]; [discriminate|]. cbn [sentence_ok] in Hs.
    apply andb_prop in Hs as [_ Hs]. rewrite E in Hs.
    apply steady_suffix in Hs; [|discriminate].
    rewrite steady_pair in Hs. apply andb_prop in Hs as [Hp _].
    destruct (is_space d); [|reflexivity].
    rewrite andb_true_r in Hp. apply negb_true_iff, orb_false_elim in Hp as [_ Hp].
    cbn [String.append negb orb]. by rewrite Hp.
Qed.

Lemma sentence_first (s : string) :
  sentence_ok s = true -> exists d r, s = String d r /\ is_space d = false.
Proof.
  destruct s as [|d r]; [discriminate|]. cbn [sentence_ok]. intros H.
  apply andb_prop in H as [H _]. apply negb_true_iff in H. eauto.
Qed.

Lemma sentence_last (s : string) :
  sentence_ok s = true -> exists x l, s = x ++ str1 l /\ one_of ".!?" l = true.
Proof.
  destruct s as [|d r]; [discriminate|]. cbn [sentence_ok]. intros H.
  apply andb_prop in H as [_ H]. by apply steady_last.
Qed.

Lemma join_first (sep : string) (ss : list string) (d : ascii) (r : string)
    (rest : list string) :
  ss = String d r :: rest -> exists r', join sep ss = String d r'.
Proof.
  intros ->. destruct rest; [by exists r|].
  rewrite join_cons by discriminate. cbn [String.append]. eauto.
Qed.

(** The gaps of a paragraph made of sentences are the spaces between the
    sentences. *)
Lemma split_sentences (ss : list string) :
  Forall (fun s => sentence_ok s = true) ss -> ss <> [] ->
  forall pre piece,
    split_from re_sentence_gap pre (join " " ss) 0 piece =
      match ss with
      | s :: rest => (srev piece ++ s) :: rest
      | [] => []
      end.
Proof.
  induction 1 as [|s ss Hs Hss IH]; intros Hne pre piece; [congruence|].
  destruct ss as [|s2 ss].
  - cbn [join]. apply split_from_last.
    intros a1 a2 E Ha2.
    pose proof (sentence_quiet s a1 a2 pre EmptyString Hs E Ha2) as H.
    by rewrite append_nil_r in H.
  - rewrite join_cons by discriminate.
    destruct (sentence_last s Hs) as (x & l & Es & Hl).
    inversion Hss as [|? ? Hs2 _]; subst.
    destruct (sentence_first s2 Hs2) as (d & r & Es2 & Hd).
    destruct (join_first " " (s2 :: ss) d r ss ltac:(by rewrite Es2)) as [r' Ej].
    rewrite Ej.
    rewrite split_from_scan.
    + assert (Er : srev (x ++ str1 l) = String l (srev x)).
      { by rewrite srev_app. }
      rewrite Er. cbn [String.append].
      change (String " " (String d r')) with (" " ++ String d r').
      rewrite (split_from_sep _ " " EmptyString _ _ _ []).
      * rewrite <- Ej, (IH ltac:(discriminate)).
        change (srev EmptyString ++ s2) with s2. f_equal.
        by rewrite srev_cons, srev_app, srev_involutive, append_assoc.
      * apply (gap_sep _ l d r' Hl Hd).
    + intros a1 a2 E Ha2.
      apply (sentence_quiet (x ++ str1 l) a1 a2 pre _ Hs E Ha2).
    + discriminate.
Qed.

Lemma filter_nonempty_id (l : list string) :
  Forall (fun s => s <> EmptyString) l -> List.filter nonempty l = l.
Proof.
  induction 1 as [|s l Hs _ IH]; [reflexivity|]. cbn [List.filter].
  destruct s; [congruence|]. cbn [nonempty]. by rewrite IH.
Qed.

Lemma join_nonempty (sep : string) (l : list string) (s : string) (rest : list string) :
  l = s :: rest -> s <> EmptyString -> join sep l <> EmptyString.
Proof.
  intros -> Hs. destruct rest; [exact Hs|].
  rewrite join_cons by discriminate. by destruct s.
Qed.

Lemma sentence_nonempty (s : string) : sentence_ok s = true -> s <> EmptyString.
Proof. by destruct s. Qed.

Lemma sentences_join (ss : list string) :
  Forall (fun s => sentence_ok s = true) ss -> ss <> [] ->
  sentences (join " " ss) = ss.
Proof.
  intros Hss Hne. unfold sentences, split.
  destruct ss as [|s rest]; [congruence|].
  assert (Hj : join " " (s :: rest) <> EmptyString).
  { eapply join_nonempty; [reflexivity|]. apply sentence_nonempty.
    by inversion Hss. }
  rewrite (split_sentences (s :: rest) Hss Hne EmptyString EmptyString).
  destruct (join " " (s :: rest)); [congruence|].
  change (srev EmptyString ++ s) with s.
  apply filter_nonempty_id.
  eapply Forall_impl; [exact Hss|]. intros x. apply sentence_nonempty.
Qed.

(** *** Paragraphs *)

Lemma mark_not_space (l : ascii) : one_of ".!?" l = true -> is_space l = false.
Proof.
  unfold one_of. cbn [count_char].
  destruct (Ascii.eqb_spec "." l) as [<-|]; [reflexivity|].
  destruct (Ascii.eqb_spec "!" l) as [<-|]; [reflexivity|].
  destruct (Ascii.eqb_spec "?" l) as [<-|]; [reflexivity|].
  discriminate.
Qed.

Lemma trim_id (p : string) (d l : ascii) (r x : string) :
  p = String d r -> is_space d = false ->
  p = x ++ str1 l -> is_space l = false ->
  trim p = p.
Proof.
  intros E Hd E' Hl. unfold trim.
  assert (trimStart p = p) as ->. { rewrite E. cbn [trimStart]. by rewrite Hd. }
  assert (Er : srev p = String l (srev x)). { by rewrite E', srev_app. }
  rewrite Er. cbn [trimStart]. rewrite Hl.
  by rewrite srev_cons, srev_involutive, <- E'.
Qed.

Lemma join_last (ss : list string) :
  Forall (fun s => sentence_ok s = true) ss -> ss <> [] ->
  exists x l, join " " ss = x ++ str1 l /\ one_of ".!?" l = true.
Proof.
  induction 1 as [|s ss Hs Hss IH]; intros Hne; [congruence|].
  destruct ss as [|s2 ss]; [by apply sentence_last|].
  destruct (IH ltac:(discriminate)) as (x & l & E & Hl).
  rewrite join_cons by discriminate. rewrite E.
  exists (s ++ " " ++ x), l. by rewrite !append_assoc.
Qed.

Lemma calm_join (ss : list string) :
  Forall (fun s => sentence_ok s = true) ss -> calm (join " " ss) = true.
Proof.
  induction 1 as [|s ss Hs Hss IH]; [reflexivity|].
  assert (Hc : calm s = true).
  { destruct s as [|c s]; [discriminate|]. cbn [sentence_ok] in Hs.
    apply andb_prop in Hs as [_ Hs]. by apply steady_calm. }
  destruct ss as [|s2 ss]; [exact Hc|].
  rewrite join_cons by discriminate. apply calm_app; [exact Hc|].
  destruct (join " " (s2 :: ss)) as [|d r]; [reflexivity|].
  cbn [String.append]. rewrite calm_pair. by rewrite IH.
Qed.

Lemma paragraph_of_sentences (ss : list string) :
  Forall (fun s => sentence_ok s = true) ss -> ss <> [] ->
  paragraph_ok (join " " ss).
Proof.
  intros Hss Hne. split; [by apply calm_join|]. split.
  - destruct ss as [|s rest]; [congruence|].
    inversion Hss as [|? ? Hs _]; subst.
    destruct (sentence_first s Hs) as (d & r & E & Hd).
    destruct (join_first " " (s :: rest) d r rest ltac:(by rewrite E)) as [r' Ej].
    eauto.
  - destruct (join_last ss Hss Hne) as (x & l & E & Hl).
    exists x, l. split; [exact E|]. by apply mark_not_space.
Qed.

(** The blank lines of a text made of paragraphs are the separators of the
    paragraphs. *)
Lemma split_paragraphs (ps : list string) :
  Forall paragraph_ok ps -> ps <> [] ->
  forall pre piece,
    split_from re_blank_line pre (join blank_line ps) 0 piece =
      match ps with
      | p :: rest => (srev piece ++ p) :: rest
      | [] => []
      end.
Proof.
  induction 1 as [|p ps Hp Hps IH]; intros Hne pre piece; [congruence|].
  destruct Hp as (Hc & _ & _).
  destruct ps as [|p2 ps].
  - cbn [join]. apply split_from_last.
    intros a1 a2 E Ha2.
    pose proof (calm_quiet p a1 a2 (srev a1 ++ pre) EmptyString Hc E Ha2) as H.
    by rewrite append_nil_r in H.
  - rewrite join_cons by discriminate.
    inversion Hps as [|? ? Hp2 _]; subst.
    destruct Hp2 as (_ & (d & r & E2 & Hd) & _).
    destruct (join_first blank_line (p2 :: ps) d r ps ltac:(by rewrite E2))
      as [r' Ej].
    rewrite Ej. rewrite split_from_scan.
    + change (blank_line ++ String d r')
        with (String nl (str1 nl) ++ String d r').
      rewrite (split_from_sep _ nl (str1 nl) _ _ _ []).
      * rewrite <- Ej, (IH ltac:(discriminate)).
        change (srev EmptyString ++ String d r) with (String d r). f_equal.
        by rewrite srev_app, srev_involutive.
      * apply (blank_line_sep _ d r' Hd).
    + intros a1 a2 E Ha2.
      apply (calm_quiet p a1 a2 _ _ Hc E Ha2).
    + discriminate.
Qed.

Lemma map_trim_id (ps : list string) :
  Forall paragraph_ok ps -> map trim ps = ps.
Proof.
  induction 1 as [|p ps Hp _ IH]; [reflexivity|]. cbn [map]. rewrite IH.
  destruct Hp as (_ & (d & r & E & Hd) & (x & l & E' & Hl)).
  by rewrite (trim_id p d l r x).
Qed.

Lemma paragraph_nonempty (p : string) : paragraph_ok p -> p <> EmptyString.
Proof. intros (_ & (d & r & -> & _) & _). discriminate. Qed.

Lemma paragraphs_join (ps : list string) :
  Forall paragraph_ok ps -> ps <> [] ->
  paragraphs (join blank_line ps) = ps.
Proof.
  intros Hps Hne. unfold paragraphs, split.
  destruct ps as [|p rest]; [congruence|].
  assert (Hj : join blank_line (p :: rest) <> EmptyString).
  { eapply join_nonempty; [reflexivity|]. apply paragraph_nonempty.
    by inversion Hps. }
  rewrite (split_paragraphs (p :: rest) Hps Hne EmptyString EmptyString).
  destruct (join blank_line (p :: rest)); [congruence|].
  change (srev EmptyString ++ p) with p.
  rewrite (map_trim_id _ Hps). apply filter_nonempty_id.
  eapply Forall_impl; [exact Hps|]. intros x. apply paragraph_nonempty.
Qed.

(** A content made of paragraphs of sentences gives one narration turn for
    each paragraph, with the first two sentences of the paragraph. *)
Lemma turns_of_content (sss : list (list string)) :
  sss <> [] ->
  Forall (fun ss => ss <> [] /\ Forall (fun s => sentence_ok s = true) ss) sss ->
  splitContentIntoTurns (JStr (content_of sss)) =
    map (fun ss => narration_turn (join " " (firstn 2 ss))) sss.
Proof.
  intros Hne Hsss. unfold content_of.
  assert (Hps : Forall paragraph_ok (map (join " ") sss)).
  { apply Forall_map. eapply Forall_impl; [exact Hsss|].
    intros ss [H1 H2]. by apply paragraph_of_sentences. }
  assert (Hm : map (join " ") sss <> []) by (by destruct sss).
  assert (Hj : join blank_line (map (join " ") sss) <> EmptyString).
  { destruct (map (join " ") sss) as [|p rest] eqn:E; [congruence|].
    eapply join_nonempty; [reflexivity|]. apply paragraph_nonempty.
    by inversion Hps. }
  unfold splitContentIntoTurns.
  rewrite (paragraphs_join _ Hps Hm).
  destruct (join blank_line (map (join " ") sss)); [congruence|].
  rewrite map_map.
  assert (E : map (fun x => paragraph_turn (join " " x)) sss =
              map (fun ss => narration_turn (join " " (firstn 2 ss))) sss).
  { apply map_ext_Forall. eapply Forall_impl; [exact Hsss|].
    intros ss [H1 H2]. unfold paragraph_turn. by rewrite sentences_join. }
  rewrite E. by destruct sss.
Qed.



(** ** The lesson planner *)

Lemma fallback_plan_sound :
  length fallback_plan = 8%nat /\
  NoDup (step_ids fallback_plan) /\
  forallb minutes_at_least_one fallback_plan = true /\
  forallb enumerated_type fallback_plan = true.
Proof.
  split; [reflexivity|]. split; [|split; reflexivity].
  vm_compute. repeat (constructor; [intros H; repeat (apply elem_of_cons in H as [H|H]; [discriminate|]); by apply elem_of_nil in H|]).
  constructor.
Qed.

Lemma or_else_truthy (a b : JSValue) : truthy b = true -> truthy (or_else a b) = true.
Proof. unfold or_else. destruct (truthy a) eqn:E; auto. Qed.

Lemma normalize_step_normalized (step : JSValue) (idx : nat) (s : JSValue) :
  normalize_step step idx = Ok s -> normalized s.
Proof.
  unfold normalize_step, get. destruct (nullish step); [discriminate|].
  cbn [res_bind]. intros [= <-]. repeat split; cbn.
  - apply or_else_truthy. reflexivity.
  - eexists. reflexivity.
  - eexists. reflexivity.
Qed.

Lemma normalize_steps_normalized (items : list JSValue) :
  forall idx steps, normalize_steps items idx = Ok steps ->
    length steps = length items /\ Forall normalized steps.
Proof.
  induction items as [|x items IH]; intros idx steps; simpl.
  - intros [= <-]. split; [reflexivity|constructor].
  - destruct (normalize_step x idx) as [s|] eqn:Es; [|discriminate]. cbn [res_bind].
    destruct (normalize_steps items (S idx)) as [ss|] eqn:Ess; [|discriminate].
    cbn [res_bind]. intros [= <-].
    destruct (IH _ _ Ess) as [Hl Hf]. split; [simpl; congruence|].
    constructor; [by eapply normalize_step_normalized|assumption].
Qed.

Lemma repaired_plan_inv (raw : string) (e : Exn) (steps : list JSValue) :
  repaired_plan raw e = Ok steps -> JSON_parse (fix_string raw) = Ok (JArr steps).
Proof.
  unfold repaired_plan.
  change (ToString (fixCommonJSONIssues (JStr (ToString (JStr raw)))))
    with (fix_string raw).
  destruct (JSON_parse (fix_string raw)) as [[| |b|n|t|items|props]|e'];
    cbn [res_bind]; congruence.
Qed.

Lemma normalized_plan_inv (raw : string) (steps : list JSValue) :
  normalized_plan raw = Ok steps ->
  exists items, parseAIJSONResponse (JStr raw) = Ok (JArr items) /\
    normalize_steps items 0 = Ok steps.
Proof.
  unfold normalized_plan.
  destruct (parseAIJSONResponse (JStr raw)) as [[| |b|n|t|items|props]|e'];
    cbn [res_bind]; try congruence.
  intros H. by exists items.
Qed.

Section PlannerProperties.
Context {World : Type} (svc : Services World).

Lemma createPlan_cases (topic userProfile : JSValue) (w : World) :
  let prompt := createLessonPlanPrompt svc topic userProfile in
  match generateResponse svc prompt w with
  | (Ok raw, w') =>
      createPlan svc topic userProfile w =
        (match res_catch (normalized_plan raw) (repaired_plan raw) with
         | Ok steps => Ok steps
         | Throw _ => Ok fallback_plan
         end, w')
  | (Throw _, w') =>
      createPlan svc topic userProfile w = (Ok fallback_plan, w')
  end.
Proof.
  intros prompt. unfold createPlan, catch, bind, lift, ret. fold prompt.
  destruct (generateResponse svc prompt w) as [[raw|e] w']; [|reflexivity].
  destruct (res_catch _ _); reflexivity.
Qed.

(** C6, as the code has it. [createPlan] never raises and returns a list
    of steps, which is the normalized answer of the service (one step per
    element, each with an id, a lower-case type and a number of minutes),
    or the repaired answer as it stands, or the fallback plan. The
    fallback plan has 8 steps, pairwise distinct ids, at least one minute
    per step and types of the enumerated set. *)
Theorem createPlan_never_raises (topic userProfile : JSValue) (w : World) :
  let prompt := createLessonPlanPrompt svc topic userProfile in
  exists steps,
    fst (createPlan svc topic userProfile w) = Ok steps /\
    (steps = fallback_plan \/
     exists raw, fst (generateResponse svc prompt w) = Ok raw /\
       ((exists items, parseAIJSONResponse (JStr raw) = Ok (JArr items) /\
           normalize_steps items 0 = Ok steps /\
           length steps = length items /\ Forall normalized steps) \/
        JSON_parse (fix_string raw) = Ok (JArr steps))) /\
    length fallback_plan = 8%nat /\
    NoDup (step_ids fallback_plan) /\
    forallb minutes_at_least_one fallback_plan = true /\
    forallb enumerated_type fallback_plan = true.
Proof.
  intros prompt.
  pose proof (createPlan_cases topic userProfile w) as H. cbv zeta in H.
  fold prompt in H.
  destruct (generateResponse svc prompt w) as [[raw|e] w'].
  - rewrite H. cbn [fst].
    destruct (res_catch (normalized_plan raw) (repaired_plan raw)) as [steps|e] eqn:E.
    + exists steps. split; [reflexivity|]. split; [|apply fallback_plan_sound].
      right. exists raw. split; [reflexivity|].
      unfold res_catch in E.
      destruct (normalized_plan raw) as [ss|e1] eqn:En.
      * injection E as ->. left.
        destruct (normalized_plan_inv _ _ En) as (items & Hp & Hn).
        exists items. destruct (normalize_steps_normalized _ _ _ Hn). auto.
      * right. by eapply repaired_plan_inv.
    + exists fallback_plan. split; [reflexivity|]. split; [by left|].
      apply fallback_plan_sound.
  - rewrite H. exists fallback_plan. split; [reflexivity|].
    split; [by left|]. apply fallback_plan_sound.
Qed.

(** C7, as the code has it. When the call of the service fails, or when
    neither reading of its answer is an array, [createPlan] returns the
    fallback plan: 8 steps; steps 4 and 8 are [choice] steps with the two
    options Path A and Path B, and the options of a choice step that a step
    follows have the id of that step as their [next]; of the other steps,
    3 and 6 are [quiz] and 1, 2, 5 and 7 are [narration]. *)
Theorem createPlan_fallback (topic userProfile : JSValue) (w : World) :
  let prompt := createLessonPlanPrompt svc topic userProfile in
  ((exists e, fst (generateResponse svc prompt w) = Throw e) \/
   (exists raw, fst (generateResponse svc prompt w) = Ok raw /\
      (forall items, parseAIJSONResponse (JStr raw) <> Ok (JArr items)) /\
      (forall items, JSON_parse (fix_string raw) <> Ok (JArr items)))) ->
  fst (createPlan svc topic userProfile w) = Ok fallback_plan /\
  length fallback_plan = 8%nat /\
  (forall i s, fallback_plan !! i = Some s ->
     let k := (i + 1)%nat in
     if (k mod 4 =? 0)%nat then
       get_own s "id" = JStr ("choice_" ++ string_of_nat k) /\
       get_own s "type" = JStr "choice" /\
       exists a b,
         get_own s "options" = JArr [a; b] /\
         get_own a "text" = JStr "Path A" /\
         get_own b "text" = JStr "Path B" /\
         (forall s', fallback_plan !! (i + 1)%nat = Some s' ->
            get_own a "next" = get_own s' "id" /\
            get_own b "next" = get_own s' "id")
     else
       get_own s "id" = JStr ("step_" ++ string_of_nat k) /\
       get_own s "type" =
         JStr (if (k mod 3 =? 0)%nat then "quiz" else "narration") /\
       get_own s "options" = JUndefined).
Proof.
  intros prompt Hfail.
  split; [|split; [reflexivity|]].
  - pose proof (createPlan_cases topic userProfile w) as H. cbv zeta in H.
    fold prompt in H.
    destruct (generateResponse svc prompt w) as [[raw|e] w'].
    + rewrite H. cbn [fst].
      destruct Hfail as [[e He]|(raw' & Hr & Hp & Hj)]; [discriminate He|].
      cbn [fst] in Hr. injection Hr as <-.
      destruct (res_catch (normalized_plan raw) (repaired_plan raw))
        as [steps|e] eqn:E; [|reflexivity].
      exfalso. unfold res_catch in E.
      destruct (normalized_plan raw) as [ss|e1] eqn:En.
      * destruct (normalized_plan_inv _ _ En) as (items & Hi & _).
        by apply (Hp items).
      * apply repaired_plan_inv in E. by apply (Hj steps).
    + by rewrite H.
  - intros i s Hi.
    do 8 (destruct i as [|i];
      [injection Hi as <-; cbv zeta;
       first
         [ split; [reflexivity|]; split; [reflexivity|]; reflexivity
         | split; [reflexivity|]; split; [reflexivity|];
           do 2 eexists; split; [reflexivity|]; split; [reflexivity|];
           split; [reflexivity|]; intros s' Hs';
           first [discriminate Hs' | injection Hs' as <-; split; reflexivity] ]
      |]).
    discriminate Hi.
Qed.

End PlannerProperties.

(** C6, as stated, fails: when the service answers with the empty array the
    plan has no step. *)
Lemma createPlan_empty_answer :
  exists steps,
    fst (createPlan (answering "[]") JNull JNull tt) = Ok steps /\
    ~ (1 <= length steps)%nat.
Proof. exists []. split; [reflexivity|]. simpl. lia. Qed.

Lemma createPlan_fallback_witness :
  fst (createPlan offline JNull JNull tt) = Ok fallback_plan.
Proof.
  apply (createPlan_fallback offline JNull JNull tt).
  left. eexists. reflexivity.
Defined.

(** C7, as stated, fails on the fallback plan: steps 1 and 2 follow each
    other, neither is a choice, and both are narration; and the options of
    step 8 name [step_9], which is the id of no step. *)
Lemma fallback_plan_not_as_stated :
  fst (createPlan offline JNull JNull tt) = Ok fallback_plan /\
  (get_own (at_index fallback_plan 0) "type" = JStr "narration" /\
   get_own (at_index fallback_plan 1) "type" = JStr "narration") /\
  (get_own (at_index fallback_plan 7) "options" =
     JArr [opt "Path A" "step_9"; opt "Path B" "step_9"] /\
   ~ In (JStr "step_9") (step_ids fallback_plan)).
Proof.
  split; [reflexivity|]. split; [split; reflexivity|]. split; [reflexivity|].
  vm_compute. intros H. repeat (destruct H as [H|H]; [discriminate H|]). exact H.
Qed.

(** ** The step content generator *)

Lemma fallback_block_ok (step : JSValue) (type : string) :
  nullish step = false ->
  exists fallback,
    fallback_block step type = Ok fallback /\
    get_own fallback "type" = JStr type /\
    get_own fallback "error" = JStr "Fallback content due to AI error" /\
    (exists text, get_own fallback "content" = JStr text /\ text <> EmptyString).
Proof.
  intros H. unfold fallback_block. rewrite !(get_not_nullish _ _ H).
  cbn [res_bind]. eexists. split; [reflexivity|]. repeat split.
  eexists. split; [reflexivity|]. discriminate.
Qed.

Section GeneratorProperties.
Context {World : Type} (svc : Services World).

(** C5, as the code has it. On a step that is neither [null] nor
    [undefined], [generateContentForStep] never raises, whatever the
    service does. When the prompt cannot be built, when the call of the
    service fails, or when neither [parseAIJSONResponse] nor [JSON.parse]
    of the repaired text reads the answer, the result is the fallback block
    of the step, which carries the [error] marker and a content that is not
    empty. A text of prose, with none of the characters that start or
    delimit JSON, is such an answer. Otherwise the result is the value of
    the first reading that succeeds. *)
Theorem generateContentForStep_never_raises
    (step : JSValue) (ctx : GenContext) (w : World) :
  nullish step = false ->
  let type := step_type (get_own step "type") in
  exists block fallback,
    fst (generateContentForStep svc step ctx w) = Ok block /\
    fallback_block step type = Ok fallback /\
    get_own fallback "error" = JStr "Fallback content due to AI error" /\
    (exists text, get_own fallback "content" = JStr text /\ text <> EmptyString) /\
    (String.eqb type "choice" = false -> String.eqb type "image" = false ->
       match stepPrompt svc type step ctx with
       | Throw _ => block = fallback
       | Ok prompt =>
           match fst (generateResponse svc prompt w) with
           | Throw _ => block = fallback
           | Ok response =>
               (forall value,
                  parseAIJSONResponse (JStr response) = Ok value ->
                  block = value) /\
               (forall e value,
                  parseAIJSONResponse (JStr response) = Throw e ->
                  JSON_parse (fix_string response) = Ok value ->
                  block = value) /\
               (forall e e',
                  parseAIJSONResponse (JStr response) = Throw e ->
                  JSON_parse (fix_string response) = Throw e' ->
                  block = fallback) /\
               (prose response = true -> block = fallback)
           end
       end).
Proof.
  intros Hs type.
  destruct (fallback_block_ok step type Hs) as (fb & Hfb & _ & Herr & Hcontent).
  unfold generateContentForStep. rewrite (get_not_nullish _ _ Hs).
  unfold bind at 1, lift at 1. fold type.
  unfold catch. rewrite Hfb.
  destruct (String.eqb type "choice") eqn:Ec.
  { unfold lift. destruct (choice_block step _) as [b|e];
      [exists b, fb|exists fb, fb]; repeat split; auto; discriminate. }
  destruct (String.eqb type "image") eqn:Ei.
  { unfold lift. destruct (image_block step) as [b|e];
      [exists b, fb|exists fb, fb]; repeat split; auto; discriminate. }
  unfold bind, lift.
  destruct (stepPrompt svc type step ctx) as [prompt|e].
  - destruct (generateResponse svc prompt w) as [[response|e] w'].
    + unfold normalize_response, res_catch, fixCommonJSONIssues.
      cbn [ToString fst].
      destruct (parseAIJSONResponse (JStr response)) as [v|e] eqn:Ep.
      * exists v, fb. do 4 (split; [done|]). intros _ _.
        split; [intros; congruence|]. split; [discriminate|].
        split; [discriminate|]. intros Hp.
        destruct (prose_not_json response Hp) as [H _]. congruence.
      * destruct (JSON_parse (fix_string response)) as [v|e2] eqn:Ej;
          [exists v, fb|exists fb, fb]; do 4 (split; [done|]); intros _ _;
          (split; [discriminate|]).
        -- split; [intros; congruence|]. split; [discriminate|].
           intros Hp. destruct (prose_not_json response Hp) as [_ H].
           congruence.
        -- split; [discriminate|]. split; reflexivity.
    + exists fb, fb. repeat split; auto.
  - exists fb, fb. repeat split; auto.
Qed.

End GeneratorProperties.

(** Scenario D: the service throws for step [s4] of type [narration]; and
    the service answers the same step with a refusal in prose. *)
Lemma generateContentForStep_never_raises_witness :
  (exists block,
     fst (generateContentForStep offline (step "s4" "narration" JUndefined)
            no_context tt) = Ok block /\
     get_own block "error" = JStr "Fallback content due to AI error" /\
     get_own block "content" = JStr "This slide covers: obj") /\
  (exists block,
     fst (generateContentForStep (answering "Sorry, I can't help with that.")
            (step "s4" "narration" JUndefined) no_context tt) = Ok block /\
     get_own block "error" = JStr "Fallback content due to AI error" /\
     get_own block "content" = JStr "This slide covers: obj").
Proof.
  split.
  - destruct (generateContentForStep_never_raises offline
                (step "s4" "narration" JUndefined) no_context tt eq_refl)
      as (block & fallback & Hb & Hf & _ & _ & Hcall).
    exists block. split; [exact Hb|].
    specialize (Hcall eq_refl eq_refl). cbn in Hcall. subst block.
    injection Hf as <-. split; reflexivity.
  - destruct (generateContentForStep_never_raises
                (answering "Sorry, I can't help with that.")
                (step "s4" "narration" JUndefined) no_context tt eq_refl)
      as (block & fallback & Hb & Hf & _ & _ & Hcall).
    exists block. split; [exact Hb|].
    destruct (Hcall eq_refl eq_refl) as (_ & _ & _ & Hp).
    rewrite (Hp eq_refl). injection Hf as <-. split; reflexivity.
Defined.

(** C5, as stated, fails: a plan may hold [null] in the place of a step,
    when the service answers the planner with [[null]], and on that step
    the generator raises, reading the type before its [try]. *)
Lemma generateContentForStep_null_step :
  fst (createPlan (answering "[null]") JNull JNull tt) = Ok [JNull] /\
  fst (generateContentForStep (answering "[null]") JNull no_context tt) =
    Throw (TypeError "Cannot read properties of null").
Proof. split; reflexivity. Qed.

(** ** The session engine *)

Lemma is_choice_type_not_nullish (block : JSValue) :
  is_choice_type (get_opt block "type") = Ok true -> nullish block = false.
Proof. destruct block; try reflexivity; discriminate. Qed.

Lemma get_opt_not_nullish (v : JSValue) (k : string) :
  nullish v = false -> get_opt v k = get_own v k.
Proof. unfold get_opt. by intros ->. Qed.

Lemma currentTurnPayload_ok (st : SessionState) (isChoice : bool) :
  nullish (at_index (blocks st) (blockIndex st)) = false ->
  is_choice_type (get_own (at_index (blocks st) (blockIndex st)) "type") = Ok isChoice ->
  currentTurnPayload st = Ok (payload_of st isChoice).
Proof.
  intros Hn Ht. unfold currentTurnPayload.
  rewrite (get_not_nullish _ _ Hn). cbn [res_bind]. rewrite Ht. reflexivity.
Qed.

Section EngineProperties.
Context {World : Type} (svc : Services World).

Lemma on_session_unchanged {A} (op : Op A) (u m : string)
    (eng : EngineState (World := World)) (st : SessionState) (r : Res A) :
  sessions eng !! sessionKey u m = Some st ->
  op (st, world eng) = (r, (st, world eng)) ->
  on_session u m op eng = (r, eng).
Proof.
  intros Hs Hop. unfold on_session. rewrite Hs, Hop.
  destruct eng as [ss w]. cbn in *. by rewrite insert_id.
Qed.

(** C2. On a [choice] block whose turns are exhausted, [nextTurn] returns
    the payload of the current turn with [awaitingChoice] set and the
    choices of the block, and changes nothing: the cursor stays where it
    is, and so does the rest of the engine state. *)
Theorem choice_block_awaits_choice
    (eng : EngineState (World := World)) (u m : string) (st : SessionState) :
  sessions eng !! sessionKey u m = Some st ->
  let block := at_index (blocks st) (blockIndex st) in
  let turns := default [] (turnsByBlock st !! blockIndex st) in
  is_choice_type (get_opt block "type") = Ok true ->
  ~ (turnIndex st + 1 < length turns)%nat ->
  exists p,
    nextTurn svc u m eng = (Ok p, eng) /\
    get_own p "awaitingChoice" = JBool true /\
    get_own p "choices" = or_else (get_own block "choices") (JArr []) /\
    get_own p "done" = JBool false.
Proof.
  intros Hs block turns Hc Hex.
  pose proof (is_choice_type_not_nullish _ Hc) as Hn.
  rewrite (get_opt_not_nullish _ _ Hn) in Hc.
  eexists. split.
  - apply (on_session_unchanged _ _ _ _ st); [exact Hs|].
    unfold nextTurn_session, bind, state, gets. cbn [fst snd].
    fold turns. destruct (Nat.ltb_spec (turnIndex st + 1) (length turns)); [lia|].
    unfold lift. fold block. rewrite (get_opt_not_nullish _ _ Hn), Hc.
    unfold payload, bind, state, gets, lift. cbn [fst snd].
    rewrite (currentTurnPayload_ok st true Hn Hc). reflexivity.
  - repeat split.
Qed.

End EngineProperties.

Lemma ToString_jnat (i : nat) : ToString (jnat i) = string_of_nat i.
Proof.
  unfold jnat, string_of_nat. cbn [ToString string_of_number]. unfold string_of_Z.
  destruct (Z.ltb_spec (Z.of_nat i) 0); [lia|].
  f_equal. lia.
Qed.

Lemma is_digit_not (c a : ascii) :
  is_digit c = true -> is_digit a = false -> Ascii.eqb c a = false.
Proof.
  intros Hc Ha. destruct (Ascii.eqb_spec c a) as [->|]; [congruence|reflexivity].
Qed.

Lemma string_of_nat_first (i : nat) :
  exists c rest, string_of_nat i = String c rest /\ is_digit c = true.
Proof.
  unfold string_of_nat.
  destruct (string_of_N_spec (N.of_nat i)) as (Hd & _ & Hne & _).
  destruct (string_of_N (N.of_nat i)) as [|c rest]; [congruence|].
  exists c, rest. split; [reflexivity|].
  cbn [all_digits] in Hd. by apply andb_prop in Hd as [-> _].
Qed.

Lemma array_index_string_of_nat (i : nat) :
  array_index (string_of_nat i) = Some i.
Proof.
  unfold string_of_nat.
  destruct (string_of_N_spec (N.of_nat i)) as (Hd & Hv & Hne & Hnz & Hz).
  destruct (N.eq_dec (N.of_nat i) 0) as [E|E].
  - rewrite (Hz E). cbn. f_equal. lia.
  - specialize (Hnz E).
    destruct (string_of_N (N.of_nat i)) as [|c rest] eqn:Es; [congruence|].
    unfold array_index.
    destruct (Ascii.eqb_spec c "0") as [->|_]; [by destruct Hnz|].
    rewrite Hd, Hv. f_equal. lia.
Qed.

Lemma get_own_index (cs : list JSValue) (i : nat) :
  get_own (JArr cs) (ToString (jnat i)) = at_index cs i.
Proof.
  rewrite ToString_jnat. unfold get_own.
  destruct (string_of_nat_first i) as (c & rest & E & Hc).
  assert (Hl : String.eqb (string_of_nat i) "length" = false).
  { rewrite E. cbn [String.eqb]. by rewrite (is_digit_not c "l" Hc eq_refl). }
  rewrite Hl, array_index_string_of_nat. reflexivity.
Qed.

Lemma block_ok_spec (b : JSValue) :
  block_ok b = true ->
  nullish b = false /\ exists c, is_choice_type (get_own b "type") = Ok c.
Proof.
  unfold block_ok, is_choice_type. intros H. apply andb_prop in H as [H1 H2].
  split; [by destruct (nullish b)|].
  destruct (or_else (get_own b "type") (JStr EmptyString)); try discriminate.
  cbn. eauto.
Qed.

Lemma turns_of_block_total (b : JSValue) :
  nullish b = false -> exists turns, turns_of_block b = Ok turns.
Proof.
  intros H. unfold turns_of_block. rewrite (get_not_nullish _ _ H).
  cbn [res_bind]. eauto.
Qed.

Lemma truthy_not_nullish (v : JSValue) : truthy v = true -> nullish v = false.
Proof. by destruct v. Qed.

Lemma ensureTurnsForBlock_frame (st st' : SessionState) (i : nat) :
  ensureTurnsForBlock st i = Ok st' -> same_but_turns st st'.
Proof.
  unfold ensureTurnsForBlock.
  destruct (turnsByBlock st !! i).
  - intros [= <-]. by repeat split.
  - destruct (turns_of_block _); cbn [res_bind]; [|discriminate].
    intros [= <-]. by repeat split.
Qed.

Lemma ensureTurnsForBlock_total (st : SessionState) (i : nat) :
  nullish (at_index (blocks st) i) = false ->
  exists st', ensureTurnsForBlock st i = Ok st'.
Proof.
  intros H. unfold ensureTurnsForBlock.
  destruct (turnsByBlock st !! i); [eauto|].
  destruct (turns_of_block_total _ H) as [turns ->]. cbn [res_bind]. eauto.
Qed.

Section EngineCore.
Context {World : Type} (svc : Services World).

Lemma generateContentForStep_total (step : JSValue) (ctx : GenContext) (w : World) :
  nullish step = false ->
  exists b w', generateContentForStep svc step ctx w = (Ok b, w').
Proof.
  intros Hs.
  destruct (fallback_block_ok step (step_type (get_own step "type")) Hs)
    as (fb & Hfb & _).
  unfold generateContentForStep. rewrite (get_not_nullish _ _ Hs).
  unfold bind at 1, lift at 1. unfold catch. rewrite Hfb.
  match goal with |- context [match ?m w with _ => _ end] => destruct (m w) as [[b|e] w'] end;
    unfold lift; eauto.
Qed.

Lemma refresh_spec (st : SessionState) (w : World) :
  exists p e c w1, refresh svc (st, w) = (Ok tt, (set_context p e c st, w1)).
Proof.
  unfold refresh, bind, state, gets, in_world, catch, ret, update, modify.
  cbn [fst snd].
  destruct (generatePersonalizationInsights svc (user_id st) w) as [[p|x] w1];
    cbn [fst snd];
    match goal with |- context [generateEnhancedContext svc ?u ?w'] =>
      destruct (generateEnhancedContext svc u w') as [[e|x'] w2] end;
    cbn [fst snd];
    match goal with |- context [summarizeContext svc ?u ?w'] =>
      destruct (summarizeContext svc u w') as [[c|x''] w3] end;
    cbn [fst snd]; eauto 10.
Qed.

Lemma advance_to_spec (nextStep : JSValue) (st : SessionState) (w : World) :
  nullish nextStep = false ->
  exists p e c b w1,
    (exists ctx w0, fst (generateContentForStep svc nextStep ctx w0) = Ok b) /\
    let st2 := advanced b (set_context p e c st) in
    advance_to svc nextStep (st, w) =
      match ensureTurnsForBlock st2 (blockIndex st + 1) with
      | Ok st3 => (Ok tt, (st3, w1))
      | Throw x => (Throw x, (st2, w1))
      end.
Proof.
  intros Hn. unfold advance_to.
  destruct (refresh_spec st w) as (p & e & c & w1 & Hr).
  unfold bind at 1. rewrite Hr.
  unfold bind at 1, state at 1, gets. cbn [fst snd].
  unfold bind at 1, in_world at 1. cbn [fst snd].
  match goal with |- context [generateContentForStep svc nextStep ?ctx w1] =>
    destruct (generateContentForStep_total nextStep ctx w1 Hn) as (b & w2 & Hg);
    rewrite Hg; exists p, e, c, b, w2; split; [exists ctx, w1; by rewrite Hg|]
  end.
  cbv zeta. unfold bind, update, modify, try_state. cbn [fst snd].
  reflexivity.
Qed.

End EngineCore.

Section EngineSubmit.
Context {World : Type} (svc : Services World).

Lemma on_session_run {A} (op : Op A) (u m : string)
    (eng : EngineState (World := World)) (st st' : SessionState)
    (r : Res A) (w' : World) :
  sessions eng !! sessionKey u m = Some st ->
  op (st, world eng) = (r, (st', w')) ->
  on_session u m op eng =
    (r, {| sessions := <[sessionKey u m := st']> (sessions eng); world := w' |}).
Proof. intros Hs Hop. unfold on_session. by rewrite Hs, Hop. Qed.

Lemma submit_choice_spec (userId : string) (resp chosen : JSValue)
    (st : SessionState) (w : World) :
  let block := at_index (blocks st) (blockIndex st) in
  nullish block = false ->
  is_choice_type (get_own block "type") = Ok true ->
  select_choice block resp = Ok chosen ->
  exists a w1,
    let st0 := set_lastAssessment a st in
    let target := branch_target st block chosen in
    submitResponse_session svc userId resp (st, w) =
      if truthy target then
        match advance_to svc target (st0, w1) with
        | (Ok _, s') => (branched_response chosen (fst s'), s')
        | (Throw x, s') => (Throw x, s')
        end
      else (branched_response chosen st0, (st0, w1)).
Proof.
  intros block Hn Hc Hsel.
  unfold submitResponse_session.
  unfold bind at 1, state at 1, gets. cbn [fst snd]. fold block.
  rewrite (get_not_nullish _ _ Hn). unfold bind at 1, lift at 1.
  unfold bind at 1, in_world at 1, catch. cbn [fst snd].
  match goal with |- context [performRealTimeAssessment svc userId ?x w] =>
    destruct (performRealTimeAssessment svc userId x w) as [[a|x'] w1] end;
    [exists a, w1|exists JNull, w1]; cbn [fst snd ret];
    unfold bind at 1, update at 1, modify; cbn [fst snd];
    unfold bind at 1, lift at 1; rewrite Hc;
    unfold bind at 1, lift at 1; rewrite Hsel; cbv zeta;
    (destruct (truthy (branch_target st block chosen));
     [ unfold bind at 1;
       match goal with |- context [advance_to svc ?t ?s] =>
         destruct (advance_to svc t s) as [[[]|x''] [st' w']] end;
       [|reflexivity]
     | unfold bind at 1, ret at 1 ];
     unfold payload, bind, state, gets, lift, ret, branched_response; cbn [fst snd];
     destruct (currentTurnPayload _) as [p|x'']; reflexivity).
Qed.

End EngineSubmit.

Lemma currentTurnPayload_shape (st : SessionState) (p : JSValue) :
  currentTurnPayload st = Ok p -> exists c, p = payload_of st c.
Proof.
  unfold currentTurnPayload.
  destruct (get _ "block_id") as [id|] eqn:Eid; cbn [res_bind]; [|discriminate].
  destruct (is_choice_type _) as [c|]; cbn [res_bind]; [|discriminate].
  intros [= <-]. exists c. unfold payload_of.
  unfold get in Eid. destruct (nullish _); [discriminate|]. by injection Eid as <-.
Qed.

Lemma branched_response_spec (chosen : JSValue) (st : SessionState) (p : JSValue) :
  branched_response chosen st = Ok p ->
  get_own p "branched" = JBool true /\
  get_own p "choice" = or_else chosen JNull /\
  get_own p "blockId" = get_own (at_index (blocks st) (blockIndex st)) "block_id" /\
  get_own p "done" = JBool false.
Proof.
  unfold branched_response.
  destruct (currentTurnPayload st) as [q|] eqn:Eq; cbn [res_bind]; [|discriminate].
  destruct (currentTurnPayload_shape _ _ Eq) as [c ->].
  intros [= <-]. repeat split.
Qed.

Lemma branched_response_total (chosen : JSValue) (st : SessionState) :
  block_ok (at_index (blocks st) (blockIndex st)) = true ->
  exists p, branched_response chosen st = Ok p.
Proof.
  intros H. apply block_ok_spec in H as (Hn & c & Hc).
  unfold branched_response. rewrite (currentTurnPayload_ok st c Hn Hc).
  cbn [res_bind]. eauto.
Qed.

Lemma at_index_last (l : list JSValue) (b : JSValue) :
  at_index (l ++ [b])%list (length l) = b.
Proof. unfold at_index. by rewrite nth_middle. Qed.

Section EngineAdvance.
Context {World : Type} (svc : Services World).

(** The state reached by an advance to [target], whether or not the turns
    of the new block could be computed. *)
Lemma advance_to_state (target : JSValue) (st : SessionState) (w : World) :
  nullish target = false ->
  exists r st' w' b,
    advance_to svc target (st, w) = (r, (st', w')) /\
    (exists ctx w0, fst (generateContentForStep svc target ctx w0) = Ok b) /\
    blocks st' = (blocks st ++ [b])%list /\
    blockIndex st' = (blockIndex st + 1)%nat /\ turnIndex st' = 0%nat /\
    plan st' = plan st /\ planIndexById st' = planIndexById st /\
    lastAssessment st' = lastAssessment st /\
    (block_ok (at_index (blocks st') (blockIndex st')) = true -> r = Ok tt).
Proof.
  intros Hn.
  destruct (advance_to_spec svc target st w Hn) as (p & e & c & b & w1 & Hg & Ha).
  cbv zeta in Ha. rewrite Ha.
  destruct (ensureTurnsForBlock _ _) as [st3|x] eqn:Ee.
  - destruct (ensureTurnsForBlock_frame _ _ _ Ee) as (H1 & H2 & H3 & H4 & H5 & H6).
    exists (Ok tt), st3, w1, b. split; [reflexivity|]. split; [exact Hg|].
    rewrite H1, H2, H3, H4, H5, H6. by repeat split.
  - exists (Throw x), (advanced b (set_context p e c st)), w1, b.
    split; [reflexivity|]. split; [exact Hg|]. repeat split.
    intros Hok. apply block_ok_spec in Hok as [Hnn _].
    destruct (ensureTurnsForBlock_total (advanced b (set_context p e c st))
                (blockIndex st + 1)) as [st3 E3]; [exact Hnn|].
    congruence.
Qed.

End EngineAdvance.

(** ** Selections *)

Lemma find_choice_unmatched (cs : list JSValue) (wanted : string) :
  Forall (unmatched wanted) cs -> find_choice cs wanted = Ok JUndefined.
Proof.
  induction 1 as [|c cs (Hn & s & Hs & Hne) _ IH]; [reflexivity|].
  cbn [find_choice]. rewrite (get_not_nullish _ _ Hn). cbn [res_bind].
  rewrite Hs. cbn [call_toLowerCase res_bind].
  destruct (String.eqb_spec (toLowerCase s) wanted); [congruence|exact IH].
Qed.

Lemma find_choice_first_match (pre post : list JSValue) (c : JSValue)
    (wanted : string) :
  Forall (unmatched wanted) pre -> matched wanted c ->
  find_choice (pre ++ c :: post)%list wanted = Ok c.
Proof.
  intros Hpre (Hn & s & Hs & Hm).
  induction Hpre as [|x pre (Hxn & t & Ht & Hne) _ IH]; cbn [app find_choice].
  - rewrite (get_not_nullish _ _ Hn). cbn [res_bind].
    rewrite Hs. cbn [call_toLowerCase res_bind].
    by rewrite Hm, String.eqb_refl.
  - rewrite (get_not_nullish _ _ Hxn). cbn [res_bind].
    rewrite Ht. cbn [call_toLowerCase res_bind].
    destruct (String.eqb_spec (toLowerCase t) wanted); [congruence|exact IH].
Qed.

Lemma select_choice_object (block : JSValue) (fields : list (string * JSValue)) :
  select_choice block (JObj fields) =
    let selectionIndex := coalesce (obj_get fields "choiceIndex") JNull in
    let selectionText := coalesce (obj_get fields "choiceText") JNull in
    let byIndex :=
      if nullish selectionIndex then JUndefined
      else get_own (JArr (choices_of block)) (ToString selectionIndex) in
    if negb (nullish selectionIndex) && truthy byIndex then Ok byIndex
    else if truthy selectionText
         then find_choice (choices_of block) (toLowerCase (ToString selectionText))
         else Ok JNull.
Proof.
  unfold select_choice, choices_of. cbn [typeof String.eqb Ascii.eqb Bool.eqb].
  cbn [get nullish res_bind get_own].
  destruct (get_own block "choices"); reflexivity.
Qed.

Lemma select_by_index (block : JSValue) (fields : list (string * JSValue)) (i : nat) :
  obj_get fields "choiceIndex" = jnat i ->
  truthy (at_index (choices_of block) i) = true ->
  select_choice block (JObj fields) = Ok (at_index (choices_of block) i).
Proof.
  intros Hi Ht. rewrite select_choice_object. cbv zeta.
  rewrite Hi. cbn [coalesce jnat nullish negb andb].
  change (JNum (Int (Z.of_nat i))) with (jnat i).
  by rewrite get_own_index, Ht.
Qed.

Lemma index_out_of_range (cs : list JSValue) (z : Z) :
  z < 0 \/ Z.of_nat (length cs) <= z ->
  get_own (JArr cs) (ToString (JNum (Int z))) = JUndefined.
Proof.
  intros [Hneg|Hbig].
  - cbn [ToString string_of_number]. unfold string_of_Z.
    destruct (Z.ltb_spec z 0); [|lia]. reflexivity.
  - replace (JNum (Int z)) with (jnat (Z.to_nat z)) by (unfold jnat; do 2 f_equal; lia).
    rewrite get_own_index. unfold at_index. apply nth_overflow. lia.
Qed.

Lemma select_nothing (block : JSValue) (fields : list (string * JSValue)) :
  let idx := obj_get fields "choiceIndex" in
  let txt := obj_get fields "choiceText" in
  (nullish idx = true \/
   exists z, idx = JNum (Int z) /\
     (z < 0 \/ Z.of_nat (length (choices_of block)) <= z)) ->
  (truthy txt = false \/
   Forall (unmatched (toLowerCase (ToString txt))) (choices_of block)) ->
  exists chosen,
    select_choice block (JObj fields) = Ok chosen /\
    (chosen = JNull \/ chosen = JUndefined).
Proof.
  intros idx txt Hidx Htxt. rewrite select_choice_object. cbv zeta.
  fold idx. fold txt.
  assert (E : (if negb (nullish (coalesce idx JNull)) &&
                  truthy (if nullish (coalesce idx JNull) then JUndefined
                          else get_own (JArr (choices_of block))
                                 (ToString (coalesce idx JNull)))
               then true else false) = false).
  { destruct Hidx as [Hn|(z & -> & Hz)].
    - unfold coalesce. by rewrite Hn.
    - cbn [coalesce nullish negb andb]. by rewrite (index_out_of_range _ _ Hz). }
  destruct (negb _ && _); [discriminate|].
  destruct Htxt as [Hf|Hall].
  - assert (Ht : truthy (coalesce txt JNull) = false).
    { unfold coalesce. by destruct (nullish txt). }
    rewrite Ht. eauto.
  - destruct (truthy (coalesce txt JNull)) eqn:Et; [|eauto].
    assert (Ec : coalesce txt JNull = txt).
    { unfold coalesce. destruct (nullish txt) eqn:En; [|reflexivity].
      unfold coalesce in Et. by rewrite En in Et. }
    rewrite Ec, (find_choice_unmatched _ _ Hall). eauto.
Qed.

Lemma branch_target_none (st : SessionState) (block chosen : JSValue) :
  chosen = JNull \/ chosen = JUndefined ->
  branch_target st block chosen = sequential_successor st block /\
  or_else chosen JNull = JNull.
Proof. by intros [-> | ->]. Qed.

Lemma branch_target_named (st : SessionState) (block chosen : JSValue) (k : nat) :
  truthy chosen = true ->
  truthy (get_own chosen "next_block") = true ->
  plan_index st (get_own chosen "next_block") = Some k ->
  branch_target st block chosen = at_index (plan st) k.
Proof.
  intros Hc Hn Hk. unfold branch_target.
  rewrite (get_opt_not_nullish _ _ (truthy_not_nullish _ Hc)).
  unfold or_else. rewrite Hn, (truthy_not_nullish _ Hn), Hk. reflexivity.
Qed.

Lemma branch_target_sequential (st : SessionState) (block chosen : JSValue) :
  truthy (get_opt chosen "next_block") = false \/
  plan_index st (get_opt chosen "next_block") = None ->
  branch_target st block chosen = sequential_successor st block.
Proof.
  intros H. unfold branch_target, sequential_successor, or_else.
  destruct (truthy (get_opt chosen "next_block")) eqn:Et; [|reflexivity].
  destruct H as [H|H]; [discriminate|].
  by rewrite (truthy_not_nullish _ Et), H.
Qed.

Lemma select_by_text (block : JSValue) (fields : list (string * JSValue))
    (pre post : list JSValue) (c : JSValue) :
  let idx := obj_get fields "choiceIndex" in
  let txt := obj_get fields "choiceText" in
  (nullish idx = true \/
   exists z, idx = JNum (Int z) /\
     (z < 0 \/ Z.of_nat (length (choices_of block)) <= z)) ->
  truthy txt = true ->
  choices_of block = (pre ++ c :: post)%list ->
  Forall (unmatched (toLowerCase (ToString txt))) pre ->
  matched (toLowerCase (ToString txt)) c ->
  select_choice block (JObj fields) = Ok c.
Proof.
  intros idx txt Hidx Htxt Hcs Hpre Hm.
  rewrite select_choice_object. cbv zeta. fold idx. fold txt.
  assert (E : negb (nullish (coalesce idx JNull)) &&
              truthy (if nullish (coalesce idx JNull) then JUndefined
                      else get_own (JArr (choices_of block))
                             (ToString (coalesce idx JNull))) = false).
  { destruct Hidx as [Hn|(z & -> & Hz)].
    - unfold coalesce. by rewrite Hn.
    - cbn [coalesce nullish negb andb]. by rewrite (index_out_of_range _ _ Hz). }
  rewrite E.
  assert (Ec : coalesce txt JNull = txt).
  { unfold coalesce. by rewrite (truthy_not_nullish _ Htxt). }
  rewrite Ec, Htxt, Hcs. by apply find_choice_first_match.
Qed.

Section ChoiceProperties.
Context {World : Type} (svc : Services World).

(** The outcome of [submitResponse] on a choice block once the selection is
    known to resolve to [chosen] and the branch to [target]. *)
Lemma submit_choice_outcome (eng : EngineState (World := World)) (u m : string)
    (st : SessionState) (resp chosen target : JSValue) :
  sessions eng !! sessionKey u m = Some st ->
  let block := at_index (blocks st) (blockIndex st) in
  is_choice_type (get_opt block "type") = Ok true ->
  select_choice block resp = Ok chosen ->
  branch_target st block chosen = target ->
  exists r eng' st',
    submitResponse svc u m resp eng = (r, eng') /\
    sessions eng' !! sessionKey u m = Some st' /\
    (forall p, r = Ok p ->
       get_own p "branched" = JBool true /\
       get_own p "choice" = or_else chosen JNull) /\
    ((blockIndex st + 1 = length (blocks st))%nat -> yields_blocks svc ->
       exists p, r = Ok p /\
         (truthy target = true ->
          get_own p "blockId" =
            get_own (at_index (blocks st') (length (blocks st))) "block_id")) /\
    (if truthy (target) then
       exists b,
         (exists ctx w0,
            fst (generateContentForStep svc (target) ctx w0)
              = Ok b) /\
         blocks st' = (blocks st ++ [b])%list /\
         blockIndex st' = (blockIndex st + 1)%nat /\ turnIndex st' = 0%nat
     else
       blocks st' = blocks st /\ blockIndex st' = blockIndex st /\
       turnIndex st' = turnIndex st).
Proof.
  intros Hs block Hc Hsel Htarget.
  pose proof (is_choice_type_not_nullish _ Hc) as Hn.
  rewrite (get_opt_not_nullish _ _ Hn) in Hc.
  destruct (submit_choice_spec svc u resp chosen st (world eng) Hn Hc Hsel)
    as (a & w1 & Hsub).
  cbv zeta in Hsub. fold block in Hsub. rewrite Htarget in Hsub.
  destruct (truthy (target)) eqn:Et.
  - destruct (advance_to_state svc (target)
                (set_lastAssessment a st) w1 (truthy_not_nullish _ Et))
      as (r0 & st' & w' & b & Ha & Hg & Hb & Hi & Ht & _ & _ & _ & Hok).
    rewrite Ha in Hsub.
    assert (Hbk : (blockIndex st + 1 = length (blocks st))%nat -> yields_blocks svc ->
              block_ok (at_index (blocks st') (blockIndex st')) = true).
    { intros Hlast Hgen. rewrite Hb, Hi. cbn [blocks set_lastAssessment blockIndex].
      rewrite Hlast, at_index_last. destruct Hg as (ctx & w0 & Hg).
      by eapply Hgen. }
    destruct r0 as [[]|x]; cbn [fst] in Hsub;
      (eexists _, _, st'; split; [eapply on_session_run; [exact Hs|exact Hsub]|];
       split; [apply lookup_insert_eq|]; split; [|split]).
    + intros p Hp. apply branched_response_spec in Hp. tauto.
    + intros Hlast Hgen.
      destruct (branched_response_total chosen st' (Hbk Hlast Hgen)) as [p Hp].
      exists p. split; [exact Hp|]. intros _.
      apply branched_response_spec in Hp as (_ & _ & -> & _).
      by rewrite Hi, <- Hlast.
    + exists b. auto.
    + discriminate.
    + intros Hlast Hgen. by specialize (Hok (Hbk Hlast Hgen)).
    + exists b. auto.
  - eexists _, _, (set_lastAssessment a st).
    split; [eapply on_session_run; [exact Hs|exact Hsub]|].
    split; [apply lookup_insert_eq|].
    split; [|split].
    + intros p Hp. apply branched_response_spec in Hp. tauto.
    + intros _ _.
      destruct (branched_response_total chosen (set_lastAssessment a st)) as [p Hp].
      { cbn [blocks set_lastAssessment blockIndex]. fold block.
        unfold block_ok. rewrite Hn. unfold is_choice_type in Hc.
        destruct (or_else (get_own block "type") (JStr EmptyString)); try discriminate.
        reflexivity. }
      exists p. split; [exact Hp|discriminate].
    + by repeat split.
Qed.

(** C10. A response that is a plain string selects no option of a choice
    block, whatever its text: the selection is [null], the branch target is
    the sequential successor of the current step, and the response carries
    [choice = null]. The session moves to a block generated for that step
    when the plan has one, and keeps its cursor otherwise. *)
Theorem string_response_selects_no_option
    (eng : EngineState (World := World)) (u m : string) (st : SessionState)
    (s : string) :
  sessions eng !! sessionKey u m = Some st ->
  let block := at_index (blocks st) (blockIndex st) in
  is_choice_type (get_opt block "type") = Ok true ->
  select_choice block (JStr s) = Ok JNull /\
  branch_target st block JNull = sequential_successor st block /\
  exists r eng' st',
    submitResponse svc u m (JStr s) eng = (r, eng') /\
    sessions eng' !! sessionKey u m = Some st' /\
    (forall p, r = Ok p ->
       get_own p "branched" = JBool true /\ get_own p "choice" = JNull) /\
    (if truthy (sequential_successor st block) then
       exists b,
         (exists ctx w0,
            fst (generateContentForStep svc (sequential_successor st block) ctx w0)
              = Ok b) /\
         blocks st' = (blocks st ++ [b])%list /\
         blockIndex st' = (blockIndex st + 1)%nat /\ turnIndex st' = 0%nat
     else
       blocks st' = blocks st /\ blockIndex st' = blockIndex st /\
       turnIndex st' = turnIndex st).
Proof.
  intros Hs block Hc.
  split; [reflexivity|]. split; [reflexivity|].
  destruct (submit_choice_outcome eng u m st (JStr s) JNull _ Hs Hc eq_refl eq_refl)
    as (r & eng' & st' & H1 & H2 & H3 & _ & H5).
  exists r, eng', st'. auto.
Qed.

End ChoiceProperties.

Section SelectionProperties.
Context {World : Type} (svc : Services World).

(** The response of [submitResponse] on a choice block whose selection
    resolves to [chosen], for a session whose cursor is on its last block
    and a generator whose blocks can be presented. *)
Lemma submit_choice_branches (eng : EngineState (World := World)) (u m : string)
    (st : SessionState) (resp chosen : JSValue) :
  sessions eng !! sessionKey u m = Some st ->
  let block := at_index (blocks st) (blockIndex st) in
  is_choice_type (get_opt block "type") = Ok true ->
  (blockIndex st + 1 = length (blocks st))%nat ->
  yields_blocks svc ->
  select_choice block resp = Ok chosen ->
  branches_to svc eng u m st resp (or_else chosen JNull)
    (branch_target st block chosen).
Proof.
  intros Hs block Hc Hlast Hgen Hsel.
  destruct (submit_choice_outcome svc eng u m st resp chosen _ Hs Hc Hsel eq_refl)
    as (r & eng' & st' & Hrun & Hst' & Hp & Hret & Hmove).
  destruct (Hret Hlast Hgen) as (p & -> & Hid).
  destruct (Hp p eq_refl) as [Hbr Hch].
  exists p, eng', st'. do 4 (split; [assumption|]).
  fold block in Hmove, Hid.
  destruct (truthy (branch_target st block chosen)); [|exact Hmove].
  destruct Hmove as (b & Hb & Hblocks & Hbi & Hti).
  exists b. do 4 (split; [assumption|]).
  rewrite (Hid eq_refl), Hblocks. by rewrite at_index_last.
Qed.


End SelectionProperties.

(** ** Concrete sessions *)

Lemma offline_yields_blocks : yields_blocks offline.
Proof.
  intros s ctx w b. unfold generateContentForStep.
  destruct (nullish s) eqn:Hs.
  { unfold get. rewrite Hs. discriminate. }
  rewrite (get_not_nullish _ _ Hs). unfold bind at 1, lift at 1.
  unfold catch.
  destruct (fallback_block_ok s (step_type (get_own s "type")) Hs)
    as (fb & Hfb & Hty & _).
  rewrite Hfb.
  assert (Hfbok : block_ok fb = true).
  { unfold fallback_block in Hfb. rewrite !(get_not_nullish _ _ Hs) in Hfb.
    cbn [res_bind] in Hfb. injection Hfb as <-.
    unfold block_ok. cbn. by destruct (step_type _). }
  destruct (String.eqb _ "choice").
  { unfold lift, choice_block. rewrite !(get_not_nullish _ _ Hs). cbn [res_bind].
    match goal with |- context [res_bind ?x _] => destruct x as [cs|e] end;
      cbn [res_bind fst]; intros [= <-]; [reflexivity|exact Hfbok]. }
  destruct (String.eqb _ "image").
  { unfold lift, image_block. rewrite !(get_not_nullish _ _ Hs). cbn [res_bind fst].
    intros [= <-]. reflexivity. }
  cbn. intros [= <-]. exact Hfbok.
Qed.

Lemma choice_block_awaits_choice_witness :
  exists p,
    nextTurn offline "u1" "m1" (engine_with session_b) = (Ok p, engine_with session_b) /\
    get_own p "awaitingChoice" = JBool true.
Proof.
  destruct (choice_block_awaits_choice offline (engine_with session_b) "u1" "m1"
              session_b eq_refl eq_refl)
    as (p & H1 & H2 & _).
  - vm_compute. lia.
  - exists p. split; assumption.
Defined.



Lemma string_response_selects_no_option_witness :
  select_choice (at_index (blocks session_b) 0) (JStr "b") = Ok JNull /\
  exists r eng',
    submitResponse offline "u1" "m1" (JStr "b") (engine_with session_b) = (r, eng') /\
    (forall p, r = Ok p -> get_own p "choice" = JNull).
Proof.
  destruct (string_response_selects_no_option offline (engine_with session_b)
              "u1" "m1" session_b "b" eq_refl eq_refl)
    as (H1 & _ & r & eng' & st' & H2 & _ & H3 & _).
  split; [exact H1|]. exists r, eng'. split; [exact H2|].
  intros p Hp. by destruct (H3 p Hp).
Defined.

(** ** Walking through a block *)

Section Walk.
Context {World : Type} (svc : Services World).

Lemma with_session_lookup (eng : EngineState (World := World)) (u m : string)
    (st : SessionState) :
  sessions (with_session eng u m st) !! sessionKey u m = Some st.
Proof. apply lookup_insert_eq. Qed.

Lemma with_session_twice (eng : EngineState (World := World)) (u m : string)
    (st st' : SessionState) :
  with_session (with_session eng u m st) u m st' = with_session eng u m st'.
Proof. unfold with_session. cbn. by rewrite insert_insert_eq. Qed.

Lemma with_session_same (eng : EngineState (World := World)) (u m : string)
    (st : SessionState) :
  sessions eng !! sessionKey u m = Some st -> with_session eng u m st = eng.
Proof.
  intros H. destruct eng as [ss w]. unfold with_session. cbn in *.
  by rewrite insert_id.
Qed.

(** A call that finds a further turn in the block: the turn index moves by
    one, nothing is generated. *)
Lemma nextTurn_within (eng : EngineState (World := World)) (u m : string)
    (st : SessionState) (turns : list JSValue) (c : bool) :
  sessions eng !! sessionKey u m = Some st ->
  turnsByBlock st !! blockIndex st = Some turns ->
  (turnIndex st + 1 < length turns)%nat ->
  nullish (at_index (blocks st) (blockIndex st)) = false ->
  is_choice_type (get_own (at_index (blocks st) (blockIndex st)) "type") = Ok c ->
  nextTurn svc u m eng =
    (Ok (payload_of (set_cursor (blockIndex st) (turnIndex st + 1) st) c),
     with_session eng u m (set_cursor (blockIndex st) (turnIndex st + 1) st)).
Proof.
  intros Hs Ht Hlt Hn Hc. unfold nextTurn.
  erewrite on_session_run; [reflexivity|exact Hs|].
  unfold nextTurn_session, bind, state, gets. cbn [fst snd]. rewrite Ht.
  change (default [] (Some turns)) with turns. destruct (Nat.ltb_spec (turnIndex st + 1) (length turns)); [|lia].
  unfold update, modify, payload, bind, state, gets, lift. cbn [fst snd].
  by rewrite (currentTurnPayload_ok _ c).
Qed.

Lemma nextTurn_times_within (k : nat) :
  forall (eng : EngineState (World := World)) (u m : string) (st : SessionState)
         (turns : list JSValue) (c : bool),
    sessions eng !! sessionKey u m = Some st ->
    turnsByBlock st !! blockIndex st = Some turns ->
    (turnIndex st + k < length turns)%nat ->
    nullish (at_index (blocks st) (blockIndex st)) = false ->
    is_choice_type (get_own (at_index (blocks st) (blockIndex st)) "type") = Ok c ->
    nextTurn_times svc k u m eng =
      (map (fun j => Ok (payload_of (set_cursor (blockIndex st) (turnIndex st + j + 1) st) c))
           (seq 0 k),
       with_session eng u m (set_cursor (blockIndex st) (turnIndex st + k) st)).
Proof.
  induction k as [|k IH]; intros eng u m st turns c Hs Ht Hlt Hn Hc.
  - cbn. f_equal. rewrite Nat.add_0_r.
    rewrite <- (with_session_same eng u m st Hs) at 1. f_equal.
    by destruct st.
  - cbn [nextTurn_times].
    rewrite (nextTurn_within eng u m st turns c Hs Ht ltac:(lia) Hn Hc).
    erewrite (IH _ u m (set_cursor (blockIndex st) (turnIndex st + 1) st) turns c);
      [|apply with_session_lookup|exact Ht|cbn; lia|exact Hn|exact Hc].
    cbn [blockIndex turnIndex set_cursor]. rewrite with_session_twice.
    f_equal.
    + cbn [seq map]. rewrite Nat.add_0_r. f_equal.
      rewrite <- seq_shift, map_map. apply map_ext. intros j.
      do 2 f_equal. unfold set_cursor. cbn. f_equal. lia.
    + f_equal. unfold set_cursor. cbn. f_equal. lia.
Qed.

(** The call on the last turn of a non-choice block that has a successor:
    the cursor moves to the start of the next block. *)
Lemma nextTurn_crosses (eng : EngineState (World := World)) (u m : string)
    (st : SessionState) :
  sessions eng !! sessionKey u m = Some st ->
  let block := at_index (blocks st) (blockIndex st) in
  let turns := default [] (turnsByBlock st !! blockIndex st) in
  ~ (turnIndex st + 1 < length turns)%nat ->
  nullish block = false ->
  is_choice_type (get_own block "type") = Ok false ->
  (blockIndex st + 1 < length (blocks st))%nat \/
    truthy (sequential_successor st block) = true ->
  exists r eng' st',
    nextTurn svc u m eng = (r, eng') /\
    sessions eng' !! sessionKey u m = Some st' /\
    blockIndex st' = (blockIndex st + 1)%nat /\ turnIndex st' = 0%nat.
Proof.
  intros Hs block turns Hex Hn Hc Hnext. unfold nextTurn.
  assert (Hrun : exists r st' w',
            nextTurn_session svc (st, world eng) = (r, (st', w')) /\
            blockIndex st' = (blockIndex st + 1)%nat /\ turnIndex st' = 0%nat).
  { unfold nextTurn_session, bind at 1, state at 1, gets. cbn [fst snd].
    fold turns. destruct (Nat.ltb_spec (turnIndex st + 1) (length turns)); [lia|].
    fold block. rewrite (get_opt_not_nullish _ _ Hn).
    unfold bind at 1, lift at 1. rewrite Hc.
    destruct (Nat.ltb_spec (blockIndex st + 1) (length (blocks st))) as [Hlt|Hge].
    - unfold bind, update, modify, try_state, payload, state, gets, lift.
      cbn [fst snd].
      destruct (ensureTurnsForBlock _ _) as [st3|x] eqn:Ee.
      + destruct (ensureTurnsForBlock_frame _ _ _ Ee) as (_ & H2 & H3 & _).
        destruct (currentTurnPayload st3); eexists _, st3, _;
          (split; [reflexivity|by rewrite H2, H3]).
      + eexists _, _, _. split; [reflexivity|by split].
    - destruct Hnext as [Hlt|Hsucc]; [lia|].
      rewrite (get_not_nullish _ _ Hn). unfold bind at 1, lift at 1.
      change (at_index (plan st)
                (default (blockIndex st) (plan_index st (get_own block "block_id")) + 1))
        with (sequential_successor st block).
      rewrite Hsucc.
      destruct (advance_to_state svc _ st (world eng) (truthy_not_nullish _ Hsucc))
        as (r0 & st' & w' & b & Ha & _ & _ & Hi & Ht & _).
      unfold bind at 1. rewrite Ha.
      destruct r0 as [[]|x].
      + unfold payload, bind, state, gets, lift. cbn [fst snd].
        destruct (currentTurnPayload st'); eexists _, st', _; by split.
      + eexists _, st', _. by split. }
  destruct Hrun as (r & st' & w' & Hrun & Hi & Ht).
  eexists r, _, st'. split; [by eapply on_session_run|].
  split; [apply lookup_insert_eq|by split].
Qed.

End Walk.

Section WalkClaims.
Context {World : Type} (svc : Services World).

Lemma nextTurn_times_S (k : nat) (u m : string) (eng : EngineState (World := World)) :
  nextTurn_times svc (S k) u m eng =
    let '(r, eng1) := nextTurn svc u m eng in
    let '(rs, eng2) := nextTurn_times svc k u m eng1 in
    (r :: rs, eng2).
Proof. reflexivity. Qed.

Lemma nextTurn_times_snoc (k : nat) :
  forall (u m : string) (eng : EngineState (World := World)),
    nextTurn_times svc (S k) u m eng =
      let '(rs, eng1) := nextTurn_times svc k u m eng in
      let '(r, eng2) := nextTurn svc u m eng1 in
      ((rs ++ [r])%list, eng2).
Proof.
  induction k as [|k IH]; intros u m eng.
  - cbn. by destruct (nextTurn svc u m eng).
  - rewrite (nextTurn_times_S (S k)), (nextTurn_times_S k u m eng).
    destruct (nextTurn svc u m eng) as [r eng1]. rewrite IH.
    destruct (nextTurn_times svc k u m eng1) as [rs eng2].
    by destruct (nextTurn svc u m eng2).
Qed.

(** C1, as the code has it. On a non-choice block with [n] memoized turns,
    entered at turn 0, in a session that has a block after the current one
    or a plan step after the current step: each of the first [n - 1] calls
    of [nextTurn] returns the payload of the next turn, moves the turn
    index by one and leaves the rest of the engine state, the world of the
    collaborators included, as it was; after [n] calls the block index has
    moved by exactly one and the turn index is 0. *)
Theorem nextTurn_walks_block
    (eng : EngineState (World := World)) (u m : string) (st : SessionState)
    (turns : list JSValue) :
  sessions eng !! sessionKey u m = Some st ->
  let block := at_index (blocks st) (blockIndex st) in
  let n := length turns in
  turnIndex st = 0%nat ->
  turnsByBlock st !! blockIndex st = Some turns ->
  turns <> [] ->
  nullish block = false ->
  is_choice_type (get_own block "type") = Ok false ->
  ((blockIndex st + 1 < length (blocks st))%nat \/
   truthy (sequential_successor st block) = true) ->
  (forall k, (k < n)%nat ->
     nextTurn_times svc k u m eng =
       (map (fun j => Ok (payload_of (set_cursor (blockIndex st) (j + 1) st) false))
            (seq 0 k),
        with_session eng u m (set_cursor (blockIndex st) k st))) /\
  exists rs eng' st',
    nextTurn_times svc n u m eng = (rs, eng') /\
    sessions eng' !! sessionKey u m = Some st' /\
    blockIndex st' = (blockIndex st + 1)%nat /\ turnIndex st' = 0%nat.
Proof.
  intros Hs block n Ht0 Hturns Hne Hn Hc Hnext.
  assert (Hfirst : forall k, (k < n)%nat ->
     nextTurn_times svc k u m eng =
       (map (fun j => Ok (payload_of (set_cursor (blockIndex st) (j + 1) st) false))
            (seq 0 k),
        with_session eng u m (set_cursor (blockIndex st) k st))).
  { intros k Hk.
    rewrite (nextTurn_times_within svc k eng u m st turns false Hs Hturns
               ltac:(fold n; lia) Hn Hc).
    by rewrite Ht0. }
  split; [exact Hfirst|].
  destruct n as [|k] eqn:En; [by destruct turns|].
  rewrite nextTurn_times_snoc, (Hfirst k ltac:(lia)).
  destruct (nextTurn_crosses svc (with_session eng u m (set_cursor (blockIndex st) k st))
              u m (set_cursor (blockIndex st) k st)) as (r & eng' & st' & Hr & Hst' & Hi & Ht).
  - apply with_session_lookup.
  - cbn [blockIndex turnIndex turnsByBlock set_cursor]. rewrite Hturns.
    change (default [] (Some turns)) with turns. fold n in En. lia.
  - exact Hn.
  - exact Hc.
  - exact Hnext.
  - rewrite Hr. eexists _, eng', st'. split; [reflexivity|]. by repeat split.
Qed.

End WalkClaims.

Lemma nextTurn_walks_block_witness :
  exists rs eng' st',
    nextTurn_times offline 2 "u1" "m1" (engine_with session_c) = (rs, eng') /\
    sessions eng' !! sessionKey "u1" "m1" = Some st' /\
    blockIndex st' = 1%nat /\ turnIndex st' = 0%nat.
Proof.
  destruct (nextTurn_walks_block offline (engine_with session_c)
              "u1" "m1" session_c (turns_for (narration_block "s1"))
              eq_refl eq_refl eq_refl
              ltac:(discriminate) eq_refl eq_refl (or_intror eq_refl))
    as [_ H].
  exact H.
Defined.

(** C1, as stated, fails on the last block of a plan: after as many calls
    as the block has turns the answer is that the lesson is complete, and
    the block index has not moved. *)
Lemma nextTurn_stays_on_last_block :
  length (turns_for (narration_block "s1")) = 2%nat /\
  exists r1 st',
    nextTurn_times offline 2 "u1" "m1" (engine_with session_a) =
      ([Ok r1; Ok lesson_complete], engine_with st') /\
    blockIndex st' = blockIndex session_a /\
    blockIndex st' <> (blockIndex session_a + 1)%nat /\
    turnIndex st' = 1%nat.
Proof.
  split; [reflexivity|].
  eexists _, (set_cursor 0 1 session_a). split; [|by repeat split].
  vm_compute. reflexivity.
Qed.

(** ** The end of the plan *)

Section Exhausted.
Context {World : Type} (svc : Services World).

(** [submitResponse] on a block that is not a choice: the assessment is
    recorded, and nothing else of the session changes. *)
Lemma submit_feedback_spec (userId : string) (resp : JSValue)
    (st : SessionState) (w : World) :
  let block := at_index (blocks st) (blockIndex st) in
  nullish block = false ->
  is_choice_type (get_own block "type") = Ok false ->
  exists a fb rec w',
    submitResponse_session svc userId resp (st, w) =
      (Ok (JObj [("assessment", a); ("feedback", fb); ("next_recommendation", rec)]),
       (set_lastAssessment a st, w')).
Proof.
  intros block Hn Hc.
  unfold submitResponse_session.
  unfold bind at 1, state at 1, gets. cbn [fst snd]. fold block.
  rewrite (get_not_nullish _ _ Hn). unfold bind at 1, lift at 1.
  unfold bind at 1, in_world at 1, catch. cbn [fst snd].
  match goal with |- context [performRealTimeAssessment svc userId ?x w] =>
    destruct (performRealTimeAssessment svc userId x w) as [[a|x'] w1] end;
    [exists a|exists JNull]; cbn [fst snd ret];
    unfold bind at 1, update at 1, modify; cbn [fst snd];
    unfold bind at 1, lift at 1; rewrite Hc;
    unfold bind at 1, in_world at 1, catch, bind, lift; cbn [fst snd];
    (match goal with |- context [generateResponse svc ?x ?ww] =>
       destruct (generateResponse svc x ww) as [[raw|x''] w2] end;
     [destruct (parseAIJSONResponse (JStr _)) as [fb|x'']|]);
    cbn [fst snd ret];
    unfold maybeRecommendNext, bind, state, gets, catch, in_world, lift, ret;
    cbn [fst snd];
    (match goal with |- context [generateTutoringStrategy svc ?u ?x ?ww] =>
       destruct (generateTutoringStrategy svc u x ww) as [[strategy|x3] w3] end;
     cbn [fst snd];
     [destruct (get _ "actions") as [actions|x4];
      [destruct (get _ "methodology") as [methodology|x5]|]|]);
    eauto.
Qed.

Lemma nextTurn_done (eng : EngineState (World := World)) (u m : string)
    (st : SessionState) :
  sessions eng !! sessionKey u m = Some st ->
  let block := at_index (blocks st) (blockIndex st) in
  let turns := default [] (turnsByBlock st !! blockIndex st) in
  nullish block = false ->
  is_choice_type (get_own block "type") = Ok false ->
  ~ (turnIndex st + 1 < length turns)%nat ->
  ~ (blockIndex st + 1 < length (blocks st))%nat ->
  truthy (sequential_successor st block) = false ->
  nextTurn svc u m eng = (Ok lesson_complete, eng).
Proof.
  intros Hs block turns Hn Hc Hturns Hlast Hplan.
  apply (on_session_unchanged _ _ _ _ st); [exact Hs|].
  unfold nextTurn_session, bind at 1, state at 1, gets. cbn [fst snd].
  fold turns. destruct (Nat.ltb_spec (turnIndex st + 1) (length turns)); [lia|].
  fold block. rewrite (get_opt_not_nullish _ _ Hn).
  unfold bind at 1, lift at 1. rewrite Hc.
  destruct (Nat.ltb_spec (blockIndex st + 1) (length (blocks st))); [lia|].
  rewrite (get_not_nullish _ _ Hn). unfold bind at 1, lift at 1.
  change (at_index (plan st)
            (default (blockIndex st) (plan_index st (get_own block "block_id")) + 1))
    with (sequential_successor st block).
  by rewrite Hplan.
Qed.

(** C4, as the code has it. Once the turns of the current block are
    consumed, no further block exists and the plan has no step after the
    current one, on a block that is not a choice: every call of [nextTurn]
    returns the completion answer, which has [done = true], and leaves the
    engine state as it was. [submitResponse] does not answer with [done]:
    it returns the assessment, the feedback and the recommendation, and the
    only field of the session it writes is the last assessment; the cursor,
    the blocks and the turns stay, and [nextTurn] keeps answering that the
    lesson is complete. *)
Theorem exhausted_plan_is_stable
    (eng : EngineState (World := World)) (u m : string) (st : SessionState)
    (resp : JSValue) :
  sessions eng !! sessionKey u m = Some st ->
  let block := at_index (blocks st) (blockIndex st) in
  let turns := default [] (turnsByBlock st !! blockIndex st) in
  nullish block = false ->
  is_choice_type (get_own block "type") = Ok false ->
  ~ (turnIndex st + 1 < length turns)%nat ->
  ~ (blockIndex st + 1 < length (blocks st))%nat ->
  truthy (sequential_successor st block) = false ->
  (forall n, nextTurn_times svc n u m eng = (repeat (Ok lesson_complete) n, eng)) /\
  get_own lesson_complete "done" = JBool true /\
  exists a fb rec w',
    let r := JObj [("assessment", a); ("feedback", fb);
                   ("next_recommendation", rec)] in
    let eng' := {| sessions := <[sessionKey u m := set_lastAssessment a st]> (sessions eng);
                   world := w' |} in
    submitResponse svc u m resp eng = (Ok r, eng') /\
    get_own r "done" = JUndefined /\
    nextTurn svc u m eng' = (Ok lesson_complete, eng').
Proof.
  intros Hs block turns Hn Hc Hturns Hlast Hplan.
  split; [|split; [reflexivity|]].
  - induction n as [|n IH]; [reflexivity|].
    rewrite nextTurn_times_S.
    rewrite (nextTurn_done eng u m st Hs Hn Hc Hturns Hlast Hplan).
    by rewrite IH.
  - destruct (submit_feedback_spec u resp st (world eng) Hn Hc)
      as (a & fb & rec & w' & Hsub).
    exists a, fb, rec, w'. cbv zeta.
    split; [eapply on_session_run; [exact Hs|exact Hsub]|].
    split; [reflexivity|].
    apply (nextTurn_done _ u m (set_lastAssessment a st));
      [apply lookup_insert_eq|assumption..].
Qed.

End Exhausted.

Lemma exhausted_plan_is_stable_witness :
  nextTurn_times offline 3 "u1" "m1" (engine_with session_end) =
    ([Ok lesson_complete; Ok lesson_complete; Ok lesson_complete],
     engine_with session_end).
Proof.
  destruct (exhausted_plan_is_stable offline (engine_with session_end) "u1" "m1"
              session_end JNull eq_refl eq_refl eq_refl)
    as [H _]; [vm_compute; lia|vm_compute; lia|reflexivity|].
  exact (H 3%nat).
Defined.

(** C4, as stated, fails for [submitResponse]: on an exhausted plan it
    answers with feedback, not with [done = true], and it overwrites the
    last assessment of the session. *)
Lemma submitResponse_after_the_end :
  exists r eng' st',
    submitResponse assessing "u1" "m1" (JStr "ok") (engine_with session_end)
      = (Ok r, eng') /\
    get_own r "done" <> JBool true /\
    sessions eng' !! sessionKey "u1" "m1" = Some st' /\
    lastAssessment st' <> lastAssessment session_end.
Proof.
  eexists _, _, _. split; [vm_compute; reflexivity|].
  split; [discriminate|]. split; [vm_compute; reflexivity|]. discriminate.
Qed.

(** ** JSON round trip *)

Lemma JSON_stringify_arr (items : list JSValue) :
  JSON_stringify (JArr items) =
    Some ("[" ++ join "," (map element_text items) ++ "]").
Proof.
  reflexivity.
Qed.

Lemma valid_json_arr (items : list JSValue) :
  valid_json (JArr items) = forallb valid_json items.
Proof.
  reflexivity.
Qed.

Lemma valid_json_obj (props : list (string * JSValue)) :
  valid_json (JObj props) =
    forallb (fun kx => valid_json (snd kx)) props && distinct (map fst props).
Proof.
  cbn [valid_json]. f_equal. induction props as [|[k x] props IH]; [reflexivity|].
  simpl. f_equal. exact IH.
Qed.

Lemma json_size_arr (items : list JSValue) :
  json_size (JArr items) = S (list_sum (map json_size items)).
Proof.
  cbn [json_size]. f_equal. induction items as [|x items IH]; [reflexivity|].
  simpl. f_equal. exact IH.
Qed.

Lemma json_size_obj (props : list (string * JSValue)) :
  json_size (JObj props) = S (list_sum (map (fun kx => json_size (snd kx)) props)).
Proof.
  cbn [json_size]. f_equal. induction props as [|[k x] props IH]; [reflexivity|].
  simpl. f_equal. exact IH.
Qed.

Lemma json_size_pos (v : JSValue) : (1 <= json_size v)%nat.
Proof. destruct v; cbn [json_size]; lia. Qed.

Lemma JSON_stringify_obj (props : list (string * JSValue)) :
  forallb (fun kx => valid_json (snd kx)) props = true ->
  (forall x, valid_json x = true -> exists t, JSON_stringify x = Some t) ->
  JSON_stringify (JObj props) =
    Some ("{" ++ join "," (map member_text props) ++ "}").
Proof.
  intros Hv Hs. cbn [JSON_stringify].
  match goal with |- Some (_ ++ join _ ?l ++ _) = _ =>
    assert (E : l = map member_text props); [|by rewrite E] end.
  induction props as [|[k x] props IH]; [reflexivity|].
  cbn [forallb snd] in Hv. apply andb_prop in Hv as [Hx Hv].
  cbn [map]. unfold member_text at 1, element_text. cbn [fst snd].
  destruct (Hs x Hx) as [t ->]. by rewrite (IH Hv).
Qed.

Lemma valid_json_stringify (v : JSValue) :
  valid_json v = true -> exists t, JSON_stringify v = Some t.
Proof.
  destruct v as [| |[]|[]|s|items|props]; cbn [valid_json JSON_stringify];
    try discriminate; eauto.
Qed.

(** *** String literals *)

Lemma parse_escape_char (c : ascii) (t : string) :
  parse_string_body (escape_char c ++ t) =
    match parse_string_body t with
    | Some (x, rest) => Some (String c x, rest)
    | None => None
    end.
Proof.
  destruct c as [[] [] [] [] [] [] [] []]; reflexivity.
Qed.

Lemma parse_escaped_string (s rest : string) :
  parse_string_body (escape_string s ++ String dq rest) = Some (s, rest).
Proof.
  induction s as [|c s IH].
  - reflexivity.
  - cbn [escape_string]. rewrite append_assoc, parse_escape_char, IH. reflexivity.
Qed.

Lemma parse_quoted (s rest : string) :
  exists t, quote_json s ++ rest = String dq t /\
    parse_string_body t = Some (s, rest).
Proof.
  unfold quote_json. eexists. split; [reflexivity|].
  unfold str1. rewrite append_assoc. apply parse_escaped_string.
Qed.

(** *** Numerals *)

Lemma span_digits_app (d rest : string) :
  all_digits d = true -> not_digit_first rest = true ->
  span_digits (d ++ rest) = (d, rest).
Proof.
  intros Hd Hr. induction d as [|c d IH].
  - destruct rest as [|c rest]; [reflexivity|].
    cbn in *. by destruct (is_digit c).
  - cbn [all_digits] in Hd. apply andb_prop in Hd as [Hc Hd].
    cbn [String.append span_digits]. rewrite Hc, (IH Hd). reflexivity.
Qed.

Lemma closes_not_digit (rest : string) :
  closes rest = true -> not_digit_first rest = true.
Proof.
  destruct rest as [|c rest]; [reflexivity|]. cbn.
  destruct (Ascii.eqb_spec c ",") as [->|]; [reflexivity|].
  destruct (Ascii.eqb_spec c "]") as [->|]; [reflexivity|].
  destruct (Ascii.eqb_spec c "}") as [->|]; [reflexivity|]. discriminate.
Qed.

Lemma closes_no_fraction (rest : string) :
  closes rest = true -> parse_fraction rest = Some (None, rest).
Proof.
  destruct rest as [|c rest]; [reflexivity|]. cbn.
  destruct (Ascii.eqb_spec c ",") as [->|]; [reflexivity|].
  destruct (Ascii.eqb_spec c "]") as [->|]; [reflexivity|].
  destruct (Ascii.eqb_spec c "}") as [->|]; [reflexivity|]. discriminate.
Qed.

Lemma closes_no_exponent (rest : string) :
  closes rest = true -> parse_exponent rest = Some (None, rest).
Proof.
  destruct rest as [|c rest]; [reflexivity|]. cbn.
  destruct (Ascii.eqb_spec c ",") as [->|]; [reflexivity|].
  destruct (Ascii.eqb_spec c "]") as [->|]; [reflexivity|].
  destruct (Ascii.eqb_spec c "}") as [->|]; [reflexivity|]. discriminate.
Qed.

Lemma ok_lead_string_of_N (n : N) : ok_lead (string_of_N n) = true.
Proof.
  destruct (string_of_N_spec n) as (Hd & Hv & Hne & Hnz & Hz).
  destruct (N.eq_dec n 0) as [->|Hn0]; [by rewrite (Hz eq_refl)|].
  specialize (Hnz Hn0).
  destruct (string_of_N n) as [|c d]; [congruence|]. cbn [ok_lead].
  destruct (Ascii.eqb_spec c "0") as [->|_]; [by destruct Hnz|reflexivity].
Qed.

Lemma parse_unsigned_string_of_N (negative : bool) (n : N) (rest : string) :
  closes rest = true ->
  parse_unsigned negative (string_of_N n ++ rest) =
    Some (JNum (Int (signed negative (Z.of_N n))), rest).
Proof.
  intros Hr. destruct (string_of_N_spec n) as (Hd & Hv & _).
  unfold parse_unsigned.
  rewrite (span_digits_app _ _ Hd (closes_not_digit _ Hr)), ok_lead_string_of_N.
  rewrite (closes_no_fraction _ Hr), (closes_no_exponent _ Hr).
  cbn [numeral]. by rewrite Hv.
Qed.

Lemma parse_number_string_of_Z (z : Z) (rest : string) :
  closes rest = true ->
  parse_number (string_of_Z z ++ rest) = Some (JNum (Int z), rest).
Proof.
  intros Hr. unfold string_of_Z.
  destruct (Z.ltb_spec z 0) as [Hneg|Hpos].
  - cbn [String.append parse_number Ascii.eqb Bool.eqb].
    rewrite (parse_unsigned_string_of_N _ _ _ Hr). cbn [signed].
    replace (- Z.of_N (Z.to_N (- z))) with z by lia. reflexivity.
  - unfold parse_number.
    destruct (string_of_N_spec (Z.to_N z)) as (Hd & _ & Hne & _).
    destruct (string_of_N (Z.to_N z)) as [|c d] eqn:E; [congruence|].
    cbn [String.append].
    cbn [all_digits] in Hd. apply andb_prop in Hd as [Hc _].
    rewrite (is_digit_not c "-" Hc eq_refl).
    change (String c (d ++ rest)) with (String c d ++ rest). rewrite <- E.
    rewrite (parse_unsigned_string_of_N _ _ _ Hr). cbn [signed].
    replace (Z.of_N (Z.to_N z)) with z by lia. reflexivity.
Qed.

(** *** Doubles *)

Lemma ctz_mul_pow2 (p : positive) (k : Z) :
  0 <= k ->
  exists p', Z.pos p * 2 ^ k = Z.pos p' /\ ctz p' = ctz p + k.
Proof.
  intros Hk. revert p. pattern k. apply natlike_ind; [| |exact Hk].
  - intros p. exists p. split; [rewrite Z.pow_0_r; lia|lia].
  - intros x Hx IH p. destruct (IH p) as (p' & E & Hc).
    exists (xO p'). split.
    + rewrite Z.pow_succ_r by lia. lia.
    + cbn [ctz]. lia.
Qed.

Lemma ctz_odd (p : positive) : Z.odd (Z.pos p) = true -> ctz p = 0.
Proof. destruct p; [reflexivity|discriminate|reflexivity]. Qed.

Lemma ctz_nonneg (p : positive) : 0 <= ctz p.
Proof. induction p; cbn [ctz]; lia. Qed.

(** [a / 2^k < 2^E] in terms of the logarithm of [a]. *)
Lemma ratio_lt_pow2 (a k c E : Z) :
  0 < a -> 0 <= k -> 0 < c ->
  (a * c * 2 ^ Z.max 0 (- E) <? 2 ^ k * c * 2 ^ Z.max 0 E) = (Z.log2 a <? k + E).
Proof.
  intros Ha Hk Hc.
  assert (H2 : forall n, 0 <= n -> 0 < 2 ^ n) by (intros; apply Z.pow_pos_nonneg; lia).
  apply eq_true_iff_eq. rewrite !Z.ltb_lt.
  replace (a * c * 2 ^ Z.max 0 (- E)) with (a * 2 ^ Z.max 0 (- E) * c) by ring.
  replace (2 ^ k * c * 2 ^ Z.max 0 E) with (2 ^ k * 2 ^ Z.max 0 E * c) by ring.
  rewrite <- (Z.mul_lt_mono_pos_r c) by lia.
  destruct (Z.le_gt_cases 0 E) as [HE|HE].
  - rewrite (Z.max_l 0 (- E)), (Z.max_r 0 E) by lia.
    rewrite Z.pow_0_r, Z.mul_1_r, <- Z.pow_add_r by lia.
    apply Z.log2_lt_pow2; lia.
  - rewrite (Z.max_r 0 (- E)), (Z.max_l 0 E) by lia. rewrite Z.pow_0_r, Z.mul_1_r.
    destruct (Z.le_gt_cases 0 (k + E)) as [HkE|HkE].
    + rewrite <- (Z.log2_lt_pow2 a (k + E)) by lia.
      replace k with ((k + E) + (- E)) at 1 by lia.
      rewrite Z.pow_add_r by lia.
      symmetry. apply Z.mul_lt_mono_pos_r. apply H2. lia.
    + pose proof (Z.log2_nonneg a).
      assert (2 ^ k < 2 ^ (- E)) by (apply Z.pow_lt_mono_r; lia).
      pose proof (H2 k Hk). split; [nia|lia].
Qed.

Lemma binade_dyadic (a k c : Z) :
  0 < a -> 0 <= k -> 0 < c ->
  binade (a * c) (2 ^ k * c) = Z.log2 a - k.
Proof.
  intros Ha Hk Hc. unfold binade.
  set (E0 := Z.log2 (a * c) - Z.log2 (2 ^ k * c)).
  rewrite (ratio_lt_pow2 a k c E0 Ha Hk Hc).
  assert (HE0 : Z.log2 a - k <= E0 <= Z.log2 a - k + 1).
  { unfold E0. rewrite (Z.mul_comm (2 ^ k) c), Z.log2_mul_pow2 by lia.
    pose proof (Z.log2_mul_below a c Ha Hc).
    pose proof (Z.log2_mul_above a c ltac:(lia) ltac:(lia)). lia. }
  destruct (Z.ltb_spec (Z.log2 a) (k + E0)); lia.
Qed.

(** The decimal expansion of a double is read as the double. *)
Lemma round_dec_exact (a k : Z) :
  Z.odd a = true -> 0 < a < 2 ^ 53 -> 0 < k <= 1074 ->
  round_dec false (a * 5 ^ k) (- k) = Dbl a (- k).
Proof.
  intros Hodd Ha Hk. unfold round_dec.
  destruct (Z.leb_spec 0 (- k)); [lia|].
  replace (- - k) with k by lia.
  assert (H10 : 10 ^ k = 2 ^ k * 5 ^ k) by (rewrite <- Z.pow_mul_l; reflexivity).
  assert (H5 : 0 < 5 ^ k) by (apply Z.pow_pos_nonneg; lia).
  assert (H2k : 0 < 2 ^ k) by (apply Z.pow_pos_nonneg; lia).
  unfold nearest_double. rewrite H10, (binade_dyadic a k (5 ^ k)) by lia.
  assert (Hla : Z.log2 a <= 52).
  { assert (Z.log2 a < 53); [|lia]. apply Z.log2_lt_pow2; lia. }
  set (e := Z.max (Z.log2 a - k - 52) (-1074)).
  assert (He : e <= - k) by lia.
  rewrite (Z.max_r 0 (- e)), (Z.max_l 0 e) by lia. rewrite Z.pow_0_r, Z.mul_1_r.
  set (t := - e - k).
  assert (Ht : 0 <= t) by lia.
  assert (Enum : a * 5 ^ k * 2 ^ (- e) = a * 2 ^ t * (2 ^ k * 5 ^ k)).
  { replace (- e) with (t + k) by lia. rewrite Z.pow_add_r by lia. ring. }
  rewrite Enum, Z.div_mul, Z.mod_mul by lia.
  destruct (Z.ltb_spec (2 * 0) (2 ^ k * 5 ^ k)); [|lia].
  unfold make_number.
  destruct a as [|p|p]; [lia| |lia].
  destruct (ctz_mul_pow2 p t Ht) as (p' & Ep & Hc).
  rewrite Ep. rewrite (ctz_odd p Hodd) in Hc.
  destruct (Z.leb_spec 0 e); [lia|].
  rewrite Hc. rewrite Z.min_l by lia.
  destruct (Z.eqb_spec (e + (0 + t)) 0); [lia|].
  rewrite <- Ep. cbn [signed]. replace (0 + t) with t by lia.
  rewrite Z.div_mul by (apply Z.pow_nonzero; lia).
  f_equal. lia.
Qed.

(** A numeral without a negative exponent is not read as a double that is
    not an integer. *)
Lemma round_dec_integer (negative : bool) (s q m e : Z) :
  0 <= q -> round_dec negative s q <> Dbl m e.
Proof.
  intros Hq. unfold round_dec. destruct (Z.leb_spec 0 q); [|lia].
  unfold nearest_double. set (X := s * 10 ^ q).
  set (e0 := Z.max (binade X 1 - 52) (-1074)).
  destruct (Z.le_gt_cases 0 e0) as [He|He].
  - unfold make_number.
    match goal with |- context [match ?mm with Z0 => _ | Zpos _ => _ | Zneg _ => _ end] =>
      destruct mm; try discriminate end.
    destruct (Z.leb_spec 0 e0); [|lia]. destruct (_ <=? _); discriminate.
  - rewrite (Z.max_r 0 (- e0)), (Z.max_l 0 e0) by lia.
    rewrite Z.pow_0_r, Z.mul_1_r, Z.div_1_r, Z.mod_1_r.
    destruct (Z.ltb_spec (2 * 0) 1); [|lia].
    unfold make_number. destruct X as [|p|p]; try discriminate.
    destruct (ctz_mul_pow2 p (- e0) ltac:(lia)) as (p' & -> & Hc).
    destruct (Z.leb_spec 0 e0); [lia|].
    pose proof (ctz_nonneg p). rewrite Hc, Z.min_r by lia.
    destruct (Z.eqb_spec (e0 + - e0) 0); [discriminate|lia].
Qed.

Lemma round_dec_zero (negative : bool) (q : Z) : round_dec negative 0 q = Int 0.
Proof.
  unfold round_dec, nearest_double.
  assert (H : forall b e0, 0 < b ->
    make_number negative
      (if 2 * (0 * 2 ^ Z.max 0 (- e0) mod (b * 2 ^ Z.max 0 e0)) <? b * 2 ^ Z.max 0 e0
       then 0 * 2 ^ Z.max 0 (- e0) / (b * 2 ^ Z.max 0 e0)
       else if b * 2 ^ Z.max 0 e0 <? 2 * (0 * 2 ^ Z.max 0 (- e0) mod (b * 2 ^ Z.max 0 e0))
            then 0 * 2 ^ Z.max 0 (- e0) / (b * 2 ^ Z.max 0 e0) + 1
            else if Z.even (0 * 2 ^ Z.max 0 (- e0) / (b * 2 ^ Z.max 0 e0))
                 then 0 * 2 ^ Z.max 0 (- e0) / (b * 2 ^ Z.max 0 e0)
                 else 0 * 2 ^ Z.max 0 (- e0) / (b * 2 ^ Z.max 0 e0) + 1) e0 = Int 0).
  { intros b e0 Hb. rewrite Z.mul_0_l, Z.mod_0_l, Z.div_0_l.
    - assert (0 < b * 2 ^ Z.max 0 e0).
      { apply Z.mul_pos_pos; [lia|]. apply Z.pow_pos_nonneg; lia. }
      destruct (Z.ltb_spec (2 * 0) (b * 2 ^ Z.max 0 e0)); [reflexivity|lia].
    - assert (0 < b * 2 ^ Z.max 0 e0); [|lia].
      apply Z.mul_pos_pos; [lia|]. apply Z.pow_pos_nonneg; lia.
    - assert (0 < b * 2 ^ Z.max 0 e0); [|lia].
      apply Z.mul_pos_pos; [lia|]. apply Z.pow_pos_nonneg; lia. }
  destruct (Z.leb_spec 0 q).
  - rewrite Z.mul_0_l. apply H. lia.
  - apply H. apply Z.pow_pos_nonneg; lia.
Qed.

Lemma round_dec_negate (s q a e : Z) :
  round_dec false s q = Dbl a e -> round_dec true s q = Dbl (- a) e.
Proof.
  unfold round_dec.
  destruct (if 0 <=? q then _ else _) as [mm e0]. unfold make_number.
  destruct mm as [|p|p]; try discriminate.
  destruct (0 <=? e0); [destruct (_ <=? _); discriminate|].
  destruct (_ =? 0); [discriminate|].
  cbn [signed]. intros [= <- <-]. reflexivity.
Qed.

Lemma reads_as_spec (a e : Z) (c : Z * Z) :
  reads_as a e c = true -> round_dec false (fst c) (snd c) = Dbl a e.
Proof.
  unfold reads_as. destruct (round_dec false (fst c) (snd c)); try discriminate.
  intros H. apply andb_prop in H as [H1 H2].
  apply Z.eqb_eq in H1, H2. by subst.
Qed.

Lemma strip_zeros_nonneg (fuel : nat) (s q : Z) :
  0 <= s -> 0 <= fst (strip_zeros fuel s q).
Proof.
  revert s q. induction fuel as [|f IH]; intros s q Hs; [exact Hs|].
  cbn [strip_zeros]. destruct (_ && _); [|exact Hs].
  apply IH. apply Z.div_pos; lia.
Qed.

Lemma candidate_reads (a e D : Z) (j : nat) (c : Z * Z) :
  0 <= D -> candidate a e D j = Some c -> reads_as a e c = true /\ 0 <= fst c.
Proof.
  intros HD. unfold candidate.
  assert (Hu : 0 < 10 ^ Z.of_nat j) by (apply Z.pow_pos_nonneg; lia).
  assert (Hlo : 0 <= D / 10 ^ Z.of_nat j) by (apply Z.div_pos; lia).
  pose proof (strip_zeros_nonneg (S (Z.to_nat (Z.log2 (D / 10 ^ Z.of_nat j))))
                (D / 10 ^ Z.of_nat j) (e + Z.of_nat j) Hlo) as H1.
  pose proof (strip_zeros_nonneg (S (Z.to_nat (Z.log2 (D / 10 ^ Z.of_nat j + 1))))
                (D / 10 ^ Z.of_nat j + 1) (e + Z.of_nat j) ltac:(lia)) as H2.
  fold (stripped (D / 10 ^ Z.of_nat j) (e + Z.of_nat j)) in H1.
  fold (stripped (D / 10 ^ Z.of_nat j + 1) (e + Z.of_nat j)) in H2.
  destruct (reads_as a e (stripped (D / 10 ^ Z.of_nat j) (e + Z.of_nat j))) eqn:E1;
    destruct (reads_as a e (stripped (D / 10 ^ Z.of_nat j + 1) (e + Z.of_nat j))) eqn:E2;
    intros [= <-]; auto.
  destruct (_ <? _); [auto|]. destruct (_ <? _); [auto|]. destruct (Z.even _); auto.
Qed.

Lemma search_shortest_reads (a e D : Z) (j : nat) :
  0 <= D -> reads_as a e (D, e) = true ->
  reads_as a e (search_shortest a e D j) = true /\
  0 <= fst (search_shortest a e D j).
Proof.
  intros HD Hexact. induction j as [|j IH]; [by split|].
  cbn [search_shortest]. destruct (candidate a e D (S j)) as [c|] eqn:E; [|exact IH].
  by apply (candidate_reads a e D (S j)).
Qed.

(** The decimal printed for a double is read as the double; it has a
    digit after the point. *)
Lemma shortest_decimal_reads (a e : Z) :
  Z.odd a = true -> 0 < a < 2 ^ 53 -> -1074 <= e < 0 ->
  round_dec false (fst (shortest_decimal a e)) (snd (shortest_decimal a e)) = Dbl a e /\
  0 < fst (shortest_decimal a e) /\ snd (shortest_decimal a e) < 0.
Proof.
  intros Hodd Ha He. unfold shortest_decimal.
  assert (H5 : 0 < 5 ^ (- e)) by (apply Z.pow_pos_nonneg; lia).
  assert (HD : 0 <= a * 5 ^ (- e)) by (apply Z.mul_nonneg_nonneg; lia).
  assert (Hexact : reads_as a e (a * 5 ^ (- e), e) = true).
  { unfold reads_as. cbn [fst snd].
    pose proof (round_dec_exact a (- e) Hodd Ha ltac:(lia)) as H.
    replace (- - e) with e in H by lia. rewrite H.
    by rewrite !Z.eqb_refl. }
  destruct (search_shortest_reads a e _
              (pred (slen (string_of_N (Z.to_N (a * 5 ^ (- e)))))) HD Hexact)
    as [Hr Hs].
  apply reads_as_spec in Hr.
  set (c := search_shortest _ _ _ _) in *.
  split; [exact Hr|]. split.
  - destruct (Z.eq_dec (fst c) 0) as [E0|]; [|lia].
    rewrite E0, round_dec_zero in Hr. discriminate.
  - destruct (Z.le_gt_cases 0 (snd c)) as [Hq|]; [|lia].
    by destruct (round_dec_integer false (fst c) (snd c) a e Hq).
Qed.

(** *** The text of a decimal *)

Lemma all_digits_stake (n : nat) (ds : string) :
  all_digits ds = true -> all_digits (stake n ds) = true.
Proof.
  revert ds. induction n as [|n IH]; intros [|c ds] H; try reflexivity.
  cbn [all_digits] in H. apply andb_prop in H as [Hc H].
  cbn [stake all_digits]. by rewrite Hc, (IH ds H).
Qed.

Lemma all_digits_sdrop (n : nat) (ds : string) :
  all_digits ds = true -> all_digits (sdrop n ds) = true.
Proof.
  revert ds. induction n as [|n IH]; intros [|c ds] H; try done.
  cbn [all_digits] in H. apply andb_prop in H as [Hc H]. by apply IH.
Qed.

Lemma stake_sdrop (n : nat) (s : string) : stake n s ++ sdrop n s = s.
Proof.
  revert s. induction n as [|n IH]; intros [|c s]; try reflexivity.
  cbn [stake sdrop String.append]. by rewrite IH.
Qed.

Lemma slen_sdrop (n : nat) (s : string) : slen (sdrop n s) = (slen s - n)%nat.
Proof.
  revert s. induction n as [|n IH]; intros [|c s]; try reflexivity.
  cbn [sdrop]. rewrite IH. reflexivity.
Qed.

Lemma zeros_digits (z : nat) (ds : string) (acc : N) :
  all_digits (repeat_string "0" z) = true /\
  slen (repeat_string "0" z) = z /\
  N_of_digits (repeat_string "0" z ++ ds) 0 = N_of_digits ds 0.
Proof.
  induction z as [|z (H1 & H2 & H3)]; [by repeat split|].
  cbn [repeat_string]. repeat split.
  - cbn [String.append all_digits]. by rewrite H1.
  - cbn. unfold slen in H2. by rewrite H2.
  - cbn [String.append N_of_digits]. exact H3.
Qed.

Lemma not_digit_first_spec (c : ascii) (s : string) :
  is_digit c = false -> not_digit_first (String c s) = true.
Proof. intros H. cbn. by rewrite H. Qed.

Lemma parse_exponent_text (x : Z) (rest : string) :
  closes rest = true ->
  parse_exponent
    (String "e" (((if x <? 0 then "-" else "+")
                  ++ string_of_N (Z.to_N (Z.abs x))) ++ rest)) =
    Some (Some x, rest).
Proof.
  intros Hr. destruct (string_of_N_spec (Z.to_N (Z.abs x))) as (Hd & Hv & Hne & _).
  destruct (Z.ltb_spec x 0);
    cbn [String.append parse_exponent Ascii.eqb Bool.eqb orb];
    rewrite (span_digits_app _ _ Hd (closes_not_digit _ Hr));
    (destruct (string_of_N (Z.to_N (Z.abs x))) eqn:E; [congruence|]);
    cbn [nonempty]; rewrite Hv; cbn [signed]; do 3 f_equal; lia.
Qed.

(** The text of a decimal with a digit after the point is a numeral, read
    as the decimal. *)
Lemma parse_unsigned_decimal (negative : bool) (ds : string) (n : Z)
    (rest : string) :
  all_digits ds = true -> ds <> EmptyString ->
  first_char ds <> Some "0"%char ->
  n < Z.of_nat (slen ds) ->
  closes rest = true ->
  parse_unsigned negative (format_decimal ds n ++ rest) =
    Some (JNum (round_dec negative (Z.of_N (N_of_digits ds 0))
                  (n - Z.of_nat (slen ds))), rest).
Proof.
  intros Hd Hne Hlead Hn Hr. unfold format_decimal.
  destruct (Z.leb_spec (Z.of_nat (slen ds)) n); [lia|]. cbn [andb].
  destruct ((0 <? n) && (n <=? 21)) eqn:E1.
  { apply andb_prop in E1 as [E1 _]. apply Z.ltb_lt in E1.
    rewrite !append_assoc. cbn [String.append].
    unfold parse_unsigned.
    rewrite (span_digits_app _ _ (all_digits_stake _ _ Hd)
               (not_digit_first_spec "." _ eq_refl)).
    assert (Hok : ok_lead (stake (Z.to_nat n) ds) = true).
    { destruct ds as [|c ds]; [congruence|].
      destruct (Z.to_nat n) as [|k] eqn:Ek; [lia|]. cbn [stake ok_lead].
      destruct (Ascii.eqb_spec c "0") as [->|]; [by destruct Hlead|reflexivity]. }
    rewrite Hok. cbn [parse_fraction Ascii.eqb Bool.eqb].
    rewrite (span_digits_app _ _ (all_digits_sdrop _ _ Hd) (closes_not_digit _ Hr)).
    assert (Hf : nonempty (sdrop (Z.to_nat n) ds) = true).
    { pose proof (slen_sdrop (Z.to_nat n) ds) as Hl.
      destruct (sdrop (Z.to_nat n) ds); [cbn in Hl; lia|reflexivity]. }
    rewrite Hf, (closes_no_exponent _ Hr). cbn [numeral default from_option id].
    rewrite stake_sdrop, slen_sdrop. do 4 f_equal. lia. }
  destruct ((-6 <? n) && (n <=? 0)) eqn:E2.
  { apply andb_prop in E2 as [_ E2]. apply Z.leb_le in E2.
    destruct (zeros_digits (Z.to_nat (- n)) ds 0) as (Hz1 & Hz2 & Hz3).
    cbn [String.append].
    unfold parse_unsigned. cbn [span_digits is_digit in_range code N_of_ascii
      N.leb N.compare Pos.compare Pos.compare_cont andb].
    change (is_digit "0") with true. change (is_digit ".") with false.
    cbv iota beta. cbn [ok_lead Ascii.eqb Bool.eqb nonempty negb parse_fraction].
    rewrite (span_digits_app (repeat_string "0" (Z.to_nat (- n)) ++ ds) rest).
    - assert (Hf : nonempty (repeat_string "0" (Z.to_nat (- n)) ++ ds) = true).
      { destruct ds; [congruence|].
        destruct (repeat_string "0" (Z.to_nat (- n))); reflexivity. }
      rewrite Hf, (closes_no_exponent _ Hr). cbn [numeral default from_option id String.append N_of_digits].
      change (10 * 0 + digit_value "0")%N with 0%N. rewrite Hz3.
      unfold slen in *. rewrite slen_app, Hz2. do 4 f_equal. lia.
    - by rewrite all_digits_app, Hz1, Hd.
    - by apply closes_not_digit. }
  destruct ds as [|d ds']; [congruence|].
  cbn [all_digits] in Hd. apply andb_prop in Hd as [Hdd Hd'].
  set (x := n - 1).
  destruct ds' as [|d' ds''].
  - cbn [String.append]. unfold parse_unsigned. cbn [span_digits]. rewrite Hdd.
    change (is_digit "e") with false. cbv iota beta.
    assert (Hok : ok_lead (String d EmptyString) = true).
    { cbn. by destruct (Ascii.eqb d "0"). }
    rewrite Hok. cbn [parse_fraction Ascii.eqb Bool.eqb].
    rewrite (parse_exponent_text x rest Hr).
    cbn [numeral default from_option id String.append slen String.length].
    do 4 f_equal. unfold x. cbn. lia.
  - cbn [String.append]. unfold parse_unsigned. cbn [span_digits]. rewrite Hdd.
    change (is_digit ".") with false. cbv iota beta.
    assert (Hok : ok_lead (String d EmptyString) = true).
    { cbn. by destruct (Ascii.eqb d "0"). }
    rewrite Hok. cbn [parse_fraction Ascii.eqb Bool.eqb].
    rewrite (append_assoc ds''). cbn [String.append].
    match goal with |- context [span_digits (String d' (ds'' ++ ?t))] =>
      change (String d' (ds'' ++ t)) with (String d' ds'' ++ t) end.
    rewrite (span_digits_app (String d' ds'') _ Hd' (not_digit_first_spec "e" _ eq_refl)).
    cbn [nonempty].
    rewrite (parse_exponent_text x rest Hr). cbn [numeral default from_option id String.append].
    do 4 f_equal. unfold x, slen. cbn [String.length]. lia.
Qed.

Lemma format_decimal_first (ds : string) (n : Z) :
  all_digits ds = true -> ds <> EmptyString ->
  exists c r, format_decimal ds n = String c r /\ is_digit c = true.
Proof.
  intros Hd Hne. destruct ds as [|d ds]; [congruence|].
  cbn [all_digits] in Hd. apply andb_prop in Hd as [Hdd Hd].
  unfold format_decimal.
  destruct ((Z.of_nat (slen (String d ds)) <=? n) && (n <=? 21));
    [cbn [String.append]; eauto|].
  destruct ((0 <? n) && (n <=? 21)) eqn:E1.
  { apply andb_prop in E1 as [E1 _]. apply Z.ltb_lt in E1.
    destruct (Z.to_nat n) eqn:Ek; [lia|]. cbn [stake String.append]. eauto. }
  destruct ((-6 <? n) && (n <=? 0)); [cbn [String.append]; eauto|].
  destruct ds; eauto.
Qed.

Lemma parse_number_string_of_double (m e : Z) (rest : string) :
  is_double m e = true -> closes rest = true ->
  parse_number (string_of_double m e ++ rest) = Some (JNum (Dbl m e), rest).
Proof.
  intros Hm Hr. unfold is_double in Hm.
  apply andb_prop in Hm as [Hm He2]. apply andb_prop in Hm as [Hm He1].
  apply andb_prop in Hm as [Hodd Hm].
  apply Z.ltb_lt in Hm, He2. apply Z.leb_le in He1.
  assert (Hoa : Z.odd (Z.abs m) = true).
  { destruct m; [discriminate|exact Hodd|exact Hodd]. }
  assert (Hpos : 0 < Z.abs m) by (destruct m; [discriminate|lia|lia]).
  destruct (shortest_decimal_reads (Z.abs m) e Hoa ltac:(lia) ltac:(lia))
    as (Hread & Hs & Hq).
  unfold string_of_double.
  destruct (shortest_decimal (Z.abs m) e) as [s q]. cbn [fst snd] in *.
  destruct (string_of_N_spec (Z.to_N s)) as (Hd & Hv & Hne & Hnz & _).
  set (ds := string_of_N (Z.to_N s)) in *.
  assert (Hlead : first_char ds <> Some "0"%char) by (apply Hnz; lia).
  assert (Hparse : forall negative,
    parse_unsigned negative (format_decimal ds (q + Z.of_nat (slen ds)) ++ rest) =
      Some (JNum (round_dec negative s q), rest)).
  { intros negative.
    rewrite (parse_unsigned_decimal negative ds (q + Z.of_nat (slen ds)) rest
               Hd Hne Hlead ltac:(lia) Hr).
    rewrite Hv. replace (Z.of_N (Z.to_N s)) with s by lia.
    replace (q + Z.of_nat (slen ds) - Z.of_nat (slen ds)) with q by lia.
    reflexivity. }
  destruct (Z.ltb_spec m 0) as [Hneg|Hnn].
  - cbn [String.append parse_number Ascii.eqb Bool.eqb].
    rewrite Hparse, (round_dec_negate _ _ _ _ Hread).
    replace (- Z.abs m) with m by lia. reflexivity.
  - destruct (format_decimal_first ds (q + Z.of_nat (slen ds)) Hd Hne)
      as (c & r & E & Hc).
    cbn [String.append]. unfold parse_number. rewrite E. cbn [String.append].
    rewrite (is_digit_not c "-" Hc eq_refl).
    change (String c (r ++ rest)) with (String c r ++ rest). rewrite <- E.
    rewrite Hparse, Hread. replace (Z.abs m) with m by lia. reflexivity.
Qed.

Lemma string_of_double_first (m e : Z) :
  exists c d, string_of_double m e = String c d /\
    (is_digit c = true \/ c = "-"%char).
Proof.
  unfold string_of_double. destruct (shortest_decimal (Z.abs m) e) as [s q].
  destruct (string_of_N_spec (Z.to_N s)) as (Hd & _ & Hne & _).
  destruct (m <? 0); [cbn [String.append]; eauto|].
  destruct (format_decimal_first _ (q + Z.of_nat (slen (string_of_N (Z.to_N s)))) Hd Hne)
    as (c & r & -> & Hc).
  cbn [String.append]. eauto.
Qed.

Lemma string_of_Z_first (z : Z) :
  exists c d, string_of_Z z = String c d /\ (is_digit c = true \/ c = "-"%char).
Proof.
  unfold string_of_Z. destruct (z <? 0); [eauto|].
  destruct (string_of_N_spec (Z.to_N z)) as (Hd & _ & Hne & _).
  destruct (string_of_N (Z.to_N z)) as [|c d]; [congruence|].
  cbn [all_digits] in Hd. apply andb_prop in Hd as [Hc _]. eauto.
Qed.

(** *** Values *)

Lemma opens_spec (c : ascii) :
  opens c = true ->
  is_json_ws c = false /\ Ascii.eqb c "]" = false /\ Ascii.eqb c "}" = false /\
  Ascii.eqb c "," = false.
Proof.
  destruct c as [[] [] [] [] [] [] [] []]; try discriminate; by repeat split.
Qed.

Lemma digit_dispatch (c : ascii) :
  is_digit c = true \/ c = "-"%char ->
  opens c = true /\
  Ascii.eqb c "n" = false /\ Ascii.eqb c "t" = false /\ Ascii.eqb c "f" = false /\
  Ascii.eqb c dq = false /\ Ascii.eqb c "[" = false /\ Ascii.eqb c "{" = false.
Proof.
  intros [H| ->]; [|by repeat split].
  unfold opens. rewrite H.
  repeat split; by apply is_digit_not.
Qed.

Lemma text_opens (v : JSValue) (t : string) :
  valid_json v = true -> JSON_stringify v = Some t ->
  exists c r, t = String c r /\ opens c = true.
Proof.
  destruct v as [| |[]|[z| |m e|neg]|s|items|props]; cbn [valid_json];
    try discriminate;
    intros Hv; try (intros [= <-]; by eexists _, _).
  - cbn [JSON_stringify]. intros [= <-].
    destruct (string_of_Z_first z) as (c & d & -> & Hc).
    exists c, d. split; [reflexivity|]. by destruct (digit_dispatch c Hc).
  - cbn [JSON_stringify]. intros [= <-].
    destruct (string_of_double_first m e) as (c & d & -> & Hc).
    exists c, d. split; [reflexivity|]. by destruct (digit_dispatch c Hc).
Qed.

Lemma eat_closing (c : ascii) (t tail : string) (a : ascii) :
  opens c = true -> (a = "]" \/ a = "}" \/ a = ",")%char ->
  eat a (String c t ++ tail) = None.
Proof.
  intros Hc Ha. destruct (opens_spec c Hc) as (Hws & H1 & H2 & H3).
  unfold eat. cbn [String.append skip_ws]. rewrite Hws.
  by destruct Ha as [->|[->| ->]]; rewrite ?H1, ?H2, ?H3.
Qed.

Lemma eat_here (c : ascii) (s : string) :
  is_json_ws c = false -> eat c (String c s) = Some s.
Proof. intros H. unfold eat. cbn [skip_ws]. by rewrite H, Ascii.eqb_refl. Qed.

Lemma parse_elements_ok (p : string -> option (JSValue * string))
    (items : list JSValue) :
  forall (acc : list JSValue) (n : nat) (rest : string),
    items <> [] -> (length items <= n)%nat ->
    Forall (fun x => forall tail, closes tail = true ->
              p (element_text x ++ tail) = Some (x, tail)) items ->
    parse_elements p n (join "," (map element_text items) ++ "]" ++ rest) acc =
      Some (JArr (rev acc ++ items)%list, rest).
Proof.
  induction items as [|x items IH]; intros acc n rest Hne Hn Hall; [congruence|].
  destruct n as [|n]; [cbn in Hn; lia|].
  apply Forall_cons in Hall as [Hx Hall].
  assert (Hcase : items = [] \/ items <> []) by (destruct items; [by left|by right]).
  destruct Hcase as [->|Hitems].
  - cbn [map join parse_elements]. rewrite (Hx ("]" ++ rest) eq_refl). reflexivity.
  - change (map element_text (x :: items))
      with (element_text x :: map element_text items).
    rewrite join_cons by (by destruct items).
    rewrite !append_assoc.
    cbn [parse_elements]. rewrite (Hx ("," ++ _) eq_refl).
    change ("," ++ ?s) with (String "," s). rewrite (eat_here "," _ eq_refl).
    rewrite (IH (x :: acc) n rest); [|exact Hitems|cbn in *; lia|exact Hall].
    cbn [rev]. by rewrite <- app_assoc.
Qed.

Lemma obj_set_fresh (k : string) (v : JSValue) (acc : list (string * JSValue)) :
  k ∉ map fst acc -> obj_set k v acc = (acc ++ [(k, v)])%list.
Proof.
  induction acc as [|[k' v'] acc IH]; intros Hk; [reflexivity|].
  cbn [map fst] in Hk. apply not_elem_of_cons in Hk as [Hne Hk].
  cbn [obj_set]. destruct (String.eqb_spec k' k); [congruence|].
  by rewrite (IH Hk).
Qed.

Lemma distinct_NoDup (ks : list string) : distinct ks = true -> NoDup ks.
Proof.
  induction ks as [|k ks IH]; [constructor|].
  cbn [distinct]. intros H. apply andb_prop in H as [Hk Hd].
  constructor; [|by apply IH].
  intros Hin. apply list_elem_of_In in Hin.
  assert (E : existsb (String.eqb k) ks = true).
  { apply existsb_exists. exists k. split; [exact Hin|apply String.eqb_refl]. }
  by rewrite E in Hk.
Qed.

Lemma member_text_app (k : string) (x : JSValue) (tail : string) :
  member_text (k, x) ++ tail =
    String dq (escape_string k ++ String dq (String ":" (element_text x ++ tail))).
Proof.
  unfold member_text, quote_json, str1. cbn [fst snd String.append].
  rewrite !append_assoc. reflexivity.
Qed.

Lemma parse_members_ok (p : string -> option (JSValue * string))
    (props : list (string * JSValue)) :
  forall (acc : list (string * JSValue)) (n : nat) (rest : string),
    props <> [] -> (length props <= n)%nat ->
    Forall (fun kx => forall tail, closes tail = true ->
              p (element_text (snd kx) ++ tail) = Some (snd kx, tail)) props ->
    NoDup (map fst (acc ++ props)%list) ->
    parse_members p n (join "," (map member_text props) ++ "}" ++ rest) acc =
      Some (JObj (acc ++ props)%list, rest).
Proof.
  induction props as [|[k x] props IH]; intros acc n rest Hne Hn Hall Hnd;
    [congruence|].
  destruct n as [|n]; [cbn in Hn; lia|].
  apply Forall_cons in Hall as [Hx Hall]. cbn [snd] in Hx.
  assert (Hfresh : k ∉ map fst acc).
  { rewrite map_app in Hnd. apply NoDup_app in Hnd as (_ & Hd & _).
    intros Hin. apply (Hd k Hin). cbn [map fst]. apply list_elem_of_here. }
  assert (Hcase : props = [] \/ props <> []) by (destruct props; [by left|by right]).
  destruct Hcase as [->|Hprops].
  - cbn [map join]. rewrite member_text_app. cbn [parse_members].
    rewrite (eat_here dq _ eq_refl), parse_escaped_string.
    rewrite (eat_here ":" _ eq_refl), (Hx ("}" ++ rest) eq_refl).
    cbn [String.append]. rewrite (obj_set_fresh _ _ _ Hfresh). reflexivity.
  - change (map member_text ((k, x) :: props))
      with (member_text (k, x) :: map member_text props).
    rewrite join_cons by (by destruct props).
    rewrite !append_assoc, member_text_app. cbn [parse_members].
    rewrite (eat_here dq _ eq_refl), parse_escaped_string.
    rewrite (eat_here ":" _ eq_refl), (Hx ("," ++ _) eq_refl).
    change ("," ++ ?s) with (String "," s). rewrite (eat_here "," _ eq_refl).
    rewrite (obj_set_fresh _ _ _ Hfresh).
    rewrite (IH (acc ++ [(k, x)])%list n rest);
      [|exact Hprops|cbn in *; lia|exact Hall|by rewrite <- app_assoc].
    by rewrite <- app_assoc.
Qed.

Lemma parse_value_opens (f : nat) (c : ascii) (s : string) :
  opens c = true ->
  parse_value (S f) (String c s) =
    if Ascii.eqb c "n" then expect "null" JNull (String c s)
    else if Ascii.eqb c "t" then expect "true" (JBool true) (String c s)
    else if Ascii.eqb c "f" then expect "false" (JBool false) (String c s)
    else if Ascii.eqb c dq then
      match parse_string_body s with
      | Some (t, rest) => Some (JStr t, rest)
      | None => None
      end
    else if Ascii.eqb c "[" then
      match eat "]" s with
      | Some rest => Some (JArr [], rest)
      | None => parse_elements (parse_value f) f s []
      end
    else if Ascii.eqb c "{" then
      match eat "}" s with
      | Some rest => Some (JObj [], rest)
      | None => parse_members (parse_value f) f s []
      end
    else parse_number (String c s).
Proof.
  intros Hc. destruct (opens_spec c Hc) as (Hws & _).
  cbn [parse_value skip_ws]. by rewrite Hws.
Qed.

Lemma list_sum_bound {A} (f : A -> nat) (x : A) (l : list A) :
  x ∈ l -> (f x <= list_sum (map f l))%nat.
Proof.
  induction l as [|y l IH]; intros H; [by apply elem_of_nil in H|].
  apply elem_of_cons in H as [->|H]; simpl; [lia|].
  specialize (IH H). lia.
Qed.

Lemma list_sum_length {A} (f : A -> nat) (l : list A) :
  (forall x, 1 <= f x)%nat -> (length l <= list_sum (map f l))%nat.
Proof.
  intros Hf. induction l as [|y l IH]; [reflexivity|].
  simpl. specialize (Hf y). lia.
Qed.

Lemma parse_value_text (v : JSValue) : parses v.
Proof.
  induction v as [| |b|n|s|items IH|props IH] using JSValue_nested_ind;
    intros fuel t rest Hv Ht Hfuel Hrest.
  - discriminate.
  - injection Ht as <-. destruct fuel; [cbn in Hfuel; lia|]. reflexivity.
  - destruct fuel; [cbn in Hfuel; lia|]. destruct b; by injection Ht as <-.
  - destruct n as [z| |m e|neg]; try discriminate; cbn [JSON_stringify] in Ht;
      injection Ht as <-; (destruct fuel; [cbn in Hfuel; lia|]).
    + destruct (string_of_Z_first z) as (c & d & E & Hc).
      destruct (digit_dispatch c Hc) as (Ho & H1 & H2 & H3 & H4 & H5 & H6).
      rewrite E. cbn [String.append]. rewrite (parse_value_opens _ _ _ Ho).
      rewrite H1, H2, H3, H4, H5, H6.
      change (String c (d ++ rest)) with (String c d ++ rest). rewrite <- E.
      by apply parse_number_string_of_Z.
    + destruct (string_of_double_first m e) as (c & d & E & Hc).
      destruct (digit_dispatch c Hc) as (Ho & H1 & H2 & H3 & H4 & H5 & H6).
      rewrite E. cbn [String.append]. rewrite (parse_value_opens _ _ _ Ho).
      rewrite H1, H2, H3, H4, H5, H6.
      change (String c (d ++ rest)) with (String c d ++ rest). rewrite <- E.
      by apply parse_number_string_of_double.
  - cbn [JSON_stringify] in Ht. injection Ht as <-.
    destruct fuel; [cbn in Hfuel; lia|].
    unfold quote_json. cbn [String.append].
    rewrite (parse_value_opens _ dq _ eq_refl).
    change (Ascii.eqb dq "n") with false. change (Ascii.eqb dq "t") with false.
    change (Ascii.eqb dq "f") with false. change (Ascii.eqb dq dq) with true.
    cbv iota. unfold str1. rewrite append_assoc. cbn [String.append].
    by rewrite parse_escaped_string.
  - rewrite JSON_stringify_arr in Ht. injection Ht as <-.
    rewrite json_size_arr in Hfuel. rewrite valid_json_arr in Hv.
    destruct fuel as [|f]; [lia|].
    cbn [String.append]. rewrite append_assoc.
    rewrite (parse_value_opens _ "[" _ eq_refl). cbn [Ascii.eqb Bool.eqb].
    destruct items as [|x items]; [reflexivity|].
    assert (Hall : Forall (fun y => forall tail, closes tail = true ->
              parse_value f (element_text y ++ tail) = Some (y, tail)) (x :: items)).
    { apply Forall_forall. intros y Hy tail Htail.
      rewrite Forall_forall in IH.
      assert (Hyv : valid_json y = true).
      { rewrite forallb_forall in Hv. apply Hv. by apply list_elem_of_In. }
      destruct (valid_json_stringify y Hyv) as [ty Hty].
      unfold element_text. rewrite Hty.
      apply (IH y Hy f ty tail Hyv Hty); [|exact Htail].
      pose proof (list_sum_bound json_size y _ Hy). lia. }
    assert (Hopen : exists c r, join "," (map element_text (x :: items)) ++ "]" ++ rest
                                = String c r ++ EmptyString /\ opens c = true).
    { assert (Hxv : valid_json x = true).
      { cbn [forallb] in Hv. by apply andb_prop in Hv as [? _]. }
      destruct (valid_json_stringify x Hxv) as [tx Htx].
      destruct (text_opens x tx Hxv Htx) as (c & r & -> & Hc).
      change (map element_text (x :: items))
        with (element_text x :: map element_text items).
      unfold element_text at 1. rewrite Htx.
      destruct items as [|y items]; cbn [map join String.append];
        eexists c, _; (split; [by rewrite append_nil_r|exact Hc]). }
    destruct Hopen as (c & r & E & Hc).
    rewrite E, (eat_closing c r EmptyString "]" Hc (or_introl eq_refl)), <- E.
    rewrite (parse_elements_ok _ (x :: items) [] f rest); [reflexivity|discriminate| |exact Hall].
    pose proof (list_sum_length json_size (x :: items) json_size_pos). lia.
  - rewrite valid_json_obj in Hv. apply andb_prop in Hv as [Hv Hd].
    rewrite (JSON_stringify_obj props Hv valid_json_stringify) in Ht.
    injection Ht as <-. rewrite json_size_obj in Hfuel.
    destruct fuel as [|f]; [lia|].
    cbn [String.append]. rewrite append_assoc.
    rewrite (parse_value_opens _ "{" _ eq_refl). cbn [Ascii.eqb Bool.eqb].
    destruct props as [|[k x] props]; [reflexivity|].
    assert (Hall : Forall (fun kx => forall tail, closes tail = true ->
              parse_value f (element_text (snd kx) ++ tail) = Some (snd kx, tail))
              ((k, x) :: props)).
    { apply Forall_forall. intros [k' y] Hy tail Htail. cbn [snd].
      rewrite Forall_forall in IH.
      assert (Hyv : valid_json y = true).
      { rewrite forallb_forall in Hv.
        apply (Hv (k', y)). by apply list_elem_of_In. }
      destruct (valid_json_stringify y Hyv) as [ty Hty].
      unfold element_text. rewrite Hty.
      apply (IH (k', y) Hy f ty tail Hyv Hty); [|exact Htail].
      pose proof (list_sum_bound (fun kx : string * JSValue => json_size (snd kx))
                    (k', y) _ Hy) as Hb.
      cbn [snd] in *. lia. }
    change (map member_text ((k, x) :: props))
      with (member_text (k, x) :: map member_text props).
    assert (E : exists r, join "," (member_text (k, x) :: map member_text props)
                            ++ "}" ++ rest = String dq r).
    { destruct props; cbn [map join]; unfold member_text at 1, quote_json;
        cbn [fst String.append]; eauto. }
    destruct E as [r E].
    rewrite E. rewrite <- (append_nil_r (String dq r)).
    rewrite (eat_closing dq r EmptyString "}" eq_refl (or_intror (or_introl eq_refl))).
    rewrite append_nil_r, <- E.
    change (member_text (k, x) :: map member_text props)
      with (map member_text ((k, x) :: props)).
    rewrite (parse_members_ok _ ((k, x) :: props) [] f rest);
      [reflexivity|discriminate| |exact Hall|by apply distinct_NoDup].
    pose proof (list_sum_length (fun kx : string * JSValue => json_size (snd kx))
                  ((k, x) :: props) (fun kx => json_size_pos (snd kx))). lia.
Qed.

Lemma slen_join (sep : string) (l : list string) :
  (list_sum (map slen l) <= slen (join sep l))%nat.
Proof.
  induction l as [|x l IH]; [reflexivity|].
  destruct l as [|y l]; [simpl; lia|].
  rewrite join_cons by discriminate. unfold slen in *. rewrite !slen_app.
  simpl in *. lia.
Qed.

Lemma slen_bracket (a b c : string) :
  slen (a ++ b ++ c) = (slen a + slen b + slen c)%nat.
Proof. unfold slen. rewrite !slen_app. lia. Qed.

Lemma list_sum_le {A} (f g : A -> nat) (l : list A) :
  Forall (fun x => f x <= g x)%nat l ->
  (list_sum (map f l) <= list_sum (map g l))%nat.
Proof. induction 1; simpl; lia. Qed.

(** The text of a value is at least as long as the value is large. *)
Lemma json_size_text (v : JSValue) :
  forall t, valid_json v = true -> JSON_stringify v = Some t ->
    (json_size v <= slen t)%nat.
Proof.
  induction v as [| |b|n|s|items IH|props IH] using JSValue_nested_ind;
    intros t Hv Ht;
    try (destruct (text_opens _ _ Hv Ht) as (c & r & -> & _); simpl; lia).
  - rewrite JSON_stringify_arr in Ht.
    assert (Et : t = "[" ++ join "," (map element_text items) ++ "]") by congruence.
    rewrite Et. clear Ht Et.
    rewrite json_size_arr. rewrite valid_json_arr in Hv.
    rewrite (slen_bracket "[" _ "]").
    pose proof (slen_join "," (map element_text items)) as Hj.
    rewrite map_map in Hj.
    assert (Hle : (list_sum (map json_size items) <=
                   list_sum (map (fun x => slen (element_text x)) items))%nat).
    { apply list_sum_le. apply Forall_forall. intros x Hx.
      rewrite Forall_forall in IH. rewrite forallb_forall in Hv.
      assert (Hxv : valid_json x = true) by (apply Hv; by apply list_elem_of_In).
      destruct (valid_json_stringify x Hxv) as [tx Htx].
      unfold element_text. rewrite Htx. by apply IH. }
    unfold slen in *. simpl. lia.
  - rewrite valid_json_obj in Hv. apply andb_prop in Hv as [Hv Hd].
    rewrite (JSON_stringify_obj props Hv valid_json_stringify) in Ht.
    assert (Et : t = "{" ++ join "," (map member_text props) ++ "}") by congruence.
    rewrite Et. clear Ht Et. rewrite json_size_obj.
    rewrite (slen_bracket "{" _ "}").
    pose proof (slen_join "," (map member_text props)) as Hj.
    rewrite map_map in Hj.
    assert (Hle : (list_sum (map (fun kx => json_size (snd kx)) props) <=
                   list_sum (map (fun kx => slen (member_text kx)) props))%nat).
    { apply list_sum_le. apply Forall_forall. intros [k x] Hx. cbn [snd].
      rewrite Forall_forall in IH. rewrite forallb_forall in Hv.
      assert (Hxv : valid_json x = true).
      { apply (Hv (k, x)). by apply list_elem_of_In. }
      destruct (valid_json_stringify x Hxv) as [tx Htx].
      unfold member_text, element_text, slen. cbn [fst snd]. rewrite Htx, !slen_app.
      pose proof (IH (k, x) Hx tx Hxv Htx) as Hsz. unfold slen in Hsz.
      cbn [snd] in Hsz. lia. }
    unfold slen in *. simpl. lia.
Qed.

Lemma JSON_parse_stringify (v : JSValue) (t : string) :
  valid_json v = true -> JSON_stringify v = Some t -> JSON_parse t = Ok v.
Proof.
  intros Hv Ht. unfold JSON_parse.
  rewrite <- (append_nil_r t) at 2.
  rewrite (parse_value_text v (S (slen t)) t EmptyString Hv Ht); [reflexivity| |reflexivity].
  pose proof (json_size_text v t Hv Ht). lia.
Qed.

(** *** Texts that need no repair *)

(** A greedy repetition of a class fails when its continuation fails at
    every position it can reach. *)
Lemma star_class_none {R : Type} (p : ascii -> bool) (I : cursor -> Prop)
    (caps : captures) (k : cursor -> captures -> option R) :
  (forall c, I c -> k c caps = None) ->
  (forall pre x rest,
     I (Cursor pre (String x rest)) -> p x = true -> I (Cursor (String x pre) rest)) ->
  forall c, I c -> rmatch (Star true (Cls p)) c caps k = None.
Proof.
  intros Hk Hstep [pre s]. revert pre.
  induction s as [|x rest IH]; intros pre HI.
  - rewrite star_class_end by reflexivity. by apply Hk.
  - destruct (p x) eqn:Hp.
    + rewrite (star_class_step p pre x rest caps k Hp).
      rewrite (IH _ (Hstep _ _ _ HI Hp)). by apply Hk.
    + rewrite star_class_end by (by rewrite Hp). by apply Hk.
Qed.

Lemma replace_all_none (r : regex) (t : list tpart) (s : string) :
  (forall a1 a2, s = a1 ++ a2 -> match_at r (Cursor (srev a1) a2) = None) ->
  replace_all r t s = s.
Proof.
  unfold replace_all.
  assert (G : forall s pre,
    (forall a1 a2, s = a1 ++ a2 ->
       match_at r (Cursor (srev a1 ++ pre) a2) = None) ->
    replace_from r t pre s 0 = s).
  { clear s. induction s as [|x s IH]; intros pre H.
    - pose proof (H EmptyString EmptyString eq_refl) as H0.
      change (srev EmptyString ++ pre) with pre in H0.
      cbn [replace_from]. by rewrite H0.
    - pose proof (H EmptyString (String x s) eq_refl) as H0.
      change (srev EmptyString ++ pre) with pre in H0.
      cbn [replace_from]. rewrite H0. f_equal. apply IH. intros a1 a2 E.
      pose proof (H (String x a1) a2 ltac:(by rewrite E)) as H1.
      by rewrite srev_cons, append_assoc in H1. }
  intros H. apply G. intros a1 a2 E. rewrite append_nil_r. by apply H.
Qed.

Lemma colons_ok_suffix (a1 a2 : string) :
  forall q, colons_ok q (a1 ++ a2) = true -> exists q', colons_ok q' a2 = true.
Proof.
  induction a1 as [|x a1 IH]; intros q H; [by exists q|].
  cbn [String.append colons_ok] in H. apply andb_prop in H as [_ H].
  by apply (IH _ H).
Qed.

Lemma commas_ok_suffix (a1 a2 : string) :
  commas_ok (a1 ++ a2) = true -> commas_ok a2 = true.
Proof.
  induction a1 as [|x a1 IH]; intros H; [exact H|].
  cbn [String.append commas_ok] in H. apply andb_prop in H as [_ H].
  by apply IH.
Qed.

Lemma ident_start_part (x : ascii) : is_ident_start x = true -> is_ident_part x = true.
Proof. unfold is_ident_part. by intros ->. Qed.

(** No unquoted key ends at a colon that follows a quotation mark. *)
Lemma bare_key_none (pre s : string) (q : bool) :
  colons_ok q s = true -> match_at re_bare_key (Cursor pre s) = None.
Proof.
  intros H. unfold match_at, re_bare_key, ws_star.
  rewrite rmatch_seq, rmatch_grp, rmatch_seq, rmatch_cls.
  destruct s as [|x s]; [reflexivity|].
  destruct (one_of ",{" x); [|reflexivity].
  cbn [colons_ok] in H. apply andb_prop in H as [_ H].
  apply (star_class_none is_space
           (fun c => exists q', colons_ok q' (after c) = true)).
  - intros [pre1 s1] [q1 H1]. cbn [after] in H1.
    rewrite rmatch_seq, rmatch_grp, rmatch_seq, rmatch_cls.
    destruct s1 as [|x1 s1]; [reflexivity|].
    destruct (is_ident_start x1) eqn:Hx1; [|reflexivity].
    cbn [colons_ok] in H1. apply andb_prop in H1 as [_ H1].
    rewrite (ident_start_part x1 Hx1), orb_true_r in H1.
    apply (star_class_none is_ident_part
             (fun c => colons_ok true (after c) = true)).
    + intros [pre2 s2] H2. cbn [after] in H2. rewrite rmatch_seq.
      apply (star_class_none is_space
               (fun c => colons_ok true (after c) = true)).
      * intros [pre3 s3] H3. cbn [after] in H3. rewrite rmatch_chr.
        destruct s3 as [|x3 s3]; [reflexivity|].
        cbn [colons_ok andb] in H3.
        destruct (Ascii.eqb x3 ":"); [discriminate|reflexivity].
      * intros pre3 x3 rest3 H3 Hp. cbn [after colons_ok] in *.
        apply andb_prop in H3 as [_ H3]. by rewrite Hp in H3.
      * exact H2.
    + intros pre2 x2 rest2 H2 Hp. cbn [after colons_ok] in *.
      apply andb_prop in H2 as [_ H2]. by rewrite Hp, orb_true_r in H2.
    + exact H1.
  - intros pre1 x1 rest1 [q1 H1] Hp. cbn [after colons_ok] in *.
    apply andb_prop in H1 as [_ H1]. eauto.
  - eauto.
Qed.

(** No comma is trailing when what follows it closes nothing. *)
Lemma after_comma_none {R : Type} (chars : string) (caps : captures)
    (k : cursor -> captures -> option R) (pre s : string) :
  (forall pre1 s1,
     match s1 with
     | EmptyString => True
     | String d _ => is_space d = true \/ one_of chars d = false
     end -> k (Cursor pre1 s1) caps = None) ->
  not_next chars s = true ->
  rmatch ws_star (Cursor pre s) caps k = None.
Proof.
  intros Hk H.
  apply (star_class_none is_space (fun c => not_next chars (after c) = true)).
  - intros [pre1 s1] H1. cbn [after] in H1. apply Hk.
    destruct s1 as [|d s1]; [exact I|].
    unfold not_next in H1. cbn [trimStart] in H1.
    destruct (is_space d); [by left|right]. by apply negb_true_iff in H1.
  - intros pre1 x rest H1 Hx. unfold not_next in *. cbn [after trimStart] in *.
    by rewrite Hx in H1.
  - exact H.
Qed.

Lemma closer_not_space (d : ascii) : one_of "}]" d = true -> is_space d = false.
Proof.
  unfold one_of. cbn [count_char].
  destruct (Ascii.eqb_spec "}" d) as [<-|]; [reflexivity|].
  destruct (Ascii.eqb_spec "]" d) as [<-|]; [reflexivity|].
  discriminate.
Qed.

Lemma trailing_comma_none (pre s : string) :
  commas_ok s = true -> match_at re_trailing_comma (Cursor pre s) = None.
Proof.
  intros H. unfold match_at, re_trailing_comma.
  rewrite rmatch_seq, rmatch_chr. destruct s as [|x s]; [reflexivity|].
  destruct (Ascii.eqb x ",") eqn:Hx; [|reflexivity].
  cbn [commas_ok] in H. rewrite Hx in H. apply andb_prop in H as [H _].
  rewrite rmatch_grp, rmatch_seq.
  apply (after_comma_none "}]"); [|exact H].
  intros pre1 s1 H1. rewrite rmatch_cls. destruct s1 as [|d s1]; [reflexivity|].
  destruct (one_of "}]" d) eqn:Hd; [|reflexivity].
  destruct H1 as [H1|H1]; [|discriminate]. by rewrite (closer_not_space d Hd) in H1.
Qed.

Lemma comma_before_none (a : ascii) (pre s : string) :
  one_of "}]" a = true ->
  commas_ok s = true -> match_at (re_comma_before a) (Cursor pre s) = None.
Proof.
  intros Ha H. unfold match_at, re_comma_before.
  rewrite rmatch_seq, rmatch_chr. destruct s as [|x s]; [reflexivity|].
  destruct (Ascii.eqb x ",") eqn:Hx; [|reflexivity].
  cbn [commas_ok] in H. rewrite Hx in H. apply andb_prop in H as [H _].
  rewrite rmatch_grp, rmatch_seq.
  apply (after_comma_none "}]"); [|exact H].
  intros pre1 s1 H1. rewrite rmatch_chr. destruct s1 as [|d s1]; [reflexivity|].
  destruct (Ascii.eqb_spec d a) as [->|]; [|reflexivity].
  destruct H1 as [H1|H1]; [|congruence]. by rewrite (closer_not_space a Ha) in H1.
Qed.

(** The repair pass leaves a tidy text as it is. *)
Lemma fix_string_tidy (s : string) : tidy s = true -> fix_string s = s.
Proof.
  unfold tidy. intros H.
  apply andb_prop in H as [H Htrim]. apply andb_prop in H as [H Hbrackets].
  apply andb_prop in H as [H Hbraces]. apply andb_prop in H as [H Hcommas].
  apply andb_prop in H as [Hfree Hcolons].
  apply String.eqb_eq in Htrim.
  apply Nat.leb_le in Hbraces. apply Nat.leb_le in Hbrackets.
  set (marks := one_of ("`/'" ++ String nl EmptyString)) in *.
  unfold fix_string.
  rewrite (replace_all_free marks re_fence_open) by (needs || exact Hfree).
  rewrite (replace_all_free marks re_fence_close) by (needs || exact Hfree).
  rewrite (replace_all_free marks re_line_comment) by (needs || exact Hfree).
  rewrite (replace_all_free marks re_block_comment) by (needs || exact Hfree).
  rewrite (replace_all_none re_bare_key).
  2:{ intros a1 a2 E. rewrite E in Hcolons.
      destruct (colons_ok_suffix a1 a2 _ Hcolons) as [q Hq].
      by apply (bare_key_none _ _ q). }
  rewrite (replace_all_free marks re_single_quoted) by (needs || exact Hfree).
  rewrite (replace_all_none re_trailing_comma).
  2:{ intros a1 a2 E. rewrite E in Hcommas.
      apply trailing_comma_none. by apply (commas_ok_suffix a1). }
  rewrite (replace_all_free marks (re_adjacent dq dq)) by (needs || exact Hfree).
  rewrite (replace_all_free marks (re_adjacent "}" "{")) by (needs || exact Hfree).
  rewrite (replace_all_free marks (re_adjacent "]" "[")) by (needs || exact Hfree).
  rewrite (replace_all_none (re_comma_before "}")).
  2:{ intros a1 a2 E. rewrite E in Hcommas.
      apply comma_before_none; [reflexivity|]. by apply (commas_ok_suffix a1). }
  rewrite (replace_all_none (re_comma_before "]")).
  2:{ intros a1 a2 E. rewrite E in Hcommas.
      apply comma_before_none; [reflexivity|]. by apply (commas_ok_suffix a1). }
  cbv zeta.
  destruct (Nat.ltb_spec (count_char "}" s) (count_char "{" s)); [lia|].
  destruct (Nat.ltb_spec (count_char "]" s) (count_char "[" s)); [lia|].
  exact Htrim.
Qed.

(** *** A text in a fenced code block *)

Lemma star_lazy_step {R : Type} (p : ascii -> bool) (pre : string) (x : ascii)
    (rest : string) (caps : captures) (k : cursor -> captures -> option R) :
  p x = true ->
  rmatch (Star false (Cls p)) (Cursor pre (String x rest)) caps k =
    match k (Cursor pre (String x rest)) caps with
    | Some y => Some y
    | None => rmatch (Star false (Cls p)) (Cursor (String x pre) rest) caps k
    end.
Proof.
  intros H. cbn [rmatch after slen String.length step_cursor before].
  rewrite H.
  assert (E : (String.length rest <? S (String.length rest))%nat = true)
    by (apply Nat.ltb_lt; lia).
  unfold slen. cbn [String.length]. by rewrite E.
Qed.

Lemma star_lazy_here {R : Type} (r : regex) (c : cursor) (caps : captures)
    (k : cursor -> captures -> option R) (y : R) :
  k c caps = Some y -> rmatch (Star false r) c caps k = Some y.
Proof.
  intros H. cbn [rmatch]. destruct (slen (after c)); by rewrite H.
Qed.

(** The lazy repetition passes over a text inside which its continuation
    fails. *)
Lemma star_lazy_scan {R : Type} (a : string) :
  forall (pre s : string) (caps : captures) (k : cursor -> captures -> option R),
    (forall a1 a2, a = a1 ++ a2 -> a2 <> EmptyString ->
       k (Cursor (srev a1 ++ pre) (a2 ++ s)) caps = None) ->
    rmatch (Star false (Cls any_char)) (Cursor pre (a ++ s)) caps k =
      rmatch (Star false (Cls any_char)) (Cursor (srev a ++ pre) s) caps k.
Proof.
  induction a as [|x a IH]; intros pre s caps k H; [reflexivity|].
  cbn [String.append]. rewrite star_lazy_step by reflexivity.
  pose proof (H EmptyString (String x a) eq_refl ltac:(discriminate)) as H0.
  change (srev EmptyString ++ pre) with pre in H0.
  cbn [String.append] in H0. rewrite H0.
  rewrite IH.
  - by rewrite srev_cons, append_assoc.
  - intros a1 a2 E Ha2.
    pose proof (H (String x a1) a2 ltac:(by rewrite E) Ha2) as H1.
    by rewrite srev_cons, append_assoc in H1.
Qed.

Lemma stake_app_exact (a b : string) :
  stake (slen (a ++ b) - slen b) (a ++ b) = a.
Proof.
  replace (slen (a ++ b) - slen b)%nat with (slen a).
  - induction a as [|x a IH]; cbn [String.append slen String.length stake].
    + by destruct b.
    + f_equal. exact IH.
  - unfold slen. rewrite slen_app. unfold slen. lia.
Qed.

(** The fence expression matches the whole of a fenced text and captures
    what is inside. *)
Lemma fenced_match (t : string) (c0 : ascii) (r0 : string) :
  t = String c0 r0 -> is_space c0 = false ->
  free (one_of ("`/'" ++ String nl EmptyString)) t = true ->
  match_at re_fenced (Cursor EmptyString (fenced t)) =
    Some (Cursor (srev (fenced t)) EmptyString, [(1%nat, t)]).
Proof.
  intros -> Hc0 Hfree. unfold match_at, re_fenced, fenced, ws_star, Opt.
  cbn [Lit String.append].
  repeat first [rewrite rmatch_seq
               | rewrite rmatch_chr; cbn [Ascii.eqb Bool.eqb]; cbv iota].
  rewrite rmatch_alt.
  repeat first [rewrite rmatch_seq
               | rewrite rmatch_chr; cbn [Ascii.eqb Bool.eqb]; cbv iota].
  rewrite star_class_step by reflexivity.
  rewrite star_class_end by (by rewrite Hc0).
  rewrite rmatch_seq, rmatch_alt, rmatch_chr.
  rewrite (not_space_not_nl c0 Hc0), rmatch_eps.
  rewrite rmatch_seq, rmatch_grp.
  change (String c0 (r0 ++ String nl "```")) with (String c0 r0 ++ String nl "```").
  rewrite star_lazy_scan.
  - erewrite star_lazy_here.
    2:{ rewrite rmatch_seq, rmatch_alt, rmatch_chr, Ascii.eqb_refl.
        repeat first [rewrite rmatch_seq
                     | rewrite rmatch_chr; cbn [Ascii.eqb Bool.eqb]; cbv iota].
        reflexivity. }
    unfold consumed. cbn [after].
    rewrite (stake_app_exact (String c0 r0) (String nl "```")).
    change (String "`" (String "`" (String "`" (String "j" (String "s"
              (String "o" (String "n" (String nl
                 (String c0 r0 ++ String nl "```")))))))))
      with (("```json" ++ String nl EmptyString)
            ++ (String c0 r0 ++ String nl "```")).
    rewrite !srev_app. reflexivity.
  - intros a1 a2 E Ha2.
    assert (Hf : free (one_of ("`/'" ++ String nl EmptyString)) a2 = true).
    { by apply (free_suffix _ _ a1 a2 Hfree). }
    destruct a2 as [|x a2]; [congruence|].
    cbn [free] in Hf. apply andb_prop in Hf as [Hx _].
    cbn [String.append].
    rewrite rmatch_seq, rmatch_alt, rmatch_chr.
    assert (Hnl : Ascii.eqb x nl = false).
    { destruct (Ascii.eqb_spec x nl) as [->|]; [discriminate|reflexivity]. }
    assert (Hbt : Ascii.eqb x "`" = false).
    { destruct (Ascii.eqb_spec x "`") as [->|]; [discriminate|reflexivity]. }
    rewrite Hnl, rmatch_eps, rmatch_seq, rmatch_chr. by rewrite Hbt.
Qed.

Lemma tidy_free (s : string) :
  tidy s = true -> free (one_of ("`/'" ++ String nl EmptyString)) s = true.
Proof.
  unfold tidy. intros H. by do 5 apply andb_prop in H as [H _].
Qed.

Lemma tidy_trim (s : string) : tidy s = true -> trim s = s.
Proof.
  unfold tidy. intros H. apply andb_prop in H as [_ H]. by apply String.eqb_eq.
Qed.

Lemma search_here (r : regex) (s : string) (c' : cursor) (caps : captures) :
  match_at r (Cursor EmptyString s) = Some (c', caps) ->
  search r s = Some (consumed (Cursor EmptyString s) c', caps).
Proof. intros H. unfold search. destruct s; cbn [search_from]; by rewrite H. Qed.

(** A fenced text is read as the text inside the fence, when that is tidy
    and is JSON. *)
Lemma parseAIJSONResponse_fenced (v : JSValue) (t : string) :
  valid_json v = true -> JSON_stringify v = Some t -> tidy t = true ->
  parseAIJSONResponse (JStr (fenced t)) = Ok v.
Proof.
  intros Hv Ht Htidy.
  destruct (text_opens v t Hv Ht) as (c0 & r0 & Et & Hc0).
  assert (Hs : is_space c0 = false).
  { destruct (is_space c0) eqn:E; [|reflexivity].
    by rewrite (space_not_opens c0 E) in Hc0. }
  unfold parseAIJSONResponse.
  rewrite (JSON_parse_not_opens (fenced t)) by reflexivity.
  rewrite (search_here _ _ _ _ (fenced_match t c0 r0 Et Hs (tidy_free t Htidy))).
  cbn [capture Nat.eqb]. unfold try_cleaned, fixCommonJSONIssues.
  cbn [ToString]. rewrite (tidy_trim t Htidy), (fix_string_tidy t Htidy).
  by rewrite (JSON_parse_stringify v t Hv Ht).
Qed.




(** * Further properties of the sources *)

(** ** server/utils/jsonParser.js *)

(** X1. The only exceptions of [parseAIJSONResponse] are its own two errors:
    on a string, that no valid JSON was found; on any other value, that
    the response is not a valid JSON string. The [SyntaxError] of
    [JSON.parse] never escapes. *)
Theorem parseAIJSONResponse_errors (response : JSValue) (e : Exn) :
  parseAIJSONResponse response = Throw e ->
  (typeof response = "string" /\
   e = Error "No valid JSON found in AI response") \/
  (typeof response <> "string" /\
   e = Error "Response is not a valid JSON string").
Proof.
  intros H. destruct response as [| |b|n|s|items|props];
    try (right; split; [discriminate|];
         unfold parseAIJSONResponse in H;
         destruct (JSON_parse _); [discriminate|congruence]).
  left. split; [reflexivity|].
  unfold parseAIJSONResponse in H.
  destruct (JSON_parse s); [discriminate|].
  destruct (first_some _ _); [discriminate|congruence].
Qed.

Lemma parseAIJSONResponse_errors_witness :
  (typeof (JStr "no json here") = "string" /\
   Error "No valid JSON found in AI response" =
     Error "No valid JSON found in AI response") \/
  (typeof (JStr "no json here") <> "string" /\
   Error "No valid JSON found in AI response" =
     Error "Response is not a valid JSON string").
Proof.
  apply (parseAIJSONResponse_errors (JStr "no json here")).
  vm_compute. reflexivity.
Defined.

(** X2. A response that is not a string is converted to text and parsed: an
    integer, a boolean and [null] come back as they are, an array of one
    integer comes back as that integer; [undefined], [NaN] and every object
    are rejected. *)
Theorem parseAIJSONResponse_non_string :
  (forall z, parseAIJSONResponse (JNum (Int z)) = Ok (JNum (Int z))) /\
  (forall b, parseAIJSONResponse (JBool b) = Ok (JBool b)) /\
  parseAIJSONResponse JNull = Ok JNull /\
  (forall z, parseAIJSONResponse (JArr [JNum (Int z)]) = Ok (JNum (Int z))) /\
  parseAIJSONResponse JUndefined =
    Throw (Error "Response is not a valid JSON string") /\
  parseAIJSONResponse (JNum NaN) =
    Throw (Error "Response is not a valid JSON string") /\
  (forall props, parseAIJSONResponse (JObj props) =
    Throw (Error "Response is not a valid JSON string")).
Proof.
  assert (Hz : forall z, JSON_parse (string_of_Z z) = Ok (JNum (Int z))).
  { intros z. exact (JSON_parse_stringify (JNum (Int z)) _ eq_refl eq_refl). }
  split; [|split; [|split; [|split; [|split; [|split]]]]]; try reflexivity.
  - intros z. unfold parseAIJSONResponse.
    change (ToString (JNum (Int z))) with (string_of_Z z). by rewrite Hz.
  - by intros [|].
  - intros z. unfold parseAIJSONResponse.
    change (ToString (JArr [JNum (Int z)])) with (string_of_Z z). by rewrite Hz.
Qed.

(** *** Counting and trimming *)

Lemma count_char_app (c : ascii) (a b : string) :
  count_char c (a ++ b) = (count_char c a + count_char c b)%nat.
Proof. induction a as [|x a IH]; simpl; [reflexivity|rewrite IH; lia]. Qed.

Lemma count_char_repeat (c x : ascii) (n : nat) :
  count_char c (repeat_string (str1 x) n) =
    if Ascii.eqb x c then n else 0%nat.
Proof.
  induction n as [|n IH]; simpl.
  - by destruct (Ascii.eqb x c).
  - rewrite IH. by destruct (Ascii.eqb x c).
Qed.

Lemma count_char_srev (c : ascii) (s : string) :
  count_char c (srev s) = count_char c s.
Proof.
  induction s as [|x s IH]; [reflexivity|].
  rewrite srev_cons, count_char_app, IH. simpl. lia.
Qed.

Lemma count_char_trimStart (c : ascii) (s : string) :
  is_space c = false -> count_char c (trimStart s) = count_char c s.
Proof.
  intros Hc. induction s as [|x s IH]; [reflexivity|]. simpl.
  destruct (is_space x) eqn:Hx; [|reflexivity].
  rewrite IH. destruct (Ascii.eqb_spec x c) as [->|_]; [congruence|reflexivity].
Qed.

Lemma count_char_trim (c : ascii) (s : string) :
  is_space c = false -> count_char c (trim s) = count_char c s.
Proof.
  intros Hc. unfold trim.
  by rewrite count_char_srev, count_char_trimStart, count_char_srev,
    count_char_trimStart.
Qed.

(** What [trimStart] removes is white space. *)
Lemma trimStart_split (s : string) :
  exists p, s = p ++ trimStart s /\
    trimStart (trimStart s) = trimStart s.
Proof.
  induction s as [|x s (p & Hp & Hi)]; [by exists EmptyString|]. simpl.
  destruct (is_space x) eqn:Hx.
  - exists (String x p). split; [simpl; by rewrite <- Hp|exact Hi].
  - exists EmptyString. split; [reflexivity|]. simpl. by rewrite Hx.
Qed.

Lemma trimStart_prefix (a b : string) :
  trimStart (a ++ b) = a ++ b -> trimStart a = a.
Proof.
  destruct a as [|x a]; [reflexivity|]. simpl.
  destruct (is_space x) eqn:Hx; [|reflexivity].
  intros H. exfalso.
  destruct (trimStart_split (a ++ b)) as (p & Hp & _).
  assert (Hl : String.length (a ++ b) =
               (String.length p + String.length (trimStart (a ++ b)))%nat).
  { rewrite Hp at 1. apply slen_app. }
  rewrite H in Hl. simpl in Hl. lia.
Qed.

(** [trim] is idempotent: its result has no white space at either end. *)
Lemma trim_idempotent (s : string) : trim (trim s) = trim s.
Proof.
  unfold trim at 2.
  destruct (trimStart_split s) as (_ & _ & Ha).
  set (a := trimStart s) in *.
  destruct (trimStart_split (srev a)) as (p & Hp & Hc).
  set (c := trimStart (srev a)) in *.
  assert (Hsc : trimStart (srev c) = srev c).
  { apply (trimStart_prefix _ (srev p)).
    rewrite <- srev_app, <- Hp, srev_involutive. exact Ha. }
  unfold trim. by rewrite Hsc, srev_involutive, Hc.
Qed.

(** X3. [fixCommonJSONIssues] returns a value that is not a string as it is.
    On a string the result is trimmed, and it has at least as many closing
    braces as opening ones, and at least as many closing brackets as
    opening ones. *)
Theorem fixCommonJSONIssues_balances (jsonStr : JSValue) :
  match jsonStr with
  | JStr s =>
      exists r, fixCommonJSONIssues jsonStr = JStr r /\
        (count_char "{" r <= count_char "}" r)%nat /\
        (count_char "[" r <= count_char "]" r)%nat /\
        trim r = r
  | _ => fixCommonJSONIssues jsonStr = jsonStr
  end.
Proof.
  destruct jsonStr as [| |b|n|s|items|props]; try reflexivity.
  eexists. split; [reflexivity|]. unfold fix_string.
  match goal with |- context [count_char "{" (trim (if _ then ?x ++ _ else _))] =>
    set (u := x) end.
  match type of u with _ => 
    match eval unfold u in u with (if _ then ?x ++ _ else _) => set (t := x) in * end
  end.
  rewrite !count_char_trim by reflexivity.
  assert (Hrep : forall (c x : ascii) (a : string) (n : nat),
            count_char c (a ++ repeat_string (str1 x) n) =
            (count_char c a + if Ascii.eqb x c then n else 0)%nat).
  { intros. by rewrite count_char_app, count_char_repeat. }
  assert (Hu : (count_char "{" u <= count_char "}" u)%nat /\
               count_char "[" u = count_char "[" t /\
               count_char "]" u = count_char "]" t).
  { unfold u. destruct (Nat.ltb_spec (count_char "}" t) (count_char "{" t)).
    - change "}"%string with (str1 "}"). rewrite !Hrep. simpl. lia.
    - lia. }
  destruct Hu as (Hu1 & Hu2 & Hu3).
  split; [|split; [|apply trim_idempotent]].
  - destruct (Nat.ltb_spec (count_char "]" t) (count_char "[" t)); [|exact Hu1].
    change "]"%string with (str1 "]"). rewrite !Hrep. simpl. lia.
  - destruct (Nat.ltb_spec (count_char "]" t) (count_char "[" t)).
    + change "]"%string with (str1 "]"). rewrite !Hrep. simpl. lia.
    + lia.
Qed.

(** *** Balanced extraction *)

Lemma from_first_spec (a : ascii) (text suffix : string) :
  from_first a text = Some suffix ->
  exists pre rest,
    text = pre ++ suffix /\ count_char a pre = 0%nat /\ suffix = String a rest.
Proof.
  revert suffix. induction text as [|ch text IH]; intros suffix H; [discriminate|].
  simpl in H. destruct (Ascii.eqb_spec ch a) as [->|Hne].
  - injection H as <-. by exists EmptyString, text.
  - destruct (IH _ H) as (pre & rest & -> & Hc & ->).
    exists (String ch pre), rest. repeat split. simpl.
    destruct (Ascii.eqb_spec ch a); [contradiction|exact Hc].
Qed.

(** The scan from a positive depth: it stops at the first closing character
    that brings the depth back to zero. *)
Lemma scan_balanced_spec (a b : ascii) (s : string) :
  a <> b ->
  forall (depth : Z) (t : string),
    0 < depth -> scan_balanced a b s depth = Some t ->
    exists mid post,
      s = t ++ post /\ t = mid ++ str1 b /\
      depth + Z.of_nat (count_char a t) - Z.of_nat (count_char b t) = 0 /\
      forall p q, t = p ++ q -> q <> EmptyString ->
        0 < depth + Z.of_nat (count_char a p) - Z.of_nat (count_char b p).
Proof.
  intros Hab. induction s as [|ch s IH]; intros depth t Hd H; [discriminate|].
  cbn [scan_balanced] in H.
  destruct (Ascii.eqb_spec ch a) as [->|Hna].
  - destruct (Z.eqb_spec (depth + 1) 0) as [|_]; [lia|].
    destruct (scan_balanced a b s (depth + 1)) as [t'|] eqn:Hs; [|discriminate].
    injection H as <-.
    destruct (IH (depth + 1) t' ltac:(lia) Hs) as (mid & post & -> & -> & Hz & Hpre).
    exists (String a mid), post. repeat split.
    + cbn [count_char]. rewrite Ascii.eqb_refl.
      destruct (Ascii.eqb_spec a b); [contradiction|]. lia.
    + intros p q Hp Hq. destruct p as [|x p]; [simpl; lia|].
      simpl in Hp. injection Hp as <- Hp.
      specialize (Hpre p q Hp Hq). cbn [count_char]. rewrite Ascii.eqb_refl.
      destruct (Ascii.eqb_spec a b); [contradiction|]. lia.
  - destruct (Ascii.eqb_spec ch b) as [->|Hnb].
    + destruct (Z.eqb_spec (depth - 1) 0) as [Hz|Hnz].
      * injection H as <-. exists EmptyString, s. repeat split.
        -- cbn [count_char str1]. rewrite Ascii.eqb_refl.
           destruct (Ascii.eqb_spec b a); [congruence|]. simpl. lia.
        -- intros p q Hp Hq. destruct p as [|x p]; [simpl; lia|].
           exfalso. simpl in Hp. injection Hp as _ Hp.
           destruct p; [|discriminate]. simpl in Hp. congruence.
      * destruct (scan_balanced a b s (depth - 1)) as [t'|] eqn:Hs; [|discriminate].
        injection H as <-.
        destruct (IH (depth - 1) t' ltac:(lia) Hs) as (mid & post & -> & -> & Hz & Hpre).
        exists (String b mid), post. repeat split.
        -- cbn [count_char]. rewrite Ascii.eqb_refl.
           destruct (Ascii.eqb_spec b a); [congruence|]. lia.
        -- intros p q Hp Hq. destruct p as [|x p]; [simpl; lia|].
           simpl in Hp. injection Hp as <- Hp.
           specialize (Hpre p q Hp Hq). cbn [count_char]. rewrite Ascii.eqb_refl.
           destruct (Ascii.eqb_spec b a); [congruence|]. lia.
    + destruct (Z.eqb_spec depth 0) as [|_]; [lia|].
      destruct (scan_balanced a b s depth) as [t'|] eqn:Hs; [|discriminate].
      injection H as <-.
      destruct (IH _ _ Hd Hs) as (mid & post & -> & -> & Hz & Hpre).
      exists (String ch mid), post. repeat split.
      * cbn [count_char].
        destruct (Ascii.eqb_spec ch a); [contradiction|].
        destruct (Ascii.eqb_spec ch b); [contradiction|]. lia.
      * intros p q Hp Hq. destruct p as [|x p]; [simpl; lia|].
        simpl in Hp. injection Hp as <- Hp.
        specialize (Hpre p q Hp Hq). cbn [count_char].
        destruct (Ascii.eqb_spec ch a); [contradiction|].
        destruct (Ascii.eqb_spec ch b); [contradiction|]. lia.
Qed.

(** X4. What [extractBalanced] returns is the first stretch of the text that
    starts at the first opening character and ends at the closing
    character that balances it: the text before it has no opening
    character, it has as many opening as closing characters, and every
    proper prefix of it has more opening than closing ones. Quotation marks
    play no part. *)
Theorem extractBalanced_shape (text : string) (a b : ascii) (t : string) :
  a <> b -> extractBalanced text a b = Some t ->
  exists pre mid post,
    text = pre ++ t ++ post /\
    count_char a pre = 0%nat /\
    t = String a (mid ++ str1 b) /\
    count_char a t = count_char b t /\
    forall p q, t = p ++ q -> p <> EmptyString -> q <> EmptyString ->
      (count_char b p < count_char a p)%nat.
Proof.
  intros Hab H. unfold extractBalanced in H.
  destruct (from_first a text) as [suffix|] eqn:Hf; [|discriminate].
  destruct (from_first_spec _ _ _ Hf) as (pre & rest & -> & Hpre & ->).
  cbn [scan_balanced] in H. rewrite Ascii.eqb_refl in H.
  change (0 + 1 =? 0) with false in H. cbv iota in H.
  destruct (scan_balanced a b rest (0 + 1)) as [t'|] eqn:Hs; [|discriminate].
  injection H as <-.
  destruct (scan_balanced_spec a b rest Hab (0 + 1) t' ltac:(lia) Hs)
    as (mid & post & -> & -> & Hz & Hp).
  exists pre, mid, post. repeat split; [exact Hpre| |].
  - cbn [count_char]. rewrite Ascii.eqb_refl.
    destruct (Ascii.eqb_spec a b); [contradiction|]. lia.
  - intros p q Hpq Hp0 Hq0. destruct p as [|x p]; [contradiction|].
    simpl in Hpq. injection Hpq as <- Hpq.
    specialize (Hp p q Hpq Hq0). cbn [count_char]. rewrite Ascii.eqb_refl.
    destruct (Ascii.eqb_spec a b); [contradiction|]. lia.
Qed.

Lemma extractBalanced_shape_witness :
  exists pre mid post,
    "say {a:{b:1}} and {c}" = pre ++ "{a:{b:1}}" ++ post /\
    count_char "{" pre = 0%nat /\
    "{a:{b:1}}" = String "{" (mid ++ str1 "}") /\
    count_char "{" "{a:{b:1}}" = count_char "}" "{a:{b:1}}" /\
    forall p q, "{a:{b:1}}" = p ++ q -> p <> EmptyString -> q <> EmptyString ->
      (count_char "}" p < count_char "{" p)%nat.
Proof.
  apply (extractBalanced_shape "say {a:{b:1}} and {c}" "{" "}" "{a:{b:1}}");
    [discriminate|reflexivity].
Defined.

(** ** The session store *)

Section Store.
Context {World : Type} (svc : Services World).

(** X5. After [endSession] the session is gone: the call answers
    [{ended: true}] whether or not there was a session, the other sessions
    and the collaborators are untouched, every later operation on the key
    raises [Session not found], and ending again changes nothing. *)
Theorem endSession_forgets (eng : EngineState (World := World)) (u m : string)
    (resp : JSValue) :
  exists eng',
    endSession u m eng = (Ok (JObj [("ended", JBool true)]), eng') /\
    world eng' = world eng /\
    sessions eng' !! sessionKey u m = None /\
    (forall k, k <> sessionKey u m -> sessions eng' !! k = sessions eng !! k) /\
    nextTurn svc u m eng' = (Throw (Error "Session not found"), eng') /\
    submitResponse svc u m resp eng' = (Throw (Error "Session not found"), eng') /\
    fst (getState u m eng') = Throw (Error "Session not found") /\
    endSession u m eng' = (Ok (JObj [("ended", JBool true)]), eng').
Proof.
  eexists. split; [reflexivity|]. split; [reflexivity|].
  assert (Hnone : delete (sessionKey u m) (sessions eng) !! sessionKey u m = None)
    by apply lookup_delete_eq.
  split; [exact Hnone|]. split.
  { intros k Hk. cbn [sessions]. by apply lookup_delete_ne. }
  unfold nextTurn, submitResponse, getState, on_session. cbn [sessions world].
  rewrite Hnone. repeat split.
  unfold endSession. cbn [sessions world]. by rewrite delete_delete_eq.
Qed.

End Store.

Lemma sessionKey_cancel (u m u' m' : string) :
  count_char ":" u = 0%nat -> count_char ":" u' = 0%nat ->
  u ++ String ":" m = u' ++ String ":" m' -> u = u' /\ m = m'.
Proof.
  revert u'. induction u as [|c u IH]; intros [|c' u'] Hu Hu' H; simpl in *.
  - injection H as ->. by split.
  - injection H as <- _. simpl in Hu'. discriminate.
  - injection H as -> _. simpl in Hu. discriminate.
  - injection H as -> H.
    destruct (Ascii.eqb c' ":"); [discriminate|].
    destruct (IH u' Hu Hu' H) as [-> ->]. by split.
Qed.

(** X7. The key of a session determines the user and the mission as long as
    user ids hold no colon; with a colon in a user id, two different pairs
    of user and mission share one key, hence one session. *)
Theorem sessionKey_injective :
  (forall u m u' m',
     count_char ":" u = 0%nat -> count_char ":" u' = 0%nat ->
     sessionKey u m = sessionKey u' m' -> u = u' /\ m = m') /\
  (forall a b c, sessionKey (a ++ ":" ++ b) c = sessionKey a (b ++ ":" ++ c)).
Proof.
  split.
  - intros u m u' m' Hu Hu' H. by apply sessionKey_cancel.
  - intros a b c. unfold sessionKey. by rewrite !append_assoc.
Qed.

Lemma sessionKey_injective_witness :
  "u1" = "u1" /\ "m:1" = "m:1".
Proof.
  apply (proj1 sessionKey_injective "u1" "m:1" "u1" "m:1"); reflexivity.
Defined.

(** ** What a session keeps *)

Lemma grown_refl (st : SessionState) : grown st st.
Proof. unfold grown. by repeat split. Qed.

Lemma grown_trans (a b c : SessionState) : grown a b -> grown b c -> grown a c.
Proof.
  intros (A1 & A2 & A3 & A4 & A5 & A6 & A7 & A8 & A9 & A10 & A11)
         (B1 & B2 & B3 & B4 & B5 & B6 & B7 & B8 & B9 & B10 & B11).
  unfold grown. repeat split; try congruence; try lia.
  - by etrans.
  - intros i turns H. by apply B2, A2.
Qed.

Lemma grown_set_cursor (st : SessionState) (b t : nat) :
  (blockIndex st <= b)%nat -> grown st (set_cursor b t st).
Proof. intros H. unfold grown. by repeat split. Qed.

Lemma grown_push_block (st : SessionState) (b : JSValue) :
  grown st (push_block b st).
Proof. unfold grown. repeat split; try done. by apply prefix_app_r. Qed.

Lemma grown_set_context (st : SessionState) p (e c : JSValue) :
  grown st (set_context p e c st).
Proof. unfold grown. by repeat split. Qed.

Lemma grown_set_lastAssessment (st : SessionState) (a : JSValue) :
  grown st (set_lastAssessment a st).
Proof. unfold grown. by repeat split. Qed.

Lemma grown_ensureTurns (st st' : SessionState) (i : nat) :
  ensureTurnsForBlock st i = Ok st' -> grown st st'.
Proof.
  unfold ensureTurnsForBlock.
  destruct (turnsByBlock st !! i) eqn:Hi.
  - intros [= <-]. apply grown_refl.
  - destruct (turns_of_block _); cbn [res_bind]; [|discriminate].
    intros [= <-]. unfold grown. repeat split; try done.
    intros j turns Hj. cbn [turnsByBlock set_turns].
    rewrite lookup_insert_ne; [exact Hj|]. intros ->. congruence.
Qed.

Section Monotone.
Context {World : Type} (svc : Services World).

Lemma growing_ret {A} (a : A) : growing World (ret a).
Proof. intros st w. apply grown_refl. Qed.

Lemma growing_lift {A} (r : Res A) : growing World (lift r).
Proof. intros st w. apply grown_refl. Qed.

Lemma growing_in_world {A} (m : SE World A) : growing World (in_world m).
Proof.
  intros st w. unfold in_world. cbn [fst snd].
  destruct (m w). apply grown_refl.
Qed.

Lemma growing_bind {A B} (m : Op (World := World) A) (k : A -> Op (World := World) B) :
  growing World m -> (forall a, growing World (k a)) -> growing World (bind m k).
Proof.
  intros Hm Hk st w. unfold bind. specialize (Hm st w).
  destruct (m (st, w)) as [[a|e] [st1 w1]]; cbn [fst snd] in *; [|exact Hm].
  eapply grown_trans; [exact Hm|]. apply Hk.
Qed.

Lemma growing_catch {A} (m : Op (World := World) A) (h : Exn -> Op (World := World) A) :
  growing World m -> (forall e, growing World (h e)) -> growing World (catch m h).
Proof.
  intros Hm Hh st w. unfold catch. specialize (Hm st w).
  destruct (m (st, w)) as [[a|e] [st1 w1]]; cbn [fst snd] in *; [exact Hm|].
  eapply grown_trans; [exact Hm|]. apply Hh.
Qed.

Lemma growing_update (f : SessionState -> SessionState) :
  (forall st, grown st (f st)) -> growing World (update f).
Proof. intros Hf st w. apply Hf. Qed.

Lemma growing_try_state (f : SessionState -> Res SessionState) :
  (forall st st', f st = Ok st' -> grown st st') -> growing World (try_state f).
Proof.
  intros Hf st w. unfold try_state. cbn [fst snd].
  destruct (f st) eqn:E; cbn [fst snd]; [by apply Hf|apply grown_refl].
Qed.

(** An operation whose continuation reads the state it starts from. *)
Lemma growing_state {A} (k : SessionState -> Op (World := World) A) :
  (forall st, growing World (k st)) -> growing World (bind state k).
Proof. intros Hk st w. unfold bind, state, gets. cbn [fst snd]. apply Hk. Qed.

Lemma growing_payload : growing World payload.
Proof. apply growing_state. intros st. apply growing_lift. Qed.

Lemma growing_refresh : growing World (refresh svc).
Proof.
  apply growing_state. intros st.
  repeat (apply growing_bind; [apply growing_in_world|intros ?]).
  apply growing_update. intros. apply grown_set_context.
Qed.

Lemma growing_advance_to (nextStep : JSValue) : growing World (advance_to svc nextStep).
Proof.
  apply growing_bind; [apply growing_refresh|intros _].
  apply growing_state. intros st.
  apply growing_bind; [apply growing_in_world|intros b].
  apply growing_bind.
  { apply growing_update. intros. apply grown_push_block. }
  intros _. apply growing_bind.
  { apply growing_update. intros. apply grown_set_cursor. lia. }
  intros _. apply growing_try_state. intros ? ?. apply grown_ensureTurns.
Qed.

Lemma update_then {A} (f : SessionState -> SessionState) (k : Op (World := World) A)
    (st : SessionState) (w : World) :
  grown st (f st) -> growing World k ->
  grown st (fst (snd (bind (update f) (fun _ => k) (st, w)))).
Proof.
  intros Hf Hk. unfold bind, update, modify. cbn [fst snd].
  eapply grown_trans; [exact Hf|]. apply Hk.
Qed.

Lemma lift_then {A B} (r : Res A) (k : A -> Op (World := World) B) (st : SessionState) (w : World) :
  (forall a, grown st (fst (snd (k a (st, w))))) ->
  grown st (fst (snd (bind (lift r) k (st, w)))).
Proof.
  intros Hk. unfold bind, lift. destruct r; cbn [fst snd]; [apply Hk|].
  apply grown_refl.
Qed.

Lemma growing_nextTurn : growing World (nextTurn_session svc).
Proof.
  intros st w. unfold nextTurn_session, bind at 1, state at 1, gets.
  cbn [fst snd].
  destruct (_ <? _)%nat.
  { apply update_then; [apply grown_set_cursor; lia|apply growing_payload]. }
  apply lift_then. intros [|].
  { apply growing_bind; [apply growing_payload|intros p; apply growing_ret]. }
  destruct (_ <? _)%nat.
  { apply update_then; [apply grown_set_cursor; lia|].
    apply growing_bind; [|intros _; apply growing_payload].
    apply growing_try_state. intros ? ?. apply grown_ensureTurns. }
  apply lift_then. intros block_id.
  destruct (truthy _); [|apply grown_refl].
  apply growing_bind; [apply growing_advance_to|intros _; apply growing_payload].
Qed.

Lemma growing_maybeRecommendNext (feedback : JSValue) :
  growing World (maybeRecommendNext svc feedback).
Proof.
  apply growing_state. intros st. apply growing_catch; [|intros; apply growing_ret].
  apply growing_bind; [apply growing_in_world|intros strategy].
  apply growing_bind; [apply growing_lift|intros actions].
  apply growing_bind; [apply growing_lift|intros methodology].
  apply growing_ret.
Qed.

Lemma growing_submitResponse (userId : string) (userResponse : JSValue) :
  growing World (submitResponse_session svc userId userResponse).
Proof.
  apply growing_state. intros st.
  apply growing_bind; [apply growing_lift|intros blockType].
  apply growing_bind; [apply growing_in_world|intros assessment].
  apply growing_bind.
  { apply growing_update. intros. apply grown_set_lastAssessment. }
  intros _. apply growing_bind; [apply growing_lift|intros [|]].
  - apply growing_bind; [apply growing_lift|intros chosen].
    apply growing_bind.
    { destruct (truthy _); [apply growing_advance_to|apply growing_ret]. }
    intros _. apply growing_bind; [apply growing_payload|intros p].
    apply growing_ret.
  - apply growing_bind; [apply growing_in_world|intros feedback].
    apply growing_bind; [apply growing_maybeRecommendNext|intros rec].
    apply growing_ret.
Qed.

Lemma on_session_grown {A} (op : Op (World := World) A) (eng : EngineState (World := World))
    (u m : string) (st : SessionState) :
  growing World op -> sessions eng !! sessionKey u m = Some st ->
  exists st',
    sessions (snd (on_session u m op eng)) !! sessionKey u m = Some st' /\
    grown st st'.
Proof.
  intros Hop Hs. unfold on_session. rewrite Hs.
  specialize (Hop st (world eng)).
  destruct (op (st, world eng)) as [r [st' w']]. cbn [fst snd] in *.
  exists st'. split; [apply lookup_insert_eq|exact Hop].
Qed.

(** X8. Whatever the collaborators do and whatever the operation returns,
    [nextTurn] and [submitResponse] keep the session in the store and only
    let it grow: the blocks generated so far stay as a prefix of the
    blocks, the turns memoized for a block are never replaced, the plan,
    its index and the identities of the session stay, and the block index
    never decreases. *)
Theorem session_only_grows (eng : EngineState (World := World)) (u m : string)
    (st : SessionState) (resp : JSValue) :
  sessions eng !! sessionKey u m = Some st ->
  (exists st',
     sessions (snd (nextTurn svc u m eng)) !! sessionKey u m = Some st' /\
     grown st st') /\
  (exists st',
     sessions (snd (submitResponse svc u m resp eng)) !! sessionKey u m = Some st' /\
     grown st st').
Proof.
  intros Hs. split.
  - by apply on_session_grown; [apply growing_nextTurn|].
  - by apply on_session_grown; [apply growing_submitResponse|].
Qed.

End Monotone.

Lemma session_only_grows_witness :
  exists st',
    sessions (snd (nextTurn offline "u1" "m1" (engine_with session_c)))
      !! sessionKey "u1" "m1" = Some st' /\
    grown session_c st'.
Proof.
  apply (session_only_grows offline (engine_with session_c) "u1" "m1" session_c JNull).
  reflexivity.
Defined.

(** ** The cursor and the last block *)

Section LastBlock.
Context {World : Type} (svc : Services World).

Lemma keeps_last_ret {A} (a : A) : keeps_last World (ret a).
Proof. by intros st w. Qed.

Lemma keeps_last_lift {A} (r : Res A) : keeps_last World (lift r).
Proof. by intros st w. Qed.

Lemma keeps_last_in_world {A} (m : SE World A) : keeps_last World (in_world m).
Proof.
  intros st w H. unfold in_world. cbn [fst snd]. by destruct (m w).
Qed.

Lemma keeps_last_bind {A B} (m : Op (World := World) A)
    (k : A -> Op (World := World) B) :
  keeps_last World m -> (forall a, keeps_last World (k a)) ->
  keeps_last World (bind m k).
Proof.
  intros Hm Hk st w H. unfold bind. specialize (Hm st w H).
  destruct (m (st, w)) as [[a|e] [st1 w1]]; cbn [fst snd] in *; [|exact Hm].
  by apply Hk.
Qed.

Lemma keeps_last_catch {A} (m : Op (World := World) A)
    (h : Exn -> Op (World := World) A) :
  keeps_last World m -> (forall e, keeps_last World (h e)) ->
  keeps_last World (catch m h).
Proof.
  intros Hm Hh st w H. unfold catch. specialize (Hm st w H).
  destruct (m (st, w)) as [[a|e] [st1 w1]]; cbn [fst snd] in *; [exact Hm|].
  by apply Hh.
Qed.

Lemma keeps_last_update (f : SessionState -> SessionState) :
  (forall st, blocks (f st) = blocks st /\ blockIndex (f st) = blockIndex st) ->
  keeps_last World (update f).
Proof.
  intros Hf st w H. unfold update, modify, on_last_block in *. cbn [fst snd].
  destruct (Hf st) as [-> ->]. exact H.
Qed.

Lemma keeps_last_state {A} (k : SessionState -> Op (World := World) A) :
  (forall st, keeps_last World (k st)) -> keeps_last World (bind state k).
Proof. intros Hk st w H. unfold bind, state, gets. cbn [fst snd]. by apply Hk. Qed.

Lemma keeps_last_payload : keeps_last World payload.
Proof. apply keeps_last_state. intros st. apply keeps_last_lift. Qed.

Lemma keeps_last_advance_to (nextStep : JSValue) :
  truthy nextStep = true -> keeps_last World (advance_to svc nextStep).
Proof.
  intros Ht st w H.
  destruct (advance_to_state svc nextStep st w (truthy_not_nullish _ Ht))
    as (r & st' & w' & b & Hrun & _ & Hb & Hi & _).
  rewrite Hrun. cbn [fst snd]. unfold on_last_block in *.
  rewrite Hb, Hi, length_app. cbn [length]. lia.
Qed.

Lemma keeps_last_nextTurn : keeps_last World (nextTurn_session svc).
Proof.
  intros st w H. unfold nextTurn_session, bind at 1, state at 1, gets.
  cbn [fst snd].
  destruct (_ <? _)%nat.
  { revert H. generalize st at 1 2 4 as st0. intros st0 H.
    unfold bind, update, modify. cbn [fst snd].
    apply keeps_last_payload. exact H. }
  unfold bind at 1, lift at 1.
  destruct (is_choice_type _) as [[|]|e]; cbn [fst snd]; [| |exact H].
  { refine (keeps_last_bind _ _ _ _ st w H);
      [apply keeps_last_payload|intros p; apply keeps_last_ret]. }
  destruct (Nat.ltb_spec (blockIndex st + 1) (length (blocks st))) as [Hlt|_].
  { unfold on_last_block in H. lia. }
  unfold bind at 1, lift at 1.
  destruct (get _ "block_id") as [block_id|e]; cbn [fst snd]; [|exact H].
  destruct (truthy _) eqn:Ht; [|exact H].
  refine (keeps_last_bind _ _ _ _ st w H);
    [by apply keeps_last_advance_to|intros _; apply keeps_last_payload].
Qed.

Lemma keeps_last_maybeRecommendNext (feedback : JSValue) :
  keeps_last World (maybeRecommendNext svc feedback).
Proof.
  apply keeps_last_state. intros st.
  apply keeps_last_catch; [|intros; apply keeps_last_ret].
  apply keeps_last_bind; [apply keeps_last_in_world|intros strategy].
  apply keeps_last_bind; [apply keeps_last_lift|intros actions].
  apply keeps_last_bind; [apply keeps_last_lift|intros methodology].
  apply keeps_last_ret.
Qed.

Lemma keeps_last_submitResponse (userId : string) (userResponse : JSValue) :
  keeps_last World (submitResponse_session svc userId userResponse).
Proof.
  apply keeps_last_state. intros st.
  apply keeps_last_bind; [apply keeps_last_lift|intros blockType].
  apply keeps_last_bind; [apply keeps_last_in_world|intros assessment].
  apply keeps_last_bind; [by apply keeps_last_update|intros _].
  apply keeps_last_bind; [apply keeps_last_lift|intros [|]].
  - apply keeps_last_bind; [apply keeps_last_lift|intros chosen].
    apply keeps_last_bind.
    { destruct (truthy _) eqn:Ht;
        [by apply keeps_last_advance_to|apply keeps_last_ret]. }
    intros _. apply keeps_last_bind; [apply keeps_last_payload|intros p].
    apply keeps_last_ret.
  - apply keeps_last_bind; [apply keeps_last_in_world|intros feedback].
    apply keeps_last_bind; [apply keeps_last_maybeRecommendNext|intros rec].
    apply keeps_last_ret.
Qed.

Lemma on_session_keeps_last {A} (op : Op A) (eng : EngineState (World := World))
    (u m : string) (st : SessionState) :
  keeps_last World op -> sessions eng !! sessionKey u m = Some st ->
  on_last_block st ->
  exists st',
    sessions (snd (on_session u m op eng)) !! sessionKey u m = Some st' /\
    on_last_block st'.
Proof.
  intros Hop Hs H. unfold on_session. rewrite Hs.
  specialize (Hop st (world eng) H).
  destruct (op (st, world eng)) as [r [st' w']]. cbn [fst snd] in *.
  exists st'. split; [apply lookup_insert_eq|exact Hop].
Qed.

(** X9. The cursor of a session stays on the last of its blocks: a
    session whose cursor is there has it there after every [nextTurn] and
    every [submitResponse], whatever the collaborators do and whatever the
    call returns. *)
Theorem cursor_stays_on_last_block (eng : EngineState (World := World))
    (u m : string) (st : SessionState) (resp : JSValue) :
  sessions eng !! sessionKey u m = Some st ->
  on_last_block st ->
  (exists st',
     sessions (snd (nextTurn svc u m eng)) !! sessionKey u m = Some st' /\
     on_last_block st') /\
  (exists st',
     sessions (snd (submitResponse svc u m resp eng)) !! sessionKey u m = Some st' /\
     on_last_block st').
Proof.
  intros Hs H. split.
  - exact (on_session_keeps_last _ eng u m st keeps_last_nextTurn Hs H).
  - exact (on_session_keeps_last _ eng u m st
             (keeps_last_submitResponse u resp) Hs H).
Qed.

End LastBlock.

Lemma cursor_stays_on_last_block_witness :
  exists st',
    sessions (snd (nextTurn offline "u1" "m1" (engine_with session_c)))
      !! sessionKey "u1" "m1" = Some st' /\
    on_last_block st'.
Proof.
  apply (cursor_stays_on_last_block offline (engine_with session_c)
           "u1" "m1" session_c JNull); reflexivity.
Defined.

(** ** Selection by text *)

Section TextSelection.
Context {World : Type} (svc : Services World).

(** X10. On a choice block, a response without a usable index and with a
    [choiceText] selects the first option whose text equals it up to case:
    the options before it are passed over, the later ones are not looked
    at, and the response carries that option as its choice. *)
Theorem submitResponse_selects_by_text (eng : EngineState (World := World))
    (u m : string) (st : SessionState) (fields : list (string * JSValue))
    (pre post : list JSValue) (c : JSValue) :
  sessions eng !! sessionKey u m = Some st ->
  let block := at_index (blocks st) (blockIndex st) in
  let idx := obj_get fields "choiceIndex" in
  let txt := obj_get fields "choiceText" in
  let wanted := toLowerCase (ToString txt) in
  is_choice_type (get_opt block "type") = Ok true ->
  (nullish idx = true \/
   exists z, idx = JNum (Int z) /\
     (z < 0 \/ Z.of_nat (length (choices_of block)) <= z)) ->
  truthy txt = true ->
  choices_of block = (pre ++ c :: post)%list ->
  Forall (unmatched wanted) pre ->
  matched wanted c ->
  select_choice block (JObj fields) = Ok c /\
  exists r eng',
    submitResponse svc u m (JObj fields) eng = (r, eng') /\
    forall p, r = Ok p ->
      get_own p "branched" = JBool true /\
      get_own p "choice" = or_else c JNull.
Proof.
  intros Hs block idx txt wanted Hc Hidx Htxt Hcs Hpre Hm.
  assert (Hsel : select_choice block (JObj fields) = Ok c).
  { rewrite select_choice_object. cbv zeta. fold idx. fold txt.
    assert (E : negb (nullish (coalesce idx JNull)) &&
                truthy (if nullish (coalesce idx JNull) then JUndefined
                        else get_own (JArr (choices_of block))
                               (ToString (coalesce idx JNull))) = false).
    { destruct Hidx as [Hn|(z & -> & Hz)].
      - unfold coalesce. by rewrite Hn.
      - cbn [coalesce nullish negb andb]. by rewrite (index_out_of_range _ _ Hz). }
    rewrite E.
    assert (Ec : coalesce txt JNull = txt).
    { unfold coalesce. by rewrite (truthy_not_nullish _ Htxt). }
    rewrite Ec, Htxt, Hcs. by apply find_choice_first_match. }
  split; [exact Hsel|].
  destruct (submit_choice_outcome svc eng u m st (JObj fields) c _ Hs Hc Hsel eq_refl)
    as (r & eng' & st' & Hrun & _ & Hp & _).
  exists r, eng'. split; [exact Hrun|exact Hp].
Qed.

End TextSelection.

Lemma submitResponse_selects_by_text_witness :
  exists c,
    select_choice (at_index (blocks session_b) 0)
      (JObj [("choiceText", JStr "b")]) = Ok c /\
    get_own c "text" = JStr "B".
Proof.
  destruct (submitResponse_selects_by_text offline (engine_with session_b)
              "u1" "m1" session_b [("choiceText", JStr "b")]
              [at_index (choices_of (at_index (blocks session_b) 0)) 0] []
              (at_index (choices_of (at_index (blocks session_b) 0)) 1)
              eq_refl eq_refl (or_introl eq_refl) eq_refl eq_refl)
    as [H _].
  - constructor; [|constructor]. split; [reflexivity|].
    exists "A". split; [reflexivity|discriminate].
  - split; [reflexivity|]. exists "B". split; reflexivity.
  - eexists. split; [exact H|reflexivity].
Defined.

(** ** Answers without the collaborators *)

Section Degraded.
Context {World : Type} (svc : Services World).

(** X11. When the assessment, the generation service and the strategy
    advisor all fail, or the generation service answers with no JSON,
    [submitResponse] on a block that is not a choice still answers: with
    no assessment, the neutral feedback and no recommendation. The last
    assessment of the session becomes [null]; nothing else of the session
    changes. *)
Theorem submitResponse_degrades (eng : EngineState (World := World))
    (u m : string) (st : SessionState) (resp : JSValue) :
  sessions eng !! sessionKey u m = Some st ->
  let block := at_index (blocks st) (blockIndex st) in
  nullish block = false ->
  is_choice_type (get_own block "type") = Ok false ->
  (forall payload w, exists e w',
     performRealTimeAssessment svc u payload w = (Throw e, w')) ->
  (forall prompt w,
     (exists e w', generateResponse svc prompt w = (Throw e, w')) \/
     (exists raw w' e, generateResponse svc prompt w = (Ok raw, w') /\
        parseAIJSONResponse (JStr raw) = Throw e)) ->
  (forall userId context w, exists e w',
     generateTutoringStrategy svc userId context w = (Throw e, w')) ->
  exists w',
    submitResponse svc u m resp eng =
      (Ok (JObj [("assessment", JNull); ("feedback", default_feedback);
                 ("next_recommendation", JNull)]),
       {| sessions := <[sessionKey u m := set_lastAssessment JNull st]> (sessions eng);
          world := w' |}).
Proof.
  intros Hs block Hn Hc Hassess Hgen Hadvise.
  assert (Hrun : exists w',
    submitResponse_session svc u resp (st, world eng) =
      (Ok (JObj [("assessment", JNull); ("feedback", default_feedback);
                 ("next_recommendation", JNull)]),
       (set_lastAssessment JNull st, w'))).
  { unfold submitResponse_session.
    unfold bind at 1, state at 1, gets. cbn [fst snd]. fold block.
    rewrite (get_not_nullish _ _ Hn). unfold bind at 1, lift at 1.
    unfold bind at 1, in_world at 1, catch. cbn [fst snd].
    match goal with |- context [performRealTimeAssessment svc u ?x (world eng)] =>
      destruct (Hassess x (world eng)) as (e1 & w1 & ->) end.
    cbn [fst snd ret].
    unfold bind at 1, update at 1, modify. cbn [fst snd].
    unfold bind at 1, lift at 1. rewrite Hc.
    unfold bind at 1, in_world at 1, catch, bind, lift. cbn [fst snd].
    match goal with |- context [generateResponse svc ?x w1] =>
      destruct (Hgen x w1) as [(e2 & w2 & ->)|(raw & w2 & e2 & -> & ->)] end;
      cbn [fst snd ret];
      unfold maybeRecommendNext, bind, state, gets, catch, in_world, lift, ret;
      cbn [fst snd];
      match goal with |- context [generateTutoringStrategy svc ?a ?x ?ww] =>
        destruct (Hadvise a x ww) as (e3 & w3 & ->) end;
      cbn [fst snd]; eauto. }
  destruct Hrun as [w' Hrun]. exists w'.
  unfold submitResponse, on_session. by rewrite Hs, Hrun.
Qed.

End Degraded.

Lemma submitResponse_degrades_witness :
  exists w',
    submitResponse offline "u1" "m1" (JStr "because of gravity")
      (engine_with session_a) =
      (Ok (JObj [("assessment", JNull); ("feedback", default_feedback);
                 ("next_recommendation", JNull)]),
       {| sessions :=
            <[sessionKey "u1" "m1" := set_lastAssessment JNull session_a]>
              (sessions (engine_with session_a));
          world := w' |}).
Proof.
  apply (submitResponse_degrades offline (engine_with session_a) "u1" "m1"
           session_a (JStr "because of gravity") eq_refl eq_refl eq_refl).
  - intros payload w. by exists (Error "offline"), w.
  - intros prompt w. left. by exists (Error "AI generation failed: offline"), w.
  - intros userId context w. by exists (Error "offline"), w.
Defined.

(** ** Steps that need no generation *)

Section Structural.
Context {World : Type} (svc : Services World).

(** X12. A [choice] step and an [image] step are turned into blocks without any
    call of the generation service: the world of the collaborators is
    left as it is, and the block is the same under every service. The
    block carries the id of the step and the type of the step; a choice
    block built from a non-empty array of options has one choice per
    option. *)
Theorem structural_steps_need_no_service
    (step : JSValue) (ctx : GenContext) (w : World) :
  nullish step = false ->
  let type := step_type (get_own step "type") in
  type = "choice" \/ type = "image" ->
  exists b,
    generateContentForStep svc step ctx w = (Ok b, w) /\
    (forall World' (svc' : Services World') (w' : World'),
       fst (generateContentForStep svc' step ctx w') = Ok b) /\
    get_own b "block_id" = get_own step "id" /\
    get_own b "type" = JStr type /\
    (forall o os cs,
       type = "choice" -> get_own step "options" = JArr (o :: os) ->
       map_res (choice_of_option (ctx_learningAnalysis ctx)) (o :: os) = Ok cs ->
       get_own b "choices" = JArr cs /\ length cs = length (o :: os)).
Proof.
  intros Hn type Ht.
  assert (Hg : forall k, get step k = Ok (get_own step k)).
  { intros k. unfold get. by rewrite Hn. }
  assert (Hlen : forall (l : list JSValue) cs,
            map_res (choice_of_option (ctx_learningAnalysis ctx)) l = Ok cs ->
            length cs = length l).
  { induction l as [|x l IH]; intros cs H; simpl in H; [by injection H as <-|].
    destruct (choice_of_option _ x); cbn [res_bind] in H; [|discriminate].
    destruct (map_res _ l) eqn:E; cbn [res_bind] in H; [|discriminate].
    injection H as <-. simpl. f_equal. by apply IH. }
  unfold generateContentForStep.
  assert (Hrun : forall World' (svc' : Services World') (w' : World'),
    (stepType <- lift (get step "type") ;;
     catch
       (if String.eqb (step_type stepType) "choice" then
          lift (choice_block step (ctx_learningAnalysis ctx))
        else if String.eqb (step_type stepType) "image" then
          lift (image_block step)
        else
          prompt <- lift (stepPrompt svc' (step_type stepType) step ctx) ;;
          response <- generateResponse svc' prompt ;;
          lift (normalize_response response))
       (fun error => lift (fallback_block step (step_type stepType)))) w' =
    (match (if String.eqb type "choice"
            then choice_block step (ctx_learningAnalysis ctx)
            else image_block step) with
     | Ok b => Ok b
     | Throw _ => fallback_block step type
     end, w')).
  { intros World' svc' w'. unfold bind at 1, lift at 1. rewrite Hg. fold type.
    unfold catch.
    destruct Ht as [Ht|Ht]; rewrite Ht; cbn [String.eqb Ascii.eqb Bool.eqb];
      unfold lift;
      match goal with |- match ?x with _ => _ end = _ => by destruct x end. }
  assert (Hfb : fallback_block step type =
    Ok (JObj [("block_id", get_own step "id"); ("type", JStr type);
              ("title", get_own step "title");
              ("content", JStr ("This slide covers: " ++
                                ToString (get_own step "objective")));
              ("learning_goal", get_own step "objective");
              ("media", JObj [("image", JStr "/images/mars_base_dark.png")]);
              ("llm_instruction", JStr "Provide supportive, encouraging guidance.");
              ("error", JStr "Fallback content due to AI error")])).
  { unfold fallback_block. rewrite !Hg. reflexivity. }
  destruct Ht as [Ht|Ht].
  - (* choice *)
    assert (Hcb : exists b, (match choice_block step (ctx_learningAnalysis ctx) with
                   | Ok b => Ok b | Throw _ => fallback_block step type end) = Ok b /\
              get_own b "block_id" = get_own step "id" /\
              get_own b "type" = JStr type /\
              (forall o os cs, get_own step "options" = JArr (o :: os) ->
                 map_res (choice_of_option (ctx_learningAnalysis ctx)) (o :: os) = Ok cs ->
                 get_own b "choices" = JArr cs)).
    { unfold choice_block. rewrite !Hg. cbn [res_bind].
      destruct (get_own step "options") as [| |?|?|?|[|o os]|?] eqn:Ho;
        cbn [res_bind];
        try (eexists; split; [reflexivity|]; rewrite Ht;
             repeat split; intros; discriminate).
      destruct (map_res _ (o :: os)) as [cs|x] eqn:Hm; cbn [res_bind].
      - eexists. split; [reflexivity|]. rewrite Ht. repeat split.
        intros o' os' cs' [= <- <-] Hm'. cbn [get_own obj_get String.eqb Ascii.eqb Bool.eqb].
        congruence.
      - rewrite Hfb. eexists. split; [reflexivity|]. repeat split.
        intros o' os' cs' [= <- <-] Hm'. congruence. }
    destruct Hcb as (b & Hb & Hid & Hty & Hcs).
    exists b. repeat split; try assumption.
    + rewrite Hrun, Ht. cbn [String.eqb Ascii.eqb Bool.eqb]. rewrite <- Ht. by rewrite Hb.
    + intros. rewrite Hrun, Ht. cbn [String.eqb Ascii.eqb Bool.eqb].
      rewrite <- Ht. by rewrite Hb.
    + eapply Hcs; eassumption.
    + eapply Hlen; eassumption.
  - (* image *)
    exists (JObj [("block_id", get_own step "id"); ("type", JStr "image");
                  ("title", get_own step "title");
                  ("content", get_own step "objective");
                  ("learning_goal", get_own step "objective");
                  ("media", JObj [("image", JStr "/images/space_scene.png")]);
                  ("llm_instruction",
                    JStr "Use the image to anchor the brief explanation. Invite observation.")]).
    assert (Hib : image_block step = Ok (JObj [("block_id", get_own step "id"); ("type", JStr "image");
                  ("title", get_own step "title");
                  ("content", get_own step "objective");
                  ("learning_goal", get_own step "objective");
                  ("media", JObj [("image", JStr "/images/space_scene.png")]);
                  ("llm_instruction",
                    JStr "Use the image to anchor the brief explanation. Invite observation.")])).
    { unfold image_block. by rewrite !Hg. }
    repeat split.
    + rewrite Hrun, Ht. cbn [String.eqb Ascii.eqb Bool.eqb]. by rewrite Hib.
    + intros. rewrite Hrun, Ht. cbn [String.eqb Ascii.eqb Bool.eqb]. by rewrite Hib.
    + by rewrite Ht.
    + rewrite Ht in *. discriminate.
    + rewrite Ht in *. discriminate.
Qed.

End Structural.

Lemma structural_steps_need_no_service_witness :
  exists b,
    generateContentForStep offline
      (step "s1" "choice" (JArr [opt "A" "s2"; opt "B" "s3"])) no_context tt
      = (Ok b, tt) /\
    get_own b "block_id" = JStr "s1".
Proof.
  destruct (structural_steps_need_no_service offline
              (step "s1" "choice" (JArr [opt "A" "s2"; opt "B" "s3"]))
              no_context tt eq_refl (or_introl eq_refl))
    as (b & H1 & _ & H2 & _).
  exists b. split; [exact H1|exact H2].
Defined.

(** ** Opening a session *)

Lemma index_steps_total (steps : list JSValue) :
  Forall (fun s => nullish s = false) steps ->
  forall i acc, exists idx, index_steps steps i acc = Ok idx.
Proof.
  induction 1 as [|s steps Hs _ IH]; intros i acc; [by eexists|].
  cbn [index_steps]. rewrite (get_not_nullish _ _ Hs). cbn [res_bind]. apply IH.
Qed.

Section StartProperties.
Context {World : Type} (svc : Services World) (env : Surroundings World).

Lemma in_store_catch {A} (m : SE World A) (x : A)
    (eng : EngineState (World := World)) :
  exists a w',
    in_store (catch m (fun _ => ret x)) eng =
      (Ok a, {| sessions := sessions eng; world := w' |}).
Proof.
  unfold in_store, catch, ret.
  destruct (m (world eng)) as [[a|e] w']; eauto.
Qed.

Lemma in_store_createPlan (topic profile : JSValue)
    (eng : EngineState (World := World)) :
  exists steps w',
    in_store (createPlan svc topic profile) eng =
      (Ok steps, {| sessions := sessions eng; world := w' |}) /\
    fst (createPlan svc topic profile (world eng)) = Ok steps.
Proof.
  unfold in_store.
  pose proof (createPlan_cases svc topic profile (world eng)) as H.
  cbv zeta in H.
  destruct (generateResponse svc _ (world eng)) as [[raw|e] w'].
  - rewrite H. destruct (res_catch _ _); eexists _, _; split; reflexivity.
  - rewrite H. eexists _, _; split; reflexivity.
Qed.

(** X13. [startSession] opens a session. For a user that is not [null], with
    services whose plans are non-empty lists of steps and whose blocks can
    be presented, the call returns the payload of the first turn and
    stores one new session under the key of the user and of the mission,
    whose id ends with the reading of the clock. The new session has one
    block, generated for the first step of the plan, the turns of that
    block memoized, and the cursor on the first turn of the first block;
    every other session is left as it was. *)
Theorem startSession_opens_session (user lessonRequest : JSValue)
    (eng : EngineState (World := World)) :
  nullish user = false ->
  yields_blocks svc ->
  (forall topic profile w steps,
     fst (createPlan svc topic profile w) = Ok steps ->
     steps <> [] /\ Forall (fun s => nullish s = false) steps) ->
  exists p eng' st w b turns,
    startSession svc env user lessonRequest eng = (Ok p, eng') /\
    sessions eng' = <[sessionId st := st]> (sessions eng) /\
    user_id st = ToString (get_own user "id") /\
    mission_id st = "dynamic_lesson_" ++ string_of_Z (now env w) /\
    sessionId st = sessionKey (user_id st) (mission_id st) /\
    plan st <> [] /\
    (exists ctx w0,
       fst (generateContentForStep svc (at_index (plan st) 0) ctx w0) = Ok b) /\
    blocks st = [b] /\
    turns_of_block b = Ok turns /\
    turnsByBlock st = {[ 0%nat := turns ]} /\
    blockIndex st = 0%nat /\ turnIndex st = 0%nat /\
    (exists c, p = payload_of st c) /\
    get_own p "done" = JBool false.
Proof.
  intros Hu Hgen Hplan. unfold startSession.
  unfold bind at 1, lift at 1. rewrite (get_not_nullish _ _ Hu).
  set (topic := or_else _ (JStr "space_exploration")).
  set (userId := ToString (get_own user "id")).
  match goal with |- context [in_store (catch (getUserProfile env userId) (fun _ => ret ?x))] =>
    destruct (in_store_catch (getUserProfile env userId) x eng)
      as (profile & w1 & E1) end.
  unfold bind at 1. rewrite E1.
  match goal with |- context [createPlan svc topic profile] =>
    destruct (in_store_createPlan topic profile
                {| sessions := sessions eng; world := w1 |})
      as (steps & w2 & E2 & Hsteps) end.
  unfold bind at 1. rewrite E2. cbn [sessions world] in *.
  destruct (Hplan _ _ _ _ Hsteps) as [Hne Hall].
  unfold bind at 1, gets at 1. cbn [sessions world].
  set (missionId := "dynamic_lesson_" ++ string_of_Z (now env w2)).
  destruct (in_store_catch (generatePersonalizationInsights svc userId) []
              {| sessions := sessions eng; world := w2 |}) as (pers & w3 & E3).
  unfold bind at 1. rewrite E3. cbn [sessions world].
  destruct (in_store_catch (generateEnhancedContext svc userId) (JObj [])
              {| sessions := sessions eng; world := w3 |}) as (ec & w4 & E4).
  unfold bind at 1. rewrite E4. cbn [sessions world].
  destruct (in_store_catch (summarizeContext svc userId) (JStr EmptyString)
              {| sessions := sessions eng; world := w4 |}) as (cs & w5 & E5).
  unfold bind at 1. rewrite E5. cbn [sessions world].
  assert (H0 : nullish (at_index steps 0) = false).
  { destruct steps as [|s0 steps']; [contradiction|]. by inversion Hall. }
  unfold bind at 1, in_store at 1. cbn [sessions world].
  match goal with |- context [generateContentForStep svc (at_index steps 0) ?gc w5] =>
    destruct (generateContentForStep_total svc (at_index steps 0) gc w5 H0)
      as (b & w6 & Eb); rewrite Eb;
    assert (Hb : exists ctx w0,
              fst (generateContentForStep svc (at_index steps 0) ctx w0) = Ok b)
      by (exists gc, w5; by rewrite Eb)
  end.
  assert (Hok : block_ok b = true).
  { eapply Hgen. rewrite Eb. reflexivity. }
  destruct (block_ok_spec b Hok) as [Hbn [c Hc]].
  unfold bind at 1, lift at 1. rewrite (get_not_nullish _ _ H0).
  destruct (index_steps_total steps Hall 0%nat []) as [idx Eidx].
  unfold bind at 1, lift at 1. rewrite Eidx.
  destruct (turns_of_block_total b Hbn) as [turns Et].
  unfold bind at 1, lift at 1.
  unfold ensureTurnsForBlock. cbn [turnsByBlock blocks at_index nth].
  rewrite lookup_empty, Et. cbn [res_bind].
  match goal with |- context [currentTurnPayload ?s] => set (st := s) end.
  assert (Hp : currentTurnPayload st = Ok (payload_of st c)).
  { apply currentTurnPayload_ok; [exact Hbn|exact Hc]. }
  rewrite Hp.
  eexists (payload_of st c), _, st, w2, b, turns.
  split; [reflexivity|]. cbn [sessions].
  repeat split; try reflexivity; try assumption.
  by exists c.
Qed.

(** X14. With a service whose plans are empty, [startSession] raises a
    [TypeError] and stores nothing. *)
Theorem startSession_empty_plan (user lessonRequest : JSValue)
    (eng : EngineState (World := World)) :
  nullish user = false ->
  (forall topic profile w, fst (createPlan svc topic profile w) = Ok []) ->
  exists x eng',
    startSession svc env user lessonRequest eng = (Throw (TypeError x), eng') /\
    sessions eng' = sessions eng.
Proof.
  intros Hu Hplan. unfold startSession.
  unfold bind at 1, lift at 1. rewrite (get_not_nullish _ _ Hu).
  set (topic := or_else _ (JStr "space_exploration")).
  set (userId := ToString (get_own user "id")).
  match goal with |- context [in_store (catch (getUserProfile env userId) (fun _ => ret ?x))] =>
    destruct (in_store_catch (getUserProfile env userId) x eng)
      as (profile & w1 & E1) end.
  unfold bind at 1. rewrite E1.
  match goal with |- context [createPlan svc topic profile] =>
    destruct (in_store_createPlan topic profile
                {| sessions := sessions eng; world := w1 |})
      as (steps & w2 & E2 & Hsteps) end.
  unfold bind at 1. rewrite E2. cbn [sessions world] in *.
  rewrite Hplan in Hsteps. injection Hsteps as <-.
  unfold bind at 1, gets at 1. cbn [sessions world].
  destruct (in_store_catch (generatePersonalizationInsights svc userId) []
              {| sessions := sessions eng; world := w2 |}) as (pers & w3 & E3).
  unfold bind at 1. rewrite E3. cbn [sessions world].
  destruct (in_store_catch (generateEnhancedContext svc userId) (JObj [])
              {| sessions := sessions eng; world := w3 |}) as (ec & w4 & E4).
  unfold bind at 1. rewrite E4. cbn [sessions world].
  destruct (in_store_catch (summarizeContext svc userId) (JStr EmptyString)
              {| sessions := sessions eng; world := w4 |}) as (cs & w5 & E5).
  unfold bind at 1. rewrite E5. cbn [sessions world].
  unfold bind at 1, in_store at 1. cbn [sessions world].
  unfold generateContentForStep, bind at 1, lift at 1. cbn.
  eexists _, _. split; reflexivity.
Qed.

End StartProperties.

Lemma createPlan_offline (topic profile : JSValue) :
  fst (createPlan offline topic profile tt) = Ok fallback_plan.
Proof. reflexivity. Qed.

Lemma startSession_opens_session_witness :
  exists p eng',
    startSession offline (clock_at 1700000000000) (JObj [("id", JStr "u1")])
      (JObj [("topic", JStr "orbits")]) (engine_with session_a) = (Ok p, eng') /\
    get_own p "done" = JBool false.
Proof.
  destruct (startSession_opens_session offline (clock_at 1700000000000)
              (JObj [("id", JStr "u1")]) (JObj [("topic", JStr "orbits")])
              (engine_with session_a) eq_refl offline_yields_blocks)
    as (p & eng' & st & w & b & turns & H & Hrest).
  - intros topic profile [] steps H. rewrite createPlan_offline in H.
    injection H as <-. split; [discriminate|].
    repeat constructor.
  - exists p, eng'. split; [exact H|]. apply Hrest.
Defined.

Lemma createPlan_answering_empty (topic profile : JSValue) (w : unit) :
  fst (createPlan (answering "[]") topic profile w) = Ok [].
Proof. reflexivity. Qed.

Lemma startSession_empty_plan_witness :
  exists x eng',
    startSession (answering "[]") (clock_at 0) (JObj [("id", JStr "u1")]) JNull
      (engine_with session_a) = (Throw (TypeError x), eng') /\
    sessions eng' = sessions (engine_with session_a).
Proof.
  apply (startSession_empty_plan (answering "[]") (clock_at 0)
           (JObj [("id", JStr "u1")]) JNull (engine_with session_a) eq_refl).
  apply createPlan_answering_empty.
Defined.

(** ** The lesson cache *)

Lemma map_get_set_eq {V} (m : list (string * V)) (k : string) (v : V) :
  map_get (map_set k v m) k = Some v.
Proof.
  induction m as [|[k' v'] m IH]; simpl.
  - by rewrite String.eqb_refl.
  - destruct (String.eqb k' k) eqn:E; simpl; rewrite E; [reflexivity|exact IH].
Qed.

Lemma map_get_set_ne {V} (m : list (string * V)) (k k' : string) (v : V) :
  k' <> k -> map_get (map_set k v m) k' = map_get m k'.
Proof.
  intros Hne. induction m as [|[k0 v0] m IH]; simpl.
  - destruct (String.eqb_spec k k'); [congruence|reflexivity].
  - destruct (String.eqb_spec k0 k) as [->|_]; simpl.
    + destruct (String.eqb_spec k k'); [congruence|reflexivity].
    + by rewrite IH.
Qed.

Lemma map_set_keys {V} (m : list (string * V)) (k : string) (v : V) :
  (k ∈@{list string} map fst m -> map fst (map_set k v m) = map fst m) /\
  (k ∉@{list string} map fst m ->
   map fst (map_set k v m) = (map fst m ++ [k])%list).
Proof.
  induction m as [|[k0 v0] m [IH1 IH2]]; simpl.
  - split; [intros H; by apply elem_of_nil in H|reflexivity].
  - destruct (String.eqb_spec k0 k) as [->|Hne]; simpl.
    + split; [reflexivity|]. intros H. exfalso. apply H. left.
    + split.
      * intros H. apply elem_of_cons in H as [->|H]; [contradiction|].
        by rewrite IH1.
      * intros H. rewrite IH2; [reflexivity|]. intros Hin. apply H. by right.
Qed.

Lemma map_set_length {V} (m : list (string * V)) (k : string) (v : V) :
  (length (map_set k v m) <= S (length m))%nat.
Proof.
  induction m as [|[k0 v0] m IH]; simpl; [lia|].
  destruct (String.eqb k0 k); simpl; lia.
Qed.

Lemma map_set_NoDup {V} (m : list (string * V)) (k : string) (v : V) :
  NoDup (map fst m) -> NoDup (map fst (map_set k v m)).
Proof.
  intros H. destruct (map_set_keys m k v) as [H1 H2].
  destruct (decide (k ∈@{list string} map fst m)) as [Hin|Hnin].
  - by rewrite H1.
  - rewrite H2 by done.
    apply NoDup_app. split; [exact H|]. split; [|apply NoDup_singleton].
    intros x Hx Hx'. apply list_elem_of_singleton in Hx' as ->. contradiction.
Qed.

Lemma map_get_absent {V} (m : list (string * V)) (k : string) :
  k ∉@{list string} map fst m -> map_get m k = None.
Proof.
  induction m as [|[k1 v1] m IH]; [reflexivity|]. cbn [map fst map_get].
  intros Hk. destruct (String.eqb_spec k1 k) as [->|_].
  - exfalso. apply Hk. left.
  - apply IH. intros Hin. apply Hk. by right.
Qed.

Lemma map_delete_keys {V} (m : list (string * V)) (k : string) :
  NoDup (map fst m) ->
  NoDup (map fst (map_delete k m)) /\
  (forall k', k' <> k -> map_get (map_delete k m) k' = map_get m k') /\
  map_get (map_delete k m) k = None /\
  (forall k', k' ∈@{list string} map fst (map_delete k m) ->
     k' ∈@{list string} map fst m).
Proof.
  induction m as [|[k0 v0] m IH]; cbn [map fst map_delete map_get]; intros Hnd.
  - repeat split; try done.
  - apply NoDup_cons in Hnd as [Hk0 Hnd].
    destruct (IH Hnd) as (I1 & I2 & I3 & I4).
    destruct (String.eqb_spec k0 k) as [->|Hne].
    + repeat split.
      * exact Hnd.
      * intros k' Hk'. destruct (String.eqb_spec k k'); [congruence|reflexivity].
      * by apply map_get_absent.
      * intros k' Hk'. by right.
    + cbn [map fst map_get]. repeat split.
      * apply NoDup_cons. split; [|exact I1]. intros Hin. apply Hk0. by apply I4.
      * intros k' Hk'. destruct (String.eqb k0 k'); [reflexivity|by apply I2].
      * destruct (String.eqb_spec k0 k); [contradiction|exact I3].
      * intros k' Hk'. apply elem_of_cons in Hk' as [->|Hk']; [left|].
        right. by apply I4.
Qed.

(** X15. The size bound of the cache is an invariant of
    [cacheGeneratedLesson], whether it succeeds or throws; a successful
    call adds at most one entry. *)
Theorem cache_stays_bounded (now : Z) (userId lesson : JSValue)
    (cache : LessonCache) :
  cache_ok cache ->
  cache_ok (snd (cacheGeneratedLesson now userId lesson cache)) /\
  (length (snd (cacheGeneratedLesson now userId lesson cache))
     <= S (length cache))%nat.
Proof.
  intros [Hnd Hlen]. unfold cacheGeneratedLesson, cache_ok, maxCacheSize in *.
  destruct (Nat.leb_spec 100 (length cache)) as [Hfull|Hroom].
  - destruct cache as [|[k0 e0] rest]; [simpl in Hfull; lia|].
    cbn [map_delete]. rewrite String.eqb_refl.
    assert (Hnd' : NoDup (map fst rest)) by (by apply NoDup_cons in Hnd as [_ ?]).
    simpl in Hlen.
    destruct (get lesson "mission_id") as [id|e]; cbn [snd].
    + pose proof (map_set_length rest (cacheKey userId id)
                    {| cached_lesson := lesson; timestamp := now |}).
      split; [split; [by apply map_set_NoDup|lia]|simpl; lia].
    + split; [split; [exact Hnd'|lia]|simpl; lia].
  - destruct (get lesson "mission_id") as [id|e]; cbn [snd].
    + pose proof (map_set_length cache (cacheKey userId id)
                    {| cached_lesson := lesson; timestamp := now |}).
      split; [split; [by apply map_set_NoDup|lia]|lia].
    + split; [split; [exact Hnd|lia]|lia].
Qed.

Lemma cache_stays_bounded_witness :
  cache_ok (snd (cacheGeneratedLesson 5 (JStr "u1")
                   (JObj [("mission_id", JStr "m1")]) [])).
Proof.
  apply (cache_stays_bounded 5 (JStr "u1") (JObj [("mission_id", JStr "m1")]) []).
  split; [constructor|unfold maxCacheSize; simpl; lia].
Defined.

(** X16. A lesson that was cached is found again under the id of its mission
    for thirty minutes, and no longer afterwards: the entry stays in the
    cache, but [getCachedLesson] answers [null]. *)
Theorem cached_lesson_round_trip (t t' : Z) (userId lesson : JSValue)
    (cache cache' : LessonCache) :
  cacheGeneratedLesson t userId lesson cache = (Ok tt, cache') ->
  getCachedLesson t' userId (get_own lesson "mission_id") cache' =
    (if t' - t <? 1800000 then lesson else JNull) /\
  map_get cache' (cacheKey userId (get_own lesson "mission_id")) =
    Some {| cached_lesson := lesson; timestamp := t |}.
Proof.
  unfold cacheGeneratedLesson, getCachedLesson.
  unfold get. destruct (nullish lesson); [discriminate|]. cbv beta iota.
  intros [= <-]. rewrite map_get_set_eq. by split.
Qed.

Lemma cached_lesson_round_trip_witness :
  getCachedLesson 1799999 (JStr "u1") (JStr "m1")
    [("u1_m1", {| cached_lesson := JObj [("mission_id", JStr "m1")];
                  timestamp := 0 |})]
    = JObj [("mission_id", JStr "m1")].
Proof.
  exact (proj1 (cached_lesson_round_trip 0 1799999 (JStr "u1")
                  (JObj [("mission_id", JStr "m1")]) [] _ eq_refl)).
Defined.

(** X17. When the cache is full, [cacheGeneratedLesson] first drops the entry
    that was inserted first, whatever was read since, and also when the
    key being cached is present already, in which case the cache shrinks;
    every other entry is kept. *)
Theorem full_cache_drops_oldest (now : Z) (userId lesson : JSValue)
    (k0 : string) (e0 : CacheEntry) (rest cache' : LessonCache) :
  cache_ok ((k0, e0) :: rest) ->
  length ((k0, e0) :: rest) = maxCacheSize ->
  cacheGeneratedLesson now userId lesson ((k0, e0) :: rest) = (Ok tt, cache') ->
  let key := cacheKey userId (get_own lesson "mission_id") in
  (key <> k0 -> map_get cache' k0 = None) /\
  (forall k, k <> k0 -> k <> key -> map_get cache' k = map_get rest k) /\
  (key ∈@{list string} map fst rest -> length cache' = (maxCacheSize - 1)%nat) /\
  (key ∉@{list string} map fst rest -> cache' = (rest ++ [(key, {| cached_lesson := lesson;
                                                     timestamp := now |})])%list).
Proof.
  intros [Hnd _] Hlen. unfold cacheGeneratedLesson. rewrite Hlen, Nat.leb_refl.
  cbn [map_delete]. rewrite String.eqb_refl.
  unfold get. destruct (nullish lesson); [discriminate|]. cbv beta iota.
  intros [= <-]. set (key := cacheKey userId (get_own lesson "mission_id")).
  apply NoDup_cons in Hnd as [Hk0 Hnd].
  assert (Hget0 : map_get rest k0 = None) by (by apply map_get_absent).
  assert (Hsame : forall (v : CacheEntry) (m : LessonCache),
            key ∈@{list string} map fst m -> length (map_set key v m) = length m).
  { intros v m. induction m as [|[k1 v1] m IH]; cbn [map fst map_set length].
    - intros Hin. by apply elem_of_nil in Hin.
    - intros Hin. destruct (String.eqb_spec k1 key) as [->|Hne]; [reflexivity|].
      cbn [length]. f_equal. apply IH.
      apply elem_of_cons in Hin as [E|Hin]; [congruence|exact Hin]. }
  assert (Hnew : forall (v : CacheEntry) (m : LessonCache),
            key ∉@{list string} map fst m -> map_set key v m = (m ++ [(key, v)])%list).
  { intros v m. induction m as [|[k1 v1] m IH]; cbn [map fst map_set app];
      [reflexivity|].
    intros Hin. destruct (String.eqb_spec k1 key) as [->|Hne].
    - exfalso. apply Hin. left.
    - f_equal. apply IH. intros H. apply Hin. by right. }
  repeat split.
  - intros Hne. rewrite map_get_set_ne by congruence. exact Hget0.
  - intros k _ Hk. by rewrite map_get_set_ne.
  - intros Hin. rewrite Hsame by exact Hin. simpl in Hlen. lia.
  - intros Hnin. by apply Hnew.
Qed.

Lemma full_cache_drops_oldest_witness :
  map_get (snd (cacheGeneratedLesson 7 (JStr "u")
                  (JObj [("mission_id", JStr "new")]) full_cache)) "u_0" = None.
Proof.
  assert (Hok : cache_ok (("u_0", {| cached_lesson := JNull; timestamp := 0 |})
                          :: tl full_cache)).
  { split; [apply (bool_decide_unpack _); vm_compute; exact I|].
    vm_compute. apply le_n. }
  destruct (full_cache_drops_oldest 7 (JStr "u") (JObj [("mission_id", JStr "new")])
              "u_0" {| cached_lesson := JNull; timestamp := 0 |} (tl full_cache)
              _ Hok eq_refl eq_refl) as [H _].
  apply H. vm_compute. discriminate.
Defined.

(** ** Assessment checkpoints *)

Lemma checkpoints_never_end (fuel : nat) :
  forall i blocks, (i < length blocks)%nat -> checkpoints_from fuel 1 i blocks = None.
Proof.
  induction fuel as [|fuel IH]; intros i blocks Hi; [reflexivity|].
  cbn [checkpoints_from].
  destruct (Nat.ltb_spec i (length blocks)); [|lia].
  apply IH. unfold splice_at.
  rewrite length_app, length_firstn. cbn [length]. rewrite length_skipn. lia.
Qed.

(** X18. On a lesson of two or three blocks [addAssessmentCheckpoints] does not
    return: the interval is 1, every insertion lengthens the list as much
    as the index advances, and the loop condition holds for ever. A lesson
    of no block or of one block is returned as it is. *)
Theorem addAssessmentCheckpoints_short_lessons (blocks : list JSValue) :
  (length blocks < 4)%nat ->
  forall fuel,
    addAssessmentCheckpoints (S fuel) blocks =
      if (length blocks <=? 1)%nat then Some blocks else None.
Proof.
  intros Hlen fuel. unfold addAssessmentCheckpoints.
  destruct blocks as [|b0 [|b1 [|b2 [|b3 blocks]]]]; try reflexivity.
  - change ((length [b0; b1] + 2) / 3)%nat with 1%nat.
    apply checkpoints_never_end. simpl. lia.
  - change ((length [b0; b1; b2] + 2) / 3)%nat with 1%nat.
    apply checkpoints_never_end. simpl. lia.
  - simpl in Hlen. lia.
Qed.

Lemma addAssessmentCheckpoints_short_lessons_witness :
  addAssessmentCheckpoints 1000
    [narration_block "s1"; narration_block "s2"] = None.
Proof.
  apply (addAssessmentCheckpoints_short_lessons
           [narration_block "s1"; narration_block "s2"]).
  simpl. lia.
Defined.

Lemma interleaved_nil (fuel k i : nat) : interleaved fuel k i [] = [].
Proof. by destruct fuel. Qed.

Lemma interleaved_fuel (k : nat) :
  (2 <= k)%nat ->
  forall fuel fuel' i rest,
    (length rest <= fuel)%nat -> (length rest <= fuel')%nat ->
    interleaved fuel k i rest = interleaved fuel' k i rest.
Proof.
  intros Hk. induction fuel as [|fuel IH]; intros fuel' i rest H H'.
  - destruct rest; [by rewrite !interleaved_nil|simpl in H; lia].
  - destruct rest as [|x rest]; [by rewrite !interleaved_nil|].
    destruct fuel' as [|fuel']; [simpl in H'; lia|].
    cbn [interleaved]. f_equal. f_equal.
    apply IH; rewrite length_skipn; simpl in *; lia.
Qed.

Lemma splice_at_end (done rest : list JSValue) (x : JSValue) :
  splice_at (length done) x (done ++ rest)%list = (done ++ x :: rest)%list.
Proof.
  unfold splice_at.
  rewrite firstn_app, Nat.sub_diag, firstn_all, skipn_app, Nat.sub_diag,
    skipn_all. cbn [firstn skipn]. by rewrite app_nil_r.
Qed.

(** The loop of [addAssessmentCheckpoints] for an interval of at least 2:
    it ends, and the list it leaves is described by [interleaved]. *)
Lemma checkpoints_from_spec (k : nat) :
  (2 <= k)%nat ->
  forall fuel rest done,
    (length rest < fuel)%nat ->
    checkpoints_from fuel k (length done) (done ++ rest)%list =
      Some (done ++ interleaved (length rest) k (length done) rest)%list.
Proof.
  intros Hk. induction fuel as [|fuel IH]; intros rest done Hf; [lia|].
  cbn [checkpoints_from]. rewrite length_app.
  destruct rest as [|x rest].
  - destruct (Nat.ltb_spec (length done) (length done + length (@nil JSValue)));
      [simpl in *; lia|reflexivity].
  - destruct (Nat.ltb_spec (length done) (length done + length (x :: rest)));
      [|simpl in *; lia].
    rewrite splice_at_end.
    set (cp := assessment_checkpoint (length done)).
    cbn [interleaved length]. fold cp.
    destruct (Nat.le_gt_cases (k - 1) (length (x :: rest))) as [Hlong|Hshort].
    + pose proof (IH (skipn (k - 1) (x :: rest))
                    (done ++ cp :: firstn (k - 1) (x :: rest))%list) as IH'.
      rewrite length_app in IH'. cbn [length] in IH'.
      rewrite length_firstn, length_skipn in IH'.
      replace (length done + S (Init.Nat.min (k - 1) (length (x :: rest))))%nat
        with (length done + k)%nat in IH' by lia.
      rewrite <- app_assoc in IH'. cbn [app] in IH'.
      rewrite firstn_skipn in IH'. rewrite IH' by (simpl in *; lia).
      f_equal. rewrite <- app_assoc. cbn [app]. do 3 f_equal.
      apply interleaved_fuel; [exact Hk| |]; rewrite ?length_skipn; simpl in *; lia.
    + destruct fuel as [|fuel]; [simpl in Hf; lia|].
      cbn [checkpoints_from].
      rewrite length_app. cbn [length].
      destruct (Nat.ltb_spec (length done + k) (length done + S (S (length rest))));
        [simpl in *; lia|].
      rewrite firstn_all2 by lia. rewrite skipn_all2 by lia.
      by rewrite interleaved_nil, app_nil_r.
Qed.

Lemma interleaved_sublist (k : nat) :
  (2 <= k)%nat ->
  forall fuel i rest,
    (length rest <= fuel)%nat -> sublist rest (interleaved fuel k i rest).
Proof.
  intros Hk. induction fuel as [|fuel IH]; intros i rest H.
  - destruct rest; [constructor|simpl in H; lia].
  - destruct rest as [|x rest]; [constructor|].
    cbn [interleaved]. apply sublist_cons.
    rewrite <- (firstn_skipn (k - 1) (x :: rest)) at 1.
    apply sublist_app; [reflexivity|].
    apply IH. rewrite length_skipn. simpl in *. lia.
Qed.

Lemma interleaved_at (k : nat) :
  (2 <= k)%nat ->
  forall fuel i rest m,
    (m * k < length (interleaved fuel k i rest))%nat ->
    interleaved fuel k i rest !! (m * k)%nat =
      Some (assessment_checkpoint (i + m * k)).
Proof.
  intros Hk. induction fuel as [|fuel IH]; intros i rest m Hm.
  - simpl in Hm. lia.
  - destruct rest as [|x rest]; [simpl in Hm; lia|].
    cbn [interleaved] in *.
    destruct m as [|m]; [cbn; by rewrite Nat.add_0_r|].
    cbn [length] in Hm. rewrite length_app, length_firstn in Hm.
    replace (S m * k)%nat with (S ((k - 1) + m * k))%nat in * by lia.
    rewrite lookup_cons.
    destruct (Nat.le_gt_cases (k - 1) (length (x :: rest))) as [Hlong|Hshort].
    + rewrite lookup_app_r by (rewrite length_firstn; lia).
      rewrite length_firstn.
      replace (k - 1 + m * k - Init.Nat.min (k - 1) (length (x :: rest)))%nat
        with (m * k)%nat by lia.
      rewrite IH by lia. do 2 f_equal. lia.
    + exfalso. rewrite skipn_all2 in Hm by lia.
      rewrite interleaved_nil in Hm. simpl in Hm. lia.
Qed.

Lemma interleaved_length (k : nat) :
  (2 <= k)%nat ->
  forall fuel i rest,
    (length rest <= fuel)%nat ->
    (length rest <= length (interleaved fuel k i rest))%nat /\
    (forall j, (length rest <= j * (k - 1))%nat ->
       (length (interleaved fuel k i rest) <= length rest + j)%nat) /\
    (forall j, (j * (k - 1) < length rest)%nat ->
       (length rest + j < length (interleaved fuel k i rest))%nat).
Proof.
  intros Hk. induction fuel as [|fuel IH]; intros i rest H.
  - destruct rest; [|simpl in H; lia]. cbn [interleaved length].
    repeat split; intros; nia.
  - destruct rest as [|x rest];
      [cbn [interleaved length]; repeat split; intros; nia|].
    cbn [interleaved length]. rewrite length_app, length_firstn.
    destruct (IH (i + k)%nat (skipn (k - 1) (x :: rest)))
      as (I1 & I2 & I3); [rewrite length_skipn; simpl in *; lia|].
    rewrite length_skipn in I1, I2, I3. cbn [length] in *.
    repeat split.
    + lia.
    + intros j Hj. destruct j as [|j]; [lia|].
      specialize (I2 j ltac:(nia)). lia.
    + intros j Hj. destruct j as [|j]; [lia|].
      destruct (Nat.le_gt_cases (S (length rest)) (k - 1)); [nia|].
      specialize (I3 j ltac:(nia)). lia.
Qed.

(** X19. On a lesson of four blocks or more [addAssessmentCheckpoints] returns.
    Its result keeps the blocks of the lesson in their order, starts with
    the first [interval] of them, and has a checkpoint at every index that
    is a positive multiple of the interval, which is a third of the number
    of blocks, rounded up. Between two and four checkpoints are added. *)
Theorem addAssessmentCheckpoints_places_checkpoints (blocks : list JSValue) :
  (4 <= length blocks)%nat ->
  let interval := ((length blocks + 2) / 3)%nat in
  exists result,
    (forall fuel, (length blocks < fuel)%nat ->
       addAssessmentCheckpoints fuel blocks = Some result) /\
    sublist blocks result /\
    firstn interval result = firstn interval blocks /\
    (forall m, (1 <= m)%nat -> (m * interval < length result)%nat ->
       result !! (m * interval)%nat =
         Some (assessment_checkpoint (m * interval))) /\
    (length blocks + 2 <= length result <= length blocks + 4)%nat.
Proof.
  intros Hlen interval.
  assert (Hk : (2 <= interval /\ 3 * (interval - 1) < length blocks
                /\ length blocks <= 3 * interval)%nat).
  { unfold interval.
    pose proof (Nat.div_mod_eq (length blocks + 2) 3).
    pose proof (Nat.mod_upper_bound (length blocks + 2) 3). lia. }
  destruct Hk as (Hk & Hlo & Hhi).
  set (done := firstn interval blocks).
  set (rest := skipn interval blocks).
  assert (Hdone : length done = interval).
  { unfold done. rewrite length_firstn. lia. }
  assert (Hrest : length rest = (length blocks - interval)%nat).
  { unfold rest. by rewrite length_skipn. }
  exists (done ++ interleaved (length rest) interval interval rest)%list.
  split; [|split; [|split; [|split]]].
  - intros fuel Hf. unfold addAssessmentCheckpoints. fold interval.
    rewrite <- (firstn_skipn interval blocks) at 1. fold done rest.
    rewrite <- Hdone at 2 3. rewrite checkpoints_from_spec by lia.
    by rewrite Hdone.
  - rewrite <- (firstn_skipn interval blocks) at 1. fold done rest.
    apply sublist_app; [reflexivity|]. by apply interleaved_sublist.
  - rewrite firstn_app, Hdone, Nat.sub_diag. cbn [firstn].
    rewrite app_nil_r. rewrite firstn_all2 by lia. reflexivity.
  - intros m Hm Hlt. rewrite length_app, Hdone in Hlt.
    rewrite lookup_app_r by (rewrite Hdone; nia).
    rewrite Hdone. destruct m as [|m]; [lia|].
    replace (S m * interval - interval)%nat with (m * interval)%nat by lia.
    rewrite interleaved_at by (try exact Hk; lia). reflexivity.
  - rewrite length_app, Hdone.
    destruct (interleaved_length interval Hk (length rest) interval rest (le_n _))
      as (_ & Hup & Hdown).
    split.
    + specialize (Hdown 1%nat ltac:(lia)). lia.
    + destruct (Nat.eq_dec interval 2) as [E2|NE2].
      * specialize (Hup 4%nat ltac:(lia)). lia.
      * specialize (Hup 3%nat ltac:(lia)). lia.
Qed.

Lemma addAssessmentCheckpoints_places_checkpoints_witness :
  exists result,
    addAssessmentCheckpoints 5
      [narration_block "s1"; narration_block "s2";
       narration_block "s3"; narration_block "s4"] = Some result /\
    length result = 6%nat.
Proof.
  destruct (addAssessmentCheckpoints_places_checkpoints
              [narration_block "s1"; narration_block "s2";
               narration_block "s3"; narration_block "s4"] (le_n 4))
    as (result & Hrun & _).
  exists result. split; [apply Hrun; simpl; lia|].
  specialize (Hrun 5%nat ltac:(simpl; lia)).
  vm_compute in Hrun. injection Hrun as <-. reflexivity.
Defined.

(** ** The structure of a generated lesson *)

Lemma fallback_totalBlocks_range (d : Z) :
  (6 <= fallback_totalBlocks d <= 12)%nat.
Proof. unfold fallback_totalBlocks. lia. Qed.

Lemma NoDup_map_JStr (l : list string) : NoDup l -> NoDup (map JStr l).
Proof.
  induction 1 as [|x l Hx Hl IH]; [constructor|].
  cbn [map]. constructor; [|exact IH].
  intros Hin. apply Hx. apply list_elem_of_In in Hin.
  apply in_map_iff in Hin as (y & [= ->] & Hy). by apply list_elem_of_In.
Qed.

Lemma fallback_ids_distinct (params : StructureParams) (d : number) (total n : nat) :
  (n <= 12)%nat ->
  NoDup (map (fun b => get_own b "block_id")
           (map (fallback_structure_block params d total) (seq 0 n))).
Proof.
  intros Hn. rewrite map_map.
  rewrite (map_ext _
    (fun i => JStr ((if ((i + 1) mod 3 =? 0)%nat then "choice" else "block")
                    ++ "_" ++ string_of_nat (i + 1)))) by reflexivity.
  rewrite <- (map_map
    (fun i => ((if ((i + 1) mod 3 =? 0)%nat then "choice" else "block")
               ++ "_" ++ string_of_nat (i + 1))) JStr).
  apply NoDup_map_JStr.
  do 13 (destruct n as [|n]; [apply (bool_decide_unpack _); vm_compute; exact I|]).
  lia.
Qed.

Section StructureProperties.
Context {World : Type} (svc : Services World).
Context (structurePrompt : StructureParams -> Res string) (clock : World -> Z).


End StructureProperties.


(** ** The planner pipeline of the orchestrator *)

Lemma total_minutes_total (steps : list JSValue) :
  Forall (fun s => nullish s = false) steps ->
  forall sum, exists n, total_minutes steps sum = Ok n.
Proof.
  induction 1 as [|s steps Hs _ IH]; intros sum; [by eexists|].
  cbn [total_minutes]. rewrite (get_not_nullish _ _ Hs). cbn [res_bind]. apply IH.
Qed.

Lemma structure_of_steps (steps : list JSValue) :
  Forall (fun s => nullish s = false) steps ->
  exists bs, map_res structure_of_step steps = Ok bs /\
    map (fun b => get_own b "block_id") bs = map (fun s => get_own s "id") steps.
Proof.
  induction 1 as [|s steps Hs _ (bs & IH1 & IH2)]; [by exists []|].
  cbn [map_res]. unfold structure_of_step at 1.
  rewrite !(get_not_nullish _ _ Hs). cbn [res_bind]. rewrite IH1. cbn [res_bind].
  eexists. split; [reflexivity|]. cbn [map]. by rewrite IH2.
Qed.

Section OrchestratorProperties.
Context {World : Type} (svc : Services World) (env : Surroundings World).
Context (insightsFor : JSValue -> JSValue -> SE World JSValue).
Context (isoTime : World -> string).

Lemma generate_slides_total (topic fullProfile learningAnalysis : JSValue)
    (steps : list JSValue) :
  Forall (fun s => nullish s = false) steps ->
  forall blocks w, exists bs w',
    generate_slides svc topic fullProfile learningAnalysis steps blocks w =
      (Ok (blocks ++ bs)%list, w') /\
    Forall2 (fun s b => exists ctx w0,
               fst (generateContentForStep svc s ctx w0) = Ok b) steps bs.
Proof.
  induction 1 as [|s steps Hs _ IH]; intros blocks w.
  - exists [], w. rewrite app_nil_r. by split.
  - cbn [generate_slides]. unfold bind at 1.
    match goal with |- context [generateContentForStep svc s ?gc w] =>
      destruct (generateContentForStep_total svc s gc w Hs) as (b & w1 & Hb);
      rewrite Hb;
      assert (Hgen : exists ctx w0, fst (generateContentForStep svc s ctx w0) = Ok b)
        by (exists gc, w; by rewrite Hb)
    end.
    destruct (IH (blocks ++ [b])%list w1) as (bs & w' & Hrun & Hall).
    exists (b :: bs), w'. rewrite Hrun, <- app_assoc. split; [reflexivity|].
    by constructor.
Qed.

(** X21. The pipeline produces one slide per step of the plan, in the order of
    the plan: for a request with a user and a request context, insights
    that arrive, and plans made of steps, it returns a lesson whose blocks
    are generated from the steps one by one, whose [total_blocks] is the
    number of steps, and whose [block_structure] lists the ids of the
    steps. *)
Theorem pipeline_one_slide_per_step (context : JSValue) (w : World) :
  nullish context = false ->
  nullish (get_own context "user") = false ->
  nullish (get_own context "context") = false ->
  (forall u c w0, exists v w1,
     insightsFor u c w0 = (Ok v, w1) /\ nullish v = false) ->
  (forall topic profile w0 steps,
     fst (createPlan svc topic profile w0) = Ok steps ->
     Forall (fun s => nullish s = false) steps) ->
  exists result w' steps blocks structure,
    handleDynamicLessonGeneration svc env insightsFor isoTime context w
      = (Ok result, w') /\
    (exists topic profile w0, fst (createPlan svc topic profile w0) = Ok steps) /\
    get_own result "type" = JStr "dynamic_lesson_generation" /\
    get_own (get_own result "lesson") "blocks" = JArr blocks /\
    Forall2 (fun s b => exists ctx w0,
               fst (generateContentForStep svc s ctx w0) = Ok b) steps blocks /\
    get_own (get_own result "lesson") "total_blocks" = jnat (length steps) /\
    get_own (get_own result "lesson") "block_structure" = JArr structure /\
    map (fun b => get_own b "block_id") structure =
      map (fun s => get_own s "id") steps.
Proof.
  intros Hc Hu Hr Hins Hplan. unfold handleDynamicLessonGeneration.
  unfold bind at 1, lift at 1. rewrite (get_not_nullish _ _ Hc).
  unfold bind at 1, lift at 1. rewrite (get_not_nullish _ _ Hc).
  unfold bind at 1, lift at 1. rewrite (get_not_nullish _ _ Hu).
  unfold bind at 1, lift at 1. rewrite (get_not_nullish _ _ Hr).
  set (topic := or_else _ (JStr "space_exploration")).
  set (userId := get_own (get_own context "user") "id").
  unfold bind at 1.
  match goal with |- context [catch ?m ?h w] =>
    assert (Hprofile : exists profile w1, catch m h w = (Ok profile, w1))
      by (unfold catch, ret; destruct (m w) as [[?|?] ?]; eauto)
  end.
  destruct Hprofile as (profile & w1 & ->).
  unfold bind at 1.
  pose proof (createPlan_cases svc topic profile w1) as Hcases. cbv zeta in Hcases.
  assert (Hsteps : exists steps w2, createPlan svc topic profile w1 = (Ok steps, w2)).
  { destruct (generateResponse svc _ w1) as [[raw|e] w2]; rewrite Hcases.
    - destruct (res_catch _ _); eauto.
    - eauto. }
  destruct Hsteps as (steps & w2 & Hsteps). rewrite Hsteps.
  assert (Hall : Forall (fun s => nullish s = false) steps).
  { apply (Hplan topic profile w1). by rewrite Hsteps. }
  unfold bind at 1.
  match goal with |- context [insightsFor userId ?c w2] =>
    destruct (Hins userId c w2) as (insights & w3 & -> & Hin) end.
  unfold bind at 1, lift at 1. rewrite (get_not_nullish _ _ Hin).
  unfold bind at 1.
  match goal with |- context [generate_slides svc topic profile ?la steps [] w3] =>
    destruct (generate_slides_total topic profile la steps Hall [] w3)
      as (blocks & w4 & -> & Hblocks) end.
  cbn [app].
  unfold bind at 1, gets at 1.
  destruct (total_minutes_total steps Hall (Int 0)) as [minutes Hm].
  unfold bind at 1, lift at 1. rewrite Hm.
  destruct (structure_of_steps steps Hall) as (structure & Hs & Hids).
  unfold bind at 1, lift at 1. rewrite Hs.
  unfold bind at 1, gets at 1, ret.
  eexists _, _, steps, blocks, structure. split; [reflexivity|].
  split; [exists topic, profile, w1; by rewrite Hsteps|].
  cbn [get_own obj_get String.eqb Ascii.eqb Bool.eqb].
  repeat split; try assumption.
  by rewrite (Forall2_length _ _ _ Hblocks).
Qed.

End OrchestratorProperties.

Lemma pipeline_one_slide_per_step_witness :
  exists result blocks,
    fst (handleDynamicLessonGeneration offline (clock_at 0)
           (fun _ _ => ret (JObj [])) (fun _ => "2025-01-01T00:00:00.000Z")
           (JObj [("user", JObj [("id", JStr "u1")]);
                  ("context", JObj [("topic", JStr "orbits")])]) tt)
      = Ok result /\
    get_own (get_own result "lesson") "blocks" = JArr blocks /\
    length blocks = 8%nat.
Proof.
  destruct (pipeline_one_slide_per_step offline (clock_at 0)
              (fun _ _ => ret (JObj [])) (fun _ => "2025-01-01T00:00:00.000Z")
              (JObj [("user", JObj [("id", JStr "u1")]);
                     ("context", JObj [("topic", JStr "orbits")])]) tt
              eq_refl eq_refl eq_refl)
    as (result & w' & steps & blocks & structure & Hrun & (t & p & w0 & Hplan)
        & _ & Hb & Hall & _).
  - intros u c w0. by exists (JObj []), w0.
  - intros topic profile [] steps H. rewrite createPlan_offline in H.
    injection H as <-. repeat constructor.
  - exists result, blocks. rewrite Hrun. split; [reflexivity|]. split; [exact Hb|].
    destruct w0. rewrite createPlan_offline in Hplan. injection Hplan as <-.
    by rewrite <- (Forall2_length _ _ _ Hall).
Defined.

(** ** The Socratic dialogue state *)

Lemma last_n_length (n : nat) (l : list JSValue) :
  length (last_n n l) = Nat.min n (length l).
Proof. unfold last_n. rewrite length_skipn. lia. Qed.

Lemma last_n_snoc (n : nat) (l : list JSValue) (x : JSValue) :
  last_n (S n) (last_n (S n) l ++ [x]) = last_n (S n) (l ++ [x]).
Proof.
  unfold last_n. rewrite !length_app, length_skipn. cbn [length].
  destruct (Nat.le_gt_cases (length l) (S n)) as [Hshort|Hlong].
  - replace (length l - S n)%nat with 0%nat by lia.
    by rewrite drop_0, Nat.sub_0_r.
  - replace (length l - (length l - S n) + 1 - S n)%nat with 1%nat by lia.
    replace (length l + 1 - S n)%nat with (S (length l - S n)) by lia.
    rewrite (skipn_app (S (length l - S n))).
    replace (S (length l - S n) - length l)%nat with 0%nat by lia.
    cbn [skipn].
    rewrite skipn_app, length_skipn.
    replace (1 - (length l - (length l - S n)))%nat with 0%nat by lia.
    cbn [skipn]. f_equal.
    rewrite skipn_skipn. f_equal.
Qed.

Lemma updateSocraticDialogue_step (now later : Z) (userId : string)
    (qs : JSValue) (state : gmap string Dialogue) :
  nullish qs = false ->
  exists entry,
    socratic_entry now qs = Ok entry /\
    snd (updateSocraticDialogue now later userId qs state) =
      <[userId := {|
          sequence :=
            last_n 10
              (sequence (default {| sequence := []; depth := 0; last_update := 0 |}
                                 (state !! userId)) ++ [entry])%list;
          depth :=
            depth (default {| sequence := []; depth := 0; last_update := 0 |}
                           (state !! userId)) + 1;
          last_update := later |}]> state.
Proof.
  intros Hq. unfold updateSocraticDialogue, socratic_entry.
  rewrite (get_not_nullish _ _ Hq). cbn [res_bind snd]. eauto.
Qed.

(** X22. The dialogue state of a user keeps the last ten questions and counts
    them all: after any number of updates with strategies that are
    neither [null] nor [undefined], starting with no state for the user,
    the depth is the number of updates and the sequence is made of the
    entries of the last ten updates, in their order; the states of the
    other users are untouched. *)
Theorem socratic_dialogue_keeps_last_ten (userId : string)
    (updates : list (Z * Z * JSValue)) (state : gmap string Dialogue) :
  state !! userId = None ->
  updates <> [] ->
  Forall (fun u => nullish (snd u) = false) updates ->
  exists d,
    dialogue_after userId updates state !! userId = Some d /\
    depth d = Z.of_nat (length updates) /\
    sequence d = last_n 10 (entries_of updates) /\
    length (sequence d) = Nat.min 10 (length updates) /\
    forall other, other <> userId ->
      dialogue_after userId updates state !! other = state !! other.
Proof.
  intros Hnone Hne Hall.
  set (fresh := {| sequence := []; depth := 0; last_update := 0 |}).
  assert (Hgen : forall (us : list (Z * Z * JSValue)),
    Forall (fun u => nullish (snd u) = false) us ->
    forall (s : gmap string Dialogue) (seq0 : list JSValue) (n : Z),
      sequence (default fresh (s !! userId)) = last_n 10 seq0 ->
      depth (default fresh (s !! userId)) = n ->
      let s' := dialogue_after userId us s in
      sequence (default fresh (s' !! userId)) = last_n 10 (seq0 ++ entries_of us) /\
      depth (default fresh (s' !! userId)) = n + Z.of_nat (length us) /\
      (us <> [] -> is_Some (s' !! userId)) /\
      forall other, other <> userId -> s' !! other = s !! other).
  { induction 1 as [|[[t1 t2] qs] us Hq _ IH]; intros s seq0 n Hseq Hdepth.
    - cbn. rewrite app_nil_r. repeat split; try done. lia.
    - cbn [snd] in Hq.
      destruct (updateSocraticDialogue_step t1 t2 userId qs s Hq)
        as (entry & Hentry & Hstep).
      fold fresh in Hstep.
      set (cur := default fresh (s !! userId)) in *.
      assert (Hent : entries_of ((t1, t2, qs) :: us) = entry :: entries_of us).
      { unfold entries_of at 1. cbn [map fst snd]. by rewrite Hentry. }
      assert (Hrun : dialogue_after userId ((t1, t2, qs) :: us) s =
                     dialogue_after userId us
                       (snd (updateSocraticDialogue t1 t2 userId qs s)))
        by reflexivity.
      cbv zeta. rewrite Hrun, Hstep, Hent.
      match goal with |- context [<[userId := ?d]> s] => set (d1 := d) end.
      destruct (IH (<[userId := d1]> s) (seq0 ++ [entry])%list (n + 1))
        as (I1 & I2 & _ & I4).
      + rewrite lookup_insert_eq.
        change (default fresh (Some d1)) with d1. unfold d1. cbn [sequence].
        rewrite Hseq. apply last_n_snoc.
      + rewrite lookup_insert_eq.
        change (default fresh (Some d1)) with d1. unfold d1. cbn [depth]. lia.
      + repeat split.
        * rewrite I1, <- app_assoc. reflexivity.
        * rewrite I2. cbn [length]. lia.
        * intros _. destruct us as [|u' us'].
          -- cbn. rewrite lookup_insert_eq. eauto.
          -- destruct (dialogue_after userId (u' :: us') _ !! userId) eqn:E; [eauto|].
             exfalso.
             destruct (IH (<[userId := d1]> s) (seq0 ++ [entry])%list (n + 1))
               as (_ & _ & I3 & _).
             ++ rewrite lookup_insert_eq.
                change (default fresh (Some d1)) with d1. unfold d1. cbn [sequence].
                rewrite Hseq. apply last_n_snoc.
             ++ rewrite lookup_insert_eq.
                change (default fresh (Some d1)) with d1. unfold d1. cbn [depth]. lia.
             ++ destruct (I3 ltac:(discriminate)) as [? Hsome]. congruence.
        * intros other Ho. rewrite (I4 other Ho). by apply lookup_insert_ne. }
  destruct (Hgen updates Hall state [] 0) as (G1 & G2 & G3 & G4).
  - rewrite Hnone. reflexivity.
  - rewrite Hnone. reflexivity.
  - destruct (G3 Hne) as [d Hd]. rewrite Hd in G1, G2.
    change (default fresh (Some d)) with d in G1, G2.
    exists d. split; [exact Hd|]. split; [lia|]. split; [exact G1|].
    split; [|exact G4].
    rewrite G1, last_n_length. cbn [app]. unfold entries_of.
    by rewrite length_map.
Qed.

Lemma socratic_dialogue_keeps_last_ten_witness :
  exists d,
    dialogue_after "u1" (repeat (5, 6, JObj []) 12) ∅ !! "u1" = Some d /\
    depth d = 12 /\ length (sequence d) = 10%nat.
Proof.
  destruct (socratic_dialogue_keeps_last_ten "u1" (repeat (5, 6, JObj []) 12) ∅)
    as (d & H1 & H2 & _ & H4 & _).
  - apply lookup_empty.
  - discriminate.
  - repeat constructor.
  - exists d. split; [exact H1|]. split; [exact H2|exact H4].
Defined.

(** ** The configuration helper *)

Lemma split_char_nonempty (sep : ascii) (s : string) : split_char sep s <> [].
Proof.
  destruct s as [|c s]; [discriminate|]. cbn [split_char].
  destruct (Ascii.eqb c sep); [discriminate|].
  destruct (split_char sep s); discriminate.
Qed.

Lemma split_char_no_sep (sep : ascii) (s : string) :
  Forall (fun x => count_char sep x = 0%nat) (split_char sep s).
Proof.
  induction s as [|c s IH]; [by repeat constructor|]. cbn [split_char].
  destruct (Ascii.eqb_spec c sep) as [->|Hne]; [by constructor|].
  destruct (split_char sep s) as [|x xs].
  - repeat constructor. cbn. destruct (Ascii.eqb_spec c sep); [contradiction|done].
  - inversion IH as [|? ? Hx Hxs]; subst. constructor; [|exact Hxs].
    cbn [count_char]. destruct (Ascii.eqb_spec c sep); [contradiction|exact Hx].
Qed.

Lemma split_char_join (sep : ascii) (l : list string) :
  l <> [] -> Forall (fun x => count_char sep x = 0%nat) l ->
  split_char sep (join (str1 sep) l) = l.
Proof.
  intros Hne Hall. induction Hall as [|x l Hx Hl IH]; [contradiction|].
  assert (Hone : forall y rest, count_char sep y = 0%nat ->
            split_char sep (y ++ rest) =
              match split_char sep rest with
              | z :: zs => (y ++ z) :: zs
              | [] => [y]
              end).
  { induction y as [|c y IHy]; intros rest Hy.
    - cbn [String.append]. pose proof (split_char_nonempty sep rest).
      by destruct (split_char sep rest).
    - cbn [String.append split_char]. cbn [count_char] in Hy.
      destruct (Ascii.eqb c sep); [discriminate|].
      rewrite (IHy rest Hy). pose proof (split_char_nonempty sep rest).
      by destruct (split_char sep rest). }
  destruct l as [|y l].
  - cbn [join]. rewrite <- (append_nil_r x) at 1. rewrite (Hone x _ Hx).
    cbn [split_char]. by rewrite append_nil_r.
  - rewrite join_cons by discriminate. rewrite (Hone x _ Hx).
    cbn [str1 String.append split_char]. rewrite Ascii.eqb_refl.
    rewrite IH by discriminate. by rewrite append_nil_r.
Qed.

(** X23. [parseOrigins] returns no origin for a value that is not a string or
    is empty. Every origin it returns is not empty, has no white space at
    either end and holds no comma; and a list of such origins, joined by
    commas, is read back as it is. *)
Theorem parseOrigins_round_trip (envValue : JSValue) (origins : list string) :
  Forall origin_ok origins ->
  Forall origin_ok (parseOrigins envValue) /\
  (typeof envValue <> "string" -> parseOrigins envValue = []) /\
  parseOrigins (JStr EmptyString) = [] /\
  parseOrigins (JStr (join "," origins)) = origins.
Proof.
  intros Hok. split; [|split; [|split]].
  - destruct envValue as [| |b|n|s|items|props]; try constructor.
    unfold parseOrigins. destruct (nonempty s); [|constructor].
    apply Forall_forall. intros o Ho.
    apply list_elem_of_filter in Ho as [Hne Ho].
    apply list_elem_of_In, in_map_iff in Ho as (x & <- & Hx).
    pose proof (split_char_no_sep "," s) as Hsep.
    rewrite Forall_forall in Hsep.
    specialize (Hsep x ltac:(by apply list_elem_of_In)).
    split; [|split].
    + intros E. rewrite E in Hne. discriminate.
    + apply trim_idempotent.
    + by rewrite count_char_trim.
  - by destruct envValue.
  - reflexivity.
  - destruct origins as [|o origins]; [reflexivity|].
    unfold parseOrigins.
    assert (Hj : nonempty (join "," (o :: origins)) = true).
    { inversion Hok as [|? ? (Ho & _) _]; subst.
      destruct origins; cbn [join]; destruct o; try contradiction; reflexivity. }
    rewrite Hj. clear Hj.
    change ","%string with (str1 ",").
    rewrite split_char_join; [|discriminate|].
    + induction Hok as [|x l (Hx1 & Hx2 & Hx3) _ IH]; [reflexivity|].
      cbn [map]. rewrite Hx2. rewrite filter_cons_True.
      * f_equal. exact IH.
      * by destruct x.
    + eapply Forall_impl; [exact Hok|]. by intros x (_ & _ & Hx).
Qed.

Lemma parseOrigins_round_trip_witness :
  parseOrigins (JStr "http://a.example,https://b.example") =
    ["http://a.example"; "https://b.example"].
Proof.
  apply (parseOrigins_round_trip JNull ["http://a.example"; "https://b.example"]).
  repeat constructor; discriminate.
Defined.
